(* ===== verification/_CoqProject ===== *)
-Q . S2P
Prelude.v
KList.v
Sstf.v
CMem.v
SlobBlock.v
SlobPage.v
Slob.v
SlobHeap.v
SlobSpec.v
SlobFront.v
Ramdsk.v
ProdCons.v
Dining.v
Dinners.v
ThreeWay.v
Barber.v
FuzzDesc.v
FuzzSandbox.v
FuzzSpec.v
Fuzzer.v
FuzzBatch.v
RtState.v
RtBandwidth.v
RtQueue.v
SchedCore.v
RtPush.v
RtKeeps.v
RtBalance.v
SchedPolicy.v
SchedTypes.v
RtView.v
RtInv.v
RtEnqueue.v
RtOps.v
RtHandlers.v
RtSpec.v
RtTick.v
RtPreserve.v
RtSteps.v
RtRuntime.v
RtLeave.v
RtHotplug.v
RtDemo.v
SchedQuiet.v
SchedWake.v
SchedMm.v
SchedInv.v
SchedWakeup.v
SchedMachine.v
SchedUrgent.v
SchedStill.v
SchedMigrate.v
SchedDying.v
SchedSyscalls.v
SchedAffinity.v
SchedAsk.v
SchedDemo.v
SchedPlace.v
TgWalk.v
TaskGroup.v
TgAdmit.v
TgMemory.v
TgSteps.v
TgDemo.v
LoadAvg.v
LoadSteps.v
LoadTime.v
LoadNum.v
LoadCpu.v
LoadDecay.v
LoadSettle.v
LoadDemo.v
CpuAcct.v
CpuTime.v
CpuTimeSpec.v
CpuTimeSteps.v
CpuTimeDemo.v
SchedWait.v
SchedComplete.v
