(* ===== verification/Prelude.v ===== *)
(** * A verification library for the cs544 course code

    The repository holds the programs of an operating systems course: modified
    kernel files (src/indwriterups, projects 1 to 4), exercises with threads
    (src/concur) and a fuzzer for system calls (src/544final).  This library
    models them in Gallina, function by function, and proves what makes them
    correct, or shows where they are not.  Each file opens with what it holds.

    ** Parts and files

    - Project 1, the scheduler (sched_rt.c, sched.c).  [RtState] is the state:
      tasks, one run queue per processor, one root domain, the bandwidth;
      [RtBandwidth], [RtQueue] and [RtPush] are the functions of sched_rt.c,
      [SchedCore] and [SchedPolicy] those of sched.c.  The functions call each
      other as in the code: enqueueing a task goes through its class, the class
      of a task decides its handlers ([class_ops] is struct sched_class), the
      handlers of the real-time class borrow runtime and push and pull tasks.
      A processor stands for its run queue.  [RtView] is the equivalence of
      states that agree on what the queue invariant of [RtInv] reads; [RtEnqueue],
      [RtOps] and [RtHandlers] prove what the operations do to the queues,
      [RtSpec] that they implement priority queues, [RtTick] round robin,
      [RtKeeps] and [RtBalance] pushing, [RtPreserve] and [RtSteps] the invariant
      of all reachable states, [RtRuntime], [RtLeave] and [RtHotplug] the
      bandwidth, [SchedTypes] the priorities; [RtDemo] has concrete machines.
      [SchedWake] has wake-ups, context switches and [schedule]; [SchedQuiet] says
      what operations on queues leave alone, [SchedMm] counts borrowed address
      spaces, [SchedInv] is the invariant of the machine of several processors,
      [SchedWakeup] and [SchedMachine] prove it for wake-ups and for all steps,
      [SchedUrgent] says what runs next; [SchedDemo] has concrete runs.
      [TaskGroup] has the task groups: creating, moving and destroying them,
      moving tasks, the requests for bandwidth; [TgWalk] is the walk of the tree
      of groups, [TgAdmit] the test of admission, [TgMemory] the memory and its
      counters, [TgSteps] the invariant of all reachable states, [TgDemo] trees.
      [LoadAvg] has the load averages of the system, [LoadSteps] that they count
      every task once, [LoadTime] and [LoadNum] that they are on time and where they
      settle; [LoadCpu] has weights and the load of one processor, [LoadDecay] and
      [LoadSettle] how it decays and settles; [LoadDemo] has runs.  [CpuAcct] is the
      accounting of groups, [CpuTime] the time a processor accounts, a tick or a
      nanosecond at a time, [CpuTimeSpec] and [CpuTimeSteps] prove that all of it
      is accounted once, [CpuTimeDemo] has runs.
      [SchedWait] and [SchedComplete] are wait queues and completions.
    - Project 2, the SSTF I/O scheduler (sstf-iosched.c): [Sstf], on the kernel
      lists of [KList].
    - Project 3, the encrypted RAM disk (ramdsk.c): [Ramdsk].
    - Project 4, the SLOB allocator (slob.c): [CMem] is byte memory, [SlobBlock]
      the encoding of free blocks, [SlobPage] one page, [Slob] and [SlobHeap]
      pages and lists, [SlobSpec] the theorems on the allocator, [SlobFront]
      kmalloc, caches and the statistics.
    - Exercises: [ProdCons] (concurrent1.c), [Dining] (concurrent2.c), [Dinners]
      and [ThreeWay] (3way.c: the list, then the threads), [Barber]
      (barbershop.c and concurrent5A.c).
    - Fuzzer: [FuzzDesc] (syscall_def), [FuzzSandbox] and [FuzzSpec] (sandbox.c),
      [Fuzzer] and [FuzzBatch] (fuzzer.c).

    ** How the code is modelled

    Integers are [Z] with the wrap-around of their width written out ([u32],
    [s64], ...).  Shared state is passed explicitly.  Code that can fail returns
    an option or a result: a BUG_ON, a fault, an exhausted bound are values.
    Threads are step functions over labels ([lts], [run], [reachable] below): a
    step is one access to shared data, or what is done under one lock.  Where the
    code sleeps or drops a lock, what others do is a parameter of the model or
    the steps of others.  Code that is not in the repository is a class: its
    operations, with its documented behaviour as laws where a theorem needs any
    ([KList], [KernelLib], [RtEnv], [OtherClasses], [PolicyEnv], [WakeEnv],
    [GroupEnv], [LoadEnv], [WeightEnv], [TimeEnv],
    [PageAllocator], [SlobEnv], [BlkCipher], [SyscallNumbers], [FuzzEnv]); every
    class with laws has an instance, and every theorem with hypotheses is applied once to a
    concrete state.

    ** What the theorems show

    - Refinement: [queues_refine], [slob_free_refines], [slob_page_alloc_first_fit],
      [sstf_dispatch_serves], [cancel_dinner_removes]; equivalence with a
      reference: [pick_is_most_urgent], [walk_is_recursion], [request_granted_iff],
      [missed_updates_made_up], [decay_approximates].
    - Invariants of all reachable states: [run_queues_well_formed], [no_wakeup_lost],
      [task_groups_schedulable], [load_changes_accounted], [ticks_accounted_once],
      [cpuacct_charged_once], [balance_conserves], [prodcons_items_conserved], [dining_forks],
      [barber_one_at_a_time], [main_table_ok], [completion_accounts], and the
      typing [priorities_stay_typed].
    - Safety: [schedule_runs_most_urgent], [lazy_mm_counted], [disable_settles],
      [push_target_fits], [client_writes_preserve_heap], [prodcons_exclusion],
      [threeway_safe], [fuzarg_isolated], [task_clock_monotone], [averages_on_time], ...
    - Liveness and termination: [rr_every_task_has_its_turn], [push_rt_tasks_ends],
      [sstf_reaches_pending], [ramdsk_request_serves], [threeway_no_deadlock],
      [completion_no_lost_wakeup], [gen_path_missing], ...
    - Round trips, bounds and errors: [ramdsk_read_back], [kmalloc_kfree_restores],
      [fill_sgl_covers], [reported_times_sane], [realtime_requests_rejected], [completion_results],
      [group_made_whole], ...
    - Defects of the code, as theorems about the code as it is:
      [realtime_requests_rejected], [reset_child_stays_urgent],
      [second_enable_settles_iff], [slob_alloc_takes_new_page],
      [greedy_groups_admitted], [early_failure_cancels_raw],
      [calc_load_settles], [calc_delta_overflows], [guest_time_not_charged],
      [reported_times_exceed], [ramdsk_request_hangs], [dining_can_deadlock], [roundrobbin_never_returns], ...

    ** Bounds

    Recursion over kernel lists and arrays is structural on the list or on its
    length; a page scan has [page_fuel] = 2049 steps, one more than the blocks a
    page can have; the search of a priority has one step per priority; pushing
    takes as many passes as there are pushable tasks ([push_rt_tasks_ends]); the
    path of a missing file needs at most 1150 rounds ([gen_path_missing]); a
    request to change a policy is checked again only when the policy was to be
    kept and has changed in between; the aging of a processor's real-time time is
    given its number of rounds ([sched_avg_update_ages]); a
    walk to the ancestors of a group takes fewer steps than there are groups
    ([cpuacct_charged_once]).  In the machine of [SchedMachine] a step takes any bound on the passes of [schedule], on waiting for a processor and on
    the tries of an exchange: what is stated holds for whichever is enough, and a
    step that is not over yet is no step.  A bound that is exhausted is a value of
    its own, and the theorems say when it cannot be.

    ** Not modelled

    In sched.c: tracing and statistics, the fair class
    and its groups' shares, automatic groups, scheduling domains, sysctl tables,
    the glue of cgroups, the end of a dead task, preemption from interrupts, the
    stopping threads, which are mostly glue to files that are not in the
    repository; the run queues of groups in the real-time class (its groups'
    bandwidth and memory are in [TaskGroup]) and the configuration for one
    processor; more than one root domain.  In the fuzzer: the text of the log, the watchdog's messages.
    Everywhere: printing, module glue, shell scripts, reports and archives. *)

From stdpp Require Export prelude gmap list strings relations sorting.
From Stdlib Require Export ZArith Lia.

Declare Scope cs544_scope.
Delimit Scope cs544_scope with cs544.

(** ** Machine integers

    A [w]-bit C integer is a [Z]; the two functions below are the conversions
    C performs when a value is stored in a [w]-bit unsigned or signed object. *)

Definition wrap_u (w x : Z) : Z := x mod 2 ^ w.

Definition wrap_s (w x : Z) : Z := (x + 2 ^ (w - 1)) mod 2 ^ w - 2 ^ (w - 1).

Abbreviation u8 := (wrap_u 8).
Abbreviation u32 := (wrap_u 32).
Abbreviation u64 := (wrap_u 64).
Abbreviation s8 := (wrap_s 8).
Abbreviation s16 := (wrap_s 16).
Abbreviation s32 := (wrap_s 32).
Abbreviation s64 := (wrap_s 64).

(** A C truth value. *)
Definition b2z (b : bool) : Z := if b then 1 else 0.

(** ** Executions

    A labelled system is a partial function [step l s]; [run] follows a list of
    labels (a schedule), and [lts step] forgets the labels. *)

Section executions.
Context {L S : Type} (step : L → S → option S).

Inductive lts : S → S → Prop :=
| lts_intro l s s' : step l s = Some s' → lts s s'.

Fixpoint run (ls : list L) (s : S) : option S :=
  match ls with
  | [] => Some s
  | l :: ls' => match step l s with Some s' => run ls' s' | None => None end
  end.

Definition reachable (init : S → Prop) (s : S) : Prop :=
  ∃ s0, init s0 ∧ rtc lts s0 s.

Lemma run_rtc ls s s' : run ls s = Some s' → rtc lts s s'.
Proof.
  revert s. induction ls as [|l ls IH]; intros s H; simplify_eq/=; [done|].
  destruct (step l s) as [s1|] eqn:E; [|done].
  eapply rtc_l; [by econstructor|by apply IH].
Qed.

Lemma run_reachable (init : S → Prop) ls s s' :
  init s → run ls s = Some s' → reachable init s'.
Proof. intros Hi Hr. exists s. split; [done|by eapply run_rtc]. Qed.

Lemma reachable_ind (init I : S → Prop) :
  (∀ s, init s → I s) →
  (∀ l s s', I s → step l s = Some s' → I s') →
  ∀ s, reachable init s → I s.
Proof.
  intros Hi Hs s (s0 & H0 & Hr). specialize (Hi s0 H0). clear H0.
  induction Hr as [|s1 s2 s3 [l ? ? Hl] _ IH]; eauto.
Qed.

Lemma reachable_step (init : S → Prop) l s s' :
  reachable init s → step l s = Some s' → reachable init s'.
Proof.
  intros (s0 & H0 & Hr) Hl. exists s0. split; [done|].
  eapply rtc_r; [done|by econstructor].
Qed.

Lemma run_app ls1 ls2 s :
  run (ls1 ++ ls2) s = match run ls1 s with Some s' => run ls2 s' | None => None end.
Proof.
  revert s. induction ls1 as [|l ls1 IH]; intros s; simpl; [done|].
  destruct (step l s); [apply IH|done].
Qed.

End executions.

(** ** Results *)

(** [Bug] is a [BUG_ON] or a fault; [Out] is a loop longer than the bound it was
    given. *)
Inductive res (A : Type) :=
  | Ok (a : A)
  | Bug
  | Out.
Arguments Ok {A} a.
Arguments Bug {A}.
Arguments Out {A}.

#[export] Instance res_bind : MBind res := λ A B f r,
  match r with Ok a => f a | Bug => Bug | Out => Out end.

Lemma bind_ok {A B} (m : res A) (k : A → res B) b : m ≫= k = Ok b → ∃ a, m = Ok a ∧ k a = Ok b.
Proof. destruct m as [a| |]; [by exists a|done..]. Qed.

Definition is_ok {A} (r : res A) : Prop := match r with Ok _ => True | _ => False end.

Definition of_option {A} (o : option A) : res A :=
  match o with Some a => Ok a | None => Bug end.

(** ** Integer lemmas *)

Section integers.
Local Open Scope Z_scope.

Lemma wrap_u_range w x : 0 <= w → 0 <= wrap_u w x < 2 ^ w.
Proof. intros Hw. unfold wrap_u. apply Z.mod_pos_bound. by apply Z.pow_pos_nonneg. Qed.

Lemma wrap_u_small w x : 0 <= x < 2 ^ w → wrap_u w x = x.
Proof. intros. unfold wrap_u. by apply Z.mod_small. Qed.

Lemma wrap_s_range w x : 0 < w → - 2 ^ (w - 1) <= wrap_s w x < 2 ^ (w - 1).
Proof.
  intros Hw. unfold wrap_s.
  assert (2 ^ w = 2 * 2 ^ (w - 1)) as E.
  { rewrite <- Z.pow_succ_r by lia. f_equal. lia. }
  pose proof (Z.mod_pos_bound (x + 2 ^ (w - 1)) (2 ^ w)).
  assert (0 < 2 ^ (w - 1)) by (apply Z.pow_pos_nonneg; lia). lia.
Qed.

Lemma wrap_s_small w x : 0 < w → - 2 ^ (w - 1) <= x < 2 ^ (w - 1) → wrap_s w x = x.
Proof.
  intros Hw Hx. unfold wrap_s.
  assert (2 ^ w = 2 * 2 ^ (w - 1)) as E.
  { rewrite <- Z.pow_succ_r by lia. f_equal. lia. }
  rewrite Z.mod_small; lia.
Qed.

End integers.

(** Splits the conjunctions one sees, without unfolding. *)
Ltac conjs := repeat match goal with |- _ ∧ _ => split end.

(** [lia] with the equations of [/] and [mod] by constants. *)
Ltac dlia := Z.div_mod_to_equations; lia.

(** Solves or substitutes an equation between a result and [Some _]. *)
Ltac inv_some E := first [discriminate E | injection E as <-].

(** Splits the cases a defining equation [E] distinguishes. *)
Ltac cases_in E := repeat match type of E with context [match ?x with _ => _ end] => destruct x eqn:? end.

(** Discharges the [wrap_*] of a value that fits. *)
Ltac wrap_small :=
  repeat first
    [ rewrite wrap_u_small by (cbn; dlia)
    | rewrite wrap_s_small by (cbn; dlia) ].

(** ** Lists *)

Section lists.
Context {A : Type}.
Implicit Types l : list A.

Lemma last_cons_app (x : A) l1 l2 p :
  last (x :: l1) = Some p → (∃ l0, x :: l1 = l0 ++ [p]).
Proof. intros H. apply last_Some in H as [l0 ->]. eauto. Qed.

Lemma list_find_middle (P : A → Prop) `{∀ x, Decision (P x)} l1 x l2 :
  Forall (λ y, ¬ P y) l1 → P x → list_find P (l1 ++ x :: l2) = Some (length l1, x).
Proof.
  intros Hl1 Hx. apply list_find_Some. rewrite lookup_app_r, Nat.sub_diag by lia. split_and!; [done..|].
  intros j y Hj Hlt. rewrite lookup_app_l in Hj by done. rewrite Forall_lookup in Hl1. by eapply Hl1.
Qed.

(** The first element of a list that satisfies a test, with its position. *)
Lemma list_find_split (P : A → Prop) `{∀ x, Decision (P x)} l :
  match list_find P l with
  | Some (i, x) => ∃ l1 l2, l = l1 ++ x :: l2 ∧ P x ∧ Forall (λ y, ¬ P y) l1
  | None => Forall (λ y, ¬ P y) l
  end.
Proof.
  destruct (list_find P l) as [[i x]|] eqn:E.
  - apply list_find_Some in E as (Hi & Hx & Hall).
    exists (take i l), (drop (S i) l). split_and!; [|done|].
    + by rewrite take_drop_middle.
    + apply Forall_lookup. intros j y Hj. apply lookup_take_Some in Hj as [??]. eauto.
  - by apply list_find_None in E.
Qed.

(** The sum of a measure over a list. *)
Definition sum_of (f : A → Z) l : Z := foldr (λ x z, (f x + z)%Z) 0%Z l.

Lemma sum_of_insert f l i x y :
  l !! i = Some x → sum_of f (<[i := y]> l) = (sum_of f l - f x + f y)%Z.
Proof.
  revert i. induction l as [|z l IH]; intros [|i] Hi; simplify_eq/=; [lia|]. rewrite IH by done. lia.
Qed.

Lemma sum_of_app f l1 l2 : sum_of f (l1 ++ l2) = (sum_of f l1 + sum_of f l2)%Z.
Proof. induction l1 as [|x l1 IH]; simpl; [done|]. rewrite IH. lia. Qed.

Lemma sum_of_nonneg f l : (∀ x, x ∈ l → (0 <= f x)%Z) → (0 <= sum_of f l)%Z.
Proof.
  induction l as [|x l IH]; intros Hf; simpl; [done|].
  pose proof (Hf x ltac:(set_solver)). specialize (IH ltac:(intros; apply Hf; set_solver)). lia.
Qed.

Lemma sum_of_le f g l : (∀ x, x ∈ l → (f x <= g x)%Z) → (sum_of f l <= sum_of g l)%Z.
Proof.
  induction l as [|x l IH]; intros Hf; simpl; [done|].
  pose proof (Hf x ltac:(set_solver)). specialize (IH ltac:(intros; apply Hf; set_solver)). lia.
Qed.

Lemma sum_of_pos f l : (0 < sum_of f l)%Z → ∃ i x, l !! i = Some x ∧ (0 < f x)%Z.
Proof.
  induction l as [|x l IH]; simpl; [lia|]. intros Hs. destruct (decide (0 < f x)%Z).
  - by exists 0%nat, x.
  - destruct IH as (i & y & Hi & Hy); [lia|]. by exists (S i), y.
Qed.

Lemma concat_filter (P : A → Prop) `{∀ x, Decision (P x)} (ls : list (list A)) :
  concat (filter P <$> ls) = filter P (concat ls).
Proof. induction ls as [|l ls IH]; csimpl; [done|]. by rewrite list.filter_app, IH. Qed.

Lemma filter_iff_in (P Q : A → Prop) `{∀ x, Decision (P x), ∀ x, Decision (Q x)} l :
  (∀ x, x ∈ l → P x ↔ Q x) → filter P l = filter Q l.
Proof.
  induction l as [|x l IH]; intros HPQ; [done|]. rewrite !filter_cons, (IH ltac:(set_solver)).
  specialize (HPQ x ltac:(set_solver)). by repeat case_decide; try tauto.
Qed.

(** Replacing one element of a filtered list. *)
Lemma filter_insert_new (P : A → Prop) `{∀ x, Decision (P x)} l i x y :
  l !! i = Some x → ¬ P x → P y → filter P (<[i := y]> l) ≡ₚ y :: filter P l.
Proof.
  intros Hi Hx Hy. rewrite insert_take_drop by (by eapply lookup_lt_Some).
  rewrite <- (take_drop_middle l i x Hi) at 3. rewrite !filter_app, !filter_cons, decide_True, decide_False by done.
  by rewrite <- Permutation_middle.
Qed.

Lemma filter_insert_gone (P : A → Prop) `{∀ x, Decision (P x)} l i x y :
  l !! i = Some x → P x → ¬ P y → x :: filter P (<[i := y]> l) ≡ₚ filter P l.
Proof.
  intros Hi Hx Hy. rewrite insert_take_drop by (by eapply lookup_lt_Some).
  rewrite <- (take_drop_middle l i x Hi) at 3. rewrite !filter_app, !filter_cons, decide_False, decide_True by done.
  by rewrite <- Permutation_middle.
Qed.

Lemma filter_insert_neither (P : A → Prop) `{∀ x, Decision (P x)} l i x y :
  l !! i = Some x → ¬ P x → ¬ P y → filter P (<[i := y]> l) = filter P l.
Proof.
  intros Hi Hx Hy. rewrite insert_take_drop by (by eapply lookup_lt_Some).
  rewrite <- (take_drop_middle l i x Hi) at 3. by rewrite !filter_app, !filter_cons, !decide_False by done.
Qed.

End lists.

Section sums.
Local Open Scope Z_scope.

(** As many different numbers as there are below a bound, at most. *)
Lemma NoDup_bounded (l : list nat) (n : Z) :
  0 <= n → NoDup l → (∀ p, p ∈ l → Z.of_nat p < n) → Z.of_nat (length l) <= n.
Proof.
  intros Hn Hd Hl.
  assert (l ⊆+ seq 0 (Z.to_nat n)) as Hs.
  { apply NoDup_submseteq; [done|]. intros p Hp%Hl. apply elem_of_seq. lia. }
  apply submseteq_length in Hs. rewrite length_seq in Hs. lia.
Qed.

(** Sums of two lists compared element by element. *)
Lemma sum_of_pointwise {A B} (f : A → Z) (g : B → Z) l l' :
  length l = length l' → (∀ i x y, l !! i = Some x → l' !! i = Some y → f x <= g y) → sum_of f l <= sum_of g l'.
Proof.
  revert l'. induction l as [|x l IH]; intros [|y l'] Hlen Hfg; try done. cbn [sum_of foldr].
  pose proof (Hfg 0%nat x y eq_refl eq_refl). specialize (IH l' ltac:(by injection Hlen) (λ i, Hfg (S i))).
  unfold sum_of in IH. lia.
Qed.

(** With one element for which there is room. *)
Lemma sum_of_strict {A} (f g : A → Z) l l' i x y :
  length l = length l' → (∀ i x y, l !! i = Some x → l' !! i = Some y → f x <= g y) →
  l !! i = Some x → l' !! i = Some y → f x + 1 <= g y → sum_of f l + 1 <= sum_of g l'.
Proof.
  revert i l'. induction l as [|x0 l IH]; intros [|i] [|y0 l'] Hlen Hfg Hx Hy Hxy; try done; cbn [sum_of foldr] in *.
  - injection Hx as ->. injection Hy as ->.
    pose proof (sum_of_pointwise f g l l' ltac:(by injection Hlen) (λ i, Hfg (S i))) as Hp. unfold sum_of in Hp. lia.
  - pose proof (Hfg 0%nat x0 y0 eq_refl eq_refl).
    specialize (IH i l' ltac:(by injection Hlen) (λ i, Hfg (S i)) Hx Hy Hxy). unfold sum_of in IH. lia.
Qed.

(** Sums over a list of numbers. *)
Lemma sum_of_cons (f : nat → Z) x l : sum_of f (x :: l) = f x + sum_of f l.
Proof. done. Qed.

Lemma sum_of_ext (f g : nat → Z) l : (∀ i, i ∈ l → f i = g i) → sum_of f l = sum_of g l.
Proof.
  induction l as [|x l IH]; intros Hf; [done|]. rewrite !sum_of_cons, (Hf x), IH by set_solver. done.
Qed.

Lemma sum_of_delta_in (f g : nat → Z) l i d :
  NoDup l → i ∈ l → g i = f i + d → (∀ j, j ∈ l → j ≠ i → g j = f j) → sum_of g l = sum_of f l + d.
Proof.
  intros Hnd Hi Hg Ho. induction Hnd as [|x l Hx Hnd IH]; [set_solver|].
  rewrite !sum_of_cons. apply elem_of_cons in Hi as [<-|Hi].
  - rewrite Hg. assert (sum_of g l = sum_of f l) as ->; [|lia].
    apply sum_of_ext. intros j Hj. apply Ho; [by right|]. by intros ->.
  - rewrite IH by (done || set_solver). rewrite (Ho x); [lia|by left|]. by intros ->.
Qed.

Lemma sum_of_delta (f g : nat → Z) l i d :
  NoDup l → i ∈ l → g i = f i + d → (∀ j, j ≠ i → g j = f j) → sum_of g l = sum_of f l + d.
Proof. intros Hnd Hi Hg Ho. by apply (sum_of_delta_in f g l i d); auto. Qed.

Lemma sum_of_zero (f : nat → Z) l : (∀ i, i ∈ l → f i = 0) → sum_of f l = 0.
Proof. induction l as [|x l IH]; intros Hf; [done|]. rewrite sum_of_cons, Hf, IH by set_solver. done. Qed.

Lemma sum_of_bound (f : nat → Z) l c : (∀ i, i ∈ l → f i <= c) → sum_of f l <= Z.of_nat (length l) * c.
Proof.
  induction l as [|x l IH]; intros Hf; [done|]. rewrite sum_of_cons. cbn [length].
  pose proof (Hf x ltac:(set_solver)). specialize (IH ltac:(set_solver)).
  lia.
Qed.

Lemma sum_of_elem (f : nat → Z) l i : (∀ j, j ∈ l → 0 <= f j) → i ∈ l → f i <= sum_of f l.
Proof.
  induction l as [|x l IH]; intros Hf Hi; [set_solver|]. rewrite sum_of_cons. pose proof (Hf x ltac:(set_solver)).
  apply elem_of_cons in Hi as [->|Hi].
  - pose proof (sum_of_nonneg f l ltac:(set_solver)). lia.
  - specialize (IH ltac:(set_solver) Hi). lia.
Qed.

End sums.

(** ** Equality of machine words *)

Section words.
Local Open Scope Z_scope.

Definition eq64 (x y : Z) : Prop := ∃ k, x = y + k * 2 ^ 64.

End words.

Infix "≡₆₄" := eq64 (at level 70) : cs544_scope.

Section word_lemmas.
Local Open Scope Z_scope.
Local Open Scope cs544_scope.

#[export] Instance eq64_equivalence : Equivalence eq64.
Proof.
  split.
  - intros x. exists 0. lia.
  - intros x y [k ->]. exists (- k). lia.
  - intros x y z [k ->] [l ->]. exists (k + l). lia.
Qed.

#[export] Instance eq64_add : Proper (eq64 ==> eq64 ==> eq64) Z.add.
Proof. intros x x' [k ->] y y' [l ->]. exists (k + l). lia. Qed.

#[export] Instance eq64_sub : Proper (eq64 ==> eq64 ==> eq64) Z.sub.
Proof. intros x x' [k ->] y y' [l ->]. exists (k - l). lia. Qed.

Lemma s64_eq64 x : s64 x ≡₆₄ x.
Proof. exists (- ((x + 2 ^ 63) / 2 ^ 64)). unfold wrap_s. cbn. dlia. Qed.

Lemma u64_eq64 x : u64 x ≡₆₄ x.
Proof. exists (- (x / 2 ^ 64)). unfold wrap_u. dlia. Qed.

Lemma eq64_of_eq x y : x = y → x ≡₆₄ y.
Proof. by intros ->. Qed.

Lemma s64_of_eq64 x y : x ≡₆₄ y → - 2 ^ 63 <= y < 2 ^ 63 → s64 x = y.
Proof.
  intros [k ->] Hy. unfold wrap_s.
  assert ((y + k * 2 ^ 64 + 2 ^ (64 - 1)) mod 2 ^ 64 = (y + 2 ^ (64 - 1) + k * 2 ^ 64) mod 2 ^ 64) as -> by (f_equal; lia).
  rewrite Z_mod_plus_full, Z.mod_small by lia. lia.
Qed.

Lemma u64_of_eq64 x y : x ≡₆₄ y → u64 x = u64 y.
Proof. intros [k ->]. unfold wrap_u. apply Z_mod_plus_full. Qed.

End word_lemmas.

Create HintDb cs544 discriminated.
#[export] Hint Resolve run_reachable reachable_step : cs544.
