(* ===== verification/KList.v ===== *)
(** * The kernel list interface

    The kernel modules under src/indwriterups keep their queues in intrusive
    circular lists ([struct list_head] of linux/list.h, which is not part of the
    repository).  [KList] is what they rely on: two link functions, the
    operations, and the documented effect of each operation on the ring of
    entries hanging off a head.  [PtrList] is a pointer heap with which the
    interface is inhabited. *)

From S2P Require Import Prelude.

(** A list node; a [struct list_head] embedded in its container, so that the
    node also names the container ([list_entry]). *)
Abbreviation loc := nat.

(** The open segment [x1 .. xn] linked both ways between [a] and [b]. *)
Fixpoint dseg (next prev : loc → loc) (a : loc) (l : list loc) (b : loc) : Prop :=
  match l with
  | [] => next a = b ∧ prev b = a
  | x :: l' => next a = x ∧ prev x = a ∧ dseg next prev x l' b
  end.

(** [ring next prev hd l]: the circular list headed by [hd] visits [l]. *)
Definition ring (next prev : loc → loc) (hd : loc) (l : list loc) : Prop :=
  NoDup (hd :: l) ∧ dseg next prev hd l hd.

(** The interface. [H] is the state of all links. *)
Class KList (H : Type) := {
  lh_next : H → loc → loc;
  lh_prev : H → loc → loc;
  INIT_LIST_HEAD : loc → H → H;
  list_add : loc → loc → H → H;          (* list_add(new, head) *)
  list_del_init : loc → H → H;
  ring_init h hd : ring (lh_next (INIT_LIST_HEAD hd h)) (lh_prev (INIT_LIST_HEAD hd h)) hd [];
  ring_add h hd l1 l2 n p :
    ring (lh_next h) (lh_prev h) hd (l1 ++ l2) →
    n ∉ hd :: l1 ++ l2 →
    last (hd :: l1) = Some p →
    ring (lh_next (list_add n p h)) (lh_prev (list_add n p h)) hd (l1 ++ n :: l2);
  ring_del_init h hd l1 x l2 :
    ring (lh_next h) (lh_prev h) hd (l1 ++ x :: l2) →
    ring (lh_next (list_del_init x h)) (lh_prev (list_del_init x h)) hd (l1 ++ l2) ∧
    ring (lh_next (list_del_init x h)) (lh_prev (list_del_init x h)) x [];
}.

(** [list_empty(head)] of list.h: the head is its own successor. *)
Definition list_empty `{KList H} (hd : loc) (h : H) : bool := bool_decide (lh_next h hd = hd).

(** The cursor loops [list_for_each] and [list_for_each_prev], as the C macro
    expands: start at the successor (predecessor) of the head, stop at the head
    itself, or earlier when the body leaves the loop because [P pos] holds.  The
    result is the final value of the cursor; [None] is an exhausted fuel. *)
Fixpoint cursor_loop (adv : loc → loc) (P : loc → bool) (hd pos : loc) (fuel : nat) : option loc :=
  match fuel with
  | O => None
  | S fuel' =>
      if bool_decide (pos = hd) then Some pos
      else if P pos then Some pos
      else cursor_loop adv P hd (adv pos) fuel'
  end.

Definition list_for_each `{KList H} (P : loc → bool) (hd : loc) (h : H) (fuel : nat) : option loc :=
  cursor_loop (lh_next h) P hd (lh_next h hd) fuel.

Definition list_for_each_prev `{KList H} (P : loc → bool) (hd : loc) (h : H) (fuel : nat) : option loc :=
  cursor_loop (lh_prev h) P hd (lh_prev h hd) fuel.

(** ** An inhabitant: links in two finite maps, an unlinked node points to itself *)

Record plinks := mk_plinks { p_next : gmap loc loc; p_prev : gmap loc loc }.

Definition pl_next (h : plinks) (x : loc) : loc := default x (p_next h !! x).

Definition pl_prev (h : plinks) (x : loc) : loc := default x (p_prev h !! x).

Definition pl_init (hd : loc) (h : plinks) : plinks :=
  mk_plinks (<[hd := hd]> (p_next h)) (<[hd := hd]> (p_prev h)).

Definition pl_add (n p : loc) (h : plinks) : plinks :=
  let q := pl_next h p in
  mk_plinks (<[p := n]> (<[n := q]> (p_next h))) (<[n := p]> (<[q := n]> (p_prev h))).

Definition pl_del_init (x : loc) (h : plinks) : plinks :=
  let p := pl_prev h x in
  let q := pl_next h x in
  pl_init x (mk_plinks (<[p := q]> (p_next h)) (<[q := p]> (p_prev h))).

(** ** Segments *)

Section segments.
Implicit Types l : list loc.

Lemma dseg_app next prev a l1 x l2 b :
  dseg next prev a (l1 ++ x :: l2) b ↔ dseg next prev a l1 x ∧ dseg next prev x l2 b.
Proof. revert a. induction l1 as [|y l1 IH]; intros a; simpl; [tauto|]. rewrite IH. tauto. Qed.

(** A segment depends on the successors of all its nodes but the last and on
    the predecessors of all but the first. *)
Lemma dseg_ext next prev next' prev' a l b :
  (∀ x, x ∈ a :: l → next' x = next x) →
  (∀ x, x ∈ l ++ [b] → prev' x = prev x) →
  dseg next prev a l b → dseg next' prev' a l b.
Proof.
  revert a. induction l as [|y l IH]; intros a Hn Hp; simpl.
  - intros [H1 H2]. split; [rewrite <- H1; apply Hn|rewrite <- H2; apply Hp]; set_solver.
  - intros (H1 & H2 & H3). split_and!.
    + rewrite <- H1. apply Hn. set_solver.
    + rewrite <- H2. apply Hp. set_solver.
    + apply IH; [| |done]; intros x Hx; [apply Hn|apply Hp]; set_solver.
Qed.

Lemma ring_NoDup next prev hd l : ring next prev hd l → NoDup l.
Proof. intros [Hnd _]. by apply NoDup_cons in Hnd as [_ ?]. Qed.

Lemma ring_hd next prev hd l : ring next prev hd l → hd ∉ l.
Proof. intros [Hnd _]. by apply NoDup_cons in Hnd as [? _]. Qed.

Lemma ring_first next prev hd l : ring next prev hd l → next hd = default hd (head l).
Proof. intros [_ Hd]. destruct l; simpl in *; naive_solver. Qed.

Lemma ring_last next prev hd l : ring next prev hd l → prev hd = default hd (last l).
Proof.
  intros [_ Hd]. destruct l as [|x l _] using rev_ind; simpl in *; [naive_solver|].
  rewrite last_snoc. apply dseg_app in Hd as [_ [_ ?]]. done.
Qed.

(** The two neighbours of an entry: the adjacent entries, or the head. *)
Lemma ring_next next prev hd l1 x l2 :
  ring next prev hd (l1 ++ x :: l2) → next x = default hd (head l2).
Proof. intros [_ Hd]. apply dseg_app in Hd as [_ Hd]. destruct l2; simpl in *; naive_solver. Qed.

Lemma ring_prev next prev hd l1 x l2 :
  ring next prev hd (l1 ++ x :: l2) → prev x = default hd (last l1).
Proof.
  intros [_ Hd]. apply dseg_app in Hd as [Hd _].
  destruct l1 as [|y l1 _] using rev_ind; simpl in *; [naive_solver|].
  rewrite last_snoc. apply dseg_app in Hd as [_ [_ ?]]. done.
Qed.

End segments.

(** ** The cursor loops visit the ring in order *)

Section cursor.
Context (next prev : loc → loc) (hd : loc).

(** The entry a loop stops at: the first that satisfies the test, or the head. *)
Definition stop_at (P : loc → bool) (l : list loc) : loc :=
  match list_find P l with Some (_, x) => x | None => hd end.

Lemma stop_at_cons P x l : stop_at P (x :: l) = if P x then x else stop_at P l.
Proof.
  unfold stop_at. simpl. destruct (P x); simpl; [done|].
  destruct (list_find P l) as [[i y]|]; done.
Qed.

Lemma cursor_loop_next P l1 l2 fuel :
  ring next prev hd (l1 ++ l2) → length l2 < fuel →
  cursor_loop next P hd (default hd (head l2)) fuel = Some (stop_at P l2).
Proof.
  revert l1 fuel. induction l2 as [|x l2 IH]; intros l1 [|fuel] Hr Hf; simpl in *; try lia.
  - rewrite bool_decide_true by done. done.
  - rewrite stop_at_cons. rewrite bool_decide_false.
    2:{ pose proof (ring_hd _ _ _ _ Hr). set_solver. }
    destruct (P x); [done|]. erewrite ring_next by done.
    apply (IH (l1 ++ [x])); [|lia]. by rewrite <- app_assoc.
Qed.

Lemma cursor_loop_prev P l1 l2 fuel :
  ring next prev hd (l1 ++ l2) → length l1 < fuel →
  cursor_loop prev P hd (default hd (last l1)) fuel = Some (stop_at P (reverse l1)).
Proof.
  revert l2 fuel. induction l1 as [|x l1 IH] using rev_ind; intros l2 [|fuel] Hr Hf; try lia; simpl in *.
  - rewrite bool_decide_true by done. done.
  - rewrite length_app in Hf. simpl in Hf.
    rewrite last_snoc. simpl. rewrite reverse_app. simpl. rewrite stop_at_cons.
    rewrite bool_decide_false.
    2:{ pose proof (ring_hd _ _ _ _ Hr). set_solver. }
    destruct (P x); [done|]. rewrite <- app_assoc in Hr.
    erewrite ring_prev by done. apply (IH ([x] ++ l2)); [done|lia].
Qed.

End cursor.

Section klist.
Context `{KList H}.
Implicit Types h : H.

Lemma list_for_each_ring P hd h l fuel :
  ring (lh_next h) (lh_prev h) hd l → length l < fuel →
  list_for_each P hd h fuel = Some (stop_at hd P l).
Proof.
  intros Hr Hf. unfold list_for_each. erewrite ring_first by done.
  by eapply (cursor_loop_next _ _ hd P []).
Qed.

Lemma list_for_each_prev_ring P hd h l fuel :
  ring (lh_next h) (lh_prev h) hd l → length l < fuel →
  list_for_each_prev P hd h fuel = Some (stop_at hd P (reverse l)).
Proof.
  intros Hr Hf. unfold list_for_each_prev. erewrite ring_last by done.
  eapply (cursor_loop_prev _ _ hd P _ []); [|done]. by rewrite app_nil_r.
Qed.

Lemma list_empty_ring hd h l :
  ring (lh_next h) (lh_prev h) hd l → list_empty hd h = bool_decide (l = []).
Proof.
  intros Hr. unfold list_empty. apply bool_decide_ext. rewrite (ring_first _ _ _ _ Hr).
  pose proof (ring_hd _ _ _ _ Hr). destruct l; set_solver.
Qed.

End klist.

(** ** The pointer heap satisfies the interface *)

(** Membership reasoning: splits the (non)membership hypotheses and uses the
    disjointness that [NoDup_app] yields. *)
Ltac mem_split :=
  repeat match goal with
  | H : _ ∉ _ :: _ |- _ => apply not_elem_of_cons in H as [? ?]
  | H : _ ∉ _ ++ _ |- _ => apply not_elem_of_app in H as [? ?]
  | H : _ ∈ _ :: _ |- _ => apply elem_of_cons in H as [?|?]
  | H : _ ∈ _ ++ _ |- _ => apply elem_of_app in H as [?|?]
  | H : _ ∈ [] |- _ => by apply elem_of_nil in H
  end; simplify_eq.

Ltac mem_inst :=
  repeat match goal with
  | Hd : (∀ x, x ∈ ?l → x ∉ ?k), Hy : ?y ∈ _ |- _ =>
      lazymatch goal with
      | _ : y ∉ k |- _ => fail
      | _ => assert (y ∉ k) by (apply Hd; rewrite ?elem_of_app, ?elem_of_cons; tauto)
      end
  | Hd : (∀ x, x ∈ ?l ++ [?y] → x ∉ ?k) |- _ =>
      lazymatch goal with
      | _ : y ∉ k |- _ => fail
      | _ => assert (y ∉ k) by (apply Hd; rewrite ?elem_of_app, ?elem_of_cons; tauto)
      end
  end.

Ltac mem := mem_split; mem_inst; mem_split; first [done | congruence | tauto].

Ltac lookups :=
  unfold pl_next, pl_prev, pl_init; simpl;
  repeat (rewrite lookup_insert; case_decide; simplify_eq/=; try done; try (exfalso; mem)).

Lemma pl_ring_init h hd : ring (pl_next (pl_init hd h)) (pl_prev (pl_init hd h)) hd [].
Proof.
  split; [apply NoDup_singleton|]. simpl.
  unfold pl_next, pl_prev. simpl. by rewrite !lookup_insert_eq.
Qed.

Lemma pl_ring_add h hd l1 l2 n p :
  ring (pl_next h) (pl_prev h) hd (l1 ++ l2) → n ∉ hd :: l1 ++ l2 → last (hd :: l1) = Some p →
  ring (pl_next (pl_add n p h)) (pl_prev (pl_add n p h)) hd (l1 ++ n :: l2).
Proof.
  intros [Hnd Hd] Hn Hp.
  assert (p ∈ hd :: l1) as Hpin by by apply last_Some_elem_of.
  assert (pl_next h p = default hd (head l2)) as Hq.
  { destruct l1 as [|y l1 _] using rev_ind; simpl in *.
    - simplify_eq. by eapply ring_first.
    - rewrite app_comm_cons, last_snoc in Hp. simplify_eq.
      rewrite <- app_assoc in *. eapply ring_next. split; done. }
  split. { rewrite <- (Permutation_middle l1 l2 n). rewrite Permutation_swap. constructor; set_solver. }
  apply dseg_app. unfold pl_add. rewrite Hq.
  apply NoDup_cons in Hnd as [Hhd Hnd]. apply NoDup_app in Hnd as (Hnd1 & Hdis & Hnd2).
  split.
  - destruct l1 as [|y l1 _] using rev_ind; simpl in *.
    + simplify_eq. split; lookups.
    + rewrite app_comm_cons, last_snoc in Hp. simplify_eq.
      apply NoDup_app in Hnd1 as (Hnd1 & Hdis1 & _).
      rewrite <- app_assoc in Hd. apply dseg_app in Hd as [Hd _].
      apply dseg_app. split; [|split; lookups].
      revert Hd. apply dseg_ext; intros x Hx; destruct l2; lookups.
  - destruct l2 as [|q l2]; simpl in *.
    + split; lookups.
    + split_and!; [lookups..|].
      apply dseg_app in Hd as [_ Hd]. apply NoDup_cons in Hnd2 as [Hq2 Hnd2].
      revert Hd. apply dseg_ext; intros x Hx.
      * lookups.
      * lookups.
Qed.

Lemma pl_ring_del_init h hd l1 x l2 :
  ring (pl_next h) (pl_prev h) hd (l1 ++ x :: l2) →
  ring (pl_next (pl_del_init x h)) (pl_prev (pl_del_init x h)) hd (l1 ++ l2) ∧
  ring (pl_next (pl_del_init x h)) (pl_prev (pl_del_init x h)) x [].
Proof.
  intros Hr. split; [|apply pl_ring_init].
  pose proof (ring_next _ _ _ _ _ _ Hr) as Hq. pose proof (ring_prev _ _ _ _ _ _ Hr) as Hp.
  destruct Hr as [Hnd Hd]. unfold pl_del_init. rewrite Hq, Hp. clear Hq Hp.
  assert (NoDup (x :: hd :: l1 ++ l2)) as Hnd'.
  { rewrite Permutation_swap. by rewrite (Permutation_middle l1 l2 x). }
  clear Hnd. apply NoDup_cons in Hnd' as [Hx Hnd']. split; [done|].
  apply NoDup_cons in Hnd' as [Hhd Hnd']. apply NoDup_app in Hnd' as (Hnd1 & Hdis & Hnd2).
  apply dseg_app in Hd as [Hd1 Hd2].
  destruct l1 as [|p l1 _] using rev_ind; destruct l2 as [|q l2]; simpl in *.
  - split; lookups.
  - split_and!; [lookups..|]. apply NoDup_cons in Hnd2 as [Hq2 Hnd2]. destruct Hd2 as (_ & _ & Hd2).
    revert Hd2. apply dseg_ext; intros y Hy; lookups.
  - rewrite last_snoc, app_nil_r. simpl. apply NoDup_app in Hnd1 as (Hnd1 & Hdis1 & _).
    apply dseg_app in Hd1 as [Hd1 _]. apply dseg_app. split; [|split; lookups].
    revert Hd1. apply dseg_ext; intros y Hy; lookups.
  - rewrite last_snoc, <- app_assoc. simpl. apply NoDup_app in Hnd1 as (Hnd1 & Hdis1 & _).
    apply NoDup_cons in Hnd2 as [Hq2 Hnd2]. destruct Hd2 as (_ & _ & Hd2).
    apply dseg_app in Hd1 as [Hd1 _]. apply dseg_app. split.
    + revert Hd1. apply dseg_ext; intros y Hy; lookups.
    + split_and!; [lookups..|]. revert Hd2. apply dseg_ext; intros y Hy; lookups.
Qed.

#[export] Instance PtrList : KList plinks := {|
  lh_next := pl_next;
  lh_prev := pl_prev;
  INIT_LIST_HEAD := pl_init;
  list_add := pl_add;
  list_del_init := pl_del_init;
  ring_init := pl_ring_init;
  ring_add := pl_ring_add;
  ring_del_init := pl_ring_del_init;
|}.
