(* ===== verification/Sstf.v ===== *)
(** * The SSTF I/O scheduler (src/indwriterups/project2/sstf-iosched.c)

    The elevator keeps its pending requests in one [list_head] ring ordered by
    sector.  The handlers below run on the links themselves, through the
    interface of [KList]; the block layer is a parameter: [blk_rq_pos] gives the
    first sector of a request, [elv_dispatch_add_tail] hands a request to the
    dispatch queue of the request queue.  [printk] is not modelled. *)

From S2P Require Import Prelude KList.

Local Open Scope Z_scope.

Definition SSTF_NEXT : Z := 0.

Definition SSTF_PREV : Z := 1.

(** [struct sstf_data]; [queue] is the address of the embedded list head. *)
Record sstf_data := mk_sstf_data {
  direction : Z;
  prevsec : Z;
  queue : loc;
}.

(** The request queue as the handlers see it: all list links, the elevator's
    private data and the block layer's dispatch queue. *)
Record request_queue (H Q : Type) := mk_rq {
  links : H;
  elevator_data : sstf_data;
  dispatch_q : Q;
}.
Arguments mk_rq {H Q} _ _ _.
Arguments links {H Q} _.
Arguments elevator_data {H Q} _.
Arguments dispatch_q {H Q} _.

Section handlers.
Context {H Q : Type} `{!KList H}.
Context (blk_rq_pos : loc → Z) (elv_dispatch_add_tail : loc → Q → Q).

Definition sstf_merged_requests (q : request_queue H Q) (rq next : loc) : request_queue H Q :=
  mk_rq (list_del_init next (links q)) (elevator_data q) (dispatch_q q).

(** The code from the label [dispatch] to [return 1]. *)
Definition sstf_dispatch_label (q : request_queue H Q) (dir : Z) (rq_next : loc) : Z * request_queue H Q :=
  (1, mk_rq (list_del_init rq_next (links q))
            (mk_sstf_data dir (blk_rq_pos rq_next) (queue (elevator_data q)))
            (elv_dispatch_add_tail rq_next (dispatch_q q))).

Definition sstf_dispatch (fuel : nat) (q : request_queue H Q) : option (Z * request_queue H Q) :=
  let nd := elevator_data q in
  if negb (list_empty (queue nd) (links q)) then
    if direction nd =? SSTF_NEXT then
      next_head ← list_for_each (λ p, prevsec nd <? blk_rq_pos p) (queue nd) (links q) fuel;
      Some (if bool_decide (next_head = queue nd)
            then sstf_dispatch_label q SSTF_PREV (lh_prev (links q) next_head)
            else sstf_dispatch_label q (direction nd) next_head)
    else
      next_head ← list_for_each_prev (λ p, blk_rq_pos p <? prevsec nd) (queue nd) (links q) fuel;
      Some (if bool_decide (next_head = queue nd)
            then sstf_dispatch_label q SSTF_NEXT (lh_next (links q) next_head)
            else sstf_dispatch_label q (direction nd) next_head)
  else Some (0, q).

Definition sstf_add_request (fuel : nat) (q : request_queue H Q) (rq : loc) : option (request_queue H Q) :=
  let nd := elevator_data q in
  lo ← list_for_each_prev (λ p, blk_rq_pos p <? blk_rq_pos rq) (queue nd) (links q) fuel;
  Some (mk_rq (list_add rq lo (links q)) nd (dispatch_q q)).

Definition sstf_former_request (q : request_queue H Q) (rq : loc) : option loc :=
  if bool_decide (lh_prev (links q) rq = queue (elevator_data q)) then None
  else Some (lh_prev (links q) rq).

Definition sstf_latter_request (q : request_queue H Q) (rq : loc) : option loc :=
  if bool_decide (lh_next (links q) rq = queue (elevator_data q)) then None
  else Some (lh_next (links q) rq).

(** [nd] is what [kmalloc_node] returned, [None] for a failed allocation. *)
Definition sstf_init_queue (nd : option loc) (h : H) (q : Q) : option (request_queue H Q) :=
  match nd with
  | None => None
  | Some hd => Some (mk_rq (INIT_LIST_HEAD hd h) (mk_sstf_data SSTF_NEXT 0 hd) q)
  end.

(** [None] is the [BUG_ON]. *)
Definition sstf_exit_queue (q : request_queue H Q) : option unit :=
  if negb (list_empty (queue (elevator_data q)) (links q)) then None else Some tt.

(** [n] consecutive calls of the dispatch handler, with what each returned. *)
Fixpoint sstf_dispatch_n (fuel n : nat) (q : request_queue H Q) : option (list Z * request_queue H Q) :=
  match n with
  | O => Some ([], q)
  | S n' =>
      '(r, q1) ← sstf_dispatch fuel q;
      '(rs, q2) ← sstf_dispatch_n fuel n' q1;
      Some (r :: rs, q2)
  end.

(** The block layer's use of the elevator: requests are added and dispatched in
    any order. *)
Inductive elv_event := Add (rq : loc) | Dispatch.

#[global] Instance elv_event_eq_dec : EqDecision elv_event.
Proof. solve_decision. Defined.

Definition elv_step (fuel : nat) (e : elv_event) (q : request_queue H Q) : option (request_queue H Q) :=
  match e with
  | Add rq => sstf_add_request fuel q rq
  | Dispatch => '(_, q') ← sstf_dispatch fuel q; Some q'
  end.

(** ** The abstract elevator: a direction, the last sector and the sorted queue *)

Definition pos_le (x y : loc) : Prop := blk_rq_pos x <= blk_rq_pos y.

Definition sorted (l : list loc) : Prop := StronglySorted pos_le l.

Definition distinct_sectors (l : list loc) : Prop := StronglySorted (λ x y, blk_rq_pos x < blk_rq_pos y) l.

(** [queued q l]: the elevator's ring holds exactly [l], sorted by sector. *)
Definition queued (q : request_queue H Q) (l : list loc) : Prop :=
  ring (lh_next (links q)) (lh_prev (links q)) (queue (elevator_data q)) l ∧ sorted l.

(** The requests ahead of the head position in the two directions. *)
Definition ahead (p : Z) (l : list loc) : list loc := filter (λ x, p < blk_rq_pos x) l.

Definition behind (p : Z) (l : list loc) : list loc := filter (λ x, blk_rq_pos x < p) l.

(** What the elevator promises of one dispatch: in the current direction the
    nearest request strictly ahead; when there is none, it turns round and
    serves the extreme request. *)
Definition dispatch_choice (dir p : Z) (l : list loc) : option (Z * loc) :=
  if dir =? SSTF_NEXT then
    match head (ahead p l) with
    | Some x => Some (dir, x)
    | None => x ← last l; Some (SSTF_PREV, x)
    end
  else
    match last (behind p l) with
    | Some x => Some (dir, x)
    | None => x ← head l; Some (SSTF_NEXT, x)
    end.

(** The served request is the nearest in the direction of travel, or, at a turn,
    nothing was left ahead and it is the nearest of all the others. *)
Definition nearest_choice (dir p : Z) (l : list loc) (d : Z) (x : loc) : Prop :=
  if dir =? SSTF_NEXT then
    (d = dir ∧ p < blk_rq_pos x ∧ ∀ y, y ∈ l → p < blk_rq_pos y → blk_rq_pos x <= blk_rq_pos y) ∨
    (d = SSTF_PREV ∧ ∀ y, y ∈ l → blk_rq_pos y <= blk_rq_pos x ∧ blk_rq_pos y <= p)
  else
    (d = dir ∧ blk_rq_pos x < p ∧ ∀ y, y ∈ l → blk_rq_pos y < p → blk_rq_pos y <= blk_rq_pos x) ∨
    (d = SSTF_NEXT ∧ ∀ y, y ∈ l → blk_rq_pos x <= blk_rq_pos y ∧ p <= blk_rq_pos y).

(** [x] lies strictly ahead of the head position [p] in direction [dir]. *)
Definition facing (dir p : Z) (x : loc) : Prop :=
  if dir =? SSTF_NEXT then p < blk_rq_pos x else blk_rq_pos x < p.

(** The requests a run of the block layer adds, and its dispatches. *)
Definition added (evs : list elv_event) : list loc :=
  omap (λ e, match e with Add rq => Some rq | Dispatch => None end) evs.

Definition dispatches (evs : list elv_event) : nat :=
  length (filter (λ e, e = Dispatch) evs).

(** The order in which the elevator serves a queue that receives nothing new:
    everything ahead in the direction of travel, then the rest on the way back. *)
Definition sweep_order (dir p : Z) (l : list loc) : list loc :=
  if dir =? SSTF_NEXT
  then filter (λ x, p < blk_rq_pos x) l ++ reverse (filter (λ x, blk_rq_pos x <= p) l)
  else reverse (filter (λ x, blk_rq_pos x < p) l) ++ filter (λ x, p <= blk_rq_pos x) l.

Definition dispatched_all (q q' : request_queue H Q) (l : list loc) : Prop :=
  queued q' [] ∧ dispatch_q q' = foldl (λ d x, elv_dispatch_add_tail x d) (dispatch_q q) l.

End handlers.

Section elevator.
Context {H Q : Type} `{!KList H}.
Context (blk_rq_pos : loc → Z) (elv_dispatch_add_tail : loc → Q → Q).
Implicit Types q : request_queue H Q.
Implicit Types l : list loc.

(** ** What a cursor loop stops at *)

Lemma stop_at_head hd P l :
  stop_at hd P l = default hd (head (filter (λ x, P x = true) l)).
Proof.
  induction l as [|x l IH]; [done|]. rewrite stop_at_cons, filter_cons.
  destruct (P x); [rewrite decide_True by done|rewrite decide_False by done]; done.
Qed.

Lemma stop_at_last hd P l :
  stop_at hd P (reverse l) = default hd (last (filter (λ x, P x = true) l)).
Proof.
  induction l as [|x l IH] using rev_ind; [done|].
  rewrite reverse_app. simpl. rewrite stop_at_cons, filter_app, filter_cons, filter_nil.
  destruct (P x).
  - rewrite decide_True by done. by rewrite last_snoc.
  - rewrite decide_False by done. by rewrite app_nil_r.
Qed.

Lemma filter_ltb_ahead p l :
  filter (λ x, (p <? blk_rq_pos x) = true) l = ahead blk_rq_pos p l.
Proof. apply list_filter_iff. intros x. apply Z.ltb_lt. Qed.

Lemma filter_ltb_behind p l :
  filter (λ x, (blk_rq_pos x <? p) = true) l = behind blk_rq_pos p l.
Proof. apply list_filter_iff. intros x. apply Z.ltb_lt. Qed.

Lemma sorted_delete l1 x l2 : sorted blk_rq_pos (l1 ++ x :: l2) → sorted blk_rq_pos (l1 ++ l2).
Proof.
  unfold sorted. rewrite !StronglySorted_app, StronglySorted_cons. set_solver.
Qed.

(** ** Dispatch chooses as the abstract elevator does *)

Lemma dispatch_choice_None dir p l :
  dispatch_choice blk_rq_pos dir p l = None → l = [].
Proof.
  unfold dispatch_choice. destruct l as [|y l]; [done|].
  rewrite last_cons. repeat case_match; simplify_option_eq; done.
Qed.

Lemma ahead_elem p l x : x ∈ ahead blk_rq_pos p l ↔ p < blk_rq_pos x ∧ x ∈ l.
Proof. unfold ahead, behind. by rewrite list_elem_of_filter. Qed.

Lemma behind_elem p l x : x ∈ behind blk_rq_pos p l ↔ blk_rq_pos x < p ∧ x ∈ l.
Proof. unfold ahead, behind. by rewrite list_elem_of_filter. Qed.

Lemma dispatch_choice_elem dir p l d x :
  dispatch_choice blk_rq_pos dir p l = Some (d, x) → x ∈ l.
Proof.
  unfold dispatch_choice. destruct (_ =? _).
  - destruct (head (ahead _ _ _)) eqn:E; intros ?; simplify_option_eq.
    + by apply head_Some_elem_of, ahead_elem in E as [_ ?].
    + by apply last_Some_elem_of.
  - destruct (last (behind _ _ _)) eqn:E; intros ?; simplify_option_eq.
    + by apply last_Some_elem_of, behind_elem in E as [_ ?].
    + by apply head_Some_elem_of.
Qed.

Lemma sstf_dispatch_choice fuel q l :
  ring (lh_next (links q)) (lh_prev (links q)) (queue (elevator_data q)) l →
  (length l < fuel)%nat →
  sstf_dispatch blk_rq_pos elv_dispatch_add_tail fuel q =
    Some (match dispatch_choice blk_rq_pos (direction (elevator_data q)) (prevsec (elevator_data q)) l with
          | Some (d, x) => sstf_dispatch_label blk_rq_pos elv_dispatch_add_tail q d x
          | None => (0, q)
          end).
Proof.
  intros Hr Hf. unfold sstf_dispatch, dispatch_choice.
  erewrite list_empty_ring by done. pose proof (ring_hd _ _ _ _ Hr) as Hhd.
  rewrite (list_for_each_ring _ _ _ _ _ Hr Hf), (list_for_each_prev_ring _ _ _ _ _ Hr Hf).
  rewrite stop_at_head, stop_at_last, filter_ltb_ahead, filter_ltb_behind. simpl.
  case_bool_decide as Hl.
  { subst l. simpl. by repeat case_match. }
  simpl. destruct (_ =? SSTF_NEXT); f_equal.
  - destruct (head (ahead _ _ _)) as [x|] eqn:E; simpl.
    + rewrite bool_decide_false; [done|]. intros ->.
      apply head_Some_elem_of, ahead_elem in E as [_ ?]. done.
    + rewrite bool_decide_true by done. rewrite (ring_last _ _ _ _ Hr).
      destruct (last l) eqn:E'; [done|]. by apply last_None in E'.
  - destruct (last (behind _ _ _)) as [x|] eqn:E; simpl.
    + rewrite bool_decide_false; [done|]. intros ->.
      apply last_Some_elem_of, behind_elem in E as [_ ?]. done.
    + rewrite bool_decide_true by done. rewrite (ring_first _ _ _ _ Hr).
      destruct l; [done|]. done.
Qed.

(** A served request leaves the ring; what remains is still sorted. *)
Lemma sstf_dispatch_label_queued q d l1 x l2 :
  queued blk_rq_pos q (l1 ++ x :: l2) →
  queued blk_rq_pos (sstf_dispatch_label blk_rq_pos elv_dispatch_add_tail q d x).2 (l1 ++ l2).
Proof.
  intros [Hr Hs]. split; simpl; [by apply ring_del_init|by eapply sorted_delete].
Qed.

(** ** Order facts about a sorted queue *)

Lemma distinct_sorted l : distinct_sectors blk_rq_pos l → sorted blk_rq_pos l.
Proof.
  unfold distinct_sectors, sorted. induction l as [|x l IH]; [constructor|].
  rewrite !StronglySorted_cons, !Forall_forall. unfold pos_le.
  intros [Hx Hl]. split; [|by apply IH]. intros y Hy. specialize (Hx y Hy). lia.
Qed.

Lemma sorted_head_min x l y : sorted blk_rq_pos l → head l = Some x → y ∈ l → blk_rq_pos x <= blk_rq_pos y.
Proof.
  destruct l as [|z l]; [done|]. intros Hs [= ->]. apply StronglySorted_cons in Hs as [Hs _].
  rewrite Forall_forall in Hs. intros [->|Hy]%elem_of_cons; [done|]. by apply Hs.
Qed.

Lemma sorted_last_max x l y : sorted blk_rq_pos l → last l = Some x → y ∈ l → blk_rq_pos y <= blk_rq_pos x.
Proof.
  intros Hs Hl Hy. apply last_Some in Hl as [l0 ->].
  apply StronglySorted_app in Hs as (Hs & _). apply elem_of_app in Hy as [Hy|Hy].
  - apply (Hs y x); [done|]. by apply list_elem_of_singleton.
  - apply list_elem_of_singleton in Hy as ->. done.
Qed.

Lemma sorted_filter (P : loc → Prop) `{∀ x, Decision (P x)} l :
  sorted blk_rq_pos l → sorted blk_rq_pos (filter P l).
Proof.
  unfold sorted. induction l as [|x l IH]; [done|]. rewrite StronglySorted_cons. intros [Hx Hl].
  rewrite filter_cons. case_decide; [|by apply IH].
  apply StronglySorted_cons. split; [|by apply IH]. rewrite Forall_forall in *.
  intros y [_ Hy]%list_elem_of_filter. by apply Hx.
Qed.

Lemma sorted_ahead p l : sorted blk_rq_pos l → sorted blk_rq_pos (ahead blk_rq_pos p l).
Proof. apply sorted_filter. Qed.

Lemma sorted_behind p l : sorted blk_rq_pos l → sorted blk_rq_pos (behind blk_rq_pos p l).
Proof. apply sorted_filter. Qed.

Lemma dispatch_choice_nearest dir p l d x :
  sorted blk_rq_pos l → dispatch_choice blk_rq_pos dir p l = Some (d, x) → nearest_choice blk_rq_pos dir p l d x.
Proof.
  intros Hs. unfold dispatch_choice, nearest_choice. destruct (_ =? SSTF_NEXT).
  - destruct (head (ahead _ p l)) as [z|] eqn:E; intros ?; simplify_option_eq.
    + left. pose proof E as Hz. apply head_Some_elem_of, ahead_elem in Hz as [Hp _].
      split_and!; [done..|]. intros y Hy Hpy.
      eapply sorted_head_min; [by apply (sorted_ahead p)|exact E|]. by apply ahead_elem.
    + right. split; [done|]. intros y Hy. split; [by eapply sorted_last_max|].
      apply head_None in E. destruct (decide (p < blk_rq_pos y)); [|lia].
      assert (y ∈ ahead blk_rq_pos p l) as Hin by by apply ahead_elem.
      rewrite E in Hin. by apply elem_of_nil in Hin.
  - destruct (last (behind _ p l)) as [z|] eqn:E; intros ?; simplify_option_eq.
    + left. pose proof E as Hz. apply last_Some_elem_of, behind_elem in Hz as [Hp _].
      split_and!; [done..|]. intros y Hy Hpy.
      eapply sorted_last_max; [by apply (sorted_behind p)|exact E|]. by apply behind_elem.
    + right. split; [done|]. intros y Hy. split; [by eapply sorted_head_min|].
      apply last_None in E. destruct (decide (blk_rq_pos y < p)); [|lia].
      assert (y ∈ behind blk_rq_pos p l) as Hin by by apply behind_elem.
      rewrite E in Hin. by apply elem_of_nil in Hin.
Qed.

(** ** Whole sweeps *)

(** One choice followed by a sweep of the rest is a sweep. *)
Lemma sweep_step fuel q l1 x l2 d order :
  queued blk_rq_pos q (l1 ++ x :: l2) → (length (l1 ++ x :: l2) < fuel)%nat →
  dispatch_choice blk_rq_pos (direction (elevator_data q)) (prevsec (elevator_data q)) (l1 ++ x :: l2) = Some (d, x) →
  (∀ q1, queued blk_rq_pos q1 (l1 ++ l2) → direction (elevator_data q1) = d →
     prevsec (elevator_data q1) = blk_rq_pos x →
     ∃ q', sstf_dispatch_n blk_rq_pos elv_dispatch_add_tail fuel (length (l1 ++ l2)) q1 =
             Some (replicate (length (l1 ++ l2)) 1, q') ∧ dispatched_all blk_rq_pos elv_dispatch_add_tail q1 q' order) →
  ∃ q', sstf_dispatch_n blk_rq_pos elv_dispatch_add_tail fuel (length (l1 ++ x :: l2)) q =
          Some (replicate (length (l1 ++ x :: l2)) 1, q') ∧ dispatched_all blk_rq_pos elv_dispatch_add_tail q q' (x :: order).
Proof.
  intros Hq Hf Hc Hrest.
  destruct (Hrest _ (sstf_dispatch_label_queued q d _ _ _ Hq)) as (q' & Hn & He & Hd); [done..|].
  exists q'. replace (length (l1 ++ x :: l2)) with (S (length (l1 ++ l2)))
    by (rewrite !length_app; simpl; lia).
  split; [|split; [done|exact Hd]].
  cbn [sstf_dispatch_n]. erewrite sstf_dispatch_choice; [|apply Hq|done]. rewrite Hc. simpl.
  simpl in Hn. rewrite Hn. done.
Qed.

Lemma sweep_nil fuel q :
  queued blk_rq_pos q [] →
  ∃ q', sstf_dispatch_n blk_rq_pos elv_dispatch_add_tail fuel 0 q = Some (replicate 0 1, q') ∧ dispatched_all blk_rq_pos elv_dispatch_add_tail q q' [].
Proof. intros Hq. exists q. done. Qed.

Lemma filter_all (P : loc → Prop) `{∀ x, Decision (P x)} l : Forall P l → filter P l = l.
Proof. induction 1 as [|x l Hx _ IH]; [done|]. rewrite filter_cons_True by done. by rewrite IH. Qed.

Lemma filter_none (P : loc → Prop) `{∀ x, Decision (P x)} l : Forall (λ x, ¬ P x) l → filter P l = [].
Proof. induction 1 as [|x l Hx _ IH]; [done|]. by rewrite filter_cons_False. Qed.

Lemma ahead_split p lo up :
  Forall (λ x, blk_rq_pos x <= p) lo → Forall (λ x, p < blk_rq_pos x) up →
  ahead blk_rq_pos p (lo ++ up) = up.
Proof.
  intros Hlo Hup. unfold ahead. rewrite filter_app, (filter_all _ up), filter_none; [done| |done].
  eapply Forall_impl; [done|]. simpl. lia.
Qed.

Lemma behind_split p lo up :
  Forall (λ x, blk_rq_pos x < p) lo → Forall (λ x, p <= blk_rq_pos x) up →
  behind blk_rq_pos p (lo ++ up) = lo.
Proof.
  intros Hlo Hup. unfold behind. rewrite filter_app, (filter_all _ lo), filter_none; [by rewrite app_nil_r| |done].
  eapply Forall_impl; [done|]. simpl. lia.
Qed.

Lemma distinct_app l1 l2 :
  distinct_sectors blk_rq_pos (l1 ++ l2) →
  distinct_sectors blk_rq_pos l1 ∧ distinct_sectors blk_rq_pos l2 ∧
  (∀ x y, x ∈ l1 → y ∈ l2 → blk_rq_pos x < blk_rq_pos y).
Proof. unfold distinct_sectors. rewrite StronglySorted_app. naive_solver. Qed.

Lemma distinct_delete l1 x l2 :
  distinct_sectors blk_rq_pos (l1 ++ x :: l2) → distinct_sectors blk_rq_pos (l1 ++ l2).
Proof. unfold distinct_sectors. rewrite !StronglySorted_app, StronglySorted_cons. set_solver. Qed.

(** Downwards with nothing above: highest sector first. *)
Lemma sweep_down_only fuel l q :
  queued blk_rq_pos q l → distinct_sectors blk_rq_pos l → (length l < fuel)%nat →
  direction (elevator_data q) = SSTF_PREV →
  Forall (λ x, blk_rq_pos x < prevsec (elevator_data q)) l →
  ∃ q', sstf_dispatch_n blk_rq_pos elv_dispatch_add_tail fuel (length l) q = Some (replicate (length l) 1, q') ∧
        dispatched_all blk_rq_pos elv_dispatch_add_tail q q' (reverse l).
Proof.
  revert q. induction l as [|x l IH] using rev_ind; intros q Hq Hds Hf Hdir Hall.
  { by apply sweep_nil. }
  rewrite reverse_app. eapply (sweep_step _ _ l x [] SSTF_PREV); [done..| |].
  - unfold dispatch_choice. rewrite Hdir. simpl.
    rewrite <- (app_nil_r (l ++ [x])), behind_split, last_snoc by done. done.
  - intros q1 Hq1 Hd1 Hp1. rewrite app_nil_r in *. rewrite length_app in Hf. simpl in Hf.
    apply IH; [done|by apply (distinct_app l [x])|lia|done|].
    rewrite Hp1. apply Forall_forall. intros y Hy. apply distinct_app in Hds as (_ & _ & Hds).
    apply Hds; [done|]. by apply list_elem_of_singleton.
Qed.

(** Upwards, then back down. *)
Lemma sweep_up fuel lo up q :
  queued blk_rq_pos q (lo ++ up) → distinct_sectors blk_rq_pos (lo ++ up) → (length (lo ++ up) < fuel)%nat →
  direction (elevator_data q) = SSTF_NEXT →
  Forall (λ x, blk_rq_pos x <= prevsec (elevator_data q)) lo →
  Forall (λ x, prevsec (elevator_data q) < blk_rq_pos x) up →
  ∃ q', sstf_dispatch_n blk_rq_pos elv_dispatch_add_tail fuel (length (lo ++ up)) q =
          Some (replicate (length (lo ++ up)) 1, q') ∧
        dispatched_all blk_rq_pos elv_dispatch_add_tail q q' (up ++ reverse lo).
Proof.
  revert q. induction up as [|x up IH]; intros q Hq Hds Hf Hdir Hlo Hup.
  - destruct lo as [|x lo _] using rev_ind; [by apply sweep_nil|].
    rewrite app_nil_r in *. rewrite reverse_app.
    eapply (sweep_step _ _ lo x [] SSTF_PREV); [done..| |].
    + unfold dispatch_choice. rewrite Hdir. simpl.
      rewrite <- (app_nil_r (lo ++ [x])), ahead_split, app_nil_r by done. simpl. by rewrite last_snoc.
    + intros q1 Hq1 Hd1 Hp1. rewrite app_nil_r in *. rewrite length_app in Hf. simpl in Hf.
      apply distinct_app in Hds as (Hds & _ & Hlt).
      apply sweep_down_only; [done|done|lia|done|].
      rewrite Hp1. apply Forall_forall. intros y Hy.
      apply Hlt; [done|]. by apply list_elem_of_singleton.
  - eapply (sweep_step _ _ lo x up SSTF_NEXT); [done..| |].
    + unfold dispatch_choice. rewrite Hdir. simpl. by rewrite ahead_split.
    + intros q1 Hq1 Hd1 Hp1. apply Forall_cons in Hup as [Hx Hup].
      apply IH; [done|by eapply distinct_delete|rewrite length_app in *; simpl in *; lia|done| |]; rewrite Hp1.
      * eapply Forall_impl; [done|]. simpl. lia.
      * apply distinct_app in Hds as (_ & Hds & _).
        apply Forall_forall. intros y Hy. apply StronglySorted_cons in Hds as [Hds _].
        rewrite Forall_forall in Hds. by apply Hds.
Qed.

(** Downwards, then back up. *)
Lemma sweep_down fuel lo up q :
  queued blk_rq_pos q (lo ++ up) → distinct_sectors blk_rq_pos (lo ++ up) → (length (lo ++ up) < fuel)%nat →
  direction (elevator_data q) = SSTF_PREV →
  Forall (λ x, blk_rq_pos x < prevsec (elevator_data q)) lo →
  Forall (λ x, prevsec (elevator_data q) <= blk_rq_pos x) up →
  ∃ q', sstf_dispatch_n blk_rq_pos elv_dispatch_add_tail fuel (length (lo ++ up)) q =
          Some (replicate (length (lo ++ up)) 1, q') ∧
        dispatched_all blk_rq_pos elv_dispatch_add_tail q q' (reverse lo ++ up).
Proof.
  revert q. induction lo as [|x lo IH] using rev_ind; intros q Hq Hds Hf Hdir Hlo Hup.
  - destruct up as [|x up]; [by apply sweep_nil|]. simpl in *.
    eapply (sweep_step _ _ [] x up SSTF_NEXT); [done..| |].
    + unfold dispatch_choice. rewrite Hdir. simpl.
      rewrite <- (app_nil_l (x :: up)), behind_split by done. done.
    + intros q1 Hq1 Hd1 Hp1. simpl in *. apply StronglySorted_cons in Hds as [Hx Hds].
      destruct (sweep_up fuel [] up q1) as (q' & ? & Hall); [done|done|simpl; lia|done|done|by rewrite Hp1|].
      rewrite app_nil_r in Hall. by exists q'.
  - rewrite reverse_app. simpl. rewrite <- app_assoc in *. simpl in *.
    eapply (sweep_step _ _ lo x up SSTF_PREV); [done..| |].
    + unfold dispatch_choice. rewrite Hdir. simpl. rewrite (cons_middle x), app_assoc, behind_split by done.
      by rewrite last_snoc.
    + intros q1 Hq1 Hd1 Hp1. pose proof Hds as Hds'. apply distinct_app in Hds' as (_ & Hxu & Hlt).
      apply Forall_app in Hlo as [Hlo [Hx _]%Forall_cons].
      apply IH; [done|by eapply distinct_delete|rewrite !length_app in *; simpl in *; lia|done| |]; rewrite Hp1.
      * apply Forall_forall. intros y Hy. apply Hlt; [done|]. apply elem_of_cons. by left.
      * eapply Forall_impl; [done|]. simpl. lia.
Qed.

(** A sorted queue splits around any sector. *)
Lemma sorted_split_le p l :
  sorted blk_rq_pos l →
  l = filter (λ x, blk_rq_pos x <= p) l ++ filter (λ x, p < blk_rq_pos x) l.
Proof.
  induction l as [|x l IH]; [done|]. intros [Hx Hl]%StronglySorted_cons. specialize (IH Hl).
  unfold pos_le in Hx. rewrite !filter_cons. destruct (decide (blk_rq_pos x <= p)).
  - rewrite decide_False by lia. simpl. by rewrite <- IH.
  - rewrite decide_True by lia. rewrite (filter_none (λ y, blk_rq_pos y <= p)).
    + simpl. f_equal. rewrite filter_all; [done|]. eapply Forall_impl; [done|]. simpl. lia.
    + eapply Forall_impl; [done|]. simpl. lia.
Qed.

Lemma sorted_split_lt p l :
  sorted blk_rq_pos l →
  l = filter (λ x, blk_rq_pos x < p) l ++ filter (λ x, p <= blk_rq_pos x) l.
Proof.
  intros Hl. rewrite (sorted_split_le (p - 1) l Hl) at 1. f_equal; apply list_filter_iff; intros; lia.
Qed.

Lemma Forall_filter_self (P : loc → Prop) `{∀ x, Decision (P x)} l : Forall P (filter P l).
Proof. apply Forall_forall. by intros x [? _]%list_elem_of_filter. Qed.

Lemma sorted_insert l1 x l2 :
  sorted blk_rq_pos (l1 ++ l2) → Forall (λ y, blk_rq_pos y <= blk_rq_pos x) l1 →
  Forall (λ y, blk_rq_pos x <= blk_rq_pos y) l2 → sorted blk_rq_pos (l1 ++ x :: l2).
Proof.
  unfold sorted. rewrite !StronglySorted_app, StronglySorted_cons, !Forall_forall.
  intros (H12 & H1 & H2) Hl Hr. split_and!; [|done|done|done].
  intros y z Hy [->|Hz]%elem_of_cons; [by apply Hl|by apply H12].
Qed.

Lemma sstf_add_queued fuel q l rq :
  queued blk_rq_pos q l → rq ∉ queue (elevator_data q) :: l → (length l < fuel)%nat →
  ∃ q', sstf_add_request blk_rq_pos fuel q rq = Some q' ∧
    queued blk_rq_pos q' (filter (λ x, blk_rq_pos x < blk_rq_pos rq) l ++
                          rq :: filter (λ x, blk_rq_pos rq <= blk_rq_pos x) l) ∧
    elevator_data q' = elevator_data q ∧ dispatch_q q' = dispatch_q q.
Proof.
  intros [Hr Hs] Hrq Hf. unfold sstf_add_request.
  rewrite (list_for_each_prev_ring _ _ _ _ _ Hr Hf), stop_at_last, filter_ltb_behind. simpl.
  eexists. split_and!; [done| |done|done].
  pose proof (sorted_split_lt (blk_rq_pos rq) l Hs) as Hl. split; simpl.
  - rewrite Hl in Hr, Hrq. apply ring_add; [done|done|].
    rewrite last_cons. unfold behind. by destruct (last _).
  - rewrite Hl in Hs. apply sorted_insert; [done| |apply (Forall_filter_self (λ y, _ <= _))].
    eapply Forall_impl; [apply (Forall_filter_self (λ y, blk_rq_pos y < blk_rq_pos rq))|]. simpl. lia.
Qed.

Lemma nearest_choice_progress dir p l d y x :
  nearest_choice blk_rq_pos dir p l d y → x ∈ l → facing blk_rq_pos dir p x →
  d = dir ∧ (blk_rq_pos y = blk_rq_pos x ∨
             (y ≠ x ∧ facing blk_rq_pos dir (blk_rq_pos y) x ∧
              Z.abs (blk_rq_pos x - blk_rq_pos y) < Z.abs (blk_rq_pos x - p))).
Proof.
  unfold nearest_choice, facing. destruct (dir =? SSTF_NEXT).
  - intros [(-> & Hp & Hall)|(-> & Hall)] Hx Hpx; specialize (Hall x Hx); [|lia].
    split; [done|]. destruct (decide (blk_rq_pos y = blk_rq_pos x)); [by left|right].
    split; [congruence|]. lia.
  - intros [(-> & Hp & Hall)|(-> & Hall)] Hx Hpx; specialize (Hall x Hx); [|lia].
    split; [done|]. destruct (decide (blk_rq_pos y = blk_rq_pos x)); [by left|right].
    split; [congruence|]. lia.
Qed.

Lemma elv_progress fuel evs l q x :
  queued blk_rq_pos q l → x ∈ l →
  facing blk_rq_pos (direction (elevator_data q)) (prevsec (elevator_data q)) x →
  NoDup (queue (elevator_data q) :: l ++ added evs) → (length l + length evs < fuel)%nat →
  Z.abs (blk_rq_pos x - prevsec (elevator_data q)) <= Z.of_nat (dispatches evs) →
  ∃ evs1 evs2 q', evs = evs1 ++ evs2 ∧
    run (elv_step blk_rq_pos elv_dispatch_add_tail fuel) evs1 q = Some q' ∧
    prevsec (elevator_data q') = blk_rq_pos x.
Proof.
  revert l q. induction evs as [|[rq|] evs IH]; intros l q Hq Hx Hface Hnd Hf Hn; simpl in *.
  - unfold dispatches in Hn. simpl in Hn. unfold facing in Hface. destruct (_ =? _); lia.
  - destruct (sstf_add_queued fuel q l rq Hq) as (q1 & Hadd & Hq1 & Hed & _); [|lia|].
    { intros [->|Hin]%elem_of_cons; apply NoDup_cons in Hnd as [Hhd Hnd]; [set_solver|].
      apply NoDup_app in Hnd as (_ & Hdis & _). apply (Hdis rq); set_solver. }
    rewrite <- Hed in Hface, Hn, Hnd.
    pose proof (sorted_split_lt (blk_rq_pos rq) l (proj2 Hq)) as Hl.
    destruct (IH _ q1 Hq1) as (evs1 & evs2 & q' & -> & Hrun & Hp); [|done| | |done|].
    + rewrite Hl in Hx. set_solver.
    + rewrite Hl in Hnd. rewrite <- app_assoc in *. simpl.
      by rewrite <- (Permutation_middle _ (added evs) rq) in Hnd.
    + rewrite length_app. simpl. rewrite Hl, length_app in Hf. lia.
    + exists (Add rq :: evs1), evs2, q'. simpl. by rewrite Hadd.
  - pose proof (proj1 Hq) as Hr. pose proof (proj2 Hq) as Hs.
    assert (Hd := sstf_dispatch_choice fuel q l Hr ltac:(lia)).
    destruct (dispatch_choice _ _ _ _) as [[d y]|] eqn:Hc.
    2:{ apply dispatch_choice_None in Hc as ->. by apply elem_of_nil in Hx. }
    destruct (nearest_choice_progress _ _ _ _ _ x (dispatch_choice_nearest _ _ _ _ _ Hs Hc) Hx Hface)
      as [-> [Heq|(Hne & Hface' & Hlt)]].
    { exists [Dispatch], evs. eexists. split_and!; [done|simpl; by rewrite Hd|done]. }
    pose proof (dispatch_choice_elem _ _ _ _ _ Hc) as Hy.
    apply list_elem_of_split in Hy as (l1 & l2 & ->).
    pose proof (sstf_dispatch_label_queued q (direction (elevator_data q)) _ _ _ Hq) as Hq1.
    destruct (IH _ _ Hq1) as (evs1 & evs2 & q' & -> & Hrun & Hp); simpl.
    + set_solver.
    + done.
    + rewrite <- !app_assoc in *. simpl in *. rewrite <- (Permutation_middle l1 _ y) in Hnd.
      rewrite Permutation_swap in Hnd. by apply NoDup_cons in Hnd as [_ ?].
    + rewrite !length_app in *. simpl in *. lia.
    + unfold dispatches in *. rewrite filter_cons_True in Hn by done. simpl in Hn. lia.
    + exists (Dispatch :: evs1), evs2, q'. split_and!; [done| |done]. simpl. by rewrite Hd.
Qed.

(** ** Properties *)

(** C29: one dispatch of a sorted queue serves the request the elevator promises
    (the nearest strictly ahead, or the extreme one at a turn, with the
    direction flipped), moves exactly that request from the ring to the
    dispatch queue, records its sector and keeps the rest sorted; an empty
    queue returns 0 unchanged. *)
Theorem sstf_dispatch_serves fuel q l :
  queued blk_rq_pos q l → (length l < fuel)%nat →
  match sstf_dispatch blk_rq_pos elv_dispatch_add_tail fuel q with
  | Some (r, q') =>
      (l = [] ∧ r = 0 ∧ q' = q) ∨
      (∃ l1 x l2 d, l = l1 ++ x :: l2 ∧ r = 1 ∧
         nearest_choice blk_rq_pos (direction (elevator_data q)) (prevsec (elevator_data q)) l d x ∧
         queued blk_rq_pos q' (l1 ++ l2) ∧
         elevator_data q' = mk_sstf_data d (blk_rq_pos x) (queue (elevator_data q)) ∧
         dispatch_q q' = elv_dispatch_add_tail x (dispatch_q q))
  | None => False
  end.
Proof.
  intros Hq Hf. rewrite (sstf_dispatch_choice fuel q l (proj1 Hq) Hf).
  destruct (dispatch_choice _ _ _ _) as [[d x]|] eqn:Hc.
  - right. pose proof (dispatch_choice_elem _ _ _ _ _ Hc) as Hx.
    pose proof (dispatch_choice_nearest _ _ _ _ _ (proj2 Hq) Hc) as Hn.
    apply list_elem_of_split in Hx as (l1 & l2 & ->).
    exists l1, x, l2, d. split_and!; [done|done|done| |done|done]. by apply sstf_dispatch_label_queued.
  - left. by apply dispatch_choice_None in Hc.
Qed.

(** Adding a request to a sorted queue succeeds and inserts it after every
    request of a strictly smaller sector and before all the others, so the
    ring stays sorted and no other request moves. *)
Theorem sstf_add_request_sorted fuel q l rq :
  queued blk_rq_pos q l → rq ∉ queue (elevator_data q) :: l → (length l < fuel)%nat →
  ∃ q' l1 l2, sstf_add_request blk_rq_pos fuel q rq = Some q' ∧ l = l1 ++ l2 ∧
    queued blk_rq_pos q' (l1 ++ rq :: l2) ∧
    Forall (λ x, blk_rq_pos x < blk_rq_pos rq) l1 ∧ Forall (λ x, blk_rq_pos rq <= blk_rq_pos x) l2 ∧
    elevator_data q' = elevator_data q ∧ dispatch_q q' = dispatch_q q.
Proof.
  intros Hq Hrq Hf. destruct (sstf_add_queued fuel q l rq Hq Hrq Hf) as (q' & Hadd & Hq' & Hed & Hdq).
  eexists q', _, _. split_and!; [done| |done| | |done|done].
  - apply sorted_split_lt, Hq.
  - apply Forall_filter_self.
  - apply Forall_filter_self.
Qed.

(** With no arrivals and pairwise distinct sectors, as many dispatches as
    there are requests empty the queue and serve it as an elevator sweeps:
    every request ahead in the direction of travel in order of distance, then
    all the others on the way back. *)
Theorem sstf_sweeps fuel q l :
  queued blk_rq_pos q l → distinct_sectors blk_rq_pos l → (length l < fuel)%nat →
  direction (elevator_data q) = SSTF_NEXT ∨ direction (elevator_data q) = SSTF_PREV →
  ∃ q', sstf_dispatch_n blk_rq_pos elv_dispatch_add_tail fuel (length l) q = Some (replicate (length l) 1, q') ∧
    dispatched_all blk_rq_pos elv_dispatch_add_tail q q'
      (sweep_order blk_rq_pos (direction (elevator_data q)) (prevsec (elevator_data q)) l).
Proof.
  intros Hq Hds Hf Hdir. unfold sweep_order. destruct Hdir as [Hdir|Hdir]; rewrite Hdir; simpl.
  - pose proof (sorted_split_le (prevsec (elevator_data q)) l (proj2 Hq)) as Hl.
    rewrite Hl in Hq, Hds, Hf.
    pose proof (sweep_up fuel _ _ q Hq Hds Hf Hdir (Forall_filter_self _ l) (Forall_filter_self _ l)) as Hsw.
    by rewrite <- Hl in Hsw.
  - pose proof (sorted_split_lt (prevsec (elevator_data q)) l (proj2 Hq)) as Hl.
    rewrite Hl in Hq, Hds, Hf.
    pose proof (sweep_down fuel _ _ q Hq Hds Hf Hdir (Forall_filter_self _ l) (Forall_filter_self _ l)) as Hsw.
    by rewrite <- Hl in Hsw.
Qed.

(** C30: no starvation ahead of the head: whatever requests arrive in between, a
    pending request that lies ahead in the direction of travel is reached (the
    head arrives at its sector) within as many dispatches as its distance. *)
Theorem sstf_reaches_pending fuel evs l q x :
  queued blk_rq_pos q l → x ∈ l →
  facing blk_rq_pos (direction (elevator_data q)) (prevsec (elevator_data q)) x →
  NoDup (queue (elevator_data q) :: l ++ added evs) → (length l + length evs < fuel)%nat →
  Z.abs (blk_rq_pos x - prevsec (elevator_data q)) <= Z.of_nat (dispatches evs) →
  ∃ evs1 evs2 q', evs = evs1 ++ evs2 ∧
    run (elv_step blk_rq_pos elv_dispatch_add_tail fuel) evs1 q = Some q' ∧
    prevsec (elevator_data q') = blk_rq_pos x.
Proof. apply elv_progress. Qed.

(** The former and latter request of a queued request are its neighbours in
    sector order, and NULL at the two ends of the queue. *)
Theorem sstf_neighbours q l1 x l2 :
  queued blk_rq_pos q (l1 ++ x :: l2) →
  sstf_former_request q x = last l1 ∧ sstf_latter_request q x = head l2.
Proof.
  clear elv_dispatch_add_tail. intros [Hr _]. pose proof (ring_hd _ _ _ _ Hr) as Hhd.
  unfold sstf_former_request, sstf_latter_request. erewrite ring_prev, ring_next by done. split.
  - destruct (last l1) as [y|] eqn:E; simpl; [|by rewrite bool_decide_true].
    apply last_Some_elem_of in E. rewrite bool_decide_false; [done|set_solver].
  - destruct l2 as [|y l2]; simpl; [by rewrite bool_decide_true|].
    rewrite bool_decide_false; [done|set_solver].
Qed.

End elevator.

(** ** Examples: sectors are ten times the node number, the dispatch queue is a list *)

Definition ex_pos (x : loc) : Z := 10 * Z.of_nat x.

Definition ex_tail (x : loc) (d : list loc) : list loc := d ++ [x].

Definition ex_q0 : request_queue plinks (list loc) :=
  default (mk_rq (mk_plinks ∅ ∅) (mk_sstf_data 0 0 0%nat) [])
          (sstf_init_queue (Some 0%nat) (mk_plinks ∅ ∅) []).

(** Requests 9, 4 and 6 arrive, 4 is served, then 2 arrives. *)
Definition ex_q : request_queue plinks (list loc) :=
  default ex_q0 (run (elv_step ex_pos ex_tail 10) [Add 9%nat; Add 4%nat; Add 6%nat; Dispatch; Add 2%nat] ex_q0).

Lemma ex_queued : queued ex_pos ex_q [2; 6; 9]%nat.
Proof.
  split; [split|].
  - vm_compute. repeat constructor; set_solver.
  - vm_compute. tauto.
  - repeat constructor; vm_compute; discriminate.
Qed.

Lemma sstf_dispatch_serves_witness :
  ∃ d x, nearest_choice ex_pos SSTF_NEXT 40 [2; 6; 9]%nat d x.
Proof.
  pose proof (sstf_dispatch_serves ex_pos ex_tail 10 ex_q [2; 6; 9]%nat ex_queued ltac:(simpl; lia)) as Hs.
  destruct (sstf_dispatch ex_pos ex_tail 10 ex_q) as [[r q']|]; [|destruct Hs].
  destruct Hs as [(Hl & _)|(l1 & x & l2 & d & _ & _ & Hn & _)]; [discriminate Hl|].
  exists d, x. exact Hn.
Defined.

Lemma sstf_add_request_sorted_witness :
  ∃ q', sstf_add_request ex_pos 10 ex_q 7%nat = Some q'.
Proof.
  destruct (sstf_add_request_sorted ex_pos 10 ex_q [2; 6; 9]%nat 7%nat ex_queued) as (q' & _ & _ & Hq & _).
  - set_solver.
  - simpl. lia.
  - by exists q'.
Defined.

Lemma sstf_sweeps_witness :
  ∃ q', sstf_dispatch_n ex_pos ex_tail 10 3 ex_q = Some ([1; 1; 1], q') ∧ dispatch_q q' = [4; 6; 9; 2]%nat.
Proof.
  destruct (sstf_sweeps ex_pos ex_tail 10 ex_q [2; 6; 9]%nat ex_queued) as (q' & Hn & _ & Hd).
  - repeat constructor; vm_compute; reflexivity.
  - simpl. lia.
  - left. reflexivity.
  - exists q'. split; [exact Hn|]. rewrite Hd. reflexivity.
Defined.

Lemma sstf_reaches_pending_witness :
  ∃ evs1 q', run (elv_step ex_pos ex_tail 100) evs1 ex_q = Some q' ∧ prevsec (elevator_data q') = 90.
Proof.
  destruct (sstf_reaches_pending ex_pos ex_tail 100 (Add 5%nat :: replicate 50 Dispatch) [2; 6; 9]%nat ex_q 9%nat ex_queued)
    as (evs1 & _ & q' & _ & Hrun & Hp).
  - set_solver.
  - reflexivity.
  - vm_compute. repeat constructor; set_solver.
  - vm_compute. lia.
  - vm_compute. discriminate.
  - exists evs1, q'. split; [exact Hrun|exact Hp].
Defined.

Lemma sstf_neighbours_witness :
  sstf_former_request ex_q 6%nat = Some 2%nat ∧ sstf_latter_request ex_q 6%nat = Some 9%nat.
Proof. apply (sstf_neighbours ex_pos ex_q [2]%nat 6%nat [9]%nat ex_queued). Defined.

(** The scheduler is an elevator, not shortest-seek-first: with the head at
    sector 40 going up, it serves sector 90 although sector 30 is nearer. *)
Theorem sstf_is_not_shortest_seek :
  ∃ q q', queued ex_pos q [3; 9]%nat ∧ prevsec (elevator_data q) = 40 ∧
    sstf_dispatch ex_pos ex_tail 10 q = Some (1, q') ∧ prevsec (elevator_data q') = 90 ∧
    Z.abs (30 - 40) < Z.abs (90 - 40).
Proof.
  exists (default ex_q0 (run (elv_step ex_pos ex_tail 10) [Add 4%nat; Dispatch; Add 9%nat; Add 3%nat] ex_q0)).
  eexists. split_and!; [|reflexivity|vm_compute; reflexivity|reflexivity|lia].
  split; [split|].
  - vm_compute. repeat constructor; set_solver.
  - vm_compute. tauto.
  - repeat constructor; vm_compute; discriminate.
Qed.
