(* ===== verification/CMem.v ===== *)
(** * Byte-addressed memory

    C objects in memory are little-endian sequences of bytes; an address that was
    never written reads as zero.  The allocator of project4 stores 16-bit
    [slob_t] fields and a 32-bit size header through these accessors. *)

From S2P Require Import Prelude.

Local Open Scope Z_scope.

Abbreviation memory := (gmap Z Z).

Definition byte (m : memory) (a : Z) : Z := default 0 (m !! a).

Definition load16 (m : memory) (a : Z) : Z := s16 (byte m a + 256 * byte m (a + 1)).

Definition store16 (m : memory) (a v : Z) : memory :=
  <[a + 1 := (v / 256) mod 256]> (<[a := v mod 256]> m).

Definition load32 (m : memory) (a : Z) : Z :=
  byte m a + 256 * byte m (a + 1) + 65536 * byte m (a + 2) + 16777216 * byte m (a + 3).

Definition store32 (m : memory) (a v : Z) : memory :=
  <[a + 3 := (v / 16777216) mod 256]> (<[a + 2 := (v / 65536) mod 256]>
    (<[a + 1 := (v / 256) mod 256]> (<[a := v mod 256]> m))).

(** 64-bit words, as two 32-bit ones. *)
Definition load64 (m : memory) (a : Z) : Z := load32 m a + 4294967296 * load32 m (a + 4).

Definition store64 (m : memory) (a v : Z) : memory := store32 (store32 m a v) (a + 4) (v / 4294967296).

(** [memset(a, 0, n)]. *)
Fixpoint memset0 (m : memory) (a : Z) (n : nat) : memory :=
  match n with
  | O => m
  | S n' => memset0 (<[a := 0]> m) (a + 1) n'
  end.

(** [m] and [m'] hold the same bytes from [lo] (included) to [hi] (excluded). *)
Definition agree (lo hi : Z) (m m' : memory) : Prop := ∀ x, lo <= x < hi → byte m x = byte m' x.

#[global] Instance agree_equiv lo hi : Equivalence (agree lo hi).
Proof.
  split; unfold agree.
  - intros m x Hx. done.
  - intros m m' H x Hx. symmetry. by apply H.
  - intros m1 m2 m3 H1 H2 x Hx. by rewrite H1, H2.
Qed.

Lemma byte_insert m a b v : byte (<[b := v]> m) a = if decide (b = a) then v else byte m a.
Proof. unfold byte. rewrite lookup_insert. by case_decide. Qed.

Ltac bytes := repeat (rewrite byte_insert; case_decide; try lia).

Lemma agree_sub lo hi lo' hi' m m' : lo <= lo' → hi' <= hi → agree lo hi m m' → agree lo' hi' m m'.
Proof. intros ?? H x Hx. apply H. lia. Qed.

#[global] Instance load16_proper a : Proper (agree a (a + 2) ==> eq) (λ m, load16 m a).
Proof. intros m m' H. unfold load16. rewrite !H by lia. reflexivity. Qed.

#[global] Instance load32_proper a : Proper (agree a (a + 4) ==> eq) (λ m, load32 m a).
Proof. intros m m' H. unfold load32. rewrite !H by lia. reflexivity. Qed.

Lemma load16_agree m m' a : agree a (a + 2) m m' → load16 m a = load16 m' a.
Proof. apply (load16_proper a). Qed.

Lemma load32_agree m m' a : agree a (a + 4) m m' → load32 m a = load32 m' a.
Proof. apply (load32_proper a). Qed.

Lemma store16_agree m a v lo hi : hi <= a ∨ a + 2 <= lo → agree lo hi (store16 m a v) m.
Proof. intros H x Hx. unfold store16. bytes. Qed.

Lemma store32_agree m a v lo hi : hi <= a ∨ a + 4 <= lo → agree lo hi (store32 m a v) m.
Proof. intros H x Hx. unfold store32. bytes. Qed.

Lemma memset0_agree m a n lo hi : hi <= a ∨ a + Z.of_nat n <= lo → agree lo hi (memset0 m a n) m.
Proof.
  revert m a. induction n as [|n IH]; intros m a H x Hx; simpl; [done|].
  rewrite IH by lia. bytes.
Qed.

Lemma memset0_byte m a n x : a <= x < a + Z.of_nat n → byte (memset0 m a n) x = 0.
Proof.
  revert m a. induction n as [|n IH]; intros m a H; simpl; [lia|].
  destruct (decide (x = a)) as [->|].
  - rewrite (memset0_agree _ _ _ a (a + 1)) by lia. bytes.
  - apply IH. lia.
Qed.

Lemma load16_store16 m a v : load16 (store16 m a v) a = s16 v.
Proof.
  unfold load16, store16. bytes. unfold wrap_s.
  replace (v mod 256 + 256 * ((v / 256) mod 256)) with (v mod 65536).
  - change (2 ^ 16) with 65536. change (2 ^ (16 - 1)) with 32768. f_equal. by rewrite Zplus_mod_idemp_l.
  - change 65536 with (256 * 256). rewrite Z.rem_mul_r by lia. lia.
Qed.

Lemma load32_store32 m a v : load32 (store32 m a v) a = u32 v.
Proof.
  unfold load32, store32. bytes. unfold wrap_u.
  change (2 ^ 32) with (256 * (256 * (256 * 256))).
  rewrite !(Z.rem_mul_r _ 256) by lia. rewrite !Z.div_div by lia. change (256 * 256) with 65536.
  change (65536 * 256) with 16777216. lia.
Qed.

Lemma load16_store16_ne m a b v : a + 2 <= b ∨ b + 2 <= a → load16 (store16 m b v) a = load16 m a.
Proof. intros. apply load16_agree, store16_agree. lia. Qed.

Lemma load32_store32_ne m a b v : a + 4 <= b ∨ b + 4 <= a → load32 (store32 m b v) a = load32 m a.
Proof. intros H. apply load32_agree, store32_agree. lia. Qed.

Lemma load64_store32_ne m a b v : a + 8 <= b ∨ b + 4 <= a → load64 (store32 m b v) a = load64 m a.
Proof. intros H. unfold load64. by rewrite !load32_store32_ne by lia. Qed.

Lemma load64_store64 m a v : 0 <= v < 2 ^ 64 → load64 (store64 m a v) a = v.
Proof.
  intros Hv. unfold load64, store64. rewrite load32_store32, (load32_store32_ne _ a) by lia. rewrite load32_store32.
  unfold wrap_u. change (2 ^ 32) with 4294967296. change (2 ^ 64) with (4294967296 * 4294967296) in Hv. dlia.
Qed.

Lemma store64_agree m a v lo hi : hi <= a ∨ a + 8 <= lo → agree lo hi (store64 m a v) m.
Proof. intros H. unfold store64. rewrite store32_agree by lia. apply store32_agree. lia. Qed.

#[export] Hint Resolve store16_agree store32_agree memset0_agree : cs544.
