(* ===== verification/SlobBlock.v ===== *)
(** * Free blocks of the SLOB allocator (src/indwriterups/project4/slob.c, top)

    The encoding of a free block in the page itself: a block of one unit holds
    the negated offset of its successor, a larger one its size followed by that
    offset, offsets counted in units from the start of the page.  The end of a
    page's list is the address of the following page. *)

From S2P Require Import Prelude CMem.

Local Open Scope Z_scope.

(** The build the module is modelled for: 4 KiB pages, hence [slobidx_t] is
    [s16] ([PAGE_SIZE <= 32767 * 2]) and [sizeof(slob_t)] is 2. *)
Definition PAGE_SIZE : Z := 4096.

Definition PAGE_MASK : Z := Z.lnot (PAGE_SIZE - 1).

Definition SLOB_UNIT : Z := 2.

(** [size] is converted to [size_t]. *)
Definition SLOB_UNITS (size : Z) : Z := u64 (u64 size + SLOB_UNIT - 1) / SLOB_UNIT.

(** [ALIGN] of linux/kernel.h. *)
Definition ALIGN (x a : Z) : Z := Z.land (x + (a - 1)) (Z.lnot (a - 1)).

(** Encode the given size and next info into a free slob block s. *)
Definition set_slob (m : memory) (s size next : Z) : memory :=
  let base := Z.land s PAGE_MASK in
  let offset := s16 ((next - base) / SLOB_UNIT) in
  if 1 <? size then store16 (store16 m s size) (s + SLOB_UNIT) offset
  else store16 m s (- offset).

(** Return the size of a slob block. *)
Definition slob_units (m : memory) (s : Z) : Z :=
  if 0 <? load16 m s then load16 m s else 1.

(** Return the next free slob block pointer after this one. *)
Definition slob_next (m : memory) (s : Z) : Z :=
  let base := Z.land s PAGE_MASK in
  let next := if load16 m s <? 0 then s16 (- load16 m s) else load16 m (s + SLOB_UNIT) in
  base + SLOB_UNIT * next.

(** Returns true if s is the last free block in its page. *)
Definition slob_last (m : memory) (s : Z) : bool :=
  Z.land (slob_next m s) (Z.lnot PAGE_MASK) =? 0.

(** ** What a page's free list represents *)

(** A block: address and size in units. *)
Abbreviation block := (Z * Z)%type.

(** [slob_at m a n nxt]: the bytes at [a] encode a block of [n] units whose
    successor is [nxt]. *)
Definition slob_at (m : memory) (a n nxt : Z) : Prop :=
  let offset := (nxt - (a - a mod PAGE_SIZE)) / SLOB_UNIT in
  if n =? 1 then load16 m a = - offset else load16 m a = n ∧ load16 m (a + SLOB_UNIT) = offset.

(** The address a list starts at; [e] for the empty list. *)
Definition first (e : Z) (bl : list block) : Z :=
  match bl with [] => e | (a, _) :: _ => a end.

(** The blocks [bl] are linked in this order, the last one to [e]. *)
Fixpoint seg (m : memory) (bl : list block) (e : Z) : Prop :=
  match bl with
  | [] => True
  | (a, n) :: bl' => slob_at m a n (first e bl') ∧ seg m bl' e
  end.

(** Geometry: the blocks are even-aligned, non-empty, lie between [lo] and [hi]
    in address order and at least [g] bytes apart. *)
Fixpoint sep (g lo hi : Z) (bl : list block) : Prop :=
  match bl with
  | [] => lo <= hi + g
  | (a, n) :: bl' => lo <= a ∧ 1 <= n ∧ a mod 2 = 0 ∧ sep g (a + 2 * n + g) hi bl'
  end.

(** [free_list m pg p bl]: [p] heads the free list of page [pg], whose blocks are
    [bl], in address order and coalesced (no two are adjacent). *)
Definition free_list (m : memory) (pg p : Z) (bl : list block) : Prop :=
  p = first (pg + PAGE_SIZE) bl ∧ seg m bl (pg + PAGE_SIZE) ∧ sep 2 pg (pg + PAGE_SIZE) bl.

(** [x] is not a byte of any of the blocks; [frame]: the memories differ at most
    inside the blocks. *)
Definition outside (bl : list block) (x : Z) : Prop :=
  Forall (λ b, x < b.1 ∨ b.1 + 2 * b.2 <= x) bl.

Definition frame (bl : list block) (m m' : memory) : Prop :=
  ∀ x, outside bl x → byte m' x = byte m x.

Definition page_addr (pg : Z) : Prop := 0 < pg ∧ pg mod PAGE_SIZE = 0.

Definition total (bl : list block) : Z := foldr (λ b s, b.2 + s) 0 bl.
Arguments total : simpl never.

(** ** Address arithmetic *)

Lemma land_lnot_pow2 x k : 0 <= k → Z.land x (Z.lnot (2 ^ k - 1)) = x - x mod 2 ^ k.
Proof.
  intros Hk.
  replace (2 ^ k - 1) with (Z.ones k) by (rewrite Z.ones_equiv; lia).
  rewrite <- Z.ldiff_land, Z.ldiff_ones_r, Z.shiftl_mul_pow2, Z.shiftr_div_pow2 by done.
  pose proof (Z.div_mod x (2 ^ k)). assert (0 < 2 ^ k) by (by apply Z.pow_pos_nonneg). lia.
Qed.

Lemma page_base s : Z.land s PAGE_MASK = s - s mod PAGE_SIZE.
Proof. apply (land_lnot_pow2 s 12). done. Qed.

Lemma page_offset s : Z.land s (Z.lnot PAGE_MASK) = s mod PAGE_SIZE.
Proof.
  unfold PAGE_MASK. rewrite Z.lnot_involutive. change (PAGE_SIZE - 1) with (Z.ones 12).
  rewrite Z.land_ones by done. done.
Qed.

Lemma ALIGN_spec x k :
  0 <= k → x <= ALIGN x (2 ^ k) < x + 2 ^ k ∧ ALIGN x (2 ^ k) mod 2 ^ k = 0.
Proof.
  intros Hk. assert (0 < 2 ^ k) by (by apply Z.pow_pos_nonneg). unfold ALIGN.
  rewrite land_lnot_pow2 by done.
  pose proof (Z.mod_pos_bound (x + (2 ^ k - 1)) (2 ^ k)). split; [lia|].
  rewrite Zminus_mod, Z.mod_mod, Z.sub_diag by lia. apply Z.mod_0_l. lia.
Qed.

(** The base of an address within a page. *)
Lemma page_of_addr pg s : page_addr pg → pg <= s < pg + PAGE_SIZE → s - s mod PAGE_SIZE = pg.
Proof. unfold page_addr, PAGE_SIZE. intros [_ ?] ?. dlia. Qed.

(** ** Encode and decode *)

Section encode.
Context (pg : Z) (Hpg : page_addr pg).

Lemma slob_at_agree m m' a n nxt :
  1 <= n → agree a (a + 2 * n) m m' → slob_at m a n nxt → slob_at m' a n nxt.
Proof.
  intros Hn Hm. unfold slob_at, SLOB_UNIT. destruct (Z.eqb_spec n 1) as [->|].
  - rewrite (load16_agree m m'); [done|]. by eapply agree_sub; [..|exact Hm]; dlia.
  - rewrite (load16_agree m m' a), (load16_agree m m' (a + 2)); [done|..];
      eapply agree_sub; try exact Hm; dlia.
Qed.

Lemma set_slob_at m a n nxt :
  pg <= a → a < nxt <= pg + PAGE_SIZE → nxt mod 2 = 0 → 1 <= n <= 2048 →
  slob_at (set_slob m a n nxt) a n nxt.
Proof.
  intros Ha Hn He Hsz. unfold set_slob, slob_at. rewrite page_base.
  rewrite (page_of_addr pg a) by (done || dlia). unfold SLOB_UNIT, PAGE_SIZE in *.
  rewrite (wrap_s_small 16 ((nxt - pg) / 2)) by (cbn; dlia).
  destruct (Z.eqb_spec n 1) as [->|]; simpl.
  - rewrite load16_store16. apply wrap_s_small; cbn; dlia.
  - rewrite (proj2 (Z.ltb_lt 1 n)) by dlia. split.
    + rewrite load16_store16_ne by dlia. rewrite load16_store16. apply wrap_s_small; cbn; dlia.
    + rewrite load16_store16. apply wrap_s_small; cbn; dlia.
Qed.

Lemma set_slob_agree m a n nxt lo hi :
  1 <= n → hi <= a ∨ a + 2 * n <= lo → agree lo hi (set_slob m a n nxt) m.
Proof.
  intros Hn H. unfold set_slob, SLOB_UNIT. destruct (Z.ltb_spec 1 n).
  - etransitivity; apply store16_agree; dlia.
  - apply store16_agree. dlia.
Qed.

Lemma slob_at_units m a n nxt :
  pg <= a → a < nxt → nxt mod 2 = 0 → 1 <= n → slob_at m a n nxt → a < pg + PAGE_SIZE →
  a mod 2 = 0 → slob_units m a = n.
Proof.
  intros Ha Hn He Hsz Hat Hlt Hev. unfold slob_at in Hat. rewrite (page_of_addr pg a) in Hat by done.
  unfold slob_units. unfold page_addr, SLOB_UNIT, PAGE_SIZE in *.
  destruct (Z.eqb_spec n 1) as [->|].
  - rewrite Hat. rewrite (proj2 (Z.ltb_ge 0 _)) by dlia. done.
  - destruct Hat as [-> _]. by rewrite (proj2 (Z.ltb_lt 0 n)) by dlia.
Qed.

Lemma slob_at_next m a n nxt :
  pg <= a → a < nxt <= pg + PAGE_SIZE → nxt mod 2 = 0 → 1 <= n → slob_at m a n nxt → a mod 2 = 0 →
  slob_next m a = nxt.
Proof.
  intros Ha Hn He Hsz Hat Hev. unfold slob_at in Hat. unfold slob_next. rewrite page_base.
  rewrite (page_of_addr pg a) in Hat |- * by (done || dlia).
  unfold page_addr, SLOB_UNIT, PAGE_SIZE in *.
  assert (pg mod 2 = 0) by dlia.
  destruct (Z.eqb_spec n 1) as [->|].
  - rewrite Hat. rewrite (proj2 (Z.ltb_lt _ 0)) by dlia. rewrite wrap_s_small; cbn; dlia.
  - destruct Hat as [-> ->]. rewrite (proj2 (Z.ltb_ge n 0)) by dlia. dlia.
Qed.

Lemma slob_at_last m a n nxt :
  pg <= a → a < nxt <= pg + PAGE_SIZE → nxt mod 2 = 0 → 1 <= n → slob_at m a n nxt → a mod 2 = 0 →
  slob_last m a = bool_decide (nxt = pg + PAGE_SIZE).
Proof.
  intros. unfold slob_last. rewrite (slob_at_next m a n nxt), page_offset by done.
  unfold page_addr, PAGE_SIZE in *. case_bool_decide; [apply Z.eqb_eq|apply Z.eqb_neq]; dlia.
Qed.

End encode.

(** ** Lists of blocks *)

Section lists.
Implicit Types bl l : list block.

Lemma first_app e l1 l2 : first e (l1 ++ l2) = first (first e l2) l1.
Proof. by destruct l1 as [|[a n] l1]. Qed.

Lemma seg_app m l1 l2 e : seg m (l1 ++ l2) e ↔ seg m l1 (first e l2) ∧ seg m l2 e.
Proof.
  induction l1 as [|[a n] l1 IH]; simpl; [tauto|]. rewrite IH, first_app. tauto.
Qed.

Lemma sep_lower g lo lo' hi bl : lo' <= lo → sep g lo hi bl → sep g lo' hi bl.
Proof. intros ?. destruct bl as [|[a n] bl]; simpl; [lia|]. intros (? & ?). split; [lia|done]. Qed.

Lemma sep_weaken g g' lo hi bl : 0 <= g' <= g → lo <= hi + g' → sep g lo hi bl → sep g' lo hi bl.
Proof.
  intros Hg. revert lo. induction bl as [|[a n] bl IH]; intros lo Hlo; simpl; [done|].
  intros (H1 & H2 & H3 & H4). split_and!; [done..|].
  assert (a + 2 * n <= hi).
  { clear -H4 Hg. revert H4. generalize (a + 2 * n). clear a n. induction bl as [|[a n] bl IH]; intros x; simpl; [lia|].
    intros (? & ? & ? & H). specialize (IH _ H). lia. }
  apply IH; [lia|]. eapply sep_lower; [|done]. lia.
Qed.

Lemma sep_le g lo hi bl : 0 <= g → sep g lo hi bl → lo <= hi + g.
Proof.
  intros Hg. revert lo. induction bl as [|[a n] bl IH]; intros lo; simpl; [done|].
  intros (? & ? & ? & H). apply IH in H. lia.
Qed.

Lemma sep_app g lo hi l1 a n l2 :
  sep g lo hi (l1 ++ (a, n) :: l2) ↔ sep g lo (a - g) l1 ∧ sep g a hi ((a, n) :: l2).
Proof.
  revert lo. induction l1 as [|[b k] l1 IH]; intros lo; simpl.
  - split; [intros (? & ? & ? & ?); split_and!; done || lia|intros (? & ? & ? & ? & ?); split_and!; done || lia].
  - rewrite IH. simpl. tauto.
Qed.

Lemma sep_join g lo mid hi l1 l2 :
  0 <= g → sep g lo (mid - g) l1 → sep g mid hi l2 → sep g lo hi (l1 ++ l2).
Proof.
  intros Hg. revert lo. induction l1 as [|[b k] l1 IH]; intros lo; simpl.
  - intros ? ?. eapply sep_lower; [|done]. lia.
  - intros (? & ? & ? & ?) ?. split_and!; [done..|]. by apply IH.
Qed.

(** The blocks of a separated list lie within its bounds. *)
Lemma sep_bounds g lo hi bl a n :
  0 <= g → sep g lo hi bl → (a, n) ∈ bl → lo <= a ∧ 1 <= n ∧ a mod 2 = 0 ∧ a + 2 * n <= hi.
Proof.
  intros Hg. revert lo. induction bl as [|[b k] bl IH]; intros lo; simpl; [set_solver|].
  intros (? & ? & ? & H) [[= -> ->]|Hin]%elem_of_cons.
  - apply sep_le in H; lia.
  - apply IH in H; [lia|done].
Qed.

Lemma sep_first g lo hi bl :
  0 <= g → sep g lo hi bl → lo <= hi → hi mod 2 = 0 → lo <= first hi bl <= hi ∧ first hi bl mod 2 = 0.
Proof.
  intros Hg. destruct bl as [|[a n] bl]; simpl; [lia|]. intros (? & ? & ? & H) ??.
  apply sep_le in H; lia.
Qed.

Lemma seg_agree m m' lo hi bl e :
  sep 0 lo hi bl → agree lo hi m m' → seg m bl e → seg m' bl e.
Proof.
  intros Hs Hm. revert lo Hs Hm. induction bl as [|[a n] bl IH]; intros lo Hs Hm; simpl in *; [done|].
  destruct Hs as (? & ? & ? & Hs). intros [Hat Hseg]. pose proof (sep_le _ _ _ _ (Z.le_refl 0) Hs) as Hle. split.
  - eapply slob_at_agree; [done| |done]. eapply agree_sub; [..|exact Hm]; lia.
  - eapply IH; [done| |done]. eapply agree_sub; [..|exact Hm]; lia.
Qed.

Lemma total_cons a n bl : total ((a, n) :: bl) = n + total bl.
Proof. done. Qed.

Lemma total_nil : total [] = 0.
Proof. done. Qed.

Lemma total_app l1 l2 : total (l1 ++ l2) = total l1 + total l2.
Proof. induction l1 as [|[a n] l1 IH]; simpl; [done|]. rewrite !total_cons, IH. lia. Qed.

Lemma total_bound g lo hi bl : 0 <= g → sep g lo hi bl → Z.of_nat (length bl) <= total bl ∧ lo + 2 * total bl <= hi + g.
Proof.
  intros Hg. revert lo. induction bl as [|[a n] bl IH]; intros lo; simpl; [rewrite total_nil; lia|].
  intros (? & ? & ? & H). apply IH in H. rewrite total_cons. lia.
Qed.

Lemma outside_app l1 l2 x : outside (l1 ++ l2) x ↔ outside l1 x ∧ outside l2 x.
Proof. apply Forall_app. Qed.

Lemma outside_cons a n bl x : outside ((a, n) :: bl) x ↔ (x < a ∨ a + 2 * n <= x) ∧ outside bl x.
Proof. unfold outside. by rewrite Forall_cons. Qed.

Lemma sep_outside g lo hi bl x : 0 <= g → sep g lo hi bl → x < lo ∨ hi <= x → outside bl x.
Proof.
  intros Hg Hs Hx. apply Forall_forall. intros [a n] Hin. simpl.
  eapply sep_bounds in Hin; [|done|done]. lia.
Qed.

Lemma frame_trans bl m1 m2 m3 : frame bl m1 m2 → frame bl m2 m3 → frame bl m1 m3.
Proof. intros H1 H2 x Hx. rewrite H2, H1; done. Qed.

Lemma frame_weaken l1 l2 m m' : (∀ x, outside l2 x → outside l1 x) → frame l1 m m' → frame l2 m m'.
Proof. intros H Hf x Hx. by apply Hf, H. Qed.

Lemma frame_agree bl m m' lo hi : frame bl m m' → (∀ x, lo <= x < hi → outside bl x) → agree lo hi m' m.
Proof. intros Hf H x Hx. apply Hf, H, Hx. Qed.

Lemma set_slob_frame m a n nxt bl k : 1 <= n <= k → (a, k) ∈ bl → frame bl m (set_slob m a n nxt).
Proof.
  intros Hn Hin x Hx. unfold outside in Hx. rewrite Forall_forall in Hx. apply Hx in Hin. simpl in Hin.
  apply (set_slob_agree m a n nxt x (x + 1)); lia.
Qed.

Lemma last_fst bl (p : block) : last bl = Some p → ∃ l1, bl = l1 ++ [p].
Proof. intros H. by apply last_Some in H. Qed.

End lists.

(** Everything a block at [a] of a page's list decodes to. *)
Section decode.
Context (pg : Z) (Hpg : page_addr pg).

Lemma page_end_even : (pg + PAGE_SIZE) mod 2 = 0.
Proof. unfold page_addr, PAGE_SIZE in *. dlia. Qed.

Lemma seg_decode m l1 a n l2 :
  sep 0 pg (pg + PAGE_SIZE) (l1 ++ (a, n) :: l2) → seg m (l1 ++ (a, n) :: l2) (pg + PAGE_SIZE) →
  slob_units m a = n ∧ slob_next m a = first (pg + PAGE_SIZE) l2 ∧
  slob_last m a = bool_decide (l2 = []).
Proof.
  intros Hs Hseg. apply sep_app in Hs as [Hs1 Hs2]. apply seg_app in Hseg as [_ [Hat _]].
  simpl in Hs2. destruct Hs2 as (_ & Hn & He & Hs2).
  apply sep_le in Hs1; [|done]. pose proof page_end_even as Hpe.
  pose proof (sep_le _ _ _ _ (Z.le_refl 0) Hs2) as Hle.
  destruct (sep_first 0 _ _ _ (Z.le_refl 0) Hs2 ltac:(lia) Hpe) as [Hf Hfe].
  unfold PAGE_SIZE in *. split_and!.
  - eapply slob_at_units; unfold PAGE_SIZE; try done; lia.
  - eapply slob_at_next; unfold PAGE_SIZE; try done; lia.
  - erewrite slob_at_last; unfold PAGE_SIZE; try done; [|lia..]. apply bool_decide_ext.
    destruct l2 as [|[b k] l2]; simpl in *; [done|]. split; [|done].
    destruct Hs2 as (? & ? & ? & Hs2). apply sep_le in Hs2; lia.
Qed.

End decode.
