(* ===== verification/SlobPage.v ===== *)
(** * Pages of the SLOB allocator (src/indwriterups/project4/slob.c, middle)

    Allocation of a block within one page ([slob_page_alloc], a first-fit scan
    followed by carving) and the reinsertion of a freed block into a page's free
    list (the tail of [slob_free]), with what they do to the list of free blocks
    the page represents. *)

From S2P Require Import Prelude CMem SlobBlock.

Local Open Scope Z_scope.

(** Blocks of a page are at least one unit, so 2049 iterations reach the end of
    any page's free list. *)
Definition page_fuel : nat := 2049.

(** ** Allocation within a page *)

(** Where the scan of [slob_page_alloc] stops. *)
Inductive scan_result :=
| Room (prev : option Z) (cur aligned delta : Z)
| NoRoom.

(** The loop of [slob_page_alloc] up to the test "room enough?". [aligned] and
    [delta] keep their initial NULL and 0 when [align] is 0. *)
Fixpoint slob_page_scan (fuel : nat) (m : memory) (prev : option Z) (cur units align : Z) : option scan_result :=
  match fuel with
  | O => None
  | S fuel' =>
      let avail := slob_units m cur in
      let aligned := if align =? 0 then 0 else ALIGN cur align in
      let delta := if align =? 0 then 0 else (aligned - cur) / SLOB_UNIT in
      if units + delta <=? avail then Some (Room prev cur aligned delta)
      else if slob_last m cur then Some NoRoom
      else slob_page_scan fuel' m (Some cur) (slob_next m cur) units align
  end.

(** [if (prev) set_slob(prev, slob_units(prev), next) else sp->free = next]. *)
Definition slob_link (m : memory) (free : Z) (prev : option Z) (next : Z) : memory * Z :=
  match prev with
  | Some p => (set_slob m p (slob_units m p) next, free)
  | None => (m, next)
  end.

(** Fragment the head of the block when it has to be aligned; yields the memory,
    the new [prev], [cur] and [avail]. *)
Definition slob_split_head (m : memory) (prev : option Z) (cur aligned delta : Z) : memory * option Z * Z * Z :=
  if delta =? 0 then (m, prev, cur, slob_units m cur)
  else
    let next := slob_next m cur in
    let m1 := set_slob m aligned (slob_units m cur - delta) next in
    let m2 := set_slob m1 cur delta aligned in
    (m2, Some cur, aligned, slob_units m2 aligned).

(** The body under "room enough?", up to the update of [sp->units]: the address
    handed out, the memory and [sp->free]. *)
Definition slob_carve (m : memory) (free : Z) (prev : option Z) (cur aligned delta units : Z) : Z * memory * Z :=
  let '(m1, prev1, cur1, avail1) := slob_split_head m prev cur aligned delta in
  let next := slob_next m1 cur1 in
  if avail1 =? units then
    let '(m2, free2) := slob_link m1 free prev1 next in (cur1, m2, free2)
  else
    let '(m2, free2) := slob_link m1 free prev1 (cur1 + SLOB_UNIT * units) in
    (cur1, set_slob m2 (cur1 + SLOB_UNIT * units) (avail1 - units) next, free2).

(** ** Reinsertion of a block *)

(** [while (b > next) { prev = next; next = slob_next(prev); }] *)
Fixpoint slob_find_place (fuel : nat) (m : memory) (b prev next : Z) : option (Z * Z) :=
  match fuel with
  | O => None
  | S fuel' => if next <? b then slob_find_place fuel' m b next (slob_next m next) else Some (prev, next)
  end.

(** The code of [slob_free] after [sp->units += units]: the memory and
    [sp->free]. [units] is a [slobidx_t]. *)
Definition slob_reinsert (fuel : nat) (m : memory) (free b units : Z) : option (memory * Z) :=
  if b <? free then
    let '(units1, free1) :=
      if b + SLOB_UNIT * units =? free
      then (s16 (units + slob_units m free), slob_next m free) else (units, free) in
    Some (set_slob m b units1 free1, b)
  else
    '(prev, next) ← slob_find_place fuel m b free (slob_next m free);
    let m1 :=
      if negb (slob_last m prev) && (b + SLOB_UNIT * units =? next)
      then set_slob m b (s16 (units + slob_units m next)) (slob_next m next)
      else set_slob m b units next in
    let m2 :=
      if prev + SLOB_UNIT * slob_units m1 prev =? b
      then set_slob m1 prev (s16 (slob_units m1 b + slob_units m1 prev)) (slob_next m1 b)
      else set_slob m1 prev (slob_units m1 prev) b in
    Some (m2, free).

(** ** What they do to the list of free blocks *)

(** Units lost in front of a block at [a] to align it. *)
Definition head_gap (align a : Z) : Z :=
  if align =? 0 then 0 else (ALIGN a align - a) / SLOB_UNIT.

(** First fit: the test of the scan on a block. *)
Definition fits (align units : Z) (b : block) : Prop := units + head_gap align b.1 <= b.2.

#[global] Instance fits_dec align units b : Decision (fits align units b).
Proof. unfold fits. apply _. Defined.

(** What remains of a block once [units] units were carved out of it. *)
Definition rest_of (align units : Z) (b : block) : list block :=
  let d := head_gap align b.1 in
  (if decide (d = 0) then [] else [(b.1, d)]) ++
  (if decide (b.2 - d = units) then [] else [(b.1 + SLOB_UNIT * (d + units), b.2 - d - units)]).

(** A block of [n] units at [b] absorbs the block that starts at its end. *)
Definition absorb (b n : Z) (l : list block) : Z * list block :=
  match l with
  | (a, k) :: l' => if b + SLOB_UNIT * n =? a then (n + k, l') else (n, l)
  | [] => (n, [])
  end.

(** Coalescing insertion in address order. *)
Fixpoint insert_block (b n : Z) (l : list block) : list block :=
  match l with
  | [] => [(b, n)]
  | (a, k) :: l' =>
      if b <? a then let '(n', l'') := absorb b n l in (b, n') :: l''
      else if a + SLOB_UNIT * k =? b then let '(n', l'') := absorb b n l' in (a, k + n') :: l''
      else (a, k) :: insert_block b n l'
  end.

(** An alignment the allocator is called with: none, or a power of two. *)
Definition good_align (align : Z) : Prop := align = 0 ∨ ∃ k, 1 <= k ∧ align = 2 ^ k.

Lemma page_fuel_value : Z.of_nat page_fuel = 2049.
Proof. vm_compute. reflexivity. Qed.

#[global] Opaque page_fuel.

(** ** The scan is first fit *)

Section page.
Context (pg : Z) (Hpg : page_addr pg).
Implicit Types bl l : list block.
Local Abbreviation pend := (pg + PAGE_SIZE).

Lemma slob_page_scan_spec fuel m l1 l2 units align :
  sep 0 pg pend (l1 ++ l2) → seg m (l1 ++ l2) pend → l2 ≠ [] → (length l2 <= fuel)%nat →
  slob_page_scan fuel m (fst <$> last l1) (first pend l2) units align =
    Some (match list_find (fits align units) l2 with
          | Some (i, (a, n)) => Room (fst <$> last (l1 ++ take i l2)) a
              (if align =? 0 then 0 else ALIGN a align) (head_gap align a)
          | None => NoRoom
          end).
Proof.
  revert l1 fuel. induction l2 as [|[a n] l2 IH]; intros l1 [|fuel] Hs Hseg Hne Hf; simpl in Hf; try done; try lia.
  destruct (seg_decode pg Hpg m l1 a n l2 Hs Hseg) as (Hu & Hnx & Hl).
  simpl. rewrite Hu, Hnx, Hl.
  replace (if align =? 0 then 0 else _) with (head_gap align a) by (unfold head_gap; by destruct (align =? 0)).
  destruct (decide (fits align units (a, n))) as [Hfit|Hfit]; unfold fits in Hfit; simpl in Hfit.
  - rewrite (proj2 (Z.leb_le _ _)) by done. simpl. by rewrite app_nil_r.
  - rewrite (proj2 (Z.leb_gt _ _)) by lia. case_bool_decide as Hl2; [by subst l2|].
    rewrite (cons_middle (a, n) l1 l2), app_assoc in Hs, Hseg.
    specialize (IH (l1 ++ [(a, n)]) fuel Hs Hseg Hl2 ltac:(lia)). rewrite last_snoc in IH. simpl in IH.
    rewrite IH. destruct (list_find (fits align units) l2) as [[i [b k]]|]; simpl; [|done].
    by rewrite <- app_assoc.
Qed.

(** Redirecting the last link of a segment. *)
Lemma slob_link_spec m l1 e e' hi :
  sep 0 pg hi l1 → seg m l1 e → e mod 2 = 0 → e' mod 2 = 0 → hi <= e <= pend → hi <= e' <= pend → pg <= hi → hi < pend →
  let '(m', f') := slob_link m (first e l1) (fst <$> last l1) e' in
  f' = first e' l1 ∧ seg m' l1 e' ∧ frame l1 m m'.
Proof.
  intros Hs Hseg He He' Hhe Hhe' Hpghi Hhi.
  destruct l1 as [|[p k] l1 _] using rev_ind.
  { simpl. split_and!; done. }
  rewrite last_snoc. simpl. apply seg_app in Hseg as [Hseg [Hat _]]. simpl in Hat.
  apply sep_app in Hs as [Hs1 Hs2]. simpl in Hs2. destruct Hs2 as (_ & Hk & Hpe & Hs2).
  pose proof (sep_le _ _ _ _ (Z.le_refl 0) Hs1) as Hp. unfold PAGE_SIZE in *.
  rewrite (slob_at_units pg Hpg m p k e) by (done || unfold PAGE_SIZE; lia).
  split_and!.
  - rewrite !first_app. done.
  - apply seg_app. split; [|split; [|done]]; simpl.
    + eapply seg_agree; [exact Hs1| |done]. symmetry. apply set_slob_agree; lia.
    + apply (set_slob_at pg Hpg); unfold PAGE_SIZE; try done; lia.
  - apply (set_slob_frame _ _ _ _ _ k); [lia|set_solver].
Qed.

(** ** Carving *)

Lemma head_gap_spec align a :
  good_align align → a mod 2 = 0 →
  0 <= head_gap align a ∧ (align ≠ 0 → ALIGN a align = a + 2 * head_gap align a ∧ ALIGN a align mod align = 0).
Proof.
  unfold head_gap, SLOB_UNIT. intros [->|(k & Hk & ->)] Ha; [simpl; lia|].
  destruct (ALIGN_spec a k ltac:(lia)) as [Hb Hm].
  assert (ALIGN a (2 ^ k) mod 2 = 0).
  { replace (2 ^ k) with (2 * 2 ^ (k - 1)) in Hm by (rewrite <- Z.pow_succ_r by lia; f_equal; lia).
    replace (2 ^ k) with (2 * 2 ^ (k - 1)) by (rewrite <- Z.pow_succ_r by lia; f_equal; lia).
    apply Z.mod_divide; [lia|]. apply Z.mod_divide in Hm; [|lia].
    etransitivity; [|exact Hm]. apply Z.divide_factor_l. }
  destruct (Z.eqb_spec (2 ^ k) 0); dlia.
Qed.

Definition gap_block (align : Z) (b : block) : list block :=
  if decide (head_gap align b.1 = 0) then [] else [(b.1, head_gap align b.1)].

Lemma slob_split_head_spec m l1 a n l2 align :
  sep 0 pg pend (l1 ++ (a, n) :: l2) → seg m (l1 ++ (a, n) :: l2) pend → good_align align →
  head_gap align a < n →
  let L1 := l1 ++ gap_block align (a, n) in
  let d := head_gap align a in
  ∃ m', slob_split_head m (fst <$> last l1) a (if align =? 0 then 0 else ALIGN a align) d =
      (m', fst <$> last L1, a + 2 * d, n - d) ∧
    sep 0 pg pend (L1 ++ (a + 2 * d, n - d) :: l2) ∧ seg m' (L1 ++ (a + 2 * d, n - d) :: l2) pend ∧
    first pend (l1 ++ (a, n) :: l2) = first (a + 2 * d) L1 ∧ frame (l1 ++ (a, n) :: l2) m m'.
Proof.
  intros Hs Hseg Hal Hd L1 d. destruct (seg_decode pg Hpg m l1 a n l2 Hs Hseg) as (Hu & Hnx & _).
  unfold L1, gap_block, slob_split_head. simpl. fold d.
  pose proof Hs as Hs'. apply sep_app in Hs' as [Hs1 (_ & Hn & Hae & Hs2)].
  destruct (head_gap_spec align a Hal Hae) as [Hd0 Hda]. fold d in Hd, Hd0, Hda.
  destruct (decide (d = 0)) as [E|E].
  { rewrite E, app_nil_r. simpl. rewrite Hu. exists m. replace (a + 2 * 0) with a by lia. replace (n - 0) with n by lia.
    split_and!; try done. by rewrite first_app. }
  rewrite (proj2 (Z.eqb_neq d 0)) by done.
  assert (align ≠ 0) as Hal0. { intros ->. apply E. done. }
  rewrite (proj2 (Z.eqb_neq align 0)) by done. destruct (Hda Hal0) as [-> _]. rewrite Hu, Hnx.
  pose proof (sep_le _ _ _ _ (Z.le_refl 0) Hs1) as Ha. pose proof (sep_le _ _ _ _ (Z.le_refl 0) Hs2) as Hn2.
  pose proof (page_end_even pg Hpg) as Hpe.
  destruct (sep_first 0 _ _ _ (Z.le_refl 0) Hs2 ltac:(lia) Hpe) as [Hf Hfe].
  set (m1 := set_slob m (a + 2 * d) (n - d) (first pend l2)).
  set (m2 := set_slob m1 a d (a + 2 * d)).
  assert (pg <= a + 2 * d < pend ∧ n <= 2048) as [Hb Hb'] by (unfold PAGE_SIZE in *; lia).
  assert (sep 0 pg pend ((l1 ++ [(a, d)]) ++ (a + 2 * d, n - d) :: l2)) as Hsep.
  { rewrite <- app_assoc. apply sep_app. split; [done|]. simpl.
    split_and!; try lia; [dlia|]. by replace (a + 2 * d + 2 * (n - d) + 0) with (a + 2 * n + 0) by lia. }
  assert (seg m2 ((l1 ++ [(a, d)]) ++ (a + 2 * d, n - d) :: l2) pend) as Hseg2.
  { rewrite <- app_assoc. apply seg_app in Hseg as [Hsg1 [_ Hsg2]]. apply seg_app. simpl.
    split_and!.
    - eapply (seg_agree m); [exact Hs1| |exact Hsg1].
      transitivity m1; symmetry; apply set_slob_agree; lia.
    - apply (set_slob_at pg Hpg); try done; try lia; dlia.
    - eapply (slob_at_agree m1); [lia| |apply (set_slob_at pg Hpg); try done; lia].
      symmetry. apply set_slob_agree; lia.
    - eapply (seg_agree m); [exact Hs2| |exact Hsg2].
      transitivity m1; symmetry; apply set_slob_agree; lia. }
  destruct (seg_decode pg Hpg m2 _ _ _ _ Hsep Hseg2) as (Hu2 & _ & _).
  exists m2. rewrite last_snoc, Hu2. split_and!; try done.
  - by rewrite !first_app.
  - intros x Hx. apply outside_app in Hx as [_ [Hx _]%outside_cons].
    transitivity (byte m1 x); [apply (set_slob_agree m1 a d _ x (x + 1))|apply (set_slob_agree m _ _ _ x (x + 1))]; lia.
Qed.

Lemma rest_of_unfold align units a n :
  let d := head_gap align a in
  rest_of align units (a, n) = gap_block align (a, n) ++
    (if decide (n - d = units) then [] else [(a + 2 * d + 2 * units, n - d - units)]).
Proof. unfold rest_of, gap_block, SLOB_UNIT. simpl. by rewrite Z.mul_add_distr_l, Z.add_assoc. Qed.

Lemma rest_of_sep l1 a n l2 align units :
  sep 2 pg pend (l1 ++ (a, n) :: l2) → good_align align → 1 <= units → fits align units (a, n) →
  sep 2 pg pend (l1 ++ rest_of align units (a, n) ++ l2).
Proof.
  intros Hs Hal Hu Hfit. apply sep_app in Hs as [Hs1 (_ & Hn & Hae & Hs2)].
  unfold fits in Hfit. destruct (head_gap_spec align a Hal Hae) as [Hd _]. unfold rest_of, SLOB_UNIT in *. simpl in *.
  eapply sep_join; [done|exact Hs1|]. pose proof (sep_le _ _ _ _ (Z.le_0_2) Hs2) as Hle.
  repeat case_decide; simpl; conjs; try lia; try dlia;
    (eapply sep_lower; [|exact Hs2]; lia) || lia.
Qed.

Lemma rest_of_total align units a n :
  total (rest_of align units (a, n)) = n - units.
Proof. unfold rest_of. simpl. repeat case_decide; simpl; rewrite ?total_cons, ?total_nil; lia. Qed.

Lemma slob_carve_spec m l1 a n l2 align units :
  sep 2 pg pend (l1 ++ (a, n) :: l2) → seg m (l1 ++ (a, n) :: l2) pend →
  good_align align → 1 <= units → fits align units (a, n) →
  ∃ m', slob_carve m (first pend (l1 ++ (a, n) :: l2)) (fst <$> last l1) a
          (if align =? 0 then 0 else ALIGN a align) (head_gap align a) units =
        (a + 2 * head_gap align a, m', first pend (l1 ++ rest_of align units (a, n) ++ l2)) ∧
    seg m' (l1 ++ rest_of align units (a, n) ++ l2) pend ∧ frame (l1 ++ (a, n) :: l2) m m'.
Proof.
  intros Hs2 Hseg Hal Hu Hfit. unfold fits in Hfit. simpl in Hfit.
  pose proof (page_end_even pg Hpg) as Hpe.
  assert (sep 0 pg pend (l1 ++ (a, n) :: l2)) as Hs.
  { eapply sep_weaken; [|..|exact Hs2]; unfold PAGE_SIZE; lia. }
  destruct (slob_split_head_spec m l1 a n l2 align Hs Hseg Hal ltac:(lia)) as (m1 & Hsplit & Hs1 & Hseg1 & Hfirst & Hfr1).
  rewrite rest_of_unfold. unfold slob_carve. rewrite Hsplit, Hfirst. clear Hsplit Hfirst Hseg.
  set (d := head_gap align a) in *. set (L1 := l1 ++ gap_block align (a, n)) in *.
  assert (0 <= d) as Hd0. { apply sep_app in Hs as [_ (_ & _ & Hae & _)]. by apply head_gap_spec. }
  destruct (seg_decode pg Hpg m1 _ _ _ _ Hs1 Hseg1) as (_ & Hnx & _). rewrite Hnx.
  pose proof Hs1 as Hs1'. apply sep_app in Hs1' as [HsL (_ & Hk & Hcur & Hsl2)]. rewrite Z.sub_0_r in HsL.
  pose proof Hseg1 as Hseg1'. apply seg_app in Hseg1' as [HsgL [_ Hsgl2]]. simpl in HsgL.
  pose proof (sep_le _ _ _ _ (Z.le_refl 0) HsL) as Hle1. pose proof (sep_le _ _ _ _ (Z.le_refl 0) Hsl2) as Hle2.
  destruct (sep_first 0 _ _ _ (Z.le_refl 0) Hsl2 ltac:(lia) Hpe) as [Hf Hfe].
  assert (∀ x, outside (l1 ++ (a, n) :: l2) x → outside L1 x) as Hout.
  { intros x. unfold L1, gap_block. rewrite !outside_app, outside_cons. intros (? & ? & ?). split; [done|].
    case_decide; [constructor|]. apply outside_cons. split; [simpl; fold d; lia|constructor]. }
  destruct (Z.eqb_spec (n - d) units) as [E|E].
  - rewrite decide_True by done. rewrite app_nil_r, app_assoc. fold L1.
    pose proof (slob_link_spec m1 L1 (a + 2 * d) (first pend l2) (a + 2 * d) HsL HsgL Hcur Hfe
      ltac:(lia) ltac:(lia) ltac:(lia) ltac:(lia)) as Hlink.
    destruct (slob_link m1 _ _ _) as [m2 f2]. destruct Hlink as (-> & Hsg2 & Hfr2).
    exists m2. unfold SLOB_UNIT. rewrite first_app. split_and!; [done| |].
    + apply seg_app. split; [done|]. eapply seg_agree; [exact Hsl2| |exact Hsgl2].
      symmetry. eapply frame_agree; [exact Hfr2|]. intros x Hx. eapply (sep_outside 0); [done|exact HsL|lia].
    + eapply frame_trans; [exact Hfr1|]. eapply frame_weaken; [exact Hout|done].
  - rewrite decide_False by done. rewrite <- app_assoc, app_assoc. fold L1. simpl. unfold SLOB_UNIT.
    set (r := a + 2 * d + 2 * units). assert (r mod 2 = 0) as Hre by (unfold r; dlia).
    pose proof (slob_link_spec m1 L1 (a + 2 * d) r (a + 2 * d) HsL HsgL Hcur Hre
      ltac:(lia) ltac:(unfold r; lia) ltac:(lia) ltac:(lia)) as Hlink.
    destruct (slob_link m1 _ _ _) as [m2 f2]. destruct Hlink as (-> & Hsg2 & Hfr2).
    assert (agree (a + 2 * d) pend m1 m2) as Hag2.
    { symmetry. eapply frame_agree; [exact Hfr2|]. intros x Hx. eapply (sep_outside 0); [done|exact HsL|lia]. }
    set (m3 := set_slob m2 r (n - d - units) (first pend l2)). exists m3. split_and!.
    + by rewrite first_app.
    + apply seg_app. simpl. split_and!.
      * eapply seg_agree; [exact HsL| |exact Hsg2]. symmetry. apply set_slob_agree; lia.
      * apply (set_slob_at pg Hpg); try done; unfold r, PAGE_SIZE in *; lia.
      * eapply (seg_agree m1); [exact Hsl2| |exact Hsgl2]. transitivity m2.
        -- eapply agree_sub; [..|exact Hag2]; lia.
        -- symmetry. apply set_slob_agree; unfold r; lia.
    + eapply frame_trans; [exact Hfr1|]. eapply frame_trans; [eapply frame_weaken; [exact Hout|exact Hfr2]|].
      intros x Hx. apply outside_app in Hx as [_ [Hx _]%outside_cons].
      apply (set_slob_agree m2 _ _ _ x (x + 1)); unfold r; lia.
Qed.

(** ** Reinsertion *)

(** The block [(b, n)] overlaps none of [bl]. *)
Definition apart (b n : Z) (bl : list block) : Prop :=
  Forall (λ c, c.1 + 2 * c.2 <= b ∨ b + 2 * n <= c.1) bl.

Lemma absorb_spec m b n l2 :
  1 <= n → b mod 2 = 0 → pg <= b → b + 2 * n <= pend →
  sep 2 (b + 2 * n) pend l2 → seg m l2 pend →
  let '(n', l2') := absorb b n l2 in
  n <= n' ∧ sep 2 (b + 2 * n' + 2) pend l2' ∧ seg m l2' pend ∧ b + 2 * n' <= pend ∧
  n' + total l2' = n + total l2 ∧
  n' = (if negb (bool_decide (l2 = [])) && (b + SLOB_UNIT * n =? first pend l2) then n + slob_units m (first pend l2) else n) ∧
  first pend l2' = (if negb (bool_decide (l2 = [])) && (b + SLOB_UNIT * n =? first pend l2) then slob_next m (first pend l2) else first pend l2) ∧
  (∀ x, outside ((b, n) :: l2) x → x < b ∨ b + 2 * n' <= x).
Proof.
  intros Hn Hb Hpb Hbe Hs Hseg. unfold SLOB_UNIT. destruct l2 as [|[a k] l2]; simpl.
  { split_and!; try lia. intros x [? _]%outside_cons. done. }
  assert (sep 0 pg pend ((a, k) :: l2)) as Hs0.
  { eapply sep_weaken; [|..|eapply sep_lower; [|exact Hs]]; unfold PAGE_SIZE; lia. }
  destruct (seg_decode pg Hpg m [] a k l2 Hs0 Hseg) as (Hu & Hnx & _).
  simpl in Hs, Hseg. destruct Hs as (Ha & Hk & Hae & Hs). destruct Hseg as [Hat Hseg].
  pose proof (sep_le _ _ _ _ Z.le_0_2 Hs) as Hle. rewrite Hu, Hnx, total_cons. unfold SLOB_UNIT.
  destruct (Z.eqb_spec (b + 2 * n) a) as [<-|E]; simpl.
  - split_and!; try done; rewrite ?total_cons; try lia; [eapply sep_lower; [|exact Hs]; lia|].
    intros x [? [? _]%outside_cons]%outside_cons. lia.
  - split_and!; try done; rewrite ?total_cons; try lia; [dlia|].
    intros x [? _]%outside_cons. done.
Qed.

Lemma insert_block_place b n l1 p k l2 :
  sep 2 pg pend (l1 ++ (p, k) :: l2) → p < b → b < first pend l2 →
  insert_block b n (l1 ++ (p, k) :: l2) =
    l1 ++ (let '(n', l2') := absorb b n l2 in
           if p + SLOB_UNIT * k =? b then (p, k + n') :: l2' else (p, k) :: (b, n') :: l2').
Proof.
  unfold SLOB_UNIT. intros Hs Hp Hb. apply sep_app in Hs as [Hs1 Hs2]. revert Hs1. generalize pg.
  induction l1 as [|[a j] l1 IH]; intros lo Hs1; simpl in *.
  - change SLOB_UNIT with 2. rewrite (proj2 (Z.ltb_ge b p)) by lia. destruct (absorb b n l2) as [n' l2'] eqn:E.
    destruct (_ =? b); [done|]. f_equal. destruct l2 as [|[c i] l2]; simpl in *; [by simplify_eq|].
    rewrite (proj2 (Z.ltb_lt b c)) by lia. destruct (_ =? c); by simplify_eq.
  - destruct Hs1 as (Ha & Hj & _ & Hs1). pose proof (sep_le _ _ _ _ Z.le_0_2 Hs1) as Hle.
    change SLOB_UNIT with 2. rewrite (proj2 (Z.ltb_ge b a)) by lia. rewrite (proj2 (Z.eqb_neq (a + 2 * j) b)) by lia.
    f_equal. by eapply IH.
Qed.

Lemma slob_find_place_spec fuel m b n l1 p k l2 :
  sep 0 pg pend (l1 ++ (p, k) :: l2) → seg m (l1 ++ (p, k) :: l2) pend →
  1 <= n → b + 2 * n <= pend → apart b n ((p, k) :: l2) → p < b → (length l2 < fuel)%nat →
  ∃ l1' p' k' l2', l1 ++ (p, k) :: l2 = l1' ++ (p', k') :: l2' ∧ p' < b < first pend l2' ∧
    slob_find_place fuel m b p (first pend l2) = Some (p', first pend l2').
Proof.
  revert l1 p k fuel. induction l2 as [|[a j] l2 IH]; intros l1 p k [|fuel] Hs Hseg Hn Hbe Hap Hp Hf; simpl in Hf; try lia.
  - exists l1, p, k, []. simpl. rewrite (proj2 (Z.ltb_ge _ b)) by lia. split_and!; try done; lia.
  - simpl. destruct (Z.ltb_spec a b) as [Hab|Hab].
    + rewrite (cons_middle (p, k) l1), app_assoc in Hs, Hseg |- *.
      destruct (seg_decode pg Hpg m _ a j l2 Hs Hseg) as (_ & Hnx & _). rewrite Hnx.
      apply Forall_cons in Hap as [_ Hap]. apply IH; try done; lia.
    + exists l1, p, k, ((a, j) :: l2). simpl. split_and!; try done.
      apply Forall_cons in Hap as [_ [Hap _]%Forall_cons]. simpl in Hap.
      apply sep_app in Hs as [_ (_ & _ & _ & _ & Hj & _)]. lia.
Qed.

(** Writing the merged block [(b, n')] in front of what it did not absorb. *)
Lemma absorb_write m b n n' l2' :
  1 <= n → n <= n' → b mod 2 = 0 → pg <= b → b + 2 * n' <= pend →
  sep 2 (b + 2 * n' + 2) pend l2' → seg m l2' pend →
  seg (set_slob m b n' (first pend l2')) ((b, n') :: l2') pend ∧ sep 2 b pend ((b, n') :: l2').
Proof.
  intros Hn Hnn Hb Hpb Hbe Hs Hseg. pose proof (page_end_even pg Hpg) as Hpe.
  assert (sep 0 (b + 2 * n') pend l2') as Hs0.
  { eapply sep_weaken; [|..|eapply sep_lower; [|exact Hs]]; lia. }
  destruct (sep_first 0 _ _ _ (Z.le_refl 0) Hs0 ltac:(lia) Hpe) as [Hf Hfe].
  split; [|simpl; split_and!; try done; lia]. split.
  - apply (set_slob_at pg Hpg); unfold PAGE_SIZE in *; try done; lia.
  - eapply (seg_agree m); [exact Hs0| |done]. symmetry. apply set_slob_agree; lia.
Qed.

(** Insertion in front of the list. *)
Lemma slob_reinsert_front m fuel b n l :
  sep 2 (b + 2 * n) pend l → seg m l pend → l ≠ [] → 1 <= n → b mod 2 = 0 → pg <= b → b + 2 * n <= pend →
  b < first pend l →
  ∃ m', slob_reinsert fuel m (first pend l) b n = Some (m', first pend (insert_block b n l)) ∧
    seg m' (insert_block b n l) pend ∧ sep 2 pg pend (insert_block b n l) ∧
    total (insert_block b n l) = total l + n ∧ frame ((b, n) :: l) m m'.
Proof.
  intros Hs Hseg Hne Hn Hb Hpb Hbe Hlt. pose proof (absorb_spec m b n l Hn Hb Hpb Hbe Hs Hseg) as Ha.
  assert (insert_block b n l = (b, (absorb b n l).1) :: (absorb b n l).2) as Hins.
  { destruct l as [|[a k] l]; [done|]. simpl in Hlt |- *. rewrite (proj2 (Z.ltb_lt b a)) by done. by destruct (_ =? a). }
  rewrite Hins. destruct (absorb b n l) as [n' l2']. destruct Ha as (Hnn & Hs' & Hseg' & Hbe' & Ht & Hn' & Hf' & Ho).
  rewrite bool_decide_false in Hn', Hf' by done. simpl in Hn', Hf'. cbn [fst snd first].
  unfold slob_reinsert. rewrite (proj2 (Z.ltb_lt _ _)) by done.
  assert ((if b + SLOB_UNIT * n =? first pend l then (s16 (n + slob_units m (first pend l)), slob_next m (first pend l))
           else (n, first pend l)) = (n', first pend l2')) as ->.
  { destruct (_ =? _); rewrite Hn', Hf'; [|done]. f_equal. apply wrap_s_small; [done|]. unfold PAGE_SIZE in *. cbn. lia. }
  destruct (absorb_write m b n n' l2' Hn Hnn Hb Hpb Hbe' Hs' Hseg') as [Hw Hsep].
  eexists. split; [done|]. split; [exact Hw|]. split; [|split].
  - eapply sep_lower; [|exact Hsep]. lia.
  - rewrite total_cons. lia.
  - intros x Hx. apply Ho in Hx. apply (set_slob_agree m b n' _ x (x + 1)); lia.
Qed.

(** Insertion behind the block [(p, k)]. *)
Lemma slob_reinsert_behind m b n l1 p k l2 :
  sep 2 pg pend (l1 ++ (p, k) :: l2) → seg m (l1 ++ (p, k) :: l2) pend →
  1 <= n → b mod 2 = 0 → b + 2 * n <= pend → p + 2 * k <= b → sep 2 (b + 2 * n) pend l2 → b < first pend l2 →
  let m1 := if negb (slob_last m p) && (b + SLOB_UNIT * n =? first pend l2)
            then set_slob m b (s16 (n + slob_units m (first pend l2))) (slob_next m (first pend l2))
            else set_slob m b n (first pend l2) in
  let m2 := if p + SLOB_UNIT * slob_units m1 p =? b
            then set_slob m1 p (s16 (slob_units m1 b + slob_units m1 p)) (slob_next m1 b)
            else set_slob m1 p (slob_units m1 p) b in
  let l' := insert_block b n (l1 ++ (p, k) :: l2) in
  first pend l' = first pend (l1 ++ (p, k) :: l2) ∧ seg m2 l' pend ∧ sep 2 pg pend l' ∧
  total l' = total (l1 ++ (p, k) :: l2) + n ∧ frame ((b, n) :: l1 ++ (p, k) :: l2) m m2.
Proof.
  intros Hs Hseg Hn Hb Hbe Hpb Hs2 Hlt m1 m2 l'. unfold l'.
  assert (sep 0 pg pend (l1 ++ (p, k) :: l2)) as Hs0.
  { eapply sep_weaken; [|..|exact Hs]; unfold PAGE_SIZE; lia. }
  destruct (seg_decode pg Hpg m l1 p k l2 Hs0 Hseg) as (Hu & Hnx & Hl).
  pose proof Hs as Hs'. apply sep_app in Hs' as [Hs1 (_ & Hk & Hpe & _)].
  pose proof (sep_le _ _ _ _ Z.le_0_2 Hs1) as Hp.
  pose proof Hseg as Hseg'. apply seg_app in Hseg' as [Hsg1 [Hatp Hsg2]]. simpl in Hsg1.
  pose proof (absorb_spec m b n l2 Hn Hb ltac:(lia) Hbe Hs2 Hsg2) as Ha.
  rewrite insert_block_place by (done || lia).
  destruct (absorb b n l2) as [n' l2']. destruct Ha as (Hnn & Hsl' & Hsgl' & Hbe' & Ht & Hn' & Hf' & Ho).
  assert (m1 = set_slob m b n' (first pend l2')) as Em1.
  { unfold m1. rewrite Hl. clear Ho Hsgl' Hsl' Ht m1 m2. revert Hn' Hf'.
    destruct (_ && _); intros Hn' Hf'; rewrite Hf', <- Hn'; [|done].
    f_equal. apply wrap_s_small; [done|]. unfold PAGE_SIZE in *. cbn. lia. }
  unfold m2. clear m2. rewrite Em1. clear Em1 m1. set (m1 := set_slob m b n' (first pend l2')).
  destruct (absorb_write m b n n' l2' Hn Hnn Hb ltac:(lia) Hbe' Hsl' Hsgl') as [Hw Hsw]. fold m1 in Hw.
  destruct Hw as [Hatb Hsgl2]. destruct Hsw as (_ & _ & _ & Hsw).
  assert (sep 0 (b + 2 * n') pend l2') as Hsl0.
  { eapply sep_weaken; [|..|eapply sep_lower; [|exact Hsw]]; lia. }
  pose proof (page_end_even pg Hpg) as Hpend.
  destruct (sep_first 0 _ _ _ (Z.le_refl 0) Hsl0 ltac:(lia) Hpend) as [Hf2 Hf2e].
  assert (sep 0 pg p l1) as Hs10. { pose proof Hs0 as Hs0'. apply sep_app in Hs0' as [Hs0' _]. by rewrite Z.sub_0_r in Hs0'. }
  assert (agree pg b m m1) as Hag by (symmetry; apply set_slob_agree; lia).
  assert (seg m1 l1 p) as Hsg1'.
  { eapply seg_agree; [exact Hs10| |exact Hsg1]. eapply agree_sub; [..|exact Hag]; lia. }
  assert (slob_at m1 p k (first pend l2)) as Hatp'.
  { eapply slob_at_agree; [done| |exact Hatp]. eapply agree_sub; [..|exact Hag]; lia. }
  assert (sep 0 (b + 2 * n) pend l2) as Hs20 by (eapply sep_weaken; [|..|exact Hs2]; lia).
  destruct (sep_first 0 _ _ _ (Z.le_refl 0) Hs20 ltac:(lia) Hpend) as [Hf Hfe].
  rewrite (slob_at_units pg Hpg m1 p k (first pend l2)) by (done || unfold PAGE_SIZE in *; lia).
  rewrite (slob_at_units pg Hpg m1 b n' (first pend l2')) by (done || unfold PAGE_SIZE in *; lia).
  rewrite (slob_at_next pg Hpg m1 b n' (first pend l2')) by (done || unfold PAGE_SIZE in *; lia).
  assert (frame ((b, n) :: l1 ++ (p, k) :: l2) m m1) as Hfr1.
  { intros x [Hx Hx']%outside_cons. apply outside_app in Hx' as [_ [_ Hx']%outside_cons].
    apply (set_slob_agree m b n' _ x (x + 1)); [lia| |lia].
    enough (x < b ∨ b + 2 * n' <= x) by lia. apply Ho. by apply outside_cons. }
  unfold SLOB_UNIT. destruct (Z.eqb_spec (p + 2 * k) b) as [E|E].
  - rewrite wrap_s_small by (unfold PAGE_SIZE in *; cbn; lia). rewrite (Z.add_comm n' k).
    set (m2 := set_slob m1 p (k + n') (first pend l2')). conjs.
    + by rewrite !first_app.
    + apply seg_app. simpl. conjs.
      * eapply seg_agree; [exact Hs10| |exact Hsg1']. symmetry. apply set_slob_agree; lia.
      * apply (set_slob_at pg Hpg); unfold PAGE_SIZE in *; try done; lia.
      * eapply seg_agree; [exact Hsl0| |exact Hsgl2]. symmetry. apply set_slob_agree; lia.
    + apply sep_app. split; [done|]. simpl. conjs; try done; try lia. by replace (p + 2 * (k + n') + 2) with (b + 2 * n' + 2) by lia.
    + rewrite !total_app, !total_cons. lia.
    + intros x Hx. rewrite <- (Hfr1 x Hx). apply outside_cons in Hx as [Hx Hx'].
      apply outside_app in Hx' as [_ [Hx' Hx2]%outside_cons].
      apply (set_slob_agree m1 p (k + n') _ x (x + 1)); [lia| |lia].
      enough (x < b ∨ b + 2 * n' <= x) by lia. apply Ho. by apply outside_cons.
  - set (m2 := set_slob m1 p k b). conjs.
    + by rewrite !first_app.
    + apply seg_app. simpl. conjs.
      * eapply seg_agree; [exact Hs10| |exact Hsg1']. symmetry. apply set_slob_agree; lia.
      * apply (set_slob_at pg Hpg); unfold PAGE_SIZE in *; try done; lia.
      * eapply slob_at_agree; [|..|exact Hatb]; [lia|]. symmetry. apply set_slob_agree; lia.
      * eapply seg_agree; [exact Hsl0| |exact Hsgl2]. symmetry. apply set_slob_agree; lia.
    + apply sep_app. split; [done|]. simpl. conjs; try done; try lia. dlia.
    + rewrite !total_app, !total_cons. lia.
    + eapply frame_trans; [exact Hfr1|]. apply (set_slob_frame _ _ _ _ _ k); [lia|set_solver].
Qed.

Lemma sep_split_apart l1 p k l2 b n :
  sep 2 pg pend (l1 ++ (p, k) :: l2) → apart b n (l1 ++ (p, k) :: l2) → 1 <= n → p < b → b < first pend l2 →
  b + 2 * n <= pend → p + 2 * k <= b ∧ sep 2 (b + 2 * n) pend l2.
Proof.
  intros Hs Hap Hn Hp Hb Hbe. apply Forall_app in Hap as [_ Hap]. apply Forall_cons in Hap as [Hpk Hap].
  apply sep_app in Hs as [_ (_ & Hk & _ & Hs)]. simpl in Hpk. split; [lia|].
  destruct l2 as [|[a j] l2]; simpl in *; [lia|]. apply Forall_cons in Hap as [Hap _]. simpl in Hap.
  destruct Hs as (? & ? & ? & ?). conjs; try done. lia.
Qed.

Lemma slob_reinsert_spec m bl b n fuel :
  sep 2 pg pend bl → seg m bl pend → bl ≠ [] → 1 <= n → b mod 2 = 0 → pg <= b → b + 2 * n <= pend →
  apart b n bl → (length bl <= fuel)%nat →
  ∃ m', slob_reinsert fuel m (first pend bl) b n = Some (m', first pend (insert_block b n bl)) ∧
    seg m' (insert_block b n bl) pend ∧ sep 2 pg pend (insert_block b n bl) ∧
    total (insert_block b n bl) = total bl + n ∧ frame ((b, n) :: bl) m m'.
Proof.
  intros Hs Hseg Hne Hn Hb Hpb Hbe Hap Hf.
  destruct bl as [|[a k] bl]; [done|]. destruct (decide (b < a)) as [Hlt|Hge].
  - apply slob_reinsert_front; try done.
    apply Forall_cons in Hap as [Hak _]. simpl in Hak. simpl in Hs. destruct Hs as (? & ? & ? & ?).
    simpl. conjs; try done. lia.
  - assert (a < b) as Hab.
    { apply Forall_cons in Hap as [Hak _]. simpl in Hak, Hs. destruct Hs as (_ & ? & _). lia. }
    assert (sep 0 pg pend ((a, k) :: bl)) as Hs0 by (eapply sep_weaken; [|..|exact Hs]; unfold PAGE_SIZE; lia).
    destruct (slob_find_place_spec fuel m b n [] a k bl Hs0 Hseg Hn Hbe Hap Hab ltac:(simpl in Hf; lia))
      as (l1 & p & k' & l2 & Heq & [Hp Hlt] & Hfind).
    destruct (seg_decode pg Hpg m [] a k bl Hs0 Hseg) as (_ & Hnx & _).
    unfold slob_reinsert. change (first pend ((a, k) :: bl)) with a.
    rewrite (proj2 (Z.ltb_ge b a)) by lia. rewrite Hnx, Hfind. cbn [mbind option_bind].
    simpl in Heq. rewrite Heq in Hs, Hseg, Hap |- *.
    destruct (sep_split_apart l1 p k' l2 b n Hs Hap Hn Hp Hlt Hbe) as [Hpk Hs2].
    destruct (slob_reinsert_behind m b n l1 p k' l2 Hs Hseg Hn Hb Hbe Hpk Hs2 Hlt) as (Hfirst & Hsg & Hsp & Ht & Hfr).
    eexists. split; [|conjs; [exact Hsg|exact Hsp|exact Ht|exact Hfr]].
    do 2 f_equal. rewrite Hfirst, <- Heq. done.
Qed.

(** ** Carving followed by reinsertion *)

(** Reinserting the units carved out of a block restores the list. *)
Lemma insert_rest_of l1 a n l2 align units :
  sep 2 pg pend (l1 ++ (a, n) :: l2) → good_align align → 1 <= units → fits align units (a, n) →
  insert_block (a + 2 * head_gap align a) units (l1 ++ rest_of align units (a, n) ++ l2) = l1 ++ (a, n) :: l2.
Proof.
  intros Hs Hal Hu Hfit. apply sep_app in Hs as [Hs1 (_ & Hn & Hae & Hs2)].
  unfold fits in Hfit. simpl in Hfit. destruct (head_gap_spec align a Hal Hae) as [Hd _].
  set (d := head_gap align a) in *. revert Hs1. generalize pg.
  induction l1 as [|[p k] l1 IH]; intros lo Hs1; simpl in Hs1.
  - simpl. rewrite rest_of_unfold. unfold gap_block. simpl. fold d. change SLOB_UNIT with 2.
    assert (∀ b m, 1 <= m → b + 2 * m = a + 2 * n → absorb b m l2 = (m, l2)) as Habs.
    { intros b m Hm Hbm. destruct l2 as [|[c j] l2]; [done|]. simpl in *. change SLOB_UNIT with 2.
      rewrite (proj2 (Z.eqb_neq _ c)); [done|]. lia. }
    assert (insert_block (a + 2 * d) units
      ((if decide (n - d = units) then [] else [(a + 2 * d + 2 * units, n - d - units)]) ++ l2) = (a + 2 * d, n - d) :: l2 ∧
      absorb (a + 2 * d) units
      ((if decide (n - d = units) then [] else [(a + 2 * d + 2 * units, n - d - units)]) ++ l2) = (n - d, l2)) as [Hins Hab].
    { case_decide as E; simpl.
      - rewrite Habs by lia. split; [|by rewrite E]. destruct l2 as [|[c j] l2]; simpl in *; [by rewrite E|].
        change SLOB_UNIT with 2. rewrite (proj2 (Z.ltb_lt _ c)) by lia. rewrite (proj2 (Z.eqb_neq _ c)) by lia. by rewrite E.
      - change SLOB_UNIT with 2. rewrite (proj2 (Z.ltb_lt _ _)) by lia. rewrite Z.eqb_refl. by replace (units + (n - d - units)) with (n - d) by lia. }
    set (R := if decide (n - d = units) then [] else _) in *. destruct (decide (d = 0)) as [E|E].
    + simpl. rewrite Hins, E. by replace (a + 2 * 0) with a by lia; replace (n - 0) with n by lia.
    + simpl. change SLOB_UNIT with 2. rewrite (proj2 (Z.ltb_ge _ a)) by lia. rewrite Z.eqb_refl. fold R. rewrite Hab.
      by replace (d + (n - d)) with n by lia.
  - destruct Hs1 as (_ & Hk & _ & Hs1). pose proof (sep_le _ _ _ _ Z.le_0_2 Hs1) as Hle.
    simpl. change SLOB_UNIT with 2. rewrite (proj2 (Z.ltb_ge _ p)) by lia. rewrite (proj2 (Z.eqb_neq _ _)) by lia.
    f_equal. by eapply IH.
Qed.

End page.
