(* ===== verification/Slob.v ===== *)
(** * The SLOB allocator (src/indwriterups/project4/slob.c, pages and lists)

    The pages of the allocator, the eleven lists of partially free pages, the
    best-fit search, [slob_alloc] and [slob_free].  A heap view maps every slab
    page to its free blocks and its live blocks; [heap] says that the bytes, the
    page structures and the lists represent that view, and the operations are
    proved to implement its updates. *)

From S2P Require Import Prelude CMem SlobBlock SlobPage.

Local Open Scope Z_scope.

(** ** The page allocator and the build's constants *)

(** The buddy allocator below: [alloc_pages] followed by [page_address], and
    [free_pages], which takes any address of the page.  [allocated] holds the
    addresses handed out. *)
Class PageAllocator (A : Type) := {
  alloc_pages : Z → Z → A → option Z * A;
  free_pages : Z → Z → A → A;
  put_page : Z → A → A;
  allocated : A → gset Z;
  alloc_pages_fresh gfp order a p a' :
    0 <= order → alloc_pages gfp order a = (Some p, a') →
    page_addr p ∧
    (∀ q, q ∈ allocated a → ¬ p <= q < p + PAGE_SIZE * 2 ^ order) ∧
    (∀ q, q ∈ allocated a' ↔ q ∈ allocated a ∨ q = p);
  alloc_pages_none gfp order a a' :
    alloc_pages gfp order a = (None, a') → allocated a' = allocated a;
  free_pages_allocated p order a : allocated (free_pages p order a) = allocated a ∖ {[p - p mod PAGE_SIZE]} }.

(** Constants of the architecture and of linux/slab.h and linux/gfp.h. *)
Class SlobEnv := {
  ARCH_KMALLOC_MINALIGN : Z;
  ARCH_SLAB_MINALIGN : Z;
  L1_CACHE_BYTES : Z;
  __GFP_ZERO : Z;
  __GFP_COMP : Z;
  GFP_KERNEL : Z;
  ZERO_SIZE_PTR : Z;
  SLAB_DESTROY_BY_RCU : Z;
  SLAB_HWCACHE_ALIGN : Z;
  SLAB_PANIC : Z;
  get_order : Z → Z;
  zero_size_ptr_small : ZERO_SIZE_PTR < PAGE_SIZE;
  kmalloc_minalign_good : good_align (Z.max ARCH_KMALLOC_MINALIGN ARCH_SLAB_MINALIGN);
  kmalloc_minalign_range : 4 <= Z.max ARCH_KMALLOC_MINALIGN ARCH_SLAB_MINALIGN < PAGE_SIZE;
  kmalloc_minalign_alone : good_align ARCH_KMALLOC_MINALIGN ∧ ARCH_KMALLOC_MINALIGN < PAGE_SIZE;
  slab_minalign_good : good_align ARCH_SLAB_MINALIGN;
  l1_cache_bytes_good : good_align L1_CACHE_BYTES;
  L1_cache_bytes_small : L1_CACHE_BYTES < PAGE_SIZE }.

(** ** State *)

(** [struct slob_page], a variant of [struct page]: [units] shares its bytes with
    [_mapcount], and [private] and [mapping] are the two words of [pad]. *)
Record slob_page := SP {
  sp_units : Z;
  sp_free : Z;
  sp_private : Z;
  sp_mapping : Z;
  PageSlab : bool;
  PageSlobFree : bool }.

(** [page] is the array of page structures, [free_slob] the eleven lists of
    partially free pages from [free_slob_reallydamnsmall] to [free_slob_giga], a
    page being named by its address; [reclaimed_slab] is
    [current->reclaim_state->reclaimed_slab] when there is a reclaim state. *)
Record slob (A : Type) := Slob {
  mem : memory;
  page : gmap Z slob_page;
  free_slob : list (list Z);
  pa : A;
  reclaimed_slab : option Z }.
Arguments Slob {A} _ _ _ _ _.
Arguments mem {A} _.
Arguments page {A} _.
Arguments free_slob {A} _.
Arguments pa {A} _.
Arguments reclaimed_slab {A} _.

Section operations.
Context {A : Type} `{PageAllocator A} `{SlobEnv}.
Implicit Types s : slob A.

(** ** Pages and lists *)

(** [slob_page(addr)], that is [virt_to_page]: the page structure of [addr] is
    named by the address of its page. *)
Definition page_of (addr : Z) : Z := Z.land addr PAGE_MASK.

Definition sp_of s (sp : Z) : slob_page := default (SP 0 0 0 0 false false) (page s !! sp).

Definition set_page s (sp : Z) (p : slob_page) : slob A :=
  Slob (mem s) (<[sp := p]> (page s)) (free_slob s) (pa s) (reclaimed_slab s).

Definition set_mem s (m : memory) : slob A :=
  Slob m (page s) (free_slob s) (pa s) (reclaimed_slab s).

Definition set_pa s (a : A) : slob A :=
  Slob (mem s) (page s) (free_slob s) a (reclaimed_slab s).

Definition set_free_slob s (l : list (list Z)) : slob A :=
  Slob (mem s) (page s) l (pa s) (reclaimed_slab s).

Definition set_units (p : slob_page) (u : Z) : slob_page :=
  SP u (sp_free p) (sp_private p) (sp_mapping p) (PageSlab p) (PageSlobFree p).

Definition set_free (p : slob_page) (f : Z) : slob_page :=
  SP (sp_units p) f (sp_private p) (sp_mapping p) (PageSlab p) (PageSlobFree p).

Definition set_flags (p : slob_page) (slab slobfree : bool) : slob_page :=
  SP (sp_units p) (sp_free p) (sp_private p) (sp_mapping p) slab slobfree.

Definition set_slob_page s (sp : Z) : slob A :=
  set_page s sp (set_flags (sp_of s sp) true (PageSlobFree (sp_of s sp))).

Definition clear_slob_page s (sp : Z) : slob A :=
  set_page s sp (set_flags (sp_of s sp) false (PageSlobFree (sp_of s sp))).

Definition is_slob_page s (sp : Z) : bool := PageSlab (sp_of s sp).

Definition slob_page_free s (sp : Z) : bool := PageSlobFree (sp_of s sp).

Definition set_slob_page_free s (sp : Z) (list : nat) : slob A :=
  let s := set_free_slob s (alter (cons sp) list (free_slob s)) in
  set_page s sp (set_flags (sp_of s sp) (PageSlab (sp_of s sp)) true).

(** [list_del] unlinks the page from whichever list it is on. *)
Definition clear_slob_page_free s (sp : Z) : slob A :=
  let s := set_free_slob s (filter (λ q, q ≠ sp) <$> free_slob s) in
  set_page s sp (set_flags (sp_of s sp) (PageSlab (sp_of s sp)) false).

(** [reset_page_mapcount] stores -1 over [units]. *)
Definition free_slob_page s (sp : Z) : slob A :=
  set_page s sp (SP (-1) (sp_free (sp_of s sp)) (sp_private (sp_of s sp)) 0
    (PageSlab (sp_of s sp)) (PageSlobFree (sp_of s sp))).

(** The list a request of [size] bytes is served from. *)
Definition slob_list_of (size : Z) : nat :=
  if size <? 4 then 0 else if size <? 8 then 1 else if size <? 16 then 2
  else if size <? 32 then 3 else if size <? 64 then 4 else if size <? 128 then 5
  else if size <? 256 then 6 else if size <? 512 then 7 else if size <? 1024 then 8
  else if size <? 2048 then 9 else 10.

Definition slob_list s (i : nat) : list Z := default [] (free_slob s !! i).

(** Without CONFIG_NUMA the node is ignored. *)
Definition slob_new_pages s (gfp order node : Z) : option Z * slob A :=
  let '(p, a) := alloc_pages gfp order (pa s) in (p, set_pa s a).

Definition slob_free_pages s (b order : Z) : slob A :=
  Slob (mem s) (page s) (free_slob s) (free_pages b order (pa s))
    ((λ r, r + 2 ^ order) <$> reclaimed_slab s).

(** ** Best fit *)

Record best_slob := BS {
  bs_page : option Z;
  bs_prev : option Z;
  bs_slob : option Z;
  bs_next : option Z;
  bs_size : Z }.

(** The loop over the free blocks of one page; the flag says that it left through
    [break_out]. *)
Fixpoint best_fit_page (fuel : nat) (m : memory) (sp : Z) (prev : option Z) (cur units align : Z)
    (bs : best_slob) : option (best_slob * bool) :=
  match fuel with
  | O => None
  | S fuel' =>
      let avail := slob_units m cur in
      let delta := if align =? 0 then 0 else (ALIGN cur align - cur) / SLOB_UNIT in
      let better := (units + delta <=? avail) && ((avail <? bs_size bs) || (bs_size bs =? 0)) in
      let bs := if better then BS (Some sp) prev (Some cur) (Some (slob_next m cur)) avail else bs in
      if better && (avail =? units + delta) then Some (bs, true)
      else if slob_last m cur then Some (bs, false)
      else best_fit_page fuel' m sp (Some cur) (slob_next m cur) units align bs
  end.

Fixpoint best_fit_list s (sps : list Z) (units align : Z) (bs : best_slob) : option best_slob :=
  match sps with
  | [] => Some bs
  | sp :: sps' =>
      '(bs, stop) ← best_fit_page page_fuel (mem s) sp None (sp_free (sp_of s sp)) units align bs;
      if (stop : bool) then Some bs else best_fit_list s sps' units align bs
  end.

(** [best_fit] returns whether a block was found.  Its parameters [page], [best]
    and [prev] are passed by value: assigning them changes nothing in the
    caller. *)
Definition best_fit s (list : nat) (size align : Z) : option Z :=
  bs ← best_fit_list s (slob_list s list) (s32 (SLOB_UNITS size)) align (BS None None None None 0);
  Some (match bs_slob bs with None => 0 | Some _ => 1 end).

(** ** Allocation *)

(** Allocate a slob block within a given slob_page; the block ([None] for NULL)
    and the new state. *)
Definition slob_page_alloc s (sp size align : Z) (best_slob prev_slob : option Z) : option (option Z * slob A) :=
  let units := s32 (SLOB_UNITS size) in
  let p := sp_of s sp in
  let cur := default (sp_free p) best_slob in
  r ← slob_page_scan page_fuel (mem s) prev_slob cur units align;
  match r with
  | NoRoom => Some (None, s)
  | Room prev cur aligned delta =>
      let '(b, m, free) := slob_carve (mem s) (sp_free p) prev cur aligned delta units in
      let u := s16 (sp_units p - units) in
      let s := set_page (set_mem s m) sp (set_units (set_free p free) u) in
      Some (Some b, if u =? 0 then clear_slob_page_free s sp else s)
  end.

(** The predecessor and the successor of a page on a list; [None] is the list
    head. *)
Fixpoint list_prev_next (prev : option Z) (sp : Z) (l : list Z) : option Z * option Z :=
  match l with
  | [] => (None, None)
  | q :: l' => if q =? sp then (prev, head l') else list_prev_next (Some q) sp l'
  end.

(** [list_move_tail(slob_list, prev->next)]: the list head moves behind [prev]. *)
Fixpoint list_move_tail (prev : Z) (acc l : list Z) : list Z :=
  match l with
  | [] => acc
  | q :: l' => if q =? prev then l' ++ acc ++ [q] else list_move_tail prev (acc ++ [q]) l'
  end.

(** The search of the partially free pages: every iteration looks at the page
    [best_page] and goes on to that page's successor. *)
Fixpoint slob_alloc_loop (fuel : nat) s (best_page size align : Z) (best_slob prev_slob : option Z) (list : nat) :
    option (option Z * slob A) :=
  match fuel with
  | O => None
  | S fuel' =>
      let '(prev, next) := list_prev_next None best_page (slob_list s list) in
      let continue s' :=
        match next with
        | None => Some (None, s')
        | Some _ => slob_alloc_loop fuel' s' best_page size align best_slob prev_slob list
        end in
      if u64 (sp_units (sp_of s best_page)) <? SLOB_UNITS size then continue s
      else
        '(b, s') ← slob_page_alloc s best_page size align best_slob prev_slob;
        match b with
        | None => continue s'
        | Some b =>
            let l := slob_list s' list in
            Some (Some b, match prev with
                          | Some p => if bool_decide (last l = Some p) then s'
                                      else set_free_slob s' (<[list := list_move_tail p [] l]> (free_slob s'))
                          | None => s'
                          end)
        end
  end.

(** The branch for a new page; the outer [None] is [BUG_ON(!b)]. *)
Definition slob_alloc_new s (size gfp align node : Z) (list : nat) : option (option Z * slob A) :=
  match slob_new_pages s (Z.land gfp (Z.lnot __GFP_ZERO)) 0 node with
  | (None, s) => Some (None, s)
  | (Some b, s) =>
      let sp := page_of b in
      let s := set_slob_page s sp in
      let s := set_page s sp (set_free (set_units (sp_of s sp) (s16 (SLOB_UNITS PAGE_SIZE))) b) in
      let s := set_mem s (set_slob (mem s) b (s16 (SLOB_UNITS PAGE_SIZE)) (b + SLOB_UNIT * SLOB_UNITS PAGE_SIZE)) in
      let s := set_slob_page_free s sp list in
      '(b, s) ← slob_page_alloc s sp size align None None;
      match b with
      | None => None
      | Some b => Some (Some b, s)
      end
  end.

(** slob_alloc: entry point into the slob allocator.  The call of [best_fit]
    leaves the three local variables NULL. *)
Definition slob_alloc s (size gfp align node : Z) : option (option Z * slob A) :=
  let list := slob_list_of size in
  let best_page : option Z := None in
  let best_slob : option Z := None in
  let prev_slob : option Z := None in
  _ ← best_fit s list size align;
  '(b, s) ← match best_page with
            | None => Some (None, s)
            | Some p => slob_alloc_loop page_fuel s p size align best_slob prev_slob list
            end;
  '(b, s) ← match b with
            | None => slob_alloc_new s size gfp align node list
            | Some b => Some (Some b, s)
            end;
  match b with
  | None => Some (None, s)
  | Some b =>
      Some (Some b, if Z.land gfp __GFP_ZERO =? 0 then s else set_mem s (memset0 (mem s) b (Z.to_nat size)))
  end.

(** ** Deallocation *)

(** slob_free: entry point into the slob allocator; [None] is [BUG_ON(!size)].
    [size] is an [int]. *)
Definition slob_free s (b size : Z) : option (slob A) :=
  if b <=? ZERO_SIZE_PTR then Some s
  else if size =? 0 then None
  else
    let sp := page_of b in
    let p := sp_of s sp in
    let units := s16 (SLOB_UNITS size) in
    if sp_units p + units =? SLOB_UNITS PAGE_SIZE then
      let s := if slob_page_free s sp then clear_slob_page_free s sp else s in
      let s := clear_slob_page s sp in
      let s := free_slob_page s sp in
      Some (slob_free_pages s b 0)
    else if negb (slob_page_free s sp) then
      let s := set_page s sp (set_free (set_units p units) b) in
      let s := set_mem s (set_slob (mem s) b units (Z.land (b + SLOB_UNIT * SLOB_UNITS PAGE_SIZE) PAGE_MASK)) in
      Some (set_slob_page_free s sp (slob_list_of size))
    else
      '(m, free) ← slob_reinsert page_fuel (mem s) (sp_free p) b units;
      Some (set_page (set_mem s m) sp (set_free (set_units p (s16 (sp_units p + units))) free)).

End operations.

(** ** Heap views *)

(** What a slab page holds: its free blocks and the blocks handed out. *)
Record page_view := PV { pv_free : list block; pv_live : list block }.

Fixpoint pairwise_apart (bl : list block) : Prop :=
  match bl with
  | [] => True
  | (a, n) :: bl' => apart a n bl' ∧ pairwise_apart bl'
  end.

(** A block inside the page. *)
Definition inside (pg : Z) (b : block) : Prop :=
  pg <= b.1 ∧ 1 <= b.2 ∧ b.1 mod 2 = 0 ∧ b.1 + 2 * b.2 <= pg + PAGE_SIZE.

(** The bytes of page [pg] and its structure [p] represent the view [v]: the free
    blocks are linked and coalesced, the live blocks overlap neither each other
    nor the free ones, and together they account for all units of the page. *)
Record page_ok (m : memory) (pg : Z) (p : slob_page) (v : page_view) : Prop := {
  po_addr : page_addr pg;
  po_slab : PageSlab p = true;
  po_units : sp_units p = total (pv_free v);
  po_slob_free : PageSlobFree p = bool_decide (pv_free v ≠ []);
  po_head : pv_free v ≠ [] → sp_free p = first (pg + PAGE_SIZE) (pv_free v);
  po_seg : seg m (pv_free v) (pg + PAGE_SIZE);
  po_sep : sep 2 pg (pg + PAGE_SIZE) (pv_free v);
  po_inside : Forall (inside pg) (pv_live v);
  po_live : pairwise_apart (pv_live v);
  po_apart : Forall (λ c, apart c.1 c.2 (pv_free v)) (pv_live v);
  po_total : total (pv_free v) + total (pv_live v) = 2048 }.

Section views.
Context {A : Type} `{PageAllocator A}.
Implicit Types s : slob A.

(** The state represents the view [h] of the slab pages. *)
Record heap s (h : gmap Z page_view) : Prop := {
  heap_page pg v : h !! pg = Some v → page_ok (mem s) pg (sp_of s pg) v;
  heap_slab pg : is_slob_page s pg = true → is_Some (h !! pg);
  heap_lists_length : length (free_slob s) = 11%nat;
  heap_lists pg : pg ∈ concat (free_slob s) ↔ ∃ v, h !! pg = Some v ∧ pv_free v ≠ [];
  heap_lists_nodup : NoDup (concat (free_slob s));
  heap_allocated pg : is_Some (h !! pg) → pg ∈ allocated (pa s) }.

End views.

(** The view after [(b, units)] was given back to a page with view [v] whose
    other live blocks are [live]; and the view of the heap. *)
Definition view_free (v : page_view) (b units : Z) (live : list block) : page_view :=
  PV (insert_block b units (pv_free v)) live.

Definition heap_free (h : gmap Z page_view) (pg : Z) (v : page_view) (b units : Z) (live : list block) :
    gmap Z page_view :=
  if decide (live = []) then delete pg h else <[pg := view_free v b units live]> h.

(** The view after [units] units, aligned, were carved out of the block
    [(a, n)] of a page with free list [l1 ++ (a, n) :: l2]. *)
Definition view_alloc (v : page_view) (l1 l2 : list block) (a n align units : Z) : page_view :=
  PV (l1 ++ rest_of align units (a, n) ++ l2) ((a + 2 * head_gap align a, units) :: pv_live v).

(** The view of a fresh page after its first allocation. *)
Definition view_fresh (pg align units : Z) : page_view :=
  PV (rest_of align units (pg, 2048)) [(pg + 2 * head_gap align pg, units)].

(** ** Geometry of live and free blocks *)

Section geometry.
Ltac apart_list := unfold apart; simpl; repeat (apply Forall_cons; split); try (apply Forall_nil; exact I); simpl; lia.
Implicit Types bl l : list block.

Lemma apart_app b n l1 l2 : apart b n (l1 ++ l2) ↔ apart b n l1 ∧ apart b n l2.
Proof. apply Forall_app. Qed.

Lemma apart_cons b n a k l : apart b n ((a, k) :: l) ↔ (a + 2 * k <= b ∨ b + 2 * n <= a) ∧ apart b n l.
Proof. unfold apart. by rewrite Forall_cons. Qed.

Lemma apart_sub b n b' n' l : b <= b' → b' + 2 * n' <= b + 2 * n → apart b n l → apart b' n' l.
Proof. intros ?? Hl. eapply Forall_impl; [exact Hl|]. intros [a k]. simpl. lia. Qed.

Lemma absorb_apart c k b n l : 1 <= k → apart c k ((b, n) :: l) →
  let '(n', l') := absorb b n l in apart c k ((b, n') :: l').
Proof.
  intros Hk. destruct l as [|[a j] l]; simpl; [done|]. unfold SLOB_UNIT. destruct (Z.eqb_spec (b + 2 * n) a); [|done].
  rewrite !apart_cons. intuition lia.
Qed.

Lemma insert_block_apart c k b n l : 1 <= k → 1 <= n → Forall (λ x, 1 <= x.2) l →
  apart c k ((b, n) :: l) → apart c k (insert_block b n l).
Proof.
  intros Hk Hn Hp. induction l as [|[a j] l IH]; [done|].
  apply Forall_cons in Hp as [Hj Hp]. simpl in Hj. intros Ha. cbn [insert_block].
  destruct (Z.ltb_spec b a).
  - pose proof (absorb_apart c k b n ((a, j) :: l) Hk Ha) as Hab. by destruct (absorb _ _ _).
  - rewrite apart_cons in Ha. destruct Ha as [Hb Ha]. rewrite apart_cons in Ha. destruct Ha as [Haj Ha].
    unfold SLOB_UNIT. destruct (Z.eqb_spec (a + 2 * j) b).
    + assert (apart c k ((b, n) :: l)) as Hbl by (apply apart_cons; done).
      pose proof (absorb_apart c k b n l Hk Hbl) as Hab.
      assert (n <= (absorb b n l).1) as Hle.
      { destruct l as [|[d i] l]; simpl; [lia|]. apply Forall_cons in Hp as [Hi _]. simpl in Hi. unfold SLOB_UNIT. destruct (_ =? d); simpl; lia. }
      destruct (absorb b n l) as [n' l']. simpl in Hle. rewrite !apart_cons in Hab |- *. intuition lia.
    + apply apart_cons. split; [done|]. apply IH; [done|]. by apply apart_cons.
Qed.

Lemma pairwise_apart_app l1 b n l2 :
  pairwise_apart (l1 ++ (b, n) :: l2) → pairwise_apart (l1 ++ l2) ∧ apart b n (l1 ++ l2).
Proof.
  induction l1 as [|[a k] l1 IH]; simpl; [tauto|]. rewrite !apart_app, !apart_cons, !apart_app.
  intros [[? [? ?]] Hl]. apply IH in Hl as [? [? ?]%apart_app]. intuition lia.
Qed.

Lemma sep_pos lo hi l : sep 2 lo hi l → Forall (λ x, 1 <= x.2) l.
Proof. intros Hs. apply Forall_forall. intros [a n] Hin. simpl. by apply (sep_bounds 2 lo hi l a n Z.le_0_2 Hs) in Hin as (_ & ? & _). Qed.

Lemma total_pos l : Forall (λ x, 1 <= x.2) l → 0 <= total l ∧ (total l = 0 → l = []).
Proof.
  induction l as [|[a n] l IH]; [rewrite total_nil; by split|]. intros [Hn Hl]%Forall_cons. simpl in Hn.
  apply IH in Hl. rewrite total_cons. lia.
Qed.

(** A block of a coalesced list is apart from the others. *)
Lemma sep_apart lo hi l1 a n l2 : sep 2 lo hi (l1 ++ (a, n) :: l2) → apart a n (l1 ++ l2).
Proof.
  intros [Hs1 (_ & Hn & _ & Hs2)]%sep_app. apply apart_app. split; apply Forall_forall; intros [c k] Hin; simpl.
  - apply (sep_bounds 2 _ _ _ _ _ Z.le_0_2 Hs1) in Hin. lia.
  - apply (sep_bounds 2 _ _ _ _ _ Z.le_0_2 Hs2) in Hin. lia.
Qed.

(** What is carved out of a free block is apart from all that stays free. *)
Lemma rest_of_apart lo hi l1 a n l2 align units :
  sep 2 lo hi (l1 ++ (a, n) :: l2) → good_align align → fits align units (a, n) → a mod 2 = 0 →
  apart (a + 2 * head_gap align a) units (l1 ++ rest_of align units (a, n) ++ l2).
Proof.
  intros Hs Hal Hfit Ha. unfold fits in Hfit. simpl in Hfit. pose proof (head_gap_spec align a Hal Ha) as [Hd _].
  apply sep_apart in Hs. eapply apart_sub in Hs as [? ?]%apart_app; [| |].
  - apply apart_app. split; [eassumption|]. apply apart_app. split; [|eassumption].
    unfold rest_of, SLOB_UNIT. simpl. repeat case_decide; apart_list.
  - lia.
  - lia.
Qed.

(** A block that was apart from a free block is apart from what remains of it. *)
Lemma rest_of_apart_other c k a n align units :
  good_align align → a mod 2 = 0 → 1 <= units → fits align units (a, n) →
  apart c k [(a, n)] → apart c k (rest_of align units (a, n)).
Proof.
  intros Hal Ha Hu Hfit [Hc _]%apart_cons. unfold fits in Hfit. simpl in Hfit.
  pose proof (head_gap_spec align a Hal Ha) as [Hd _].
  unfold rest_of, SLOB_UNIT. simpl. repeat case_decide; apart_list.
Qed.

End geometry.

(** ** The page lists *)

Section page_lists.
Implicit Types ls : list (list Z).

Lemma concat_alter_cons (sp : Z) i ls :
  (i < length ls)%nat → concat (alter (cons sp) i ls) ≡ₚ sp :: concat ls.
Proof.
  revert i. induction ls as [|l ls IH]; intros [|i] Hi; simpl in *; try lia; [done|].
  change (l ++ concat (alter (cons sp) i ls) ≡ₚ sp :: l ++ concat ls).
  rewrite IH by lia. by rewrite <- Permutation_middle.
Qed.

Lemma length_alter_cons (sp : Z) i ls : length (alter (cons sp) i ls) = length ls.
Proof. apply length_alter. Qed.

Lemma slob_list_of_lt size : (slob_list_of size < 11)%nat.
Proof. unfold slob_list_of. repeat case_match; lia. Qed.

End page_lists.

(** ** Pages *)

Lemma page_addr_apart p q : page_addr p → page_addr q → p ≠ q → p + PAGE_SIZE <= q ∨ q + PAGE_SIZE <= p.
Proof. unfold page_addr, PAGE_SIZE. dlia. Qed.

Lemma page_of_inside pg b : page_addr pg → inside pg b → page_of b.1 = pg.
Proof. intros Hpg (? & ? & ? & ?). unfold page_of. rewrite page_base. apply page_of_addr; [done|]. lia. Qed.

Lemma SLOB_UNITS_page : SLOB_UNITS PAGE_SIZE = 2048.
Proof. vm_compute. reflexivity. Qed.

Lemma SLOB_UNITS_small size : 0 <= size <= PAGE_SIZE →
  SLOB_UNITS size = (size + 1) / 2 ∧ s16 (SLOB_UNITS size) = SLOB_UNITS size ∧ s32 (SLOB_UNITS size) = SLOB_UNITS size.
Proof.
  unfold PAGE_SIZE, SLOB_UNITS, SLOB_UNIT. intros Hs.
  rewrite !(wrap_u_small 64 size) by lia. rewrite (wrap_u_small 64) by lia.
  replace (size + 2 - 1) with (size + 1) by lia. split; [done|].
  split; apply wrap_s_small; try done; cbn; dlia.
Qed.

Lemma page_ok_agree m m' pg p v : agree pg (pg + PAGE_SIZE) m m' → page_ok m pg p v → page_ok m' pg p v.
Proof.
  intros Hm []. split; try done. eapply seg_agree; [|exact Hm|done].
  eapply sep_weaken; [|..|eassumption]; unfold PAGE_SIZE; lia.
Qed.

Lemma page_ok_room m pg p v : page_ok m pg p v →
  sep 0 pg (pg + PAGE_SIZE) (pv_free v) ∧ (length (pv_free v) <= page_fuel)%nat ∧ total (pv_free v) <= 2048.
Proof.
  intros Hok. pose proof (po_sep _ _ _ _ Hok) as Hs.
  assert (sep 0 pg (pg + PAGE_SIZE) (pv_free v)) as Hs0 by (eapply sep_weaken; [|..|exact Hs]; unfold PAGE_SIZE; lia).
  split; [done|]. apply (total_bound 0) in Hs0; [|lia]. pose proof page_fuel_value. unfold PAGE_SIZE in *. lia.
Qed.

(** A frame inside one page leaves the others alone. *)
Lemma frame_other_page pg q bl m m' :
  page_addr pg → page_addr q → q ≠ pg → sep 0 pg (pg + PAGE_SIZE) bl → frame bl m m' → agree q (q + PAGE_SIZE) m m'.
Proof.
  intros Hpg Hq Hne Hs Hf. symmetry. eapply frame_agree; [exact Hf|]. intros x Hx.
  eapply (sep_outside 0); [done|exact Hs|]. destruct (page_addr_apart q pg Hq Hpg Hne); lia.
Qed.

(** A live block's bytes are outside what the free-list operations write. *)
Lemma apart_agree a n bl m m' : 1 <= n → Forall (λ x, 1 <= x.2) bl → apart a n bl → frame bl m m' → agree a (a + 2 * n) m m'.
Proof.
  intros Hn Hp Ha Hf. symmetry. eapply frame_agree; [exact Hf|]. intros x Hx.
  unfold outside, apart in *. rewrite Forall_forall in Ha, Hp |- *. intros b Hb. specialize (Ha b Hb). specialize (Hp b Hb).
  simpl in *. lia.
Qed.

(** ** Allocation within a page *)

Section page_alloc.
Context {A : Type} `{PageAllocator A} `{SlobEnv}.
Implicit Types s : slob A.

Lemma sp_of_set_page s sp q p : sp_of (set_page s sp p) q = if decide (sp = q) then p else sp_of s q.
Proof. unfold sp_of, set_page. simpl. rewrite lookup_insert. by case_decide. Qed.

Lemma sp_of_clear s sp q :
  sp_of (clear_slob_page_free s sp) q = if decide (sp = q) then set_flags (sp_of s q) (PageSlab (sp_of s q)) false else sp_of s q.
Proof. unfold clear_slob_page_free. rewrite sp_of_set_page. case_decide; [by subst|done]. Qed.

Lemma sp_of_set_free s sp i q :
  sp_of (set_slob_page_free s sp i) q = if decide (sp = q) then set_flags (sp_of s q) (PageSlab (sp_of s q)) true else sp_of s q.
Proof. unfold set_slob_page_free. rewrite sp_of_set_page. case_decide; [by subst|done]. Qed.

Lemma slob_page_alloc_none s pg v size align :
  page_ok (mem s) pg (sp_of s pg) v → pv_free v ≠ [] → 
  Forall (λ b, ¬ fits align (s32 (SLOB_UNITS size)) b) (pv_free v) →
  slob_page_alloc s pg size align None None = Some (None, s).
Proof.
  intros Hok Hne Hno. destruct (page_ok_room _ _ _ _ Hok) as (Hs0 & Hlen & _). unfold slob_page_alloc.
  cbn [default]. rewrite (po_head _ _ _ _ Hok) by done.
  rewrite (slob_page_scan_spec pg (po_addr _ _ _ _ Hok) page_fuel (mem s) [] (pv_free v) _ align Hs0 (po_seg _ _ _ _ Hok) Hne Hlen : slob_page_scan page_fuel (mem s) None _ _ _ = _).
  destruct (list_find _ _) as [[i x]|] eqn:E; [|done].
  apply list_find_Some in E as (Hi & Hx & _). apply list_elem_of_lookup_2 in Hi.
  rewrite Forall_forall in Hno. by destruct (Hno x).
Qed.

Lemma view_alloc_ok m m' pg p p' v l1 a n l2 align units :
  page_ok m pg p v → pv_free v = l1 ++ (a, n) :: l2 → good_align align → 1 <= units → fits align units (a, n) →
  let v' := view_alloc v l1 l2 a n align units in
  seg m' (pv_free v') (pg + PAGE_SIZE) → PageSlab p' = true → sp_units p' = total (pv_free v) - units →
  PageSlobFree p' = bool_decide (pv_free v' ≠ []) → sp_free p' = first (pg + PAGE_SIZE) (pv_free v') →
  page_ok m' pg p' v'.
Proof.
  intros Hok Hfree Hal Hu Hfit v' Hseg Hslab Hunits Hflag Hhead. destruct Hok as [Hpg _ _ _ _ _ Hs Hin Hlive Hap Htot].
  rewrite Hfree in *. unfold fits in Hfit. simpl in Hfit.
  pose proof (sep_bounds 2 _ _ _ a n Z.le_0_2 Hs ltac:(set_solver)) as (Ha & Hn & Hae & Hend).
  pose proof (head_gap_spec align a Hal Hae) as [Hd _].
  assert (Forall (λ c, apart (a + 2 * head_gap align a) units [c]) (pv_live v)) as Hapl.
  { rewrite Forall_forall in Hap, Hin |- *. intros [c k] Hc. specialize (Hap _ Hc). simpl in Hap.
    apply apart_app in Hap as [_ Hap]. apply apart_cons in Hap as [Hap _]. apply apart_cons. split; [lia|by apply Forall_nil]. }
  assert (total (l1 ++ rest_of align units (a, n) ++ l2) = total (l1 ++ (a, n) :: l2) - units) as Ht.
  { rewrite !total_app, total_cons, rest_of_total. lia. }
  split; simpl; try done.
  - by rewrite Hunits, <- Ht.
  - by apply rest_of_sep.
  - apply Forall_cons. split; [|done]. unfold inside. simpl. split_and!; try lia. dlia.
  - split; [|done]. unfold apart. rewrite Forall_forall in Hapl |- *. intros c Hc. apply Hapl in Hc. by apply Forall_cons in Hc as [Hc _].
  - apply Forall_cons. split; [by eapply rest_of_apart|].
    rewrite Forall_forall in Hap, Hin |- *. intros [c k] Hc. specialize (Hap _ Hc). simpl in Hap |- *.
    apply apart_app in Hap as [H1 [H2 H3]%apart_cons]. apply apart_app. split; [done|]. apply apart_app. split; [|done].
    apply rest_of_apart_other; try done. apply apart_cons. split; [done|by apply Forall_nil].
  - rewrite Ht, total_cons. lia.
Qed.

(** The new page structure and the lists after carving. *)
Lemma slob_page_alloc_some s pg v l1 a n l2 size align :
  let units := SLOB_UNITS size in
  page_ok (mem s) pg (sp_of s pg) v → pv_free v = l1 ++ (a, n) :: l2 → good_align align → 1 <= size <= PAGE_SIZE →
  Forall (λ b, ¬ fits align units b) l1 → fits align units (a, n) →
  ∃ s', slob_page_alloc s pg size align None None = Some (Some (a + 2 * head_gap align a), s') ∧
    page_ok (mem s') pg (sp_of s' pg) (view_alloc v l1 l2 a n align units) ∧
    frame (pv_free v) (mem s) (mem s') ∧ (∀ q, q ≠ pg → sp_of s' q = sp_of s q) ∧ pa s' = pa s ∧
    free_slob s' = (if decide (pv_free (view_alloc v l1 l2 a n align units) = [])
                    then filter (λ q, q ≠ pg) <$> free_slob s else free_slob s).
Proof.
  intros units Hok Hfree Hal Hsz Hno Hfit. pose proof (po_addr _ _ _ _ Hok) as Hpg.
  destruct (page_ok_room _ _ _ _ Hok) as (Hs0 & Hlen & Htot). pose proof (po_sep _ _ _ _ Hok) as Hs.
  pose proof (po_seg _ _ _ _ Hok) as Hseg.
  assert (pv_free v ≠ []) as Hne by (rewrite Hfree; by destruct l1).
  destruct (SLOB_UNITS_small size) as (Hu & _ & Hu32); [lia|]. fold units in Hu, Hu32.
  assert (1 <= units) as Hu1 by (rewrite Hu; dlia).
  pose proof (slob_page_scan_spec pg Hpg page_fuel (mem s) [] (pv_free v) units align Hs0 Hseg Hne Hlen) as Hscan.
  assert (list_find (fits align units) (pv_free v) = Some (length l1, (a, n))) as Hfind.
  { rewrite Hfree. by apply list_find_middle. }
  rewrite Hfind, Hfree in Hscan. simpl in Hscan. rewrite take_app_length in Hscan.
  rewrite Hfree in Hs, Hseg.
  destruct (slob_carve_spec pg Hpg (mem s) l1 a n l2 align units Hs Hseg Hal Hu1 Hfit) as (m' & Hcarve & Hseg' & Hfr).
  unfold slob_page_alloc. fold units. rewrite Hu32. simpl. rewrite (po_head _ _ _ _ Hok), Hfree by done.
  rewrite Hscan. simpl. rewrite Hcarve, (po_units _ _ _ _ Hok).
  assert (total (pv_free (view_alloc v l1 l2 a n align units)) = total (pv_free v) - units) as Ht.
  { cbn [view_alloc pv_free]. rewrite Hfree, !total_app, total_cons, rest_of_total. lia. }
  assert (0 <= total (pv_free v) - units ∧ (total (pv_free v) - units = 0 → pv_free (view_alloc v l1 l2 a n align units) = [])) as [Ht0 Hnil].
  { rewrite <- Ht. eapply total_pos, sep_pos, rest_of_sep; try done. }
  rewrite wrap_s_small by (cbn; lia). eexists. split; [done|].
  set (p := set_units _ _). assert (PageSlab p = true ∧ PageSlobFree p = true) as [Hslab Hflag].
  { unfold p. simpl. rewrite (po_slab _ _ _ _ Hok), (po_slob_free _ _ _ _ Hok). by rewrite bool_decide_true. }
  assert (∀ fl, fl = bool_decide (pv_free (view_alloc v l1 l2 a n align units) ≠ []) →
    page_ok m' pg (set_flags p true fl) (view_alloc v l1 l2 a n align units)) as Hok'.
  { intros fl Hfl. eapply (view_alloc_ok (mem s)); try done. }
  cbn [view_alloc pv_free] in Ht, Hnil, Hok'. set (free' := l1 ++ rest_of _ _ _ ++ l2) in *. change (sp_of s pg) with (sp_of (set_mem s m') pg) in p. rewrite <- Hfree in Hfr |- *.
  destruct (decide (free' = [])) as [E|E].
  - rewrite E, total_nil in Ht. rewrite <- Ht, Z.eqb_refl. split_and!; try done.
    + rewrite sp_of_clear, sp_of_set_page, !decide_True, Hslab by done. apply Hok'. by rewrite bool_decide_false by tauto.
    + intros q Hq. by rewrite sp_of_clear, sp_of_set_page, !decide_False by done.
  - rewrite (proj2 (Z.eqb_neq _ _)) by tauto. split_and!; try done.
    + rewrite sp_of_set_page, decide_True by done. replace p with (set_flags p true true).
      * apply Hok'. by rewrite bool_decide_true.
      * destruct p. simpl in *. by subst.
    + intros q Hq. by rewrite sp_of_set_page, decide_False by done.
Qed.

End page_alloc.
