(* ===== verification/SlobHeap.v ===== *)
(** * The SLOB heap (src/indwriterups/project4/slob.c, the allocator proper)

    The operations of [Slob] implement the updates of the heap view: allocation
    carves the first block that fits out of a page, freeing coalesces the block
    with its free neighbours or returns the page, blocks handed out never
    overlap, and what a client writes into its blocks does not disturb the
    allocator. *)

From S2P Require Import Prelude CMem SlobBlock SlobPage Slob.

Local Open Scope Z_scope.

(** The free blocks of some pages, in the order the search meets them. *)
Definition blocks_of (h : gmap Z page_view) (sps : list Z) : list block :=
  concat ((λ pg, from_option pv_free [] (h !! pg)) <$> sps).

(** What the search of best_fit has established about the blocks it has [seen]:
    it holds the smallest one that fits. *)
Definition best_so_far (align units : Z) (bs : best_slob) (seen : list block) : Prop :=
  match bs_slob bs with
  | None => bs_size bs = 0 ∧ Forall (λ b, ¬ fits align units b) seen
  | Some a => (a, bs_size bs) ∈ seen ∧ fits align units (a, bs_size bs) ∧
              Forall (λ b, fits align units b → bs_size bs <= b.2) seen
  end.

(** A block that the request fills exactly. *)
Definition exact_fit (align units : Z) (bs : best_slob) (all : list block) : Prop :=
  ∃ a, bs_slob bs = Some a ∧ (a, bs_size bs) ∈ all ∧ bs_size bs = units + head_gap align a.

(** ** Changing one page *)

Section heaps.
Context {A : Type} `{PageAllocator A} `{SlobEnv}.
Implicit Types (s : slob A) (h : gmap Z page_view).

Definition lists_ok s s' (pg : Z) (onlist : Prop) : Prop :=
  length (free_slob s') = 11%nat ∧ NoDup (concat (free_slob s')) ∧
  ∀ q, q ∈ concat (free_slob s') ↔ (q = pg ∧ onlist) ∨ (q ≠ pg ∧ q ∈ concat (free_slob s)).

Lemma heap_page_addr s h pg v : heap s h → h !! pg = Some v → page_addr pg.
Proof. intros Hh Hv. eapply po_addr, heap_page; done. Qed.

Lemma heap_change s s' h pg (ov : option page_view) :
  heap s h →
  (∀ q, q ≠ pg → sp_of s' q = sp_of s q) →
  (∀ q, page_addr q → q ≠ pg → agree q (q + PAGE_SIZE) (mem s) (mem s')) →
  match ov with Some v => page_ok (mem s') pg (sp_of s' pg) v | None => is_slob_page s' pg = false end →
  lists_ok s s' pg (∃ v, ov = Some v ∧ pv_free v ≠ []) →
  (∀ q, q ≠ pg → q ∈ allocated (pa s) → q ∈ allocated (pa s')) →
  (is_Some ov → pg ∈ allocated (pa s')) →
  heap s' (partial_alter (λ _, ov) pg h).
Proof.
  intros Hh Hsp Hmem Hov (Hlen & Hnd & Hin) Hal Halp. split; try done.
  - intros q v Hq. destruct (decide (q = pg)) as [->|Hne].
    + rewrite lookup_partial_alter_eq in Hq. by subst ov.
    + rewrite lookup_partial_alter_ne in Hq by done. rewrite Hsp by done.
      eapply page_ok_agree; [|by eapply heap_page]. apply Hmem; [by eapply heap_page_addr|done].
  - intros q Hq. destruct (decide (q = pg)) as [->|Hne].
    + rewrite lookup_partial_alter_eq. destruct ov; [done|congruence].
    + rewrite lookup_partial_alter_ne by done. eapply heap_slab; [done|]. unfold is_slob_page in *. by rewrite <- Hsp.
  - intros q. rewrite Hin. destruct (decide (q = pg)) as [->|Hne].
    + rewrite lookup_partial_alter_eq. naive_solver.
    + rewrite lookup_partial_alter_ne by done. rewrite (heap_lists _ _ Hh). naive_solver.
  - intros q Hq. destruct (decide (q = pg)) as [->|Hne].
    + apply Halp. by rewrite lookup_partial_alter_eq in Hq.
    + apply Hal; [done|]. eapply heap_allocated; [done|]. by rewrite lookup_partial_alter_ne in Hq.
Qed.

(** The lists when the page stays where it is, leaves them or joins one. *)
Lemma lists_same s s' pg :
  length (free_slob s) = 11%nat → NoDup (concat (free_slob s)) → free_slob s' = free_slob s →
  lists_ok s s' pg (pg ∈ concat (free_slob s)).
Proof.
  intros Hl Hn E. unfold lists_ok. rewrite E. split_and!; [done..|]. intros q. destruct (decide (q = pg)) as [->|]; tauto.
Qed.

Lemma lists_remove s s' pg :
  length (free_slob s) = 11%nat → NoDup (concat (free_slob s)) →
  free_slob s' = filter (λ q, q ≠ pg) <$> free_slob s → lists_ok s s' pg False.
Proof.
  intros Hl Hn E. unfold lists_ok. rewrite E, length_fmap, concat_filter. split_and!; [done|by apply NoDup_filter|].
  intros q. rewrite list_elem_of_filter. tauto.
Qed.

Lemma lists_add s s' pg i :
  length (free_slob s) = 11%nat → NoDup (concat (free_slob s)) → pg ∉ concat (free_slob s) → (i < 11)%nat →
  free_slob s' = alter (cons pg) i (free_slob s) → lists_ok s s' pg True.
Proof.
  intros Hl Hn Hp Hi E. unfold lists_ok. rewrite E, length_alter. assert (i < length (free_slob s))%nat as Hi' by lia.
  split_and!; [done| |].
  - rewrite (concat_alter_cons pg i _ Hi'). by apply NoDup_cons.
  - intros q. rewrite (concat_alter_cons pg i _ Hi'), elem_of_cons. destruct (decide (q = pg)) as [->|]; tauto.
Qed.

Lemma lists_ok_iff s s' pg (P Q : Prop) : (P ↔ Q) → lists_ok s s' pg P → lists_ok s s' pg Q.
Proof. intros HPQ (? & ? & Hin). split_and!; [done..|]. intros q. rewrite Hin. tauto. Qed.

End heaps.

(** ** Allocation within a page *)

Section allocation.
Context {A : Type} `{PageAllocator A} `{SlobEnv}.
Implicit Types (s : slob A) (h : gmap Z page_view).

Lemma slob_page_alloc_heap s h pg v l1 a n l2 size align :
  let units := SLOB_UNITS size in
  heap s h → h !! pg = Some v → pv_free v = l1 ++ (a, n) :: l2 → good_align align → 1 <= size <= PAGE_SIZE →
  Forall (λ b, ¬ fits align units b) l1 → fits align units (a, n) →
  ∃ s', slob_page_alloc s pg size align None None = Some (Some (a + 2 * head_gap align a), s') ∧
    heap s' (<[pg := view_alloc v l1 l2 a n align units]> h) ∧ frame (pv_free v) (mem s) (mem s') ∧ pa s' = pa s ∧
    (∀ q, q ≠ pg → sp_of s' q = sp_of s q).
Proof.
  intros units Hh Hv Hfree Hal Hsz Hno Hfit. pose proof (heap_page _ _ Hh _ _ Hv) as Hok.
  destruct (slob_page_alloc_some s pg v l1 a n l2 size align Hok Hfree Hal Hsz Hno Hfit)
    as (s' & E & Hok' & Hfr & Hsp & Hpa & Hls). exists s'. split_and!; try done.
  apply (heap_change s s' h pg (Some _)); try done.
  - intros q Hq Hne. eapply frame_other_page; [by eapply po_addr| | | |exact Hfr]; try done. by eapply page_ok_room.
  - fold units in Hls. case_decide as Ed.
    + eapply lists_ok_iff, lists_remove; [|apply (heap_lists_length _ _ Hh)|apply (heap_lists_nodup _ _ Hh)|exact Hls].
      split; [done|]. by intros (? & [= <-] & ?).
    + eapply lists_ok_iff, lists_same; [|apply (heap_lists_length _ _ Hh)|apply (heap_lists_nodup _ _ Hh)|exact Hls].
      rewrite (heap_lists _ _ Hh). split; [by eauto|]. intros _. exists v. split; [done|]. rewrite Hfree. by destruct l1.
  - by rewrite Hpa.
  - intros _. rewrite Hpa. eapply heap_allocated; [done|]. eauto.
Qed.

End allocation.

(** ** A fresh page *)

Section fresh.
Context {A : Type} `{PageAllocator A} `{SlobEnv}.
Implicit Types (s : slob A) (h : gmap Z page_view).

(** On a page boundary no alignment of at most a page loses units. *)
Lemma head_gap_page align pg : page_addr pg → good_align align → align <= PAGE_SIZE → head_gap align pg = 0.
Proof.
  unfold head_gap, PAGE_SIZE. intros [Hpg Hm] [->|(k & Hk & ->)] Hle; [done|].
  destruct (Z.eqb_spec (2 ^ k) 0); [done|].
  destruct (ALIGN_spec pg k ltac:(lia)) as [Hb Hm'].
  assert (pg mod 2 ^ k = 0) as Hpk.
  { assert (k <= 12) by (apply (Z.pow_le_mono_r_iff 2); [lia|lia|done]). apply Z.mod_divide; [done|].
    unfold PAGE_SIZE in Hm. apply Z.mod_divide in Hm; [|done]. etransitivity; [|exact Hm]. exists (2 ^ (12 - k)).
    rewrite <- Z.pow_add_r by lia. by replace (12 - k + k) with 12 by lia. }
  assert (ALIGN pg (2 ^ k) = pg) as ->; [|by rewrite Z.sub_diag].
  assert ((ALIGN pg (2 ^ k) - pg) mod 2 ^ k = 0) as Hz by (rewrite Zminus_mod, Hm', Hpk; done).
  rewrite Z.mod_small in Hz by lia. lia.
Qed.

(** The page as it is before the first block is carved out of it: all free. *)
Lemma fresh_page_ok m pg p :
  page_addr pg → PageSlab p = true → PageSlobFree p = true → sp_units p = 2048 → sp_free p = pg →
  page_ok (set_slob m pg 2048 (pg + PAGE_SIZE)) pg p (PV [(pg, 2048)] []).
Proof.
  intros Hpg ? ? Hu Hf. pose proof (page_end_even pg Hpg) as He. split; simpl; try done.
  - split; [|done]. apply (set_slob_at pg Hpg); try done; unfold PAGE_SIZE in *; lia.
  - destruct Hpg as [Hp Hm]. unfold PAGE_SIZE in *. split_and!; try lia. dlia.
Qed.

Lemma slob_alloc_new_heap s h size gfp align node i :
  heap s h → good_align align → align <= PAGE_SIZE → 1 <= size <= PAGE_SIZE → (i < 11)%nat →
  match alloc_pages (Z.land gfp (Z.lnot __GFP_ZERO)) 0 (pa s) with
  | (None, a) => slob_alloc_new s size gfp align node i = Some (None, set_pa s a)
  | (Some pg, a) =>
      h !! pg = None ∧ ∃ s', slob_alloc_new s size gfp align node i = Some (Some pg, s') ∧
      heap s' (<[pg := view_fresh pg align (SLOB_UNITS size)]> h) ∧ pa s' = a ∧
      (∀ x, x < pg ∨ pg + PAGE_SIZE <= x → byte (mem s') x = byte (mem s) x)
  end.
Proof.
  intros Hh Hal Hle Hsz Hi. unfold slob_alloc_new, slob_new_pages.
  destruct (alloc_pages _ 0 (pa s)) as [[pg|] a] eqn:Ea; [|done].
  apply alloc_pages_fresh in Ea as (Hpg & Hnew & Hall); [|done].
  assert (h !! pg = None) as Hnone.
  { apply eq_None_not_Some. intros Hs. apply (heap_allocated _ _ Hh) in Hs. apply Hnew in Hs. unfold PAGE_SIZE in Hs. lia. }
  split; [done|]. assert (page_of pg = pg) as ->.
  { apply (page_of_inside pg (pg, 1) Hpg). destruct Hpg as [Hp Hm]. unfold inside, PAGE_SIZE in *. simpl. split_and!; try lia. dlia. }
  rewrite !SLOB_UNITS_page. change (s16 2048) with 2048. change (SLOB_UNIT * 2048) with PAGE_SIZE.
  match goal with |- context [slob_page_alloc ?st] => set (s1 := st) end.
  assert (is_slob_page s1 pg = true ∧ slob_page_free s1 pg = true ∧ sp_units (sp_of s1 pg) = 2048 ∧ sp_free (sp_of s1 pg) = pg) as (H1 & H2 & H3 & H4).
  { unfold s1, is_slob_page, slob_page_free. rewrite sp_of_set_free, decide_True by done. simpl.
    unfold set_slob_page, sp_of, set_mem, set_page. simpl. rewrite !lookup_insert_eq. done. }
  assert (heap s1 (<[pg := PV [(pg, 2048)] []]> h)) as Hh1.
  { apply (heap_change s s1 h pg (Some _)); try done.
    - intros q Hq. unfold s1. rewrite sp_of_set_free, decide_False by done. unfold set_slob_page, sp_of, set_mem, set_page. simpl.
      by rewrite !lookup_insert_ne by done.
    - intros q Hq Hne. symmetry. apply set_slob_agree; [done|]. destruct (page_addr_apart q pg); try done; unfold PAGE_SIZE in *; lia.
    - by apply fresh_page_ok.
    - eapply lists_ok_iff, (lists_add s s1 pg i); [|apply (heap_lists_length _ _ Hh)|apply (heap_lists_nodup _ _ Hh)| |done|done].
      + split; [|done]. intros _. by eexists.
      + rewrite (heap_lists _ _ Hh). intros (v & Hv & _). congruence.
    - intros q _ Hq. apply Hall. by left.
    - intros _. apply Hall. by right. }
  pose proof (head_gap_page align pg Hpg Hal Hle) as Hg.
  destruct (SLOB_UNITS_small size) as (Hu & _ & _); [lia|].
  destruct (slob_page_alloc_heap s1 _ pg _ [] pg 2048 [] size align Hh1 (lookup_insert_eq _ _ _) eq_refl Hal Hsz (Forall_nil_2 _))
    as (s' & E & Hh' & Hfr & Hpa & _).
  { unfold fits. simpl. rewrite Hg, Hu. unfold PAGE_SIZE in *. dlia. }
  rewrite E. simpl. rewrite Hg. exists s'. split_and!; try done.
  - by replace (pg + 2 * 0) with pg by lia.
  - rewrite insert_insert_eq in Hh'. unfold view_alloc in Hh'. simpl in Hh'. by rewrite app_nil_r in Hh'.
  - intros x Hx. rewrite Hfr; [|apply outside_cons; split; [unfold PAGE_SIZE in *; lia|by apply Forall_nil]].
    apply (set_slob_agree _ pg 2048 _ x (x + 1)); unfold PAGE_SIZE in *; lia.
Qed.

End fresh.

(** ** Best fit *)

Section best.
Context {A : Type} `{PageAllocator A} `{SlobEnv}.
Implicit Types (s : slob A) (h : gmap Z page_view).

(** One step of the search. *)
Lemma best_so_far_step align units bs seen a n sp prev next :
  1 <= n → Forall (λ b, 1 <= b.2) seen → best_so_far align units bs seen →
  let better := (units + head_gap align a <=? n) && ((n <? bs_size bs) || (bs_size bs =? 0)) in
  let bs' := if better then BS sp prev (Some a) next n else bs in
  best_so_far align units bs' (seen ++ [(a, n)]) ∧
  (better = true → n = units + head_gap align a → exact_fit align units bs' (seen ++ [(a, n)])).
Proof.
  intros Hn Hpos Hbs better bs'. split.
  - unfold bs', better. destruct (Z.leb_spec (units + head_gap align a) n) as [Hf|Hf]; simpl.
    + destruct (Z.ltb_spec n (bs_size bs)) as [Hlt|Hge]; [|destruct (Z.eqb_spec (bs_size bs) 0) as [E|E]]; simpl.
      * unfold best_so_far in *. simpl. split_and!; [set_solver|done|].
        apply Forall_app. split; [|apply Forall_singleton; simpl; lia].
        destruct (bs_slob bs) as [c|]; [|lia]. destruct Hbs as (_ & _ & Hall). eapply Forall_impl; [exact Hall|].
        intros b Hb Hfb. specialize (Hb Hfb). lia.
      * unfold best_so_far in *. simpl. split_and!; [set_solver|done|].
        apply Forall_app. split; [|apply Forall_singleton; simpl; lia].
        destruct (bs_slob bs) as [c|].
        -- destruct Hbs as (Hin & _ & _). rewrite Forall_forall in Hpos. apply Hpos in Hin. simpl in Hin. lia.
        -- destruct Hbs as (_ & Hall). eapply Forall_impl; [exact Hall|]. intros b Hb Hfb. by destruct (Hb Hfb).
      * unfold best_so_far in *. destruct (bs_slob bs) as [c|]; [|lia]. destruct Hbs as (Hin & Hfc & Hall).
        split_and!; [set_solver|done|]. apply Forall_app. split; [done|]. apply Forall_singleton. simpl. lia.
    + unfold best_so_far in *. assert (¬ fits align units (a, n)) as Hno by (unfold fits; simpl; lia).
      destruct (bs_slob bs) as [c|].
      * destruct Hbs as (Hin & Hfc & Hall). split_and!; [set_solver|done|]. apply Forall_app. split; [done|].
        apply Forall_singleton. tauto.
      * destruct Hbs as [? Hall]. split; [done|]. apply Forall_app. split; [done|]. by apply Forall_singleton.
  - intros Hb He. unfold bs'. rewrite Hb. exists a. simpl. split_and!; [done|set_solver|done].
Qed.

Lemma best_fit_page_spec m pg sp align units : page_addr pg → ∀ l2 l1 fuel prev bs seen,
  sep 0 pg (pg + PAGE_SIZE) (l1 ++ l2) → seg m (l1 ++ l2) (pg + PAGE_SIZE) → l2 ≠ [] → (length l2 <= fuel)%nat →
  Forall (λ b, 1 <= b.2) (seen ++ l2) → best_so_far align units bs seen →
  ∃ bs' stop, best_fit_page fuel m sp prev (first (pg + PAGE_SIZE) l2) units align bs = Some (bs', stop) ∧
    if stop : bool then exact_fit align units bs' (seen ++ l2) else best_so_far align units bs' (seen ++ l2).
Proof.
  intros Hpg. induction l2 as [|[a n] l2 IH]; intros l1 [|fuel] prev bs seen Hs Hseg Hne Hf Hpos Hbs; simpl in Hf; try done; try lia.
  destruct (seg_decode pg Hpg m l1 a n l2 Hs Hseg) as (Hu & Hnx & Hl). cbn [first best_fit_page].
  rewrite Hu, Hnx, Hl. fold (head_gap align a). replace (if align =? 0 then 0 else _) with (head_gap align a) by done.
  apply Forall_app in Hpos as [Hps Hpl]. apply Forall_cons in Hpl as [Hn Hpl]. simpl in Hn.
  destruct (best_so_far_step align units bs seen a n (Some sp) prev (Some (first (pg + PAGE_SIZE) l2)) Hn Hps Hbs) as [Hbs' Hex].
  set (better := _ && _) in *. set (bs' := if better then _ else bs) in *.
  replace (seen ++ (a, n) :: l2) with ((seen ++ [(a, n)]) ++ l2) by (by rewrite <- app_assoc).
  destruct (better && (n =? units + head_gap align a)) eqn:E.
  - apply andb_true_iff in E as [E1 E2%Z.eqb_eq]. eexists _, true. split; [done|].
    destruct (Hex E1 E2) as (c & ? & ? & ?). exists c. split_and!; try done. apply elem_of_app. by left.
  - case_bool_decide as Hl2.
    + subst l2. eexists _, false. rewrite app_nil_r. done.
    + apply (IH (l1 ++ [(a, n)])); rewrite <- ?app_assoc; try done; try lia.
      apply Forall_app. split; [done|]. by apply Forall_cons.
Qed.

Lemma blocks_of_cons h sp sps v : h !! sp = Some v → blocks_of h (sp :: sps) = pv_free v ++ blocks_of h sps.
Proof. unfold blocks_of. intros E. csimpl. by rewrite E. Qed.

Lemma best_fit_list_spec s h align units : heap s h → ∀ sps bs seen,
  (∀ pg, pg ∈ sps → ∃ v, h !! pg = Some v ∧ pv_free v ≠ []) →
  Forall (λ b, 1 <= b.2) seen → best_so_far align units bs seen →
  ∃ bs', best_fit_list s sps units align bs = Some bs' ∧
    (best_so_far align units bs' (seen ++ blocks_of h sps) ∨ exact_fit align units bs' (seen ++ blocks_of h sps)).
Proof.
  intros Hh. induction sps as [|sp sps IH]; intros bs seen Hsps Hpos Hbs.
  - exists bs. unfold blocks_of. simpl. rewrite app_nil_r. auto.
  - destruct (Hsps sp) as (v & Hv & Hne); [set_solver|]. pose proof (heap_page _ _ Hh _ _ Hv) as Hok.
    destruct (page_ok_room _ _ _ _ Hok) as (Hs0 & Hlen & _). rewrite (blocks_of_cons h sp sps v Hv).
    assert (Forall (λ b, 1 <= b.2) (seen ++ pv_free v)) as Hpos'.
    { apply Forall_app. split; [done|]. eapply sep_pos, po_sep, Hok. }
    destruct (best_fit_page_spec (mem s) sp sp align units (po_addr _ _ _ _ Hok) (pv_free v) [] page_fuel None bs seen
      Hs0 (po_seg _ _ _ _ Hok) Hne Hlen Hpos' Hbs) as (bs1 & stop & E & Hstop).
    cbn [best_fit_list]. rewrite (po_head _ _ _ _ Hok), E by done. cbn [mbind option_bind].
    rewrite (app_assoc seen). destruct stop.
    + exists bs1. split; [done|]. right. destruct Hstop as (c & ? & ? & ?). exists c. split_and!; try done. apply elem_of_app. by left.
    + apply IH; try done. intros pg Hpg. apply Hsps. set_solver.
Qed.

(** The lists hold partially free pages only. *)
Lemma slob_list_pages s h i pg : heap s h → pg ∈ slob_list s i → ∃ v, h !! pg = Some v ∧ pv_free v ≠ [].
Proof.
  intros Hh Hin. apply (heap_lists _ _ Hh). unfold slob_list in Hin.
  destruct (free_slob s !! i) as [l|] eqn:E; [|set_solver]. apply list_elem_of_In, in_concat.
  exists l. split; apply list_elem_of_In; [by eapply list_elem_of_lookup_2|done].
Qed.

Lemma best_fit_search s h i size align : heap s h →
  ∃ bs, best_fit_list s (slob_list s i) (s32 (SLOB_UNITS size)) align (BS None None None None 0) = Some bs ∧
    best_fit s i size align = Some (match bs_slob bs with None => 0 | Some _ => 1 end) ∧
    let all := blocks_of h (slob_list s i) in let units := s32 (SLOB_UNITS size) in
    best_so_far align units bs all ∨ exact_fit align units bs all.
Proof.
  intros Hh. destruct (best_fit_list_spec s h align (s32 (SLOB_UNITS size)) Hh (slob_list s i) (BS None None None None 0) [])
    as (bs & E & Hbs).
  - intros pg Hpg. by eapply slob_list_pages.
  - by apply Forall_nil.
  - split; [done|by apply Forall_nil].
  - exists bs. split; [done|]. split; [|done]. unfold best_fit. by rewrite E.
Qed.

End best.

(** ** slob_alloc *)

Section alloc.
Context {A : Type} `{PageAllocator A} `{SlobEnv}.
Implicit Types (s : slob A) (h : gmap Z page_view).

(** The variables that [slob_alloc] passes to [best_fit] stay NULL, so the
    partially free pages are never searched. *)
Lemma slob_alloc_unfold s h size gfp align node : heap s h →
  slob_alloc s size gfp align node =
    '(b, s') ← slob_alloc_new s size gfp align node (slob_list_of size);
    match b with
    | None => Some (None, s')
    | Some b => Some (Some b, if Z.land gfp __GFP_ZERO =? 0 then s' else set_mem s' (memset0 (mem s') b (Z.to_nat size)))
    end.
Proof.
  intros Hh. destruct (best_fit_search s h (slob_list_of size) size align Hh) as (bs & _ & E & _).
  unfold slob_alloc. by rewrite E.
Qed.

(** Bytes of a live block are not part of what a page's free list is read from. *)
Lemma heap_write_live s h pg v b n la lb m' :
  heap s h → h !! pg = Some v → pv_live v = la ++ (b, n) :: lb →
  (∀ x, x < b ∨ b + 2 * n <= x → byte m' x = byte (mem s) x) → heap (set_mem s m') h.
Proof.
  intros Hh Hv Hlive Hm. pose proof (heap_page _ _ Hh _ _ Hv) as Hok.
  replace h with (<[pg := v]> h) by (by apply insert_id).
  assert (apart b n (pv_free v) ∧ inside pg (b, n)) as [Hap (H1 & H2 & H3 & H4)].
  { pose proof (po_apart _ _ _ _ Hok) as Ha. pose proof (po_inside _ _ _ _ Hok) as Hi.
    rewrite Hlive in Ha, Hi. apply Forall_app in Ha as [_ [Ha _]%Forall_cons]. by apply Forall_app in Hi as [_ [Hi _]%Forall_cons]. }
  simpl in *.
  apply (heap_change s (set_mem s m') h pg (Some v)); try done.
  - intros q Hq Hne x Hx. symmetry. apply Hm. destruct (page_addr_apart q pg Hq (po_addr _ _ _ _ Hok) Hne); lia.
  - destruct Hok as []. split; try done. simpl.
    assert (Forall (λ c, 1 <= c.2 ∧ (c.1 + 2 * c.2 <= b ∨ b + 2 * n <= c.1)) (pv_free v)) as Hall.
    { apply Forall_and. split; [by eapply sep_pos|done]. }
    revert po_seg Hall. generalize (pv_free v). generalize (pg + PAGE_SIZE). clear - Hm H2.
    intros e l. induction l as [|[a k] l IH]; [done|]. intros [Hat Hseg] [[Hk Ha] Hall]%Forall_cons. simpl in Hk, Ha.
    split; [|by apply IH]. eapply slob_at_agree; [exact Hk| |exact Hat]. intros x Hx. symmetry. apply Hm. lia.
  - eapply lists_ok_iff, lists_same; [|apply (heap_lists_length _ _ Hh)|apply (heap_lists_nodup _ _ Hh)|done].
    rewrite (heap_lists _ _ Hh). naive_solver.
  - intros _. exact (heap_allocated s h Hh pg (mk_is_Some _ v Hv)).
Qed.

Lemma slob_alloc_heap s h size gfp align node :
  heap s h → good_align align → align <= PAGE_SIZE → 1 <= size <= PAGE_SIZE →
  match alloc_pages (Z.land gfp (Z.lnot __GFP_ZERO)) 0 (pa s) with
  | (None, a) => slob_alloc s size gfp align node = Some (None, set_pa s a)
  | (Some pg, a) =>
      h !! pg = None ∧ ∃ s', slob_alloc s size gfp align node = Some (Some pg, s') ∧
      heap s' (<[pg := view_fresh pg align (SLOB_UNITS size)]> h) ∧ pa s' = a ∧
      (∀ x, x < pg ∨ pg + PAGE_SIZE <= x → byte (mem s') x = byte (mem s) x) ∧
      (Z.land gfp __GFP_ZERO ≠ 0 → ∀ x, pg <= x < pg + size → byte (mem s') x = 0)
  end.
Proof.
  intros Hh Hal Hle Hsz. rewrite (slob_alloc_unfold s h) by done.
  pose proof (slob_alloc_new_heap s h size gfp align node (slob_list_of size) Hh Hal Hle Hsz (slob_list_of_lt size)) as Hnew.
  destruct (alloc_pages _ 0 (pa s)) as [[pg|] a]; [|by rewrite Hnew].
  destruct Hnew as (Hnone & s1 & E & Hh1 & Hpa & Hmem). split; [done|]. rewrite E. simpl.
  eexists. split; [done|]. destruct (Z.eqb_spec (Z.land gfp __GFP_ZERO) 0) as [Hz|Hz]; [split_and!; done|].
  pose proof (heap_page_addr s1 _ pg _ Hh1 (lookup_insert_eq _ _ _)) as Hpg.
  destruct (SLOB_UNITS_small size) as (Hu & _ & _); [lia|].
  split_and!; [|done| |].
  - eapply (heap_write_live s1 _ pg _ pg (SLOB_UNITS size) [] []); [done|apply lookup_insert_eq| |].
    + simpl. rewrite (head_gap_page align pg) by done. do 2 f_equal. lia.
    + intros x Hx. apply (memset0_agree _ _ _ x (x + 1)); rewrite ?Hu in Hx; dlia.
  - intros x Hx. simpl. rewrite <- Hmem by done. apply (memset0_agree _ _ _ x (x + 1)); unfold PAGE_SIZE in *; lia.
  - intros _ x Hx. simpl. apply memset0_byte. lia.
Qed.

End alloc.

(** ** slob_free *)

Section free.
Context {A : Type} `{PageAllocator A} `{SlobEnv}.
Implicit Types (s : slob A) (h : gmap Z page_view).

(** Giving a live block back, at the level of one page. *)
Lemma view_free_ok m m' pg p p' v la b n lb :
  page_ok m pg p v → pv_live v = la ++ (b, n) :: lb →
  seg m' (insert_block b n (pv_free v)) (pg + PAGE_SIZE) → sep 2 pg (pg + PAGE_SIZE) (insert_block b n (pv_free v)) →
  total (insert_block b n (pv_free v)) = total (pv_free v) + n → insert_block b n (pv_free v) ≠ [] →
  PageSlab p' = true → PageSlobFree p' = true → sp_units p' = total (pv_free v) + n →
  sp_free p' = first (pg + PAGE_SIZE) (insert_block b n (pv_free v)) →
  page_ok m' pg p' (view_free v b n (la ++ lb)).
Proof.
  intros [Hpg _ _ _ _ _ Hs Hin Hlv Hap Htot] Hlive Hseg' Hsep' Ht Hne Hslab Hflag Hu Hf.
  rewrite Hlive in Hin, Hlv, Hap, Htot.
  pose proof (pairwise_apart_app la b n lb Hlv) as [Hlv' Hbl].
  apply Forall_app in Hin as [Hi1 [Hib Hi2]%Forall_cons]. apply Forall_app in Hap as [Ha1 [Hab Ha2]%Forall_cons].
  destruct Hib as (_ & Hn & _ & _). simpl in Hn. rewrite total_app, total_cons in Htot.
  assert (Forall (inside pg) (la ++ lb)) as Hi by (by apply Forall_app).
  split; simpl; try done.
  - lia.
  - by rewrite bool_decide_true.
  - assert (Forall (λ c, apart c.1 c.2 (pv_free v)) (la ++ lb)) as Ha by (by apply Forall_app).
    rewrite Forall_forall in Hi, Ha |- *. intros [c k] Hc. specialize (Ha _ Hc). specialize (Hi _ Hc). simpl in Ha |- *.
    destruct Hi as (_ & Hk & _ & _). simpl in Hk.
    apply insert_block_apart; [done|done|by eapply sep_pos|]. apply apart_cons. split; [|done].
    unfold apart in Hbl. rewrite Forall_forall in Hbl. specialize (Hbl _ Hc). simpl in Hbl. lia.
  - rewrite total_app. lia.
Qed.

Lemma live_units s h pg v la b n lb :
  heap s h → h !! pg = Some v → pv_live v = la ++ (b, n) :: lb →
  page_addr pg ∧ page_of b = pg ∧ inside pg (b, n) ∧ apart b n (pv_free v) ∧
  total (pv_free v) + n <= 2048 ∧ (total (pv_free v) + n = 2048 ↔ la ++ lb = []).
Proof.
  intros Hh Hv Hlive. destruct (heap_page _ _ Hh _ _ Hv) as [Hpg _ _ _ _ _ Hs Hin _ Hap Htot].
  rewrite Hlive in Hin, Hap, Htot. apply Forall_app in Hap as [_ [Hab _]%Forall_cons].
  apply Forall_app in Hin as [Hi1 [Hib Hi2]%Forall_cons]. rewrite total_app, total_cons in Htot.
  assert (Forall (λ x, 1 <= x.2) (la ++ lb)) as Hpos.
  { apply Forall_app. split; eapply Forall_impl; [exact Hi1| |exact Hi2|]; by intros c (_ & ? & _). }
  apply total_pos in Hpos as [H1 H2]. rewrite total_app in H1, H2.
  split_and!; try done; [exact (page_of_inside pg (b, n) Hpg Hib)|lia|]. split; [intros E; apply H2; lia|].
  intros E. apply app_eq_nil in E as [-> ->]. rewrite total_nil in Htot. lia.
Qed.

(** A block that stays live is apart from what the freed one is merged with. *)
Lemma freed_apart s h pg v la lb b n q w c k :
  heap s h → h !! pg = Some v → pv_live v = la ++ (b, n) :: lb →
  <[pg := view_free v b n (la ++ lb)]> h !! q = Some w → (c, k) ∈ pv_live w → apart c k ((b, n) :: pv_free v).
Proof.
  intros Hh Hv Hlive Hw Hc. pose proof (heap_page _ _ Hh _ _ Hv) as Hok.
  destruct (live_units s h pg v la b n lb Hh Hv Hlive) as (Hpg & _ & Hin & _).
  destruct (decide (q = pg)) as [->|Hne].
  - rewrite lookup_insert_eq in Hw. simplify_eq. simpl in Hc.
    pose proof (po_live _ _ _ _ Hok) as Hl. rewrite Hlive in Hl. apply pairwise_apart_app in Hl as [_ Hl].
    pose proof (po_apart _ _ _ _ Hok) as Ha. rewrite Hlive in Ha.
    assert (Forall (λ x, apart x.1 x.2 (pv_free v)) (la ++ lb)) as Ha'.
    { apply Forall_app in Ha as [? [_ ?]%Forall_cons]. by apply Forall_app. }
    unfold apart in Hl. rewrite Forall_forall in Hl, Ha'. specialize (Hl _ Hc). specialize (Ha' _ Hc). simpl in Hl, Ha'.
    apply apart_cons. split; [lia|done].
  - rewrite lookup_insert_ne in Hw by done. pose proof (heap_page _ _ Hh _ _ Hw) as Hokw.
    pose proof (po_inside _ _ _ _ Hokw) as Hi. rewrite Forall_forall in Hi. apply Hi in Hc as (H1 & H2 & _ & H4). simpl in H1, H2, H4.
    assert (∀ x y, inside pg (x, y) → x + 2 * y <= c ∨ c + 2 * k <= x) as Hall.
    { intros x y (? & ? & _ & ?). simpl in *. destruct (page_addr_apart q pg (po_addr _ _ _ _ Hokw) Hpg Hne); lia. }
    apply apart_cons. split; [by apply Hall|]. apply Forall_forall. intros [x y] Hxy. apply Hall.
    apply (sep_bounds 2 _ _ _ _ _ Z.le_0_2 (po_sep _ _ _ _ Hok)) in Hxy as (? & ? & ? & ?). done.
Qed.

(** What is written into a page's free blocks leaves every live block alone. *)
Lemma live_frame s s' h pg v q w c k :
  heap s h → h !! pg = Some v → frame (pv_free v) (mem s) (mem s') → h !! q = Some w → (c, k) ∈ pv_live w →
  agree c (c + 2 * k) (mem s) (mem s').
Proof.
  intros Hh Hv Hfr Hw Hc. pose proof (heap_page _ _ Hh _ _ Hv) as Hok. pose proof (heap_page _ _ Hh _ _ Hw) as Hokw.
  pose proof (po_inside _ _ _ _ Hokw) as Hi. rewrite Forall_forall in Hi. pose proof (Hi _ Hc) as (H1 & H2 & _ & H4). simpl in H1, H2, H4.
  apply (apart_agree c k (pv_free v)); try done; [by eapply sep_pos, po_sep|].
  destruct (decide (q = pg)) as [->|Hne].
  - simplify_eq. pose proof (po_apart _ _ _ _ Hok) as Ha. rewrite Forall_forall in Ha. by specialize (Ha _ Hc).
  - apply Forall_forall. intros [x y] Hxy. simpl.
    apply (sep_bounds 2 _ _ _ _ _ Z.le_0_2 (po_sep _ _ _ _ Hok)) in Hxy as (? & ? & ? & ?).
    destruct (page_addr_apart q pg (po_addr _ _ _ _ Hokw) (po_addr _ _ _ _ Hok) Hne); lia.
Qed.

Lemma insert_block_ne b n l : insert_block b n l ≠ [].
Proof. destruct l as [|[a k] l]; simpl; [done|]. repeat case_match; done. Qed.

(** The whole page becomes free: it goes back to the page allocator. *)
Lemma slob_free_release s h pg v b size :
  heap s h → h !! pg = Some v → pv_live v = [(b, SLOB_UNITS size)] → 1 <= size <= PAGE_SIZE →
  ∃ s', slob_free s b size = Some s' ∧ heap s' (delete pg h) ∧ mem s' = mem s ∧ pa s' = free_pages b 0 (pa s).
Proof.
  intros Hh Hv Hlive Hsz. pose proof (heap_page _ _ Hh _ _ Hv) as Hok.
  destruct (live_units s h pg v [] b _ [] Hh Hv Hlive) as (Hpg & Hpo & (Hb & _ & _ & Hbe) & _ & _ & Htot). simpl in Hb, Hbe.
  destruct (SLOB_UNITS_small size) as (_ & Hu & _); [lia|]. unfold slob_free. pose proof zero_size_ptr_small.
  destruct Hpg as [Hpg0 Hpgm]. assert (PAGE_SIZE <= pg) by (unfold PAGE_SIZE in *; dlia).
  rewrite (proj2 (Z.leb_gt _ _)) by lia. rewrite (proj2 (Z.eqb_neq size 0)) by lia.
  rewrite Hpo, Hu, (po_units _ _ _ _ Hok), SLOB_UNITS_page, (proj2 (Z.eqb_eq _ _)) by (by apply Htot).
  unfold slob_page_free. rewrite (po_slob_free _ _ _ _ Hok). eexists. split; [done|].
  assert (b - b mod PAGE_SIZE = pg) as Hbase by (unfold page_of in Hpo; by rewrite page_base in Hpo).
  split_and!; [|by case_match|by case_match].
  apply (heap_change s _ h pg None); try done.
  - intros q Hq. case_bool_decide; unfold slob_free_pages, free_slob_page, clear_slob_page, sp_of, set_page; simpl;
      by rewrite !lookup_insert_ne by done.
  - case_bool_decide; done.
  - unfold is_slob_page, slob_free_pages, free_slob_page, clear_slob_page, sp_of, set_page; simpl. by rewrite !lookup_insert_eq.
  - eapply (lists_ok_iff _ _ _ False); [split; [done|by intros (? & ? & ?)]|]. case_bool_decide as Hne.
    + apply lists_remove; [apply (heap_lists_length _ _ Hh)|apply (heap_lists_nodup _ _ Hh)|done].
    + eapply lists_ok_iff, lists_same; [|apply (heap_lists_length _ _ Hh)|apply (heap_lists_nodup _ _ Hh)|done].
      rewrite (heap_lists _ _ Hh). naive_solver.
  - intros q Hq Hin. simpl. replace (pa (if bool_decide (pv_free v ≠ []) then clear_slob_page_free s pg else s)) with (pa s) by (by case_bool_decide).
    rewrite free_pages_allocated, Hbase. set_solver.
Qed.

(** The page stays: its block coalesces with its free neighbours. *)
Lemma slob_free_keep s h pg v la lb b size :
  heap s h → h !! pg = Some v → pv_live v = la ++ (b, SLOB_UNITS size) :: lb → la ++ lb ≠ [] → 1 <= size <= PAGE_SIZE →
  ∃ s', slob_free s b size = Some s' ∧ heap s' (<[pg := view_free v b (SLOB_UNITS size) (la ++ lb)]> h) ∧
    frame ((b, SLOB_UNITS size) :: pv_free v) (mem s) (mem s') ∧ pa s' = pa s.
Proof.
  intros Hh Hv Hlive Hne Hsz. pose proof (heap_page _ _ Hh _ _ Hv) as Hok.
  destruct (live_units s h pg v la b _ lb Hh Hv Hlive) as (Hpg & Hpo & Hin & Hap & Hle & Htot).
  pose proof Hin as (Hb & Hn & Hbe & Hend). simpl in Hb, Hn, Hbe, Hend.
  destruct (page_ok_room _ _ _ _ Hok) as (Hs0 & Hlen & Ht). pose proof (po_sep _ _ _ _ Hok) as Hs.
  destruct (SLOB_UNITS_small size) as (_ & Hu & _); [lia|]. set (units := SLOB_UNITS size) in *.
  pose proof zero_size_ptr_small. pose proof Hpg as [Hpg0 Hpgm]. assert (PAGE_SIZE <= pg) by (unfold PAGE_SIZE in *; dlia).
  assert (0 <= total (pv_free v)) as Ht0 by (eapply total_pos, sep_pos, Hs).
  assert (∃ m', slob_free s b size = Some (if decide (pv_free v = [])
      then set_slob_page_free (set_mem (set_page s pg (set_free (set_units (sp_of s pg) units) b)) m') pg (slob_list_of size)
      else set_page (set_mem s m') pg (set_free (set_units (sp_of s pg) (total (pv_free v) + units))
        (first (pg + PAGE_SIZE) (insert_block b units (pv_free v))))) ∧
    seg m' (insert_block b units (pv_free v)) (pg + PAGE_SIZE) ∧ sep 2 pg (pg + PAGE_SIZE) (insert_block b units (pv_free v)) ∧
    total (insert_block b units (pv_free v)) = total (pv_free v) + units ∧ frame ((b, units) :: pv_free v) (mem s) m')
    as (m' & E & Hseg' & Hsep' & Ht' & Hfr).
  { unfold slob_free. rewrite (proj2 (Z.leb_gt _ _)) by lia. rewrite (proj2 (Z.eqb_neq size 0)) by lia.
    rewrite Hpo. fold units. rewrite Hu, (po_units _ _ _ _ Hok), SLOB_UNITS_page, (proj2 (Z.eqb_neq _ _)) by tauto.
    unfold slob_page_free. rewrite (po_slob_free _ _ _ _ Hok). case_decide as Hnil.
    - rewrite bool_decide_false by tauto. cbn [negb]. rewrite Hnil. simpl. eexists. split; [done|].
      assert (Z.land (b + SLOB_UNIT * 2048) PAGE_MASK = pg + PAGE_SIZE) as ->.
      { rewrite page_base. change (SLOB_UNIT * 2048) with (1 * PAGE_SIZE). rewrite Z_mod_plus_full.
        unfold page_of in Hpo. rewrite page_base in Hpo. lia. }
      pose proof (page_end_even pg Hpg) as He.
      split_and!; try done; try lia.
      + apply (set_slob_at pg Hpg); unfold PAGE_SIZE in *; try done; lia.
      + rewrite total_cons, !total_nil. lia.
      + apply (set_slob_frame _ _ _ _ _ units); [lia|]. constructor.
    - rewrite bool_decide_true by done. cbn [negb]. rewrite (po_head _ _ _ _ Hok) by done.
      destruct (slob_reinsert_spec pg Hpg (mem s) (pv_free v) b units page_fuel Hs (po_seg _ _ _ _ Hok) Hnil Hn Hbe Hb Hend Hap Hlen)
        as (m' & -> & Hseg' & Hsep' & Ht' & Hfr). cbn [mbind option_bind].
      exists m'. rewrite wrap_s_small by (cbn; lia). done. }
  rewrite E. eexists. split; [done|]. match goal with |- heap ?st _ ∧ _ => set (s1 := st) end.
  assert (mem s1 = m' ∧ pa s1 = pa s) as [Hm1 Hpa1] by (unfold s1; by case_decide).
  rewrite Hm1, Hpa1. split_and!; [|done|done].
  assert (sp_of s1 pg = set_flags (set_free (set_units (sp_of s pg) (total (pv_free v) + units))
    (first (pg + PAGE_SIZE) (insert_block b units (pv_free v)))) true true ∧ (∀ q, q ≠ pg → sp_of s1 q = sp_of s q)) as [Hsp1 Hsp].
  { pose proof (po_slab _ _ _ _ Hok) as Hslab. pose proof (po_slob_free _ _ _ _ Hok) as Hflag.
    unfold s1, set_slob_page_free. case_decide as Hnil.
    - split; [rewrite sp_of_set_page, decide_True by done|intros q Hq; rewrite sp_of_set_page, decide_False by done];
        unfold sp_of, set_mem, set_page, set_free_slob; simpl; [rewrite lookup_insert_eq|by rewrite lookup_insert_ne by done].
      simpl. fold (sp_of s pg). by rewrite Hnil, total_nil, Hslab.
    - rewrite bool_decide_true in Hflag by done.
      split; [rewrite sp_of_set_page, decide_True by done|intros q Hq; by rewrite sp_of_set_page, decide_False by done].
      destruct (sp_of s pg). simpl in *. by subst. }
  apply (heap_change s s1 h pg (Some _)); rewrite ?Hm1, ?Hpa1; try done.
  - intros q Hq Hqne. symmetry. eapply frame_agree; [exact Hfr|].
    intros x Hx. destruct (page_addr_apart q pg Hq Hpg Hqne); apply outside_cons;
      (split; [lia|apply (sep_outside 0 _ _ _ _ (Z.le_refl 0) Hs0); lia]).
  - apply (view_free_ok (mem s) m' pg (sp_of s pg) _ v la b units lb); try done; [apply insert_block_ne|..]; by rewrite Hsp1.
  - eapply (lists_ok_iff _ _ _ True); [split; [intros _; eexists; split; [done|apply insert_block_ne]|done]|].
    unfold s1. case_decide as Hnil.
    + eapply lists_add; [apply (heap_lists_length _ _ Hh)|apply (heap_lists_nodup _ _ Hh)| |apply slob_list_of_lt|done].
      rewrite (heap_lists _ _ Hh). naive_solver.
    + eapply lists_ok_iff, lists_same; [|apply (heap_lists_length _ _ Hh)|apply (heap_lists_nodup _ _ Hh)|done].
      rewrite (heap_lists _ _ Hh). naive_solver.
  - intros _. exact (heap_allocated s h Hh pg (mk_is_Some _ v Hv)).
Qed.

End free.
