(* ===== verification/SlobSpec.v ===== *)
(** * Correctness of the SLOB heap

    The theorems on [slob_page_alloc], [best_fit], [slob_alloc] and [slob_free]
    that the rest of the system relies on, and a page allocator and an
    architecture for which they are evaluated. *)

From S2P Require Import Prelude CMem SlobBlock SlobPage Slob SlobHeap.

Local Open Scope Z_scope.

(** ** A page allocator and an architecture *)

(** The number of the page behind the last one handed out. *)
Definition next_page (l : list Z) : Z := foldr (λ q n, Z.max (q / PAGE_SIZE + 1) n) 1 l.

(** Memory of 2^20 pages, handed out in address order. *)
Definition bump_alloc (gfp order : Z) (a : gset Z) : option Z * gset Z :=
  let n := next_page (elements a) in
  if 2 ^ 20 <? n + 2 ^ order then (None, a) else (Some (n * PAGE_SIZE), {[n * PAGE_SIZE]} ∪ a).

Lemma next_page_above l q : q ∈ l → q / PAGE_SIZE < next_page l.
Proof. induction l as [|p l IH]; [set_solver|]. intros [->|Hq]%elem_of_cons; simpl; [lia|]. apply IH in Hq. lia. Qed.

Lemma next_page_pos l : 1 <= next_page l.
Proof. induction l; simpl; lia. Qed.

Lemma bump_alloc_fresh gfp order a p a' : 0 <= order → bump_alloc gfp order a = (Some p, a') →
  page_addr p ∧ (∀ q, q ∈ a → ¬ p <= q < p + PAGE_SIZE * 2 ^ order) ∧ (∀ q, q ∈ a' ↔ q ∈ a ∨ q = p).
Proof.
  unfold bump_alloc. intros Ho E. destruct (_ <? _); simplify_eq. pose proof (next_page_pos (elements a)) as Hpos.
  split_and!; [|..|set_solver].
  - unfold page_addr, PAGE_SIZE in *. split; [lia|]. apply Z_mod_mult.
  - intros q Hq Hr. apply elem_of_elements, next_page_above in Hq. unfold PAGE_SIZE in *. dlia.
Qed.

Lemma bump_alloc_none gfp order a a' : bump_alloc gfp order a = (None, a') → a' = a.
Proof. unfold bump_alloc. destruct (_ <? _); congruence. Qed.

#[export] Instance Bump : PageAllocator (gset Z) := {
  alloc_pages := bump_alloc;
  free_pages p _ a := a ∖ {[p - p mod PAGE_SIZE]};
  put_page p a := a ∖ {[p - p mod PAGE_SIZE]};
  allocated a := a;
  alloc_pages_fresh := bump_alloc_fresh;
  alloc_pages_none := bump_alloc_none;
  free_pages_allocated p order a := eq_refl }.

Lemma good_align_8 : good_align 8.
Proof. right. exists 3. split; [lia|reflexivity]. Qed.

Lemma good_align_64 : good_align 64.
Proof. right. exists 6. split; [lia|reflexivity]. Qed.

Lemma align_range_8 : 4 <= Z.max 8 8 < PAGE_SIZE.
Proof. split; [discriminate|reflexivity]. Qed.

(** The constants of a 64-bit x86 build. *)
#[export] Instance x86_64 : SlobEnv := {
  ARCH_KMALLOC_MINALIGN := 8;
  ARCH_SLAB_MINALIGN := 8;
  L1_CACHE_BYTES := 64;
  __GFP_ZERO := 32768;
  __GFP_COMP := 16384;
  GFP_KERNEL := 208;
  ZERO_SIZE_PTR := 16;
  SLAB_DESTROY_BY_RCU := 524288;
  SLAB_HWCACHE_ALIGN := 8192;
  SLAB_PANIC := 262144;
  get_order size := Z.log2_up ((size + PAGE_SIZE - 1) / PAGE_SIZE);
  zero_size_ptr_small := eq_refl;
  kmalloc_minalign_good := good_align_8;
  kmalloc_minalign_range := align_range_8;
  kmalloc_minalign_alone := conj good_align_8 eq_refl;
  slab_minalign_good := good_align_8;
  l1_cache_bytes_good := good_align_64;
  L1_cache_bytes_small := eq_refl }.

(** The state after boot. *)
Definition slob_init : slob (gset Z) := Slob ∅ ∅ (replicate 11 []) ∅ None.

Lemma slob_init_heap : heap slob_init ∅.
Proof.
  split; simpl; try done.
  - intros pg. split; [intros Hp; by apply not_elem_of_nil in Hp|]. intros (v & Hv & _). by rewrite lookup_empty in Hv.
  - constructor.
  - intros pg [v Hv]. by rewrite lookup_empty in Hv.
Qed.

(** A page of 2048 units with one live block of 50 units. *)
Lemma one_block_heap : ∃ s, slob_alloc_new slob_init 100 208 8 (-1) 5 = Some (Some 4096, s) ∧
  heap s {[4096 := PV [(4196, 1998)] [(4096, 50)]]}.
Proof.
  destruct (slob_alloc_new_heap slob_init ∅ 100 208 8 (-1) 5 slob_init_heap good_align_8
    ltac:(unfold PAGE_SIZE; lia) ltac:(unfold PAGE_SIZE; lia) ltac:(lia)) as (_ & s & E & Hh & _). exists s. split; [exact E|exact Hh].
Qed.

(** The same page with two live blocks of 50 units. *)
Definition two_blocks : gmap Z page_view := {[4096 := PV [(4296, 1948)] [(4196, 50); (4096, 50)]]}.

Lemma two_blocks_heap : ∃ s : slob (gset Z), heap s two_blocks.
Proof.
  destruct one_block_heap as (s & _ & Hh).
  destruct (slob_page_alloc_heap s _ 4096 _ [] 4196 1998 [] 100 0 Hh (lookup_singleton_eq _ _) eq_refl (or_introl eq_refl)
    ltac:(unfold PAGE_SIZE; lia) (Forall_nil_2 _) ltac:(by compute)) as (s' & _ & Hh' & _).
  exists s'. unfold two_blocks. rewrite insert_singleton_eq in Hh'. exact Hh'.
Qed.

(** ** Properties *)

Section properties.
Context {A : Type} `{PageAllocator A} `{SlobEnv}.
Implicit Types (s : slob A) (h : gmap Z page_view).

(** C1: freeing a live block succeeds and implements the coalescing insertion:
    the last live block of a page sends the page back to the page allocator;
    otherwise the block joins the page's free list merged with the free blocks
    adjacent to it; and the bytes of every block that stays live are kept. *)
Theorem slob_free_refines s h pg v la lb b size :
  heap s h → h !! pg = Some v → pv_live v = la ++ (b, SLOB_UNITS size) :: lb → 1 <= size <= PAGE_SIZE →
  ∃ s', slob_free s b size = Some s' ∧ heap s' (heap_free h pg v b (SLOB_UNITS size) (la ++ lb)) ∧
    pa s' = (if decide (la ++ lb = []) then free_pages b 0 (pa s) else pa s) ∧
    (∀ q w c k, heap_free h pg v b (SLOB_UNITS size) (la ++ lb) !! q = Some w → (c, k) ∈ pv_live w →
      agree c (c + 2 * k) (mem s) (mem s')).
Proof.
  intros Hh Hv Hlive Hsz. unfold heap_free. case_decide as Hnil.
  - apply app_eq_nil in Hnil as [-> ->]. destruct (slob_free_release s h pg v b size Hh Hv Hlive Hsz) as (s' & E & Hh' & Hm & Hpa).
    exists s'. rewrite Hm. split_and!; done.
  - destruct (slob_free_keep s h pg v la lb b size Hh Hv Hlive Hnil Hsz) as (s' & E & Hh' & Hfr & Hpa).
    exists s'. split_and!; try done. intros q w c k Hw Hc.
    destruct (live_units s h pg v la b _ lb Hh Hv Hlive) as (Hpg & _ & Hin & Hap & _ & _).
    pose proof (heap_page _ _ Hh _ _ Hv) as Hok. pose proof (po_sep _ _ _ _ Hok) as Hs.
    apply (apart_agree c k ((b, SLOB_UNITS size) :: pv_free v)); [| | |exact Hfr].
    + pose proof (po_inside _ _ _ _ (heap_page _ _ Hh' _ _ Hw)) as Hi. rewrite Forall_forall in Hi. by apply Hi in Hc as (_ & ? & _).
    + apply Forall_cons. split; [apply Hin|by eapply sep_pos].
    + by eapply (freed_apart s h pg v la lb).
Qed.

(** C9: within a page the allocation is first fit: either no free block of the
    page has room for the aligned request and NULL is returned with nothing
    changed, or the first one with room is split, what is left of it stays free,
    the returned address is aligned, and the bytes of all live blocks are kept. *)
Theorem slob_page_alloc_first_fit s h pg v size align :
  heap s h → h !! pg = Some v → pv_free v ≠ [] → good_align align → 1 <= size <= PAGE_SIZE →
  let units := SLOB_UNITS size in
  (Forall (λ b, ¬ fits align units b) (pv_free v) ∧ slob_page_alloc s pg size align None None = Some (None, s)) ∨
  ∃ l1 a n l2 b s', pv_free v = l1 ++ (a, n) :: l2 ∧ Forall (λ c, ¬ fits align units c) l1 ∧ fits align units (a, n) ∧
    slob_page_alloc s pg size align None None = Some (Some b, s') ∧
    heap s' (<[pg := view_alloc v l1 l2 a n align units]> h) ∧
    a <= b ∧ b + 2 * units <= a + 2 * n ∧ (align ≠ 0 → b mod align = 0) ∧
    (∀ q w c k, h !! q = Some w → (c, k) ∈ pv_live w → agree c (c + 2 * k) (mem s) (mem s')).
Proof.
  intros Hh Hv Hne Hal Hsz units. pose proof (heap_page _ _ Hh _ _ Hv) as Hok.
  destruct (SLOB_UNITS_small size) as (_ & _ & Hu32); [lia|]. fold units in Hu32.
  pose proof (list_find_split (fits align units) (pv_free v)) as Hf.
  destruct (list_find _ _) as [[i [a n]]|]; [right|left].
  - destruct Hf as (l1 & l2 & Hfree & Hfit & Hno). exists l1, a, n, l2.
    destruct (slob_page_alloc_heap s h pg v l1 a n l2 size align Hh Hv Hfree Hal Hsz Hno Hfit) as (s' & E & Hh' & Hfr & _).
    pose proof (po_sep _ _ _ _ Hok) as Hs. rewrite Hfree in Hs.
    pose proof (sep_bounds 2 _ _ _ a n Z.le_0_2 Hs ltac:(set_solver)) as (_ & _ & Ha & _).
    destruct (head_gap_spec align a Hal Ha) as [Hd Hda]. unfold fits in Hfit. simpl in Hfit.
    eexists _, s'. split_and!; try done; try lia.
    + intros Hal0. destruct (Hda Hal0) as [<- ?]. done.
    + intros q w c k Hw Hc. by eapply (live_frame s s' h pg v).
  - split; [done|]. apply (slob_page_alloc_none s pg v); try done. fold units. by rewrite Hu32.
Qed.

(** The search of best_fit is optimal: it returns 0 exactly when no block of
    the list has room, and otherwise has found a block with room that either is
    filled by the request or is the smallest with room. *)
Theorem best_fit_optimal s h i size align :
  heap s h → 1 <= size <= PAGE_SIZE →
  let units := SLOB_UNITS size in let all := blocks_of h (slob_list s i) in
  ∃ bs, best_fit_list s (slob_list s i) units align (BS None None None None 0) = Some bs ∧
    match bs_slob bs with
    | None => best_fit s i size align = Some 0 ∧ Forall (λ b, ¬ fits align units b) all
    | Some a => best_fit s i size align = Some 1 ∧ (a, bs_size bs) ∈ all ∧ fits align units (a, bs_size bs) ∧
        (bs_size bs = units + head_gap align a ∨ Forall (λ b, fits align units b → bs_size bs <= b.2) all)
    end.
Proof.
  intros Hh Hsz units all. destruct (SLOB_UNITS_small size) as (_ & _ & Hu32); [lia|].
  destruct (best_fit_search s h i size align Hh) as (bs & E & Eb & Hbs). rewrite Hu32 in E, Hbs. fold units in E, Hbs.
  exists bs. split; [done|]. cbn zeta in Hbs. fold all in Hbs. destruct Hbs as [Hbs|(a & Ha & Hin & Hex)].
  - unfold best_so_far in Hbs. destruct (bs_slob bs); tauto.
  - rewrite Ha in *. split_and!; try done; [|by left]. unfold fits. simpl. lia.
Qed.

(** [slob_alloc] takes a new page for every request, whatever room the
    partially free pages have: the result is the start of a page that no block
    was on, the request's units at its start are live and the rest is free; all
    other bytes are kept; with __GFP_ZERO the block is zeroed.  NULL is returned
    exactly when there is no page. *)
Theorem slob_alloc_takes_new_page s h size gfp align node :
  heap s h → good_align align → align <= PAGE_SIZE → 1 <= size <= PAGE_SIZE →
  match alloc_pages (Z.land gfp (Z.lnot __GFP_ZERO)) 0 (pa s) with
  | (None, a) => slob_alloc s size gfp align node = Some (None, set_pa s a)
  | (Some pg, a) =>
      h !! pg = None ∧ ∃ s', slob_alloc s size gfp align node = Some (Some pg, s') ∧
      heap s' (<[pg := view_fresh pg align (SLOB_UNITS size)]> h) ∧ pa s' = a ∧
      (∀ x, x < pg ∨ pg + PAGE_SIZE <= x → byte (mem s') x = byte (mem s) x) ∧
      (Z.land gfp __GFP_ZERO ≠ 0 → ∀ x, pg <= x < pg + size → byte (mem s') x = 0)
  end.
Proof. apply slob_alloc_heap. Qed.

(** A block allocated from a page in use and freed again leaves the heap as
    it was: the same free blocks, coalesced, and the same live blocks. *)
Theorem slob_alloc_free_restores s h pg v size align b s1 :
  heap s h → h !! pg = Some v → pv_live v ≠ [] → pv_free v ≠ [] → good_align align → 1 <= size <= PAGE_SIZE →
  slob_page_alloc s pg size align None None = Some (Some b, s1) →
  ∃ s2, slob_free s1 b size = Some s2 ∧ heap s2 h.
Proof.
  intros Hh Hv Hlive Hne Hal Hsz E1. pose proof (heap_page _ _ Hh _ _ Hv) as Hok. set (units := SLOB_UNITS size).
  destruct (SLOB_UNITS_small size) as (Hu & _ & Hu32); [lia|].
  pose proof (list_find_split (fits align units) (pv_free v)) as Hf.
  destruct (list_find _ _) as [[i [a n]]|].
  - destruct Hf as (l1 & l2 & Hfree & Hfit & Hno).
    destruct (slob_page_alloc_heap s h pg v l1 a n l2 size align Hh Hv Hfree Hal Hsz Hno Hfit) as (s1' & E & Hh' & _).
    rewrite E in E1. injection E1 as <- <-.
    destruct (slob_free_keep s1' _ pg _ [] (pv_live v) (a + 2 * head_gap align a) size Hh' (lookup_insert_eq _ _ _) eq_refl Hlive Hsz)
      as (s2 & E2 & Hh2 & _). exists s2. split; [done|].
    rewrite insert_insert_eq in Hh2. replace (view_free _ _ _ _) with v in Hh2; [by rewrite insert_id in Hh2|].
    unfold view_free, view_alloc. simpl. pose proof (po_sep _ _ _ _ Hok) as Hs. rewrite Hfree in Hs.
    fold units. rewrite (insert_rest_of pg l1 a n l2 align units Hs Hal); [|unfold units; rewrite Hu; dlia|done].
    rewrite <- Hfree. by destruct v.
  - rewrite (slob_page_alloc_none s pg v size align Hok Hne) in E1; [done|]. by rewrite Hu32.
Qed.


End properties.

(** The encoding of a free block is read back: for a block of [n] units at
    [a] linked to [nxt] on the same page, or to the page's end, the decoded size,
    successor and "last" flag are those that were stored. *)
Theorem set_slob_round_trip m pg a n nxt :
  page_addr pg → pg <= a → a mod 2 = 0 → a < nxt <= pg + PAGE_SIZE → nxt mod 2 = 0 → 1 <= n <= 2048 →
  let m' := set_slob m a n nxt in
  slob_units m' a = n ∧ slob_next m' a = nxt ∧ slob_last m' a = bool_decide (nxt = pg + PAGE_SIZE) ∧
  (∀ x, x < a ∨ a + 2 * n <= x → byte m' x = byte m x).
Proof.
  intros Hpg Ha Hae Hn Hne Hk m'. pose proof (set_slob_at pg Hpg m a n nxt Ha Hn Hne Hk) as Hat. fold m' in Hat.
  split_and!.
  - eapply (slob_at_units pg Hpg); [exact Ha| | | |exact Hat|..]; lia || done.
  - eapply (slob_at_next pg Hpg); [exact Ha| | | |exact Hat|..]; lia || done.
  - eapply (slob_at_last pg Hpg); [exact Ha| | | |exact Hat|..]; lia || done.
  - intros x Hx. apply (set_slob_agree m a n nxt x (x + 1)); lia.
Qed.

(** ** Witnesses *)

Section witnesses.

Lemma slob_free_refines_witness : ∃ s s' : slob (gset Z), heap s two_blocks ∧ slob_free s 4096 100 = Some s' ∧
  heap s' {[4096 := PV [(4096, 50); (4296, 1948)] [(4196, 50)]]}.
Proof.
  destruct two_blocks_heap as (s & Hh).
  destruct (slob_free_refines s two_blocks 4096 _ [(4196, 50)] [] 4096 100 Hh eq_refl eq_refl ltac:(by compute))
    as (s' & E & Hh' & _). exists s, s'. split; [exact Hh|]. split; [exact E|]. exact Hh'.
Defined.

Lemma slob_page_alloc_first_fit_witness : ∃ s : slob (gset Z), heap s two_blocks ∧
  ∃ b s', slob_page_alloc s 4096 10 64 None None = Some (Some b, s') ∧ b mod 64 = 0.
Proof.
  destruct two_blocks_heap as (s & Hh). exists s. split; [exact Hh|].
  destruct (slob_page_alloc_first_fit s two_blocks 4096 _ 10 64 Hh eq_refl ltac:(discriminate) good_align_64 ltac:(by compute))
    as [[Hno _]|(l1 & a & n & l2 & b & s' & _ & _ & _ & E & _ & _ & _ & Hb & _)].
  - apply Forall_cons in Hno as [Hno _]. exfalso. by apply Hno.
  - exists b, s'. split; [exact E|by apply Hb].
Defined.

Lemma best_fit_optimal_witness : ∃ s : slob (gset Z), heap s two_blocks ∧
  ∃ bs, best_fit_list s (slob_list s 5) (SLOB_UNITS 100) 8 (BS None None None None 0) = Some bs.
Proof.
  destruct two_blocks_heap as (s & Hh). exists s. split; [exact Hh|].
  destruct (best_fit_optimal s two_blocks 5 100 8 Hh ltac:(by compute)) as (bs & E & _). exists bs. exact E.
Defined.

Lemma slob_alloc_takes_new_page_witness : ∃ s : slob (gset Z), heap s two_blocks ∧
  match alloc_pages (Z.land 208 (Z.lnot __GFP_ZERO)) 0 (pa s) with
  | (None, a) => slob_alloc s 100 208 8 (-1) = Some (None, set_pa s a)
  | (Some pg, a) => two_blocks !! pg = None
  end.
Proof.
  destruct two_blocks_heap as (s & Hh). exists s. split; [exact Hh|].
  pose proof (slob_alloc_takes_new_page s two_blocks 100 208 8 (-1) Hh good_align_8 ltac:(by compute) ltac:(by compute)) as Ha.
  destruct (alloc_pages _ 0 (pa s)) as [[pg|] a]; [destruct Ha as [Ha _]|]; exact Ha.
Defined.

Lemma slob_alloc_free_restores_witness : ∃ s s1 s2 : slob (gset Z), ∃ b, heap s two_blocks ∧
  slob_page_alloc s 4096 10 64 None None = Some (Some b, s1) ∧ slob_free s1 b 10 = Some s2 ∧ heap s2 two_blocks.
Proof.
  destruct two_blocks_heap as (s & Hh).
  destruct (slob_page_alloc_heap s _ 4096 _ [] 4296 1948 [] 10 64 Hh eq_refl eq_refl good_align_64 ltac:(by compute)
    (Forall_nil_2 _) ltac:(by compute)) as (s1 & E & _).
  destruct (slob_alloc_free_restores s two_blocks 4096 _ 10 64 _ s1 Hh eq_refl ltac:(discriminate) ltac:(discriminate)
    good_align_64 ltac:(by compute) E) as (s2 & E2 & Hh2). exists s, s1, s2. eexists. split; [exact Hh|].
  split; [exact E|]. split; [exact E2|exact Hh2].
Defined.


Lemma set_slob_round_trip_witness : page_addr 4096 ∧ slob_units (set_slob ∅ 4100 7 4200) 4100 = 7.
Proof.
  assert (page_addr 4096) as Hpg by (by compute). split; [exact Hpg|].
  destruct (set_slob_round_trip ∅ 4096 4100 7 4200 Hpg ltac:(by compute) eq_refl ltac:(by compute) eq_refl ltac:(by compute)) as (E & _).
  exact E.
Defined.

End witnesses.
