(* ===== verification/SlobFront.v ===== *)
(** * The SLOB front ends (src/indwriterups/project4/slob.c, end of the file)

    kmalloc and kfree, with the size of a block stored in front of it; the slab
    caches, whose objects of an RCU cache carry a footer and are freed after a
    grace period; and the fragmentation figures the new system calls were meant
    to report. *)

From S2P Require Import Prelude CMem SlobBlock SlobPage Slob SlobHeap SlobSpec.

Local Open Scope Z_scope.

Section front.
Context {A : Type} `{PageAllocator A} `{SlobEnv}.
Implicit Types s : slob A.

(** ** kmalloc *)

Definition kmalloc_align : Z := Z.max ARCH_KMALLOC_MINALIGN ARCH_SLAB_MINALIGN.

(** [size] is a [size_t]; the pointer is [None] for NULL, and the outer [None] is
    the kernel dying in a BUG. *)
Definition __kmalloc_node s (size gfp node : Z) : option (option Z * slob A) :=
  let align := kmalloc_align in
  if size <? PAGE_SIZE - align then
    if size =? 0 then Some (Some ZERO_SIZE_PTR, s)
    else
      '(m, s) ← slob_alloc s (size + align) gfp align node;
      match m with
      | None => Some (None, s)
      | Some m => Some (Some (m + align), set_mem s (store32 (mem s) m size))
      end
  else
    let order := get_order size in
    let gfp := if order =? 0 then gfp else Z.lor gfp __GFP_COMP in
    let '(ret, s) := slob_new_pages s gfp order node in
    Some (ret, match ret with
               | None => s
               | Some ret => let p := sp_of s (page_of ret) in
                   set_page s (page_of ret) (SP (sp_units p) (sp_free p) size (sp_mapping p) (PageSlab p) (PageSlobFree p))
               end).

(** [*m + align] is an unsigned sum passed as an [int]. *)
Definition kfree s (block : Z) : option (slob A) :=
  if block <=? ZERO_SIZE_PTR then Some s
  else
    let sp := page_of block in
    if is_slob_page s sp then
      let m := block - kmalloc_align in
      slob_free s m (s32 (load32 (mem s) m + kmalloc_align))
    else Some (set_pa s (put_page sp (pa s))).

(** [None] is [BUG_ON(!block)]. *)
Definition ksize s (block : Z) : option Z :=
  if block =? 0 then None
  else if block =? ZERO_SIZE_PTR then Some 0
  else
    let sp := page_of block in
    if is_slob_page s sp then
      let m := block - kmalloc_align in
      Some (SLOB_UNITS (load32 (mem s) m) * SLOB_UNIT)
    else Some (sp_private (sp_of s sp)).

(** ** Slab caches

    [struct kmem_cache] on a 64-bit machine: [size] at 0, [align] at 4, [flags]
    at 8, [name] at 16, [ctor] at 24; [struct slob_rcu]: two words of
    [rcu_head], then [size]. *)

Definition sizeof_kmem_cache : Z := 32.

Definition sizeof_slob_rcu : Z := 24.

Definition c_size s (c : Z) : Z := load32 (mem s) c.

Definition c_align s (c : Z) : Z := load32 (mem s) (c + 4).

Definition c_flags s (c : Z) : Z := load64 (mem s) (c + 8).

Definition c_ctor s (c : Z) : Z := load64 (mem s) (c + 24).

(** The alignment a cache uses: forced to cache lines, at least the architecture's
    and the caller's. *)
Definition cache_align (align flags : Z) : Z :=
  let a := if Z.land flags SLAB_HWCACHE_ALIGN =? 0 then 0 else L1_CACHE_BYTES in
  let a := if a <? ARCH_SLAB_MINALIGN then ARCH_SLAB_MINALIGN else a in
  if a <? align then u32 align else a.

Definition cache_size (size flags : Z) : Z :=
  if Z.land flags SLAB_DESTROY_BY_RCU =? 0 then u32 size else u32 (u32 size + sizeof_slob_rcu).

(** The outer [None] is the panic asked for with SLAB_PANIC. *)
Definition kmem_cache_create s (name size align flags ctor : Z) : option (option Z * slob A) :=
  '(c, s) ← slob_alloc s sizeof_kmem_cache GFP_KERNEL ARCH_KMALLOC_MINALIGN (-1);
  match c with
  | Some c =>
      let m := store64 (mem s) (c + 16) name in
      let m := store32 m c (cache_size size flags) in
      let m := store64 m (c + 8) flags in
      let m := store64 m (c + 24) ctor in
      let m := store32 m (c + 4) (cache_align align flags) in
      Some (Some c, set_mem s m)
  | None => if Z.land flags SLAB_PANIC =? 0 then Some (None, s) else None
  end.

(** [run_ctor f b m]: the memory after calling the constructor at address [f] on
    [b]; it is called even when the allocation failed. *)
Definition kmem_cache_alloc_node (run_ctor : Z → option Z → memory → memory) s (c flags node : Z) :
    option (option Z * slob A) :=
  '(b, s) ← (if c_size s c <? PAGE_SIZE then slob_alloc s (c_size s c) flags (c_align s c) node
             else Some (slob_new_pages s flags (get_order (c_size s c)) node));
  Some (b, if c_ctor s c =? 0 then s else set_mem s (run_ctor (c_ctor s c) b (mem s))).

(** [size] is an [int], compared as an unsigned long. *)
Definition __kmem_cache_free s (b size : Z) : option (slob A) :=
  if u64 size <? PAGE_SIZE then slob_free s b size else Some (slob_free_pages s b (get_order size)).

(** [slob_rcu->size] is an [int]. *)
Definition kmem_rcu_free s (slob_rcu : Z) : option (slob A) :=
  let size := s32 (load32 (mem s) (slob_rcu + 16)) in
  let b := slob_rcu - (size - sizeof_slob_rcu) in
  __kmem_cache_free s b size.

(** The allocator with the callbacks queued by [call_rcu], oldest first. *)
Record rcu_slob := RcuSlob { rs : slob A; rcu_queue : list Z }.

Definition kmem_cache_free (r : rcu_slob) (c b : Z) : option rcu_slob :=
  let s := rs r in
  if negb (Z.land (c_flags s c) SLAB_DESTROY_BY_RCU =? 0) then
    let slob_rcu := b + (c_size s c - sizeof_slob_rcu) in
    let s := set_mem s (store32 (mem s) (slob_rcu + 16) (c_size s c)) in
    Some (RcuSlob s (rcu_queue r ++ [slob_rcu]))
  else
    s ← __kmem_cache_free s b (s32 (c_size s c));
    Some (RcuSlob s (rcu_queue r)).

(** A grace period ends: the oldest callback runs. *)
Definition rcu_callback (r : rcu_slob) : option rcu_slob :=
  match rcu_queue r with
  | [] => Some r
  | p :: q => s ← kmem_rcu_free (rs r) p; Some (RcuSlob s q)
  end.

(** [rcu_barrier] waits for all queued callbacks. *)
Fixpoint rcu_barrier (fuel : nat) (r : rcu_slob) : option rcu_slob :=
  match fuel with
  | O => Some r
  | S fuel' => r ← rcu_callback r; rcu_barrier fuel' r
  end.

Definition kmem_cache_destroy (r : rcu_slob) (c : Z) : option rcu_slob :=
  r ← (if Z.land (c_flags (rs r) c) SLAB_DESTROY_BY_RCU =? 0 then Some r else rcu_barrier (length (rcu_queue r)) r);
  s ← slob_free (rs r) c sizeof_kmem_cache;
  Some (RcuSlob s (rcu_queue r)).

Definition kmem_cache_size s (c : Z) : Z := c_size s c.

Definition kmem_cache_shrink (d : Z) : Z := 0.

(** [slob_ready], and what sets and reads it. *)
Definition kmem_cache_init (slob_ready : Z) : Z := 1.

Definition slab_is_available (slob_ready : Z) : Z := slob_ready.

(** ** Fragmentation *)

(** The loop over the free blocks of a page: the largest block and the sum. *)
Fixpoint frag_page (fuel : nat) (m : memory) (cur page_free page_total : Z) : option (Z * Z) :=
  match fuel with
  | O => None
  | S fuel' =>
      let page_free := if page_free <? slob_units m cur then slob_units m cur else page_free in
      let page_total := page_total + slob_units m cur in
      if slob_last m cur then Some (page_free, page_total)
      else frag_page fuel' m (slob_next m cur) page_free page_total
  end.

(** The loop over the pages of a list; without pages the figures of the list
    before are left. *)
Fixpoint frag_list s (sps : list Z) (page_free page_total : Z) : option (Z * Z) :=
  match sps with
  | [] => Some (page_free, page_total)
  | sp :: sps' =>
      '(page_free, page_total) ← frag_page page_fuel (mem s) (sp_free (sp_of s sp)) 0 0;
      frag_list s sps' page_free page_total
  end.

(** The loop over the lists: [pages] counts the lists. *)
Fixpoint frag_lists s (ls : list (list Z)) (page_free page_total free_max free_total pages : Z) : option (Z * Z * Z) :=
  match ls with
  | [] => Some (free_max, free_total, pages)
  | l :: ls' =>
      '(page_free, page_total) ← frag_list s l page_free page_total;
      frag_lists s ls' page_free page_total (free_max + page_free) (free_total + page_total) (pages + 1)
  end.

(** [sizeof] makes the arithmetic of the result unsigned. *)
Definition get_fragmentation s (which : Z) : option Z :=
  '(free_max, free_total, pages) ← frag_lists s (free_slob s) 0 0 0 0 0;
  Some (s64 (u64 ((if which =? 0 then free_max else free_total) * 2) / pages)).

Definition sys_get_free_total : Z := 1.

Definition sys_get_free_max : Z := 1.

(** ** What the fragmentation figures are *)

Definition largest (bl : list block) : Z := foldr (λ b n, Z.max b.2 n) 0 bl.

(** The free blocks of the page whose figures are counted for each list: its last
    page, or that of the nearest list before it that has one. *)
Fixpoint counted_pages (h : gmap Z page_view) (stale : list block) (ls : list (list Z)) : list (list block) :=
  match ls with
  | [] => []
  | l :: ls' =>
      let bl := match last l with
                | Some sp => from_option pv_free [] (h !! sp)
                | None => stale
                end in
      bl :: counted_pages h bl ls'
  end.

(** A block obtained from [__kmalloc_node] for [size] bytes: the header in front
    of it is live, and holds the size. *)
Record kmalloced s (h : gmap Z page_view) (block size pg : Z) (v : page_view) (la lb : list SlobBlock.block) : Prop := {
  km_page : h !! pg = Some v;
  km_live : pv_live v = la ++ (block - kmalloc_align, SLOB_UNITS (size + kmalloc_align)) :: lb;
  km_size : 1 <= size < PAGE_SIZE - kmalloc_align;
  km_header : load32 (mem s) (block - kmalloc_align) = size }.

End front.

(** ** kmalloc and kfree *)

Section kmalloc.
Context {A : Type} `{PageAllocator A} `{SlobEnv}.
Implicit Types (s : slob A) (h : gmap Z page_view).

Lemma kmalloc_align_even : kmalloc_align mod 2 = 0 ∧ 4 <= kmalloc_align < PAGE_SIZE ∧ good_align kmalloc_align.
Proof.
  pose proof kmalloc_minalign_good as Hg. pose proof kmalloc_minalign_range as Hr. fold kmalloc_align in Hg, Hr.
  split_and!; try done; try lia. destruct Hg as [->|(k & Hk & ->)]; [done|].
  replace (2 ^ k) with (2 ^ (k - 1) * 2) by (rewrite Z.mul_comm, <- Z.pow_succ_r by lia; f_equal; lia). apply Z_mod_mult.
Qed.

(** The address arithmetic of a block with its header. *)
Lemma header_units size : 0 <= size → size + kmalloc_align <= PAGE_SIZE →
  2 * SLOB_UNITS (size + kmalloc_align) = kmalloc_align + 2 * SLOB_UNITS size ∧ size <= 2 * SLOB_UNITS size <= size + 1.
Proof.
  intros Hs Hle. destruct kmalloc_align_even as (He & Hr & _).
  destruct (SLOB_UNITS_small size) as (-> & _); [lia|]. destruct (SLOB_UNITS_small (size + kmalloc_align)) as (-> & _); [lia|]. dlia.
Qed.

(** kfree of a block that [__kmalloc_node] handed out frees exactly that block. *)
Lemma kfree_kmalloced s h block size pg v la lb :
  heap s h → kmalloced s h block size pg v la lb →
  let m := block - kmalloc_align in let units := SLOB_UNITS (size + kmalloc_align) in
  kfree s block = slob_free s m (size + kmalloc_align) ∧ ksize s block = Some (2 * SLOB_UNITS size) ∧
  ∃ s', kfree s block = Some s' ∧ heap s' (heap_free h pg v m units (la ++ lb)).
Proof.
  intros Hh [Hv Hlive Hsz Hhd] m units. destruct kmalloc_align_even as (He & Hr & _).
  destruct (live_units s h pg v la m units lb Hh Hv Hlive) as (Hpg & _ & (Hin1 & Hin2 & Hin3 & Hin4) & _). simpl in Hin1, Hin2, Hin3, Hin4.
  destruct (header_units size) as [Hu Hus]; [lia|lia|]. fold units in Hu.
  assert (page_of block = pg) as Hpo.
  { apply (page_of_inside pg (block, 1) Hpg). unfold inside, m in *. simpl. split_and!; try lia. dlia. }
  assert (PAGE_SIZE <= block) by (destruct Hpg; unfold m, PAGE_SIZE in *; dlia).
  pose proof zero_size_ptr_small. assert (is_slob_page s pg = true) as Hslab by (eapply po_slab, heap_page; done).
  assert (kfree s block = slob_free s m (size + kmalloc_align)) as Ek.
  { unfold kfree. rewrite (proj2 (Z.leb_gt _ _)) by lia. rewrite Hpo, Hslab, Hhd. f_equal.
    apply wrap_s_small; [done|]. unfold PAGE_SIZE in *. cbn. lia. }
  split; [done|]. split.
  - unfold ksize. rewrite (proj2 (Z.eqb_neq block 0)), (proj2 (Z.eqb_neq block ZERO_SIZE_PTR)) by (unfold PAGE_SIZE in *; lia).
    rewrite Hpo, Hslab, Hhd. unfold SLOB_UNIT. f_equal. lia.
  - rewrite Ek. unfold heap_free. case_decide as Hnil.
    + apply app_eq_nil in Hnil as [-> ->].
      destruct (slob_free_release s h pg v m (size + kmalloc_align) Hh Hv Hlive) as (s' & E & Hh' & _); [lia|eauto].
    + destruct (slob_free_keep s h pg v la lb m (size + kmalloc_align) Hh Hv Hlive Hnil) as (s' & E & Hh' & _); [lia|eauto].
Qed.

(** C26: kmalloc, arbitrary writes of the client into its [size] bytes, kfree: the
    block is aligned and at least [size] bytes long, [ksize] reports its length
    (the size rounded up to a unit), and kfree finds the header again and
    restores the heap.  Without a page kmalloc returns NULL. *)
Theorem kmalloc_kfree_restores s h size gfp node :
  heap s h → 1 <= size < PAGE_SIZE - kmalloc_align →
  match alloc_pages (Z.land gfp (Z.lnot __GFP_ZERO)) 0 (pa s) with
  | (None, a) => __kmalloc_node s size gfp node = Some (None, set_pa s a)
  | (Some pg, a) =>
      let block := pg + kmalloc_align in
      ∃ s1, __kmalloc_node s size gfp node = Some (Some block, s1) ∧ block mod kmalloc_align = 0 ∧
      ∀ m', (∀ x, x < block ∨ block + size <= x → byte m' x = byte (mem s1) x) →
        ksize (set_mem s1 m') block = Some (2 * SLOB_UNITS size) ∧ size <= 2 * SLOB_UNITS size <= size + 1 ∧
        ∃ s2, kfree (set_mem s1 m') block = Some s2 ∧ heap s2 h
  end.
Proof.
  intros Hh Hsz. destruct kmalloc_align_even as (He & Hr & Hg). destruct (header_units size) as [Hu Hus]; [lia|lia|].
  assert (kmalloc_align <= PAGE_SIZE ∧ 1 <= size + kmalloc_align <= PAGE_SIZE) as [Hle Hsz'] by lia.
  pose proof (slob_alloc_heap s h (size + kmalloc_align) gfp kmalloc_align node Hh Hg Hle Hsz') as Ha.
  unfold __kmalloc_node. rewrite (proj2 (Z.ltb_lt _ _)), (proj2 (Z.eqb_neq size 0)) by lia.
  destruct (alloc_pages _ 0 (pa s)) as [[pg|] a]; [|by rewrite Ha].
  destruct Ha as (Hnone & s0 & E & Hh0 & _ & _ & _). rewrite E. set (block := pg + kmalloc_align). simpl. eexists. split; [done|].
  pose proof (heap_page_addr s0 _ pg _ Hh0 (lookup_insert_eq _ _ _)) as Hpg.
  pose proof (head_gap_page kmalloc_align pg Hpg Hg ltac:(lia)) as Hgap.
  set (units := SLOB_UNITS (size + kmalloc_align)) in *. split.
  { destruct (head_gap_spec kmalloc_align pg Hg) as [_ Hd]; [destruct Hpg; unfold PAGE_SIZE in *; dlia|].
    destruct Hd as [Hd1 Hd2]; [lia|]. rewrite Hgap in Hd1. replace (pg + 2 * 0) with pg in Hd1 by lia. rewrite Hd1 in Hd2.
    unfold block. rewrite Zplus_mod, Hd2, Z_mod_same_full. done. }
  intros m' Hm'. simpl in Hm'.
  assert (pv_live (view_fresh pg kmalloc_align units) = [] ++ (pg, units) :: []) as Hlv.
  { unfold view_fresh. simpl. do 2 f_equal. rewrite Hgap. lia. }
  assert (heap (set_mem s0 m') (<[pg := view_fresh pg kmalloc_align units]> h)) as Hh1.
  { apply (heap_write_live s0 _ pg (view_fresh pg kmalloc_align units) pg units [] []); [done|apply lookup_insert_eq|exact Hlv|].
    intros x Hx. rewrite Hm' by (unfold block; lia). apply (store32_agree _ _ _ x (x + 1)); lia. }
  assert (kmalloced (set_mem s0 m') (<[pg := view_fresh pg kmalloc_align units]> h) block size pg
    (view_fresh pg kmalloc_align units) [] []) as Hkm.
  { split; [apply lookup_insert_eq| |done|].
    - replace (block - kmalloc_align) with pg by (unfold block; lia). exact Hlv.
    - replace (block - kmalloc_align) with pg by (unfold block; lia). simpl.
      transitivity (load32 (store32 (mem s0) pg size) pg).
      + apply load32_agree. intros x Hx. apply Hm'. unfold block. lia.
      + rewrite load32_store32. apply wrap_u_small. unfold PAGE_SIZE in *. cbn. lia. }
  destruct (kfree_kmalloced (set_mem s0 m') _ block size pg _ [] [] Hh1 Hkm) as (_ & Eks & s2 & E2 & Hh2).
  split; [exact Eks|]. split; [done|]. exists s2. split; [exact E2|].
  unfold heap_free in Hh2. simpl in Hh2. rewrite delete_insert_id in Hh2; done.
Qed.

End kmalloc.

(** ** RCU caches *)

Section rcu.
Context {A : Type} `{PageAllocator A} `{SlobEnv}.
Implicit Types (s : slob A) (h : gmap Z page_view) (r : @rcu_slob A).

(** Freeing an object of an RCU cache keeps it live until a grace period has
    passed: the heap view is unchanged and a callback is queued on the footer at
    the object's end; in whatever heap that callback runs, as long as the object
    is live and the footer's size word was not overwritten, it frees exactly that
    object. *)
Theorem kmem_cache_free_rcu r h c b size pg v la lb :
  heap (rs r) h → h !! pg = Some v → c_size (rs r) c = size → sizeof_slob_rcu <= size < PAGE_SIZE →
  Z.land (c_flags (rs r) c) SLAB_DESTROY_BY_RCU ≠ 0 → pv_live v = la ++ (b, SLOB_UNITS size) :: lb →
  let footer := b + (size - sizeof_slob_rcu) in
  ∃ r', kmem_cache_free r c b = Some r' ∧ heap (rs r') h ∧ rcu_queue r' = rcu_queue r ++ [footer] ∧
    ∀ s2 h2 v2 la2 lb2 q, heap s2 h2 → h2 !! pg = Some v2 → pv_live v2 = la2 ++ (b, SLOB_UNITS size) :: lb2 →
      load32 (mem s2) (footer + 16) = load32 (mem (rs r')) (footer + 16) →
      ∃ s3, rcu_callback (RcuSlob s2 (footer :: q)) = Some (RcuSlob s3 q) ∧
        heap s3 (heap_free h2 pg v2 b (SLOB_UNITS size) (la2 ++ lb2)).
Proof.
  unfold sizeof_slob_rcu. intros Hh Hv Hsize Hsz Hrcu Hlive. set (footer := b + (size - 24)).
  destruct (SLOB_UNITS_small size) as (Hu & _); [lia|]. unfold kmem_cache_free.
  rewrite (proj2 (Z.eqb_neq _ 0)) by done. simpl. rewrite Hsize. eexists. split; [done|]. simpl. split; [|split; [done|]].
  { eapply heap_write_live; [done|exact Hv|exact Hlive|].
    intros x Hx. apply (store32_agree _ _ _ x (x + 1)); rewrite ?Hu in Hx; unfold sizeof_slob_rcu; dlia. }
  intros s2 h2 v2 la2 lb2 q Hh2 Hv2 Hlive2 Hword. unfold sizeof_slob_rcu in Hword. rewrite load32_store32 in Hword.
  rewrite wrap_u_small in Hword by (unfold PAGE_SIZE in *; cbn; lia).
  unfold rcu_callback, kmem_rcu_free. simpl. rewrite Hword. rewrite wrap_s_small by (unfold PAGE_SIZE in *; cbn; lia).
  unfold sizeof_slob_rcu, __kmem_cache_free. rewrite wrap_u_small by (unfold PAGE_SIZE in *; cbn; lia).
  rewrite (proj2 (Z.ltb_lt _ _)) by lia. replace (footer - (size - 24)) with b by (unfold footer; lia).
  unfold heap_free. case_decide as Hnil.
  - apply app_eq_nil in Hnil as [-> ->].
    destruct (slob_free_release s2 h2 pg v2 b size Hh2 Hv2 Hlive2) as (s3 & -> & Hh3 & _); [lia|]. exists s3. done.
  - destruct (slob_free_keep s2 h2 pg v2 la2 lb2 b size Hh2 Hv2 Hlive2 Hnil) as (s3 & -> & Hh3 & _); [lia|]. exists s3. done.
Qed.

End rcu.

(** ** Creating a cache *)

Section create.
Context {A : Type} `{PageAllocator A} `{SlobEnv}.
Implicit Types (s : slob A) (h : gmap Z page_view).

Lemma cache_align_spec align flags :
  0 <= align < 2 ^ 32 → good_align align →
  let a := cache_align align flags in
  good_align a ∧ ARCH_SLAB_MINALIGN <= a ∧ align <= a ∧ (Z.land flags SLAB_HWCACHE_ALIGN ≠ 0 → L1_CACHE_BYTES <= a).
Proof.
  intros Ha Hg. pose proof slab_minalign_good. pose proof l1_cache_bytes_good. unfold cache_align.
  rewrite wrap_u_small by done.
  destruct (Z.eqb_spec (Z.land flags SLAB_HWCACHE_ALIGN) 0); repeat (case_match; simplify_eq);
    repeat match goal with H : (_ <? _) = true |- _ => apply Z.ltb_lt in H | H : (_ <? _) = false |- _ => apply Z.ltb_ge in H end;
    split_and!; try done; try lia; by left.
Qed.

(** A new cache takes a page of its own and records what it was created with:
    the object size, with room for the RCU footer when objects are freed by RCU,
    the flags and the constructor, and an alignment that is a power of two and at
    least the architecture's, the caller's and, if forced, a cache line.  Without
    a page NULL is returned, or the kernel panics when SLAB_PANIC asks for it. *)
Theorem kmem_cache_create_records s h name size align flags ctor :
  heap s h → 0 <= size → size + sizeof_slob_rcu < 2 ^ 32 → 0 <= align < 2 ^ 32 → good_align align →
  0 <= flags < 2 ^ 64 → 0 <= ctor < 2 ^ 64 →
  match alloc_pages (Z.land GFP_KERNEL (Z.lnot __GFP_ZERO)) 0 (pa s) with
  | (None, a) => kmem_cache_create s name size align flags ctor =
      (if Z.land flags SLAB_PANIC =? 0 then Some (None, set_pa s a) else None)
  | (Some c, a) => ∃ s', kmem_cache_create s name size align flags ctor = Some (Some c, s') ∧
      heap s' (<[c := view_fresh c ARCH_KMALLOC_MINALIGN 16]> h) ∧
      c_size s' c = size + (if Z.land flags SLAB_DESTROY_BY_RCU =? 0 then 0 else sizeof_slob_rcu) ∧
      c_flags s' c = flags ∧ c_ctor s' c = ctor ∧
      good_align (c_align s' c) ∧ ARCH_SLAB_MINALIGN <= c_align s' c ∧ align <= c_align s' c ∧
      (Z.land flags SLAB_HWCACHE_ALIGN ≠ 0 → L1_CACHE_BYTES <= c_align s' c)
  end.
Proof.
  intros Hh Hs0 Hs1 Ha Hga Hf Hc. destruct kmalloc_minalign_alone as [Hg Hlt].
  pose proof (slob_alloc_heap s h sizeof_kmem_cache GFP_KERNEL ARCH_KMALLOC_MINALIGN (-1) Hh Hg) as Hal.
  unfold kmem_cache_create. destruct (alloc_pages _ 0 (pa s)) as [[c|] a].
  2: { rewrite Hal; [done|lia|]. unfold sizeof_kmem_cache, PAGE_SIZE. lia. }
  destruct Hal as (Hnone & s0 & E & Hh0 & _); [lia|unfold sizeof_kmem_cache, PAGE_SIZE; lia|].
  change (SLOB_UNITS sizeof_kmem_cache) with 16 in Hh0. rewrite E. eexists. split; [done|].
  pose proof (heap_page_addr s0 _ c _ Hh0 (lookup_insert_eq _ _ _)) as Hpg.
  pose proof (head_gap_page ARCH_KMALLOC_MINALIGN c Hpg Hg ltac:(lia)) as Hgap.
  set (m1 := store64 (mem s0) (c + 16) name). set (m2 := store32 m1 c _). set (m3 := store64 m2 (c + 8) flags).
  set (m4 := store64 m3 (c + 24) ctor). set (m5 := store32 m4 (c + 4) _).
  assert (cache_size size flags = size + (if Z.land flags SLAB_DESTROY_BY_RCU =? 0 then 0 else sizeof_slob_rcu) ∧
    0 <= cache_size size flags < 2 ^ 32) as [Esz Hsz].
  { unfold cache_size, sizeof_slob_rcu in *. destruct (_ =? 0); rewrite ?wrap_u_small by (rewrite ?wrap_u_small; lia);
      rewrite ?wrap_u_small by lia; lia. }
  assert (0 <= cache_align align flags < 2 ^ 32) as Hca.
  { pose proof (cache_align_spec align flags Ha Hga) as (_ & ? & ? & _). split; [lia|].
    pose proof kmalloc_minalign_range. pose proof L1_cache_bytes_small. unfold cache_align. rewrite wrap_u_small by done.
    unfold PAGE_SIZE in *. repeat case_match; cbn; lia. }
  assert (∀ x, x < c ∨ c + 32 <= x → byte m5 x = byte (mem s0) x) as Hout.
  { intros x Hx.
    transitivity (byte m4 x); [apply (store32_agree m4 _ _ x (x + 1)); lia|].
    transitivity (byte m3 x); [apply (store64_agree m3 _ _ x (x + 1)); lia|].
    transitivity (byte m2 x); [apply (store64_agree m2 _ _ x (x + 1)); lia|].
    transitivity (byte m1 x); [apply (store32_agree m1 _ _ x (x + 1)); lia|].
    apply (store64_agree _ _ _ x (x + 1)); lia. }
  assert (c_align (set_mem s0 m5) c = cache_align align flags) as Eal.
  { unfold c_align. simpl. unfold m5. rewrite load32_store32. by apply wrap_u_small. }
  rewrite Eal. split; [|split; [|split; [|split]]].
  - apply (heap_write_live s0 _ c (view_fresh c ARCH_KMALLOC_MINALIGN 16) c 16 [] []); [done|apply lookup_insert_eq| |].
    + unfold view_fresh. simpl. rewrite Hgap. do 2 f_equal. lia.
    + intros x Hx. apply Hout. lia.
  - unfold c_size. simpl. unfold m5. rewrite load32_store32_ne by lia.
    transitivity (load32 m2 c); [|unfold m2; rewrite load32_store32; by rewrite wrap_u_small].
    transitivity (load32 m3 c); apply load32_agree, store64_agree; lia.
  - unfold c_flags. simpl. unfold m5. rewrite load64_store32_ne by lia. transitivity (load64 m3 (c + 8)).
    + unfold load64. f_equal; [|f_equal]; apply load32_agree, store64_agree; lia.
    + by apply load64_store64.
  - unfold c_ctor. simpl. unfold m5. rewrite load64_store32_ne by lia. by apply load64_store64.
  - by apply cache_align_spec.
Qed.

End create.

(** ** Fragmentation figures *)

Section fragmentation.
Context {A : Type} `{PageAllocator A} `{SlobEnv}.
Implicit Types (s : slob A) (h : gmap Z page_view).

Lemma frag_page_spec m pg : page_addr pg → ∀ l2 l1 fuel f t,
  sep 0 pg (pg + PAGE_SIZE) (l1 ++ l2) → seg m (l1 ++ l2) (pg + PAGE_SIZE) → l2 ≠ [] → (length l2 <= fuel)%nat →
  frag_page fuel m (first (pg + PAGE_SIZE) l2) f t = Some (Z.max f (largest l2), t + total l2).
Proof.
  intros Hpg. induction l2 as [|[a n] l2 IH]; intros l1 [|fuel] f t Hs Hseg Hne Hf; simpl in Hf; try done; try lia.
  destruct (seg_decode pg Hpg m l1 a n l2 Hs Hseg) as (Hu & Hnx & Hl). cbn [first frag_page]. rewrite Hu, Hnx, Hl.
  assert ((if f <? n then n else f) = Z.max f n) as -> by (destruct (Z.ltb_spec f n); lia).
  rewrite total_cons. change (largest ((a, n) :: l2)) with (Z.max n (largest l2)).
  pose proof (sep_bounds 0 _ _ _ a n (Z.le_refl 0) Hs ltac:(set_solver)) as (_ & Hn & _).
  case_bool_decide as Hl2.
  - subst l2. rewrite total_nil. simpl. do 2 f_equal; lia.
  - rewrite (IH (l1 ++ [(a, n)])); rewrite <- ?app_assoc; try done; try lia. do 2 f_equal; lia.
Qed.

Lemma largest_nonneg l : 0 <= largest l.
Proof. induction l as [|[a n] l IH]; simpl; lia. Qed.

Lemma frag_list_spec s h : heap s h → ∀ sps stale,
  (∀ pg, pg ∈ sps → ∃ v, h !! pg = Some v ∧ pv_free v ≠ []) →
  let bl := match last sps with Some sp => from_option pv_free [] (h !! sp) | None => stale end in
  frag_list s sps (largest stale) (total stale) = Some (largest bl, total bl).
Proof.
  intros Hh. induction sps as [|sp sps IH]; intros stale Hsps; [done|].
  destruct (Hsps sp) as (v & Hv & Hne); [set_solver|]. pose proof (heap_page _ _ Hh _ _ Hv) as Hok.
  destruct (page_ok_room _ _ _ _ Hok) as (Hs0 & Hlen & _). cbn [frag_list].
  rewrite (po_head _ _ _ _ Hok) by done.
  rewrite (frag_page_spec (mem s) sp (po_addr _ _ _ _ Hok) (pv_free v) [] page_fuel 0 0 Hs0 (po_seg _ _ _ _ Hok) Hne Hlen).
  pose proof (largest_nonneg (pv_free v)). cbn [mbind option_bind].
  replace (Z.max 0 (largest (pv_free v))) with (largest (pv_free v)) by lia. rewrite Z.add_0_l.
  rewrite IH by (intros; apply Hsps; set_solver). rewrite last_cons. destruct (last sps); [done|]. simpl. by rewrite Hv.
Qed.

Lemma frag_lists_spec s h : heap s h → ∀ ls stale fm ft n,
  (∀ l pg, l ∈ ls → pg ∈ l → ∃ v, h !! pg = Some v ∧ pv_free v ≠ []) →
  frag_lists s ls (largest stale) (total stale) fm ft n =
    Some (fm + foldr (λ bl z, largest bl + z) 0 (counted_pages h stale ls),
          ft + foldr (λ bl z, total bl + z) 0 (counted_pages h stale ls), n + Z.of_nat (length ls)).
Proof.
  intros Hh. induction ls as [|l ls IH]; intros stale fm ft n Hls.
  - simpl. by rewrite !Z.add_0_r.
  - cbn [frag_lists counted_pages foldr]. rewrite (frag_list_spec s h Hh) by (intros pg Hpg; by apply (Hls l); [set_solver|]).
    cbn [mbind option_bind]. set (bl := match last l with Some _ => _ | None => _ end).
    rewrite IH by (intros l' pg Hl Hpg; apply (Hls l'); set_solver). do 2 f_equal; [f_equal; lia|simpl length; lia].
Qed.

Lemma counted_pages_bound s h : heap s h → ∀ ls stale, 0 <= largest stale <= 2048 → 0 <= total stale <= 2048 →
  Forall (λ bl, 0 <= largest bl <= 2048 ∧ 0 <= total bl <= 2048) (counted_pages h stale ls).
Proof.
  intros Hh. induction ls as [|l ls IH]; intros stale H1 H2; [by apply Forall_nil|].
  cbn [counted_pages]. set (bl := match last l with Some _ => _ | None => _ end).
  assert ((0 <= largest bl <= 2048) ∧ 0 <= total bl <= 2048) as [H3 H4].
  { unfold bl. destruct (last l) as [sp|]; [|done]. destruct (h !! sp) as [v|] eqn:Hv; [|simpl; rewrite total_nil; lia]. simpl.
    pose proof (heap_page _ _ Hh _ _ Hv) as Hok. destruct (page_ok_room _ _ _ _ Hok) as (_ & _ & Ht).
    pose proof (sep_pos _ _ _ (po_sep _ _ _ _ Hok)) as Hpos. pose proof (total_pos _ Hpos) as [Ht0 _].
    assert (largest (pv_free v) <= total (pv_free v)) as Hle.
    { clear - Hpos. induction (pv_free v) as [|[a n] l IH]; [done|]. apply Forall_cons in Hpos as [Hn Hpos]. simpl in Hn.
      specialize (IH Hpos). apply total_pos in Hpos as [? _]. rewrite total_cons. simpl. lia. }
    pose proof (largest_nonneg (pv_free v)). lia. }
  apply Forall_cons. split; [done|]. by apply IH.
Qed.

Lemma sum_bound (f : list block → Z) l :
  Forall (λ bl, 0 <= f bl <= 2048) l → 0 <= foldr (λ bl z, f bl + z) 0 l <= 2048 * Z.of_nat (length l).
Proof. induction l as [|bl l IH]; [simpl; lia|]. intros [Hb Hl]%Forall_cons. specialize (IH Hl). cbn [foldr length]. lia. Qed.

(** What get_fragmentation computes: for each of the eleven lists the free
    units, or the largest free block, of the last page of that list, or when the
    list is empty of the last page of the nearest non-empty list before it; the
    sum in bytes divided by the number of lists, 11, whatever the number of
    pages. *)
Theorem get_fragmentation_value s h which :
  heap s h →
  let counted := counted_pages h [] (free_slob s) in
  get_fragmentation s which =
    Some (foldr (λ bl z, (if which =? 0 then largest bl else total bl) + z) 0 counted * 2 / 11).
Proof.
  intros Hh counted. unfold get_fragmentation.
  pose proof (frag_lists_spec s h Hh (free_slob s) [] 0 0 0) as E. change (largest []) with 0 in E. rewrite total_nil in E.
  rewrite E; clear E.
  2: { intros l pg Hl Hpg. apply (heap_lists _ _ Hh). apply list_elem_of_In, in_concat.
       exists l. by split; apply list_elem_of_In. }
  cbn [mbind option_bind]. fold counted. rewrite (heap_lists_length _ _ Hh).
  pose proof (counted_pages_bound s h Hh (free_slob s) [] ltac:(simpl; lia) ltac:(rewrite total_nil; lia)) as Hb. fold counted in Hb.
  apply Forall_and in Hb as [H1 H2].
  assert (length counted = 11%nat) as Hlen.
  { unfold counted. rewrite <- (heap_lists_length _ _ Hh). generalize (@nil block). generalize (free_slob s).
    intros ls. induction ls as [|l ls IH]; intros st; [done|]. simpl. f_equal. apply IH. }
  pose proof (sum_bound largest _ H1) as B1. pose proof (sum_bound total _ H2) as B2. rewrite Hlen in B1, B2.
  destruct (which =? 0); rewrite !Z.add_0_l; rewrite wrap_u_small by (cbn; lia); rewrite wrap_s_small; try done; cbn; dlia.
Qed.

End fragmentation.

(** ** Witnesses *)

Section front_witnesses.

Lemma kmalloc_kfree_restores_witness : ∃ s s1 s2 : slob (gset Z), heap s ∅ ∧
  __kmalloc_node s 100 208 (-1) = Some (Some 4104, s1) ∧
  kfree (set_mem s1 (store32 (mem s1) 4104 4294967295)) 4104 = Some s2 ∧ heap s2 ∅.
Proof.
  exists slob_init. destruct (kmalloc_kfree_restores slob_init ∅ 100 208 (-1) slob_init_heap ltac:(by compute)) as (s1 & E & _ & Hs).
  destruct (Hs (store32 (mem s1) 4104 4294967295)) as (_ & _ & s2 & E2 & Hh2).
  { intros x Hx. change (x < 4104 ∨ 4204 <= x) in Hx. apply (store32_agree _ _ _ x (x + 1)); lia. }
  exists s1, s2. split; [exact slob_init_heap|]. split; [exact E|]. split; [exact E2|exact Hh2].
Defined.

Lemma get_fragmentation_value_witness : ∃ s : slob (gset Z), heap s two_blocks ∧
  get_fragmentation s 1 = Some (foldr (λ bl z, total bl + z) 0 (counted_pages two_blocks [] (free_slob s)) * 2 / 11).
Proof.
  destruct two_blocks_heap as (s & Hh). exists s. split; [exact Hh|]. exact (get_fragmentation_value s two_blocks 1 Hh).
Defined.

Lemma kmem_cache_create_records_witness : ∃ s : slob (gset Z), heap s ∅ ∧
  ∃ s', kmem_cache_create s 0 100 0 524288 0 = Some (Some 4096, s') ∧ c_size s' 4096 = 124 ∧ c_flags s' 4096 = 524288.
Proof.
  exists slob_init. split; [exact slob_init_heap|].
  destruct (kmem_cache_create_records slob_init ∅ 0 100 0 524288 0 slob_init_heap ltac:(by compute) ltac:(by compute) ltac:(by compute)
    (or_introl eq_refl) ltac:(by compute) ltac:(by compute)) as (s' & E & _ & Hsz & Hf & _).
  exists s'. split; [exact E|]. split; [exact Hsz|exact Hf].
Defined.

(** The first block of [two_blocks] is the cache, the second one an object. *)
Lemma kmem_cache_free_rcu_witness : ∃ r r' : rcu_slob (A := gset Z), heap (rs r) two_blocks ∧
  kmem_cache_free r 4096 4196 = Some r' ∧ heap (rs r') two_blocks ∧ rcu_queue r' = [4272].
Proof.
  destruct two_blocks_heap as (s & Hh). set (m' := store64 (store32 (mem s) 4096 100) 4104 524288).
  assert (heap (set_mem s m') two_blocks) as Hh'.
  { apply (heap_write_live s two_blocks 4096 _ 4096 50 [(4196, 50)] [] _ Hh eq_refl eq_refl).
    intros x Hx. transitivity (byte (store32 (mem s) 4096 100) x);
      [apply (store64_agree _ _ _ x (x + 1))|apply (store32_agree _ _ _ x (x + 1))]; lia. }
  assert (c_size (set_mem s m') 4096 = 100) as Hsz.
  { unfold c_size. simpl. transitivity (load32 (store32 (mem s) 4096 100) 4096); [apply load32_agree, store64_agree; lia|].
    by rewrite load32_store32. }
  assert (c_flags (set_mem s m') 4096 = 524288) as Hfl by (by apply load64_store64).
  destruct (kmem_cache_free_rcu (RcuSlob (set_mem s m') []) two_blocks 4096 4196 100 4096 _ [] [(4096, 50)] Hh' eq_refl Hsz
    ltac:(by compute) ltac:(simpl rs; rewrite Hfl; by compute) eq_refl) as (r' & E & Hr & Hq & _).
  exists (RcuSlob (set_mem s m') []), r'. split; [exact Hh'|]. split; [exact E|]. split; [exact Hr|exact Hq].
Defined.

End front_witnesses.
