(* ===== verification/Ramdsk.v ===== *)
(** * The encrypted RAM disk (src/indwriterups/project3/ramdsk.c)

    A transfer between a request's buffer and the disk goes through scatter
    tables and the kernel's block cipher, which is a parameter.  The request
    loop, the geometry, and the set-up and tear-down of the devices. *)

From S2P Require Import Prelude CMem.

Local Open Scope Z_scope.

(** ** Constants *)

Definition KERNEL_SECTOR_SIZE : Z := 512.

Definition RAMDSK_MINORS : Z := 16.

Definition PAGE_SIZE : Z := 4096.

(** The defaults of the module parameters. *)
Definition DISK_SIZE_MEGS : Z := 1.

Definition NUM_DISKS : nat := 1.

Definition default_nsectors : Z := s32 (DISK_SIZE_MEGS * 2048).

Definition default_hardsect_size : Z := 512.

(** ** Scatter tables and the cipher *)

(** An entry: buffer address and length. *)
Abbreviation sg := (Z * Z)%type.

(** The table [sgl] describes the bytes from [a] to [e] in order, at most a page
    per entry. *)
Fixpoint sg_tiles (a e : Z) (sgl : list sg) : Prop :=
  match sgl with
  | [] => a = e
  | (p, l) :: sgl' => p = a ∧ 0 < l <= PAGE_SIZE ∧ sg_tiles (a + l) e sgl'
  end.

Definition bytes (m : memory) (a : Z) (n : nat) : list Z := (λ i : nat, byte m (a + Z.of_nat i)) <$> seq 0 n.

Definition is_byte (x : Z) : Prop := 0 <= x < 256.

(** The crypto layer: a transform is allocated for an algorithm, given a key and,
    if it has one, an initialisation vector; [enc] and [dec] are what it does to a
    whole number of blocks. *)
Class BlkCipher (T : Type) := {
  crypto_alloc_blkcipher : list Z → option T;
  crypto_blkcipher_setkey : T → list Z → T * Z;
  crypto_blkcipher_ivsize : T → Z;
  crypto_blkcipher_set_iv : T → list Z → T;
  crypto_blkcipher_encrypt : T → list sg → list sg → Z → memory → Z * memory;
  crypto_blkcipher_decrypt : T → list sg → list sg → Z → memory → Z * memory;
  blocksize : T → Z;
  enc : T → list Z → list Z;
  dec : T → list Z → list Z;
  encrypt_tiled t dst src d a n m :
    0 < n → n mod blocksize t = 0 → sg_tiles d (d + n) dst → sg_tiles a (a + n) src →
    d = a ∨ d + n <= a ∨ a + n <= d → Forall is_byte (bytes m a (Z.to_nat n)) →
    ∃ m', crypto_blkcipher_encrypt t dst src n m = (0, m') ∧
      bytes m' d (Z.to_nat n) = enc t (bytes m a (Z.to_nat n)) ∧
      (∀ x, x < d ∨ d + n <= x → byte m' x = byte m x);
  decrypt_tiled t dst src d a n m :
    0 < n → n mod blocksize t = 0 → sg_tiles d (d + n) dst → sg_tiles a (a + n) src →
    d = a ∨ d + n <= a ∨ a + n <= d → Forall is_byte (bytes m a (Z.to_nat n)) →
    ∃ m', crypto_blkcipher_decrypt t dst src n m = (0, m') ∧
      bytes m' d (Z.to_nat n) = dec t (bytes m a (Z.to_nat n)) ∧
      (∀ x, x < d ∨ d + n <= x → byte m' x = byte m x);
  dec_enc t l : Forall is_byte l → Z.of_nat (length l) mod blocksize t = 0 → dec t (enc t l) = l;
  enc_bytes t l : Forall is_byte l → Forall is_byte (enc t l) }.

Section ramdsk.
Context {T : Type} `{BlkCipher T}.

(** ** Transfers *)

(** [struct ramdsk_dev]: the size, an [int], and the address of the data. *)
Record ramdsk_dev := Dev { dev_size : Z; dev_data : Z }.

(** The memory, and how many scatter tables and transforms are allocated. *)
Record state := State { mem : memory; tables : Z; tfms : Z }.

(** The module's parameters: the algorithm and the key. *)
Record params := Params { algorithm : list Z; key : list Z }.

(** The loop of fill_sgl from the [i]-th page on; [sgl_l - i] entries remain. *)
Fixpoint fill_sgl_from (n : nat) (buffer buf_l page_off : Z) : list sg :=
  match n with
  | O => []
  | S n' =>
      let size := if buf_l <? u64 (page_off + PAGE_SIZE) then u32 (buf_l - page_off) else PAGE_SIZE in
      (buffer + page_off, size) :: fill_sgl_from n' buffer buf_l (u64 (page_off + PAGE_SIZE))
  end.

Definition fill_sgl (sgl_l buffer buf_l : Z) : list sg := fill_sgl_from (Z.to_nat sgl_l) buffer buf_l 0.

(** The cast binds tighter than the division. *)
Definition npages (nbytes : Z) : Z :=
  let n := u32 (u32 nbytes / PAGE_SIZE + 1) in
  if nbytes mod PAGE_SIZE =? 0 then u32 (n - 1) else n.

(** [sg_init_table] clears the table and marks its last entry: it needs a table
    and at least one entry. [vmalloc] says whether both tables were obtained. *)
Definition sg_init_table (vmalloc : bool) (n : Z) : option unit :=
  if vmalloc && (0 <? n) then Some tt else None.

(** [iv_len = crypto_blkcipher_ivsize(tfm); if (iv_len) ...] *)
Definition set_iv (t : T) : T :=
  let iv_len := crypto_blkcipher_ivsize t in
  if iv_len =? 0 then t else crypto_blkcipher_set_iv t (replicate (Z.to_nat iv_len) 255).

(** Move [nsect] sectors; [datadir] is nonzero for a write.  [None] is an access
    through a scatter table that does not exist. *)
Definition ramdsk_transfer (par : params) (vmalloc : bool) (dev : ramdsk_dev) (sector nsect buffer datadir : Z)
    (s : state) : option state :=
  let offset := u64 (sector * KERNEL_SECTOR_SIZE) in
  let nbytes := u64 (nsect * KERNEL_SECTOR_SIZE) in
  let np := npages nbytes in
  let s := State (mem s) (tables s + (if vmalloc then 2 else 0)) (tfms s) in
  match crypto_alloc_blkcipher (algorithm par) with
  | None => Some s
  | Some tfm =>
      let s := State (mem s) (tables s) (tfms s + 1) in
      let '(tfm, ret) := crypto_blkcipher_setkey tfm (key par) in
      if negb (ret =? 0) then Some s
      else
        _ ← sg_init_table vmalloc np;
        if u64 (dev_size dev) <? u64 (offset + nbytes) then Some s
        else
          let m :=
            if negb (datadir =? 0) then
              let sg_in := fill_sgl np buffer nbytes in
              let sg_out := fill_sgl np (dev_data dev + offset) nbytes in
              (crypto_blkcipher_encrypt (set_iv tfm) sg_out sg_in nbytes (mem s)).2
            else
              let sg_in := fill_sgl np (dev_data dev + offset) nbytes in
              let sg_out := fill_sgl np buffer nbytes in
              (crypto_blkcipher_decrypt (set_iv tfm) sg_out sg_in nbytes (mem s)).2 in
          Some (State m (tables s - 2) (tfms s))
  end.

(** ** The request loop *)

(** A request: whether it is a file system request, its sector, what is left of
    its segments (sectors and buffer), and its direction. *)
Record request := Rq { rq_fs : bool; rq_pos : Z; rq_segs : list (Z * Z); rq_dir : Z }.

(** [__blk_end_request_cur(rq, 0)]: the current segment is done; [None] when the
    request is finished. *)
Definition blk_end_request_cur (rq : request) : option request :=
  match rq_segs rq with
  | (n, _) :: ((_ :: _) as segs) => Some (Rq (rq_fs rq) (rq_pos rq + n) segs (rq_dir rq))
  | _ => None
  end.

(** [blk_fetch_request]. *)
Definition blk_fetch_request (queue : list request) : option request * list request :=
  match queue with
  | [] => (None, [])
  | rq :: queue' => (Some rq, queue')
  end.

Fixpoint ramdsk_request_loop (fuel : nat) (par : params) (dev : ramdsk_dev) (rq : option request)
    (queue : list request) (s : state) : option state :=
  match fuel with
  | O => None
  | S fuel' =>
      match rq with
      | None => Some s
      | Some r =>
          if negb (rq_fs r) then ramdsk_request_loop fuel' par dev rq queue s
          else
            let '(n, buffer) := default (0, 0) (head (rq_segs r)) in
            s ← ramdsk_transfer par true dev (rq_pos r) n buffer (rq_dir r) s;
            match blk_end_request_cur r with
            | Some r' => ramdsk_request_loop fuel' par dev (Some r') queue s
            | None => let '(rq', queue') := blk_fetch_request queue in ramdsk_request_loop fuel' par dev rq' queue' s
            end
      end
  end.

Definition ramdsk_request (fuel : nat) (par : params) (dev : ramdsk_dev) (queue : list request) (s : state) : option state :=
  let '(rq, queue) := blk_fetch_request queue in ramdsk_request_loop fuel par dev rq queue s.

(** What serving the requests means: every segment in order. *)
Fixpoint serve_segs (par : params) (dev : ramdsk_dev) (pos dir : Z) (segs : list (Z * Z)) (s : state) : option state :=
  match segs with
  | [] => Some s
  | (n, buffer) :: segs' =>
      s ← ramdsk_transfer par true dev pos n buffer dir s;
      serve_segs par dev (pos + n) dir segs' s
  end.

Fixpoint serve (par : params) (dev : ramdsk_dev) (rqs : list request) (s : state) : option state :=
  match rqs with
  | [] => Some s
  | r :: rqs' => s ← serve_segs par dev (rq_pos r) (rq_dir r) (rq_segs r) s; serve par dev rqs' s
  end.

Definition segments (rqs : list request) : nat := length (rqs ≫= rq_segs).

End ramdsk.

(** ** Geometry and ioctl *)

(** [struct hd_geometry] *)
Record hd_geometry := Geo { geo_heads : Z; geo_sectors : Z; geo_cylinders : Z; geo_start : Z }.

(** [cylinders] is an unsigned short. *)
Definition ramdsk_getgeo (nsectors hardsect_size : Z) : hd_geometry * Z :=
  let size := s32 (s32 (nsectors * hardsect_size) * Z.quot hardsect_size KERNEL_SECTOR_SIZE) in
  (Geo 4 16 (wrap_u 16 (Z.shiftr (Z.land size (Z.lnot 63)) 6)) 0, 0).

Definition ramdsk_ioctl (cmd arg : Z) : Z := 0.

(** ** Set-up and tear-down *)

(** What a device structure refers to; [gd] and [queue] are NULL after the
    [memset]. *)
Record device := Device { rd_size : Z; rd_data : bool; rd_queue : bool; rd_gd : bool; rd_minor : Z; rd_capacity : Z }.

(** What was asked of the kernel, latest first. *)
Inductive action :=
| Vmalloc (i : nat) | Vfree (i : nat)
| InitQueue (i : nat) | CleanupQueue (i : nat)
| AllocDisk (i : nat) | AddDisk (i : nat) | DelDisk (i : nat) | PutDisk (i : nat)
| RegisterBlkdev | UnregisterBlkdev.

(** The array [ramdsk_device] and the actions so far. *)
Record module := Module_ { devs : list device; acts : list action }.

Definition act (a : action) (m : module) : module := Module_ (devs m) (a :: acts m).

Definition set_dev (i : nat) (d : device) (m : module) : module := Module_ (<[i := d]> (devs m)) (acts m).

(** [del_gendisk((ramdsk_device + j)->gd)]; [None] when the structure lies outside
    the array or its [gd] is NULL. *)
Definition del_gendisk (j : nat) (m : module) : option module :=
  match devs m !! j with
  | Some d => if rd_gd d then Some (act (DelDisk j) m) else None
  | None => None
  end.

(** [blk_cleanup_queue((ramdsk_device + i)->queue)]; [None] for a NULL queue. *)
Definition blk_cleanup_queue (i : nat) (m : module) : option module :=
  match devs m !! i with
  | Some d => if rd_queue d then Some (act (CleanupQueue i) m) else None
  | None => None
  end.

(** ramdsk_device_init on the [i]-th device; the pointer parameter shadows the
    array, so that [ramdsk_device + 1] is the structure behind it. The booleans
    say which allocations succeed. *)
Definition ramdsk_device_init (nsectors hardsect_size : Z) (vmalloc queue disk : bool) (i : nat) (m : module) : option module :=
  let size := s32 (nsectors * hardsect_size) in
  let m := act (Vmalloc i) m in
  if negb vmalloc then Some (set_dev i (Device size false false false 0 0) m)
  else
    let m := act (InitQueue i) m in
    if negb queue then Some (act (Vfree i) (set_dev i (Device size true false false 0 0) m))
    else
      let m := act (AllocDisk i) m in
      if negb disk then
        m ← blk_cleanup_queue i (set_dev i (Device size true true false 0 0) m);
        m ← del_gendisk (i + 1) m;
        Some (act (Vfree i) m)
      else
        let capacity := s32 (nsectors * Z.quot hardsect_size KERNEL_SECTOR_SIZE) in
        Some (act (AddDisk i) (set_dev i (Device size true true true (RAMDSK_MINORS * Z.of_nat i) capacity) m)).

(** The loop over the devices from [i] on, with the outcomes of the allocations
    of each. *)
Fixpoint init_devices (nsectors hardsect_size : Z) (outcomes : list (bool * bool * bool)) (i : nat) (m : module) : option module :=
  match outcomes with
  | [] => Some m
  | (v, q, d) :: outcomes' =>
      m ← ramdsk_device_init nsectors hardsect_size v q d i m;
      init_devices nsectors hardsect_size outcomes' (i + 1) m
  end.

Definition EBUSY : Z := 16.

Definition ENOMEM : Z := 12.

(** [register_blkdev] is the kernel's; it gets the value of the parameter
    [ramdsk_major]. [kmalloc] says whether the array was obtained. *)
Definition ramdsk_init (register_blkdev : Z → Z) (ramdsk_major nsectors hardsect_size : Z) (kmalloc : bool)
    (outcomes : list (bool * bool * bool)) : option (Z * module) :=
  let m := Module_ [] [RegisterBlkdev] in
  let ramdsk_major := register_blkdev ramdsk_major in
  if ramdsk_major <=? 0 then Some (- EBUSY, m)
  else if negb kmalloc then Some (- ENOMEM, act UnregisterBlkdev m)
  else
    let m := Module_ (replicate (length outcomes) (Device 0 false false false 0 0)) (acts m) in
    m ← init_devices nsectors hardsect_size outcomes 0 m;
    Some (0, m).

(** The loop of ramdsk_exit: it deletes the disk of device 1 each time. *)
Fixpoint exit_devices (n i : nat) (m : module) : option module :=
  match n with
  | O => Some m
  | S n' =>
      m ← blk_cleanup_queue i (act (PutDisk i) m);
      m ← del_gendisk 1 m;
      exit_devices n' (i + 1) (act (Vfree i) m)
  end.

Definition ramdsk_exit (m : module) : option module :=
  m ← exit_devices (length (devs m)) 0 m;
  Some (act UnregisterBlkdev (Module_ [] (acts m))).

(** ** Scatter tables *)

Section tables.

Lemma npages_spec n : 0 < n < 2 ^ 32 → npages n = (n + 4095) / 4096.
Proof.
  intros Hn. unfold npages, PAGE_SIZE. rewrite (wrap_u_small 32 n) by lia.
  rewrite !(wrap_u_small 32 (n / 4096 + 1)) by dlia.
  destruct (Z.eqb_spec (n mod 4096) 0); [rewrite wrap_u_small by dlia|]; dlia.
Qed.

Lemma fill_sgl_from_tiles k buffer n off :
  0 <= off < 2 ^ 32 → off <= n < 2 ^ 32 → Z.of_nat k = (n - off + 4095) / 4096 →
  sg_tiles (buffer + off) (buffer + n) (fill_sgl_from k buffer n off).
Proof.
  revert off. induction k as [|k IH]; intros off Ho Hn Hk; cbn [fill_sgl_from sg_tiles].
  - assert (n = off) by dlia. lia.
  - unfold PAGE_SIZE. rewrite (wrap_u_small 64) by (cbn; lia). split; [done|].
    destruct (Z.ltb_spec n (off + 4096)).
    + rewrite wrap_u_small by (cbn; lia). split; [dlia|].
      assert (k = 0%nat) as -> by dlia. simpl. lia.
    + split; [lia|]. rewrite <- Z.add_assoc. apply IH; dlia.
Qed.

Lemma fill_sgl_tiles buffer n : 0 < n < 2 ^ 32 → sg_tiles buffer (buffer + n) (fill_sgl (npages n) buffer n).
Proof.
  intros Hn. unfold fill_sgl. rewrite npages_spec by done.
  pose proof (fill_sgl_from_tiles (Z.to_nat ((n + 4095) / 4096)) buffer n 0) as Ht. rewrite Z.add_0_r in Ht.
  apply Ht; dlia.
Qed.

(** C36: the scatter table that fill_sgl builds for a buffer of [n] bytes with the
    number of pages ramdsk_transfer computes describes exactly the [n] bytes of
    the buffer, in order, with at most a page per entry and no empty entry. *)
Theorem fill_sgl_covers buffer n :
  0 < n < 2 ^ 32 → sg_tiles buffer (buffer + n) (fill_sgl (npages n) buffer n).
Proof. apply fill_sgl_tiles. Qed.

End tables.

(** ** Transfers *)

Section transfers.
Context {T : Type} `{BlkCipher T} (par : params) (t0 t1 : T).
Context (Halloc : crypto_alloc_blkcipher (algorithm par) = Some t0) (Hkey : crypto_blkcipher_setkey t0 (key par) = (t1, 0)).
Local Abbreviation t := (set_iv t1).

(** The request lies on the device. *)
Definition on_device (dev : ramdsk_dev) (sector nsect : Z) : Prop :=
  0 <= sector ∧ 0 < nsect ∧ (sector + nsect) * 512 <= dev_size dev ∧ dev_size dev < 2 ^ 31.

Definition region (a n : Z) (x : Z) : Prop := a <= x < a + n.

Definition disjoint (a b n : Z) : Prop := a + n <= b ∨ b + n <= a.

Lemma transfer_step dev sector nsect buffer datadir s :
  on_device dev sector nsect →
  let n := nsect * 512 in let d := dev_data dev + sector * 512 in
  ramdsk_transfer par true dev sector nsect buffer datadir s =
    Some (State (if datadir =? 0
                 then (crypto_blkcipher_decrypt t (fill_sgl (npages n) buffer n) (fill_sgl (npages n) d n) n (mem s)).2
                 else (crypto_blkcipher_encrypt t (fill_sgl (npages n) d n) (fill_sgl (npages n) buffer n) n (mem s)).2)
            (tables s) (tfms s + 1)).
Proof.
  intros (Hs & Hn & Hle & Hsz) n d. unfold ramdsk_transfer, KERNEL_SECTOR_SIZE.
  rewrite (wrap_u_small 64 (sector * 512)), (wrap_u_small 64 (nsect * 512)) by (cbn; lia).
  rewrite Halloc, Hkey. cbn [mem tables tfms]. change (negb (0 =? 0)) with false. cbn iota.
  fold n. rewrite npages_spec by (cbn; lia). unfold sg_init_table. rewrite (proj2 (Z.ltb_lt 0 _)) by (unfold n; dlia).
  cbn [andb mbind option_bind]. rewrite !(wrap_u_small 64) by (unfold n; cbn; lia).
  rewrite (proj2 (Z.ltb_ge _ _)) by (unfold n; lia). fold d.
  destruct (datadir =? 0); cbn [negb]; do 2 f_equal; lia.
Qed.

(** A write of sectors that lie on the device puts the enciphered buffer at
    the sectors' place and changes no other byte; a read puts the deciphered
    sectors in the buffer and changes no other byte.  The scatter tables are
    released, the transform is not: every transfer leaks one. *)
Theorem ramdsk_transfer_in_range dev sector nsect buffer datadir s :
  on_device dev sector nsect → (nsect * 512) mod blocksize t = 0 →
  let n := nsect * 512 in let d := dev_data dev + sector * 512 in
  disjoint d buffer n → Forall is_byte (bytes (mem s) (if datadir =? 0 then d else buffer) (Z.to_nat n)) →
  ∃ m', ramdsk_transfer par true dev sector nsect buffer datadir s = Some (State m' (tables s) (tfms s + 1)) ∧
    (if datadir =? 0
     then bytes m' buffer (Z.to_nat n) = dec t (bytes (mem s) d (Z.to_nat n)) ∧ (∀ x, ¬ region buffer n x → byte m' x = byte (mem s) x)
     else bytes m' d (Z.to_nat n) = enc t (bytes (mem s) buffer (Z.to_nat n)) ∧ (∀ x, ¬ region d n x → byte m' x = byte (mem s) x)).
Proof.
  intros Hon Hblk n d Hdis Hb. rewrite transfer_step by done. fold n d. destruct Hon as (Hs & Hn & Hle & Hsz).
  assert (0 < n < 2 ^ 32) as Hn32 by (unfold n; cbn; lia). unfold disjoint in Hdis. unfold region.
  destruct (datadir =? 0).
  - destruct (decrypt_tiled t (fill_sgl (npages n) buffer n) (fill_sgl (npages n) d n) buffer d n (mem s)) as (m' & E & Hm & Hf);
      [lia|done|by apply fill_sgl_tiles|by apply fill_sgl_tiles|lia|done|].
    exists m'. rewrite E. split; [done|]. split; [done|]. intros x Hx. apply Hf. lia.
  - destruct (encrypt_tiled t (fill_sgl (npages n) d n) (fill_sgl (npages n) buffer n) d buffer n (mem s)) as (m' & E & Hm & Hf);
      [lia|done|by apply fill_sgl_tiles|by apply fill_sgl_tiles|lia|done|].
    exists m'. rewrite E. split; [done|]. split; [done|]. intros x Hx. apply Hf. lia.
Qed.

Lemma bytes_agree m m' a n : (∀ x, region a n x → byte m' x = byte m x) → bytes m' a (Z.to_nat n) = bytes m a (Z.to_nat n).
Proof.
  intros Hm. unfold bytes. apply list_fmap_ext. intros i x Hi. apply lookup_seq in Hi as [-> Hi]. apply Hm. unfold region. lia.
Qed.

(** C27: what is written is read back: after writing a buffer to the device and
    reading the same sectors into another buffer, with the same key, that buffer
    has the bytes of the first one, and nothing outside the sectors and that
    buffer has changed. *)
Theorem ramdsk_read_back dev sector nsect buf1 buf2 s :
  on_device dev sector nsect → (nsect * 512) mod blocksize t = 0 →
  let n := nsect * 512 in let d := dev_data dev + sector * 512 in
  disjoint d buf1 n → disjoint d buf2 n → Forall is_byte (bytes (mem s) buf1 (Z.to_nat n)) →
  ∃ s1 s2, ramdsk_transfer par true dev sector nsect buf1 1 s = Some s1 ∧
    ramdsk_transfer par true dev sector nsect buf2 0 s1 = Some s2 ∧
    bytes (mem s2) buf2 (Z.to_nat n) = bytes (mem s) buf1 (Z.to_nat n) ∧
    (∀ x, ¬ region d n x → ¬ region buf2 n x → byte (mem s2) x = byte (mem s) x).
Proof.
  intros Hon Hblk n d Hd1 Hd2 Hb. pose proof Hon as (Hs & Hn & Hle & Hsz).
  assert (0 < n < 2 ^ 32) as Hn32 by (unfold n; cbn; lia).
  assert (Z.of_nat (length (bytes (mem s) buf1 (Z.to_nat n))) = n) as Hlen.
  { unfold bytes. rewrite length_fmap, length_seq. lia. }
  unfold disjoint in *. rewrite transfer_step by done. fold n d. cbn [Z.eqb].
  destruct (encrypt_tiled t (fill_sgl (npages n) d n) (fill_sgl (npages n) buf1 n) d buf1 n (mem s)) as (m1 & E1 & Hm1 & Hf1);
    [lia|done|by apply fill_sgl_tiles|by apply fill_sgl_tiles|lia|done|].
  rewrite E1. exists (State m1 (tables s) (tfms s + 1)). rewrite transfer_step by done. fold n d. cbn [Z.eqb mem snd].
  destruct (decrypt_tiled t (fill_sgl (npages n) buf2 n) (fill_sgl (npages n) d n) buf2 d n m1) as (m2 & E2 & Hm2 & Hf2);
    [lia|done|by apply fill_sgl_tiles|by apply fill_sgl_tiles|lia|rewrite Hm1; by apply enc_bytes|].
  rewrite E2. exists (State m2 (tables s) (tfms s + 1 + 1)). split; [done|]. split; [done|]. cbn [mem]. split.
  - rewrite Hm2, Hm1. apply dec_enc; [done|]. by rewrite Hlen.
  - unfold region. intros x Hx1 Hx2. rewrite Hf2, Hf1 by lia. done.
Qed.

(** A request that reaches beyond the device changes no byte; the scatter
    tables and the transform of such a request are never released. *)
Theorem ramdsk_transfer_beyond dev sector nsect buffer datadir s :
  0 <= sector → 0 < nsect → (sector + nsect) * 512 < 2 ^ 64 → 0 <= dev_size dev < (sector + nsect) * 512 →
  0 < u32 (nsect * 512) →
  ramdsk_transfer par true dev sector nsect buffer datadir s = Some (State (mem s) (tables s + 2) (tfms s + 1)).
Proof.
  intros Hs Hn Hlt Hsz Hnz. unfold ramdsk_transfer, KERNEL_SECTOR_SIZE.
  rewrite (wrap_u_small 64 (sector * 512)), (wrap_u_small 64 (nsect * 512)) by lia.
  rewrite Halloc, Hkey. cbn [mem tables tfms]. change (negb (0 =? 0)) with false. cbn iota.
  assert (0 < npages (nsect * 512)) as Hnp.
  { unfold npages, PAGE_SIZE. pose proof (wrap_u_range 32 (nsect * 512) ltac:(lia)) as Hr.
    rewrite !(wrap_u_small 32 (u32 (nsect * 512) / 4096 + 1)) by dlia.
    destruct (Z.eqb_spec ((nsect * 512) mod 4096) 0) as [E|E]; [|dlia].
    rewrite wrap_u_small by dlia. unfold wrap_u in *. change (2 ^ 32) with (4096 * 1048576) in *. dlia. }
  unfold sg_init_table. rewrite (proj2 (Z.ltb_lt 0 _)) by done. cbn [andb mbind option_bind].
  rewrite !(wrap_u_small 64) by lia. rewrite (proj2 (Z.ltb_lt _ _)) by lia. done.
Qed.

(** ** The request loop *)

Lemma ramdsk_request_loop_serves fuel dev r queue s :
  Forall (λ r, rq_fs r = true ∧ rq_segs r ≠ []) (r :: queue) →
  (segments (r :: queue) < fuel)%nat →
  ramdsk_request_loop fuel par dev (Some r) queue s = serve par dev (r :: queue) s.
Proof.
  revert r queue s. induction fuel as [|fuel IH]; intros r queue s Hr Hf; [lia|].
  apply Forall_cons in Hr as [[Hfs Hne] Hq]. cbn [ramdsk_request_loop]. rewrite Hfs. cbn [negb].
  destruct r as [fs pos segs dir]. simpl in Hfs, Hne. subst fs. destruct segs as [|[n buffer] segs]; [done|].
  unfold segments in Hf. cbn [serve serve_segs rq_segs rq_pos rq_dir head default] in *. unfold id.
  destruct (ramdsk_transfer par true dev pos n buffer dir s) as [s1|]; [|done]. cbn [mbind option_bind].
  unfold blk_end_request_cur. cbn [rq_segs rq_fs rq_pos rq_dir]. destruct segs as [|seg segs].
  - cbn [serve_segs mbind option_bind]. destruct queue as [|r' queue]; cbn [blk_fetch_request].
    + destruct fuel; [simpl in Hf; lia|done].
    + apply IH; [done|]. unfold segments. simpl in Hf |- *. lia.
  - rewrite IH; [done| |].
    + apply Forall_cons. done.
    + unfold segments. simpl in Hf |- *. lia.
Qed.

(** With file system requests only, ramdsk_request returns, having
    transferred every segment of every request in order, each at the sector
    behind the segment before it. *)
Theorem ramdsk_request_serves dev queue s fuel :
  Forall (λ r, rq_fs r = true ∧ rq_segs r ≠ []) queue → (segments queue < fuel)%nat →
  ramdsk_request fuel par dev queue s = serve par dev queue s.
Proof.
  intros Hq Hf. unfold ramdsk_request. destruct queue as [|r queue]; cbn [blk_fetch_request].
  - destruct fuel; [lia|done].
  - by apply ramdsk_request_loop_serves.
Qed.

(** A request that is not a file system request is never replaced by the
    next one: the loop does not end, however long it runs. *)
Theorem ramdsk_request_hangs dev r queue s fuel :
  rq_fs r = false → ramdsk_request fuel par dev (r :: queue) s = None.
Proof.
  intros Hr. unfold ramdsk_request. cbn [blk_fetch_request]. induction fuel as [|fuel IH]; [done|].
  cbn [ramdsk_request_loop]. by rewrite Hr.
Qed.

End transfers.

(** ** A cipher for evaluation

    Every byte is shifted by the first byte of the key. *)

Section shift_cipher.

Fixpoint write_bytes (m : memory) (a : Z) (l : list Z) : memory :=
  match l with
  | [] => m
  | b :: l' => write_bytes (<[a := b]> m) (a + 1) l'
  end.

Definition shift_by (k : Z) (l : list Z) : list Z := (λ b, (b + k) mod 256) <$> l.

Definition table_start (sgl : list sg) : Z := default 0 (fst <$> head sgl).

Definition shift_crypt (k : Z) (dst src : list sg) (n : Z) (m : memory) : Z * memory :=
  (0, write_bytes m (table_start dst) (shift_by k (bytes m (table_start src) (Z.to_nat n)))).

Lemma write_bytes_outside l m a x : x < a ∨ a + Z.of_nat (length l) <= x → byte (write_bytes m a l) x = byte m x.
Proof.
  revert m a. induction l as [|b l IH]; intros m a Hx; [done|]. simpl length in Hx. simpl. rewrite IH by lia.
  rewrite byte_insert. case_decide; [lia|done].
Qed.

Lemma bytes_write l m a : bytes (write_bytes m a l) a (length l) = l.
Proof.
  revert m a. induction l as [|b l IH]; intros m a; [done|]. unfold bytes. simpl. f_equal.
  - rewrite write_bytes_outside by lia. rewrite Z.add_0_r, byte_insert. by case_decide.
  - rewrite <- (IH (<[a := b]> m) (a + 1)) at 2. unfold bytes. rewrite <- fmap_S_seq, <- list_fmap_compose.
    apply list_fmap_ext. intros i x _. simpl. f_equal. lia.
Qed.

Lemma tiles_start a n sgl : 0 < n → sg_tiles a (a + n) sgl → table_start sgl = a.
Proof. destruct sgl as [|[p l] sgl]; simpl; [lia|]. by intros _ [-> _]. Qed.

Lemma shift_crypt_tiled k dst src d a n m :
  0 < n → sg_tiles d (d + n) dst → sg_tiles a (a + n) src →
  ∃ m', shift_crypt k dst src n m = (0, m') ∧
    bytes m' d (Z.to_nat n) = shift_by k (bytes m a (Z.to_nat n)) ∧ (∀ x, x < d ∨ d + n <= x → byte m' x = byte m x).
Proof.
  intros Hn Hd Ha. unfold shift_crypt. rewrite (tiles_start d n dst), (tiles_start a n src) by done. eexists. split; [done|].
  set (l := shift_by _ _). assert (length l = Z.to_nat n) as Hl.
  { unfold l, shift_by, bytes. by rewrite !length_fmap, length_seq. }
  split; [by rewrite <- Hl, bytes_write|]. intros x Hx. apply write_bytes_outside. lia.
Qed.

Lemma shift_back k l : Forall is_byte l → shift_by (- k) (shift_by k l) = l.
Proof.
  unfold shift_by, is_byte. intros Hl. rewrite <- list_fmap_compose. rewrite <- (list_fmap_id l) at 2.
  apply list_fmap_ext. intros i x Hi. simpl. rewrite Forall_lookup in Hl. apply Hl in Hi.
  rewrite <- Zplus_mod_idemp_l, Zmod_mod, Zplus_mod_idemp_l. replace (x + k + - k) with x by lia. by apply Z.mod_small.
Qed.

Lemma shift_bytes k l : Forall is_byte (shift_by k l).
Proof. apply Forall_fmap, Forall_true. intros x. unfold is_byte. simpl. apply Z.mod_pos_bound. done. Qed.

#[export, program] Instance Shift : BlkCipher Z := {
  crypto_alloc_blkcipher _ := Some 0;
  crypto_blkcipher_setkey _ key := match key with [] => (0, -22) | k :: _ => (k, 0) end;
  crypto_blkcipher_ivsize _ := 0;
  crypto_blkcipher_set_iv t _ := t;
  crypto_blkcipher_encrypt t := shift_crypt t;
  crypto_blkcipher_decrypt t := shift_crypt (- t);
  blocksize _ := 16;
  enc := shift_by;
  dec t := shift_by (- t) }.
Next Obligation. intros. by apply shift_crypt_tiled. Qed.
Next Obligation. intros. by apply shift_crypt_tiled. Qed.
Next Obligation. intros. by apply shift_back. Qed.
Next Obligation. intros. apply shift_bytes. Qed.

End shift_cipher.

(** ** Geometry and devices *)

Section devices.

(** With 512-byte sectors the geometry reports 512 times the sectors the disk
    has: the number of bytes is taken for the number of sectors. *)
Theorem ramdsk_getgeo_overstates nsectors :
  0 <= nsectors < 2 ^ 13 → let geo := (ramdsk_getgeo nsectors 512).1 in
  nsectors mod 8 = 0 → geo_heads geo * geo_sectors geo * geo_cylinders geo = 512 * nsectors.
Proof.
  intros Hn geo H8. unfold geo, ramdsk_getgeo. cbn [fst geo_heads geo_sectors geo_cylinders].
  change (Z.quot 512 KERNEL_SECTOR_SIZE) with 1. rewrite (wrap_s_small 32 (nsectors * 512)) by (cbn; lia).
  rewrite wrap_s_small by (cbn; lia). change (Z.lnot 63) with (Z.lnot (Z.ones 6)). rewrite <- Z.ldiff_land, Z.ldiff_ones_r by lia.
  rewrite Z.shiftr_shiftl_l, Z.shiftl_0_r, Z.shiftr_div_pow2 by lia. rewrite wrap_u_small by dlia. dlia.
Qed.

(** [n] devices whose allocations all succeed. *)
Definition all_ok (n : nat) : list (bool * bool * bool) := replicate n (true, true, true).

Definition ready (nsectors hardsect_size : Z) (i : nat) : device :=
  Device (s32 (nsectors * hardsect_size)) true true true (RAMDSK_MINORS * Z.of_nat i)
    (s32 (nsectors * Z.quot hardsect_size KERNEL_SECTOR_SIZE)).

Lemma init_devices_ok nsectors hs n : ∀ i m,
  length (devs m) = (i + n)%nat →
  ∃ m', init_devices nsectors hs (all_ok n) i m = Some m' ∧
    devs m' = take i (devs m) ++ (ready nsectors hs <$> seq i n) ∧
    (∀ j, AddDisk j ∈ acts m' ↔ AddDisk j ∈ acts m ∨ (i <= j < i + n)%nat) ∧
    (∀ j, DelDisk j ∈ acts m' ↔ DelDisk j ∈ acts m).
Proof.
  induction n as [|n IH]; intros i m Hlen.
  - exists m. split; [done|]. simpl. rewrite app_nil_r, take_ge by lia. split; [done|]. split; intros j; [|done]. split; [tauto|].
    intros [?|?]; [done|lia].
  - unfold all_ok. cbn [replicate init_devices]. unfold ramdsk_device_init. cbn [negb mbind option_bind].
    set (m1 := act _ _). destruct (IH (i + 1)%nat m1) as (m' & E & Hd & Ha & Hdel).
    { unfold m1, set_dev. simpl. rewrite length_insert. lia. }
    exists m'. split; [exact E|]. split; [|split].
    + rewrite Hd. unfold m1, set_dev. simpl. fold (ready nsectors hs i).
      rewrite Nat.add_1_r, (take_S_r _ _ (ready nsectors hs i)) by (by rewrite list_lookup_insert_eq; [|lia]).
      rewrite take_insert_ge by lia. by rewrite <- app_assoc.
    + intros j. rewrite Ha. unfold m1, set_dev. simpl. rewrite !elem_of_cons. split.
      * intros [[[= <-]|[[=]|[[=]|[[=]|?]]]]|?]; [right; lia|by left|right; lia].
      * intros [?|?]; [by left; right; right; right; right|]. destruct (decide (j = i)) as [->|]; [left; by left|right; lia].
    + intros j. rewrite Hdel. unfold m1, set_dev. simpl. rewrite !elem_of_cons. naive_solver.
Qed.

(** Loading the module with memory for all devices registers a disk for each,
    with the minor numbers of its index, and the announced capacity in 512-byte
    sectors is the size of the data. *)
Theorem ramdsk_init_registers reg major nsectors hs n :
  0 < reg major → 0 <= nsectors → 0 < hs → hs mod 512 = 0 → nsectors * hs < 2 ^ 31 →
  ∃ m, ramdsk_init reg major nsectors hs true (all_ok n) = Some (0, m) ∧
    devs m = ready nsectors hs <$> seq 0 n ∧ (∀ j, AddDisk j ∈ acts m ↔ (j < n)%nat) ∧
    rd_capacity (ready nsectors hs 0) * 512 = rd_size (ready nsectors hs 0) ∧ rd_size (ready nsectors hs 0) = nsectors * hs.
Proof.
  intros Hreg Hn Hh H512 Hlt. unfold ramdsk_init. rewrite (proj2 (Z.leb_gt _ _)) by lia. cbn [negb].
  destruct (init_devices_ok nsectors hs n 0 (Module_ (replicate (length (all_ok n)) (Device 0 false false false 0 0)) [RegisterBlkdev]))
    as (m & E & Hd & Ha & _).
  { simpl. unfold all_ok. by rewrite !length_replicate. }
  cbn [acts]. rewrite E. exists m. split; [done|]. split; [by rewrite Hd|]. split.
  - intros j. rewrite Ha. simpl. set_solver by lia.
  - unfold ready, KERNEL_SECTOR_SIZE. simpl. rewrite Z.quot_div_nonneg by lia.
    assert (hs = 512 * (hs / 512)) as Hq by dlia. set (q := hs / 512) in *. clearbody q. subst hs.
    assert (0 <= nsectors * q) by nia. rewrite !wrap_s_small by (cbn; lia). lia.
Qed.

(** Unloading is wrong for every number of devices: with one device the exit
    handler reads a structure behind the array, and with more it deletes the
    second device's disk again and again and never the first one's. *)
Theorem ramdsk_exit_wrong_disk reg major nsectors hs n m :
  0 < reg major → ramdsk_init reg major nsectors hs true (all_ok (S n)) = Some (0, m) →
  match n with
  | O => ramdsk_exit m = None
  | S _ => ∃ m', ramdsk_exit m = Some m' ∧ AddDisk 0 ∈ acts m' ∧ DelDisk 0 ∉ acts m'
  end.
Proof.
  intros Hreg E. unfold ramdsk_init in E. rewrite (proj2 (Z.leb_gt _ _)) in E by lia. cbn [negb] in E.
  destruct (init_devices_ok nsectors hs (S n) 0 (Module_ (replicate (length (all_ok (S n))) (Device 0 false false false 0 0)) [RegisterBlkdev]))
    as (m1 & E1 & Hd & Ha & Hdel).
  { simpl. unfold all_ok. by rewrite !length_replicate. }
  cbn [acts] in E. rewrite E1 in E. injection E as <-. rewrite take_0 in Hd. cbn [app] in Hd.
  assert (∀ k i m, devs m = devs m1 → n ≠ 0%nat → (i + k <= S n)%nat → AddDisk 0 ∈ acts m → DelDisk 0 ∉ acts m →
    ∃ m', exit_devices k i m = Some m' ∧ AddDisk 0 ∈ acts m' ∧ DelDisk 0 ∉ acts m') as Hexit.
  { induction k as [|k IH]; intros i m Hm Hn Hi Hadd Hndel; [eauto|]. cbn [exit_devices].
    unfold blk_cleanup_queue. cbn [act devs]. rewrite Hm, Hd.
    rewrite list_lookup_fmap, lookup_seq_lt by lia. cbn [fmap option_fmap option_map].
    cbn [ready rd_queue mbind option_bind]. unfold del_gendisk. simpl. rewrite Hm, Hd.
    destruct n as [|n']; [done|]. simpl. apply IH; try done; simpl; [lia|set_solver|set_solver]. }
  unfold ramdsk_exit. rewrite Hd. simpl length. rewrite length_fmap, length_seq. destruct n as [|n'].
  - cbn [exit_devices]. unfold blk_cleanup_queue, del_gendisk. simpl. rewrite Hd. simpl. by rewrite Hd.
  - destruct (Hexit (S (S n')) 0%nat m1 eq_refl) as (m' & E' & Hadd & Hndel); [done|lia| | |].
    + apply Ha. right. lia.
    + rewrite Hdel. simpl. set_solver.
    + rewrite E'. simpl. eexists. split; [done|]. simpl. set_solver.
Qed.

(** A major number given as module parameter makes loading fail: for one that
    is free [register_blkdev] returns 0, which ramdsk_init takes for an error, and
    the number stays registered. *)
Theorem ramdsk_init_given_major reg major nsectors hs k outcomes :
  (∀ n, 0 < n → reg n = 0) → 0 < major →
  ramdsk_init reg major nsectors hs k outcomes = Some (- EBUSY, Module_ [] [RegisterBlkdev]).
Proof. intros Hreg Hm. unfold ramdsk_init. by rewrite (Hreg major Hm). Qed.

End devices.

(** ** Witnesses *)

Section ramdsk_witnesses.

Definition ex_par : params := Params [] [7].

Lemma ex_alloc : crypto_alloc_blkcipher (algorithm ex_par) = Some 0.
Proof. reflexivity. Qed.

Lemma ex_setkey : crypto_blkcipher_setkey 0 (key ex_par) = (7, 0).
Proof. reflexivity. Qed.

Definition ex_dev : ramdsk_dev := Dev 1048576 1000000.

(** A memory whose first two sectors at 5000 hold the byte 9. *)
Definition ex_state : state := State (write_bytes ∅ 5000 (replicate 1024 9)) 0 0.

Lemma ex_on_device : on_device ex_dev 3 2.
Proof. by compute. Qed.

Lemma ex_bytes : bytes (mem ex_state) 5000 1024 = replicate 1024 9.
Proof. apply (bytes_write (replicate 1024 9)). Qed.

Lemma ex_is_bytes : Forall is_byte (bytes (mem ex_state) 5000 (Z.to_nat (2 * 512))).
Proof. change (Z.to_nat (2 * 512)) with 1024%nat. rewrite ex_bytes. apply Forall_replicate. by compute. Qed.

Lemma fill_sgl_covers_witness : 0 < 9000 < 2 ^ 32 ∧ fill_sgl (npages 9000) 100 9000 = [(100, 4096); (4196, 4096); (8292, 808)] ∧
  sg_tiles 100 (100 + 9000) (fill_sgl (npages 9000) 100 9000).
Proof.
  assert (0 < 9000 < 2 ^ 32) as Hn by (by compute). split; [exact Hn|]. split; [by vm_compute|].
  exact (fill_sgl_covers 100 9000 Hn).
Defined.

Lemma ramdsk_transfer_in_range_witness : ∃ m', ramdsk_transfer ex_par true ex_dev 3 2 5000 1 ex_state = Some (State m' 0 1) ∧
  bytes m' 1001536 1024 = shift_by 7 (replicate 1024 9).
Proof.
  destruct (ramdsk_transfer_in_range (T:=Z) ex_par 0 7 ex_alloc ex_setkey ex_dev 3 2 5000 1 ex_state ex_on_device eq_refl
    ltac:(right; by compute) ex_is_bytes) as (m' & E & Hm & _).
  exists m'. split; [exact E|]. rewrite <- ex_bytes. exact Hm.
Defined.

Lemma ramdsk_read_back_witness : ∃ s1 s2, ramdsk_transfer ex_par true ex_dev 3 2 5000 1 ex_state = Some s1 ∧
  ramdsk_transfer ex_par true ex_dev 3 2 9000 0 s1 = Some s2 ∧ bytes (mem s2) 9000 1024 = replicate 1024 9.
Proof.
  destruct (ramdsk_read_back (T:=Z) ex_par 0 7 ex_alloc ex_setkey ex_dev 3 2 5000 9000 ex_state ex_on_device eq_refl
    ltac:(right; by compute) ltac:(right; by compute) ex_is_bytes) as (s1 & s2 & E1 & E2 & Hb & _).
  exists s1, s2. split; [exact E1|]. split; [exact E2|]. rewrite <- ex_bytes. exact Hb.
Defined.

Lemma ramdsk_transfer_beyond_witness :
  ramdsk_transfer ex_par true ex_dev 2047 2 5000 1 ex_state = Some (State (mem ex_state) (0 + 2) (0 + 1)).
Proof.
  apply (ramdsk_transfer_beyond (T:=Z) ex_par 0 7 ex_alloc ex_setkey ex_dev 2047 2 5000 1 ex_state); by compute.
Defined.

Definition ex_request : request := Rq true 3 [(1, 5000); (1, 5512)] 1.

Lemma ramdsk_request_serves_witness : Forall (λ r, rq_fs r = true ∧ rq_segs r ≠ []) [ex_request] ∧
  ramdsk_request 3 ex_par ex_dev [ex_request] ex_state = serve ex_par ex_dev [ex_request] ex_state.
Proof.
  assert (Forall (λ r, rq_fs r = true ∧ rq_segs r ≠ []) [ex_request]) as Hf by (apply Forall_singleton; by compute).
  split; [exact Hf|]. apply (ramdsk_request_serves ex_par ex_dev [ex_request] ex_state 3 Hf). vm_compute. lia.
Defined.

Lemma ramdsk_request_hangs_witness : ramdsk_request 1000 ex_par ex_dev [Rq false 0 [] 0; ex_request] ex_state = None.
Proof. apply (ramdsk_request_hangs ex_par ex_dev (Rq false 0 [] 0) [ex_request] ex_state 1000 eq_refl). Defined.

Lemma ramdsk_getgeo_overstates_witness :
  geo_heads (ramdsk_getgeo 2048 512).1 * geo_sectors (ramdsk_getgeo 2048 512).1 * geo_cylinders (ramdsk_getgeo 2048 512).1 = 512 * 2048.
Proof. apply (ramdsk_getgeo_overstates 2048); by compute. Defined.

Lemma ramdsk_init_registers_witness : ∃ m, ramdsk_init (λ _, 254) 0 2048 512 true (all_ok 1) = Some (0, m) ∧
  devs m = [ready 2048 512 0].
Proof.
  destruct (ramdsk_init_registers (λ _, 254) 0 2048 512 1 eq_refl ltac:(by compute) eq_refl eq_refl eq_refl) as (m & E & Hd & _).
  exists m. split; [exact E|exact Hd].
Defined.

Lemma ramdsk_exit_wrong_disk_witness : ∃ m, ramdsk_init (λ _, 254) 0 2048 512 true (all_ok 1) = Some (0, m) ∧ ramdsk_exit m = None.
Proof.
  eexists. split; [reflexivity|]. exact (ramdsk_exit_wrong_disk (λ _, 254) 0 2048 512 0 _ eq_refl eq_refl).
Defined.

Lemma ramdsk_init_given_major_witness :
  ramdsk_init (λ m, if m =? 0 then 254 else 0) 240 2048 512 true (all_ok 1) = Some (- EBUSY, Module_ [] [RegisterBlkdev]).
Proof.
  apply ramdsk_init_given_major; [|by compute]. intros n Hn. rewrite (proj2 (Z.eqb_neq n 0)) by lia. reflexivity.
Defined.

End ramdsk_witnesses.
