(* ===== verification/ProdCons.v ===== *)
(** * Producer and consumer (src/concur/concurrent1/concurrent1.c)

    Two threads share a buffer of 32 items and two semaphores.  Every access to
    shared data is one step of the thread that performs it, so the runs are all
    the interleavings. *)

From S2P Require Import Prelude.

Local Open Scope Z_scope.

(** ** State *)

(** [struct item]: a slot is free when [b] is 0. *)
Record item := Item { item_a : Z; item_b : Z }.

#[global] Instance item_eq_dec : EqDecision item.
Proof. solve_decision. Defined.

(** Where the producer is: at the loop test, at [sem_wait], looking at slot [i],
    writing its two fields, at [sem_post], or returned. *)
Inductive producer_pc :=
| PTest (cnt : Z) | PWait (cnt : Z) | PScan (cnt : Z) (i : nat)
| PSetA (cnt : Z) (i : nat) | PSetB (cnt : Z) (i : nat) | PPost (cnt : Z) | PDone.

(** Where the consumer is; [CShowB] has printed [a], [CClearA] and [CClearB] have
    printed both fields. *)
Inductive consumer_pc :=
| CTest (cnt : Z) | CWait (cnt : Z) | CScan (cnt : Z) (i : nat)
| CShowA (cnt : Z) (i : nat) | CShowB (cnt : Z) (i : nat) (a : Z)
| CClearA (cnt : Z) (i : nat) (a b : Z) | CClearB (cnt : Z) (i : nat) (a b : Z)
| CPost (cnt : Z) | CDone.

(** [made] and [eaten] record what was put into the buffer and what was printed
    and removed. *)
Record state := State {
  sem_c : Z;
  sem_p : Z;
  buff : list item;
  pp : producer_pc;
  cp : consumer_pc;
  made : list item;
  eaten : list item }.

(** A step of the producer, with the next value of [rand()], or of the consumer. *)
Inductive label := Produce (r : Z) | Consume.

(** ** The threads *)

Section threads.
Context (no_p no_c : Z).
Implicit Types s : state.

Definition set_pp s pp' := State (sem_c s) (sem_p s) (buff s) pp' (cp s) (made s) (eaten s).

Definition set_cp s cp' := State (sem_c s) (sem_p s) (buff s) (pp s) cp' (made s) (eaten s).

Definition set_buff s (i : nat) (it : item) := State (sem_c s) (sem_p s) (<[i := it]> (buff s)) (pp s) (cp s) (made s) (eaten s).

(** [rand()] is at least 0; [sem_wait] blocks on 0. *)
Definition producers (r : Z) s : option state :=
  match pp s with
  | PTest cnt => Some (set_pp s (if cnt <? no_p then PWait cnt else PDone))
  | PWait cnt =>
      if sem_p s =? 0 then None
      else Some (State (sem_c s) (sem_p s - 1) (buff s) (PScan cnt 0) (cp s) (made s) (eaten s))
  | PScan cnt i =>
      match buff s !! i with
      | Some it => Some (set_pp s (if item_b it =? 0 then PSetA cnt i else PScan cnt (i + 1)))
      | None => Some (set_pp s (PPost cnt))
      end
  | PSetA cnt i =>
      it ← buff s !! i;
      if r <? 0 then None else Some (set_pp (set_buff s i (Item (Z.rem r 10) (item_b it))) (PSetB cnt i))
  | PSetB cnt i =>
      it ← buff s !! i;
      if r <? 0 then None
      else
        let it := Item (item_a it) (2 + Z.rem r 8) in
        let s := set_pp (set_buff s i it) (PPost cnt) in
        Some (State (sem_c s) (sem_p s) (buff s) (pp s) (cp s) (made s ++ [it]) (eaten s))
  | PPost cnt => Some (State (sem_c s + 1) (sem_p s) (buff s) (PTest (cnt + 1)) (cp s) (made s) (eaten s))
  | PDone => None
  end.

Definition consumers s : option state :=
  match cp s with
  | CTest cnt => Some (set_cp s (if cnt <? no_c then CWait cnt else CDone))
  | CWait cnt =>
      if sem_c s =? 0 then None
      else Some (State (sem_c s - 1) (sem_p s) (buff s) (pp s) (CScan cnt 0) (made s) (eaten s))
  | CScan cnt i =>
      match buff s !! i with
      | Some it => Some (set_cp s (if item_b it =? 0 then CScan cnt (i + 1) else CShowA cnt i))
      | None => Some (set_cp s (CPost cnt))
      end
  | CShowA cnt i => it ← buff s !! i; Some (set_cp s (CShowB cnt i (item_a it)))
  | CShowB cnt i a => it ← buff s !! i; Some (set_cp s (CClearA cnt i a (item_b it)))
  | CClearA cnt i a b =>
      it ← buff s !! i;
      Some (set_cp (set_buff s i (Item 0 (item_b it))) (CClearB cnt i a b))
  | CClearB cnt i a b =>
      it ← buff s !! i;
      let s := set_cp (set_buff s i (Item (item_a it) 0)) (CPost cnt) in
      Some (State (sem_c s) (sem_p s) (buff s) (pp s) (cp s) (made s) (eaten s ++ [Item a b]))
  | CPost cnt => Some (State (sem_c s) (sem_p s + 1) (buff s) (pp s) (CTest (cnt + 1)) (made s) (eaten s))
  | CDone => None
  end.

Definition step (l : label) s : option state :=
  match l with Produce r => producers r s | Consume => consumers s end.

(** The state in which main starts the threads. *)
Definition init s : Prop := s = State 0 32 (replicate 32 (Item 0 0)) (PTest 0) (CTest 0) [] [].

(** ** The invariant *)

Definition is_full (it : item) : Prop := item_b it ≠ 0.

#[global] Instance is_full_dec it : Decision (is_full it).
Proof. unfold is_full. apply _. Defined.

Definition full s : Z := Z.of_nat (length (filter is_full (buff s))).

(** The producer has taken a permit and not yet filled a slot, or has filled one
    and not yet posted; likewise for the consumer. *)
Definition p_open (p : producer_pc) : Z := match p with PScan _ _ | PSetA _ _ | PSetB _ _ => 1 | _ => 0 end.

Definition p_full (p : producer_pc) : Z := match p with PPost _ => 1 | _ => 0 end.

Definition c_open (c : consumer_pc) : Z :=
  match c with CScan _ _ | CShowA _ _ | CShowB _ _ _ | CClearA _ _ _ _ | CClearB _ _ _ _ => 1 | _ => 0 end.

Definition c_free (c : consumer_pc) : Z := match c with CPost _ => 1 | _ => 0 end.

(** The slot that a thread works on. *)
Definition p_slot s : Prop :=
  match pp s with
  | PScan _ i => ∃ e it, (i <= e)%nat ∧ buff s !! e = Some it ∧ ¬ is_full it
  | PSetA _ i | PSetB _ i => ∃ it, buff s !! i = Some it ∧ ¬ is_full it
  | _ => True
  end.

Definition c_slot s : Prop :=
  match cp s with
  | CScan _ i => ∃ e it, (i <= e)%nat ∧ buff s !! e = Some it ∧ is_full it
  | CShowA _ i => ∃ it, buff s !! i = Some it ∧ is_full it
  | CShowB _ i a => ∃ it, buff s !! i = Some it ∧ is_full it ∧ item_a it = a
  | CClearA _ i a b => buff s !! i = Some (Item a b) ∧ b ≠ 0
  | CClearB _ i a b => buff s !! i = Some (Item 0 b) ∧ b ≠ 0
  | _ => True
  end.

(** The items in the buffer; one whose first field is being cleared counts with
    its old contents. *)
Definition contents s : list item :=
  filter is_full (match cp s with CClearB _ i a b => <[i := Item a b]> (buff s) | _ => buff s end).

(** How many items a thread has finished or is working on. *)
Definition p_count (p : producer_pc) (default : Z) : Z :=
  match p with PTest cnt | PWait cnt | PScan cnt _ | PSetA cnt _ | PSetB cnt _ => cnt | PPost cnt => cnt + 1 | PDone => default end.

Definition c_count (c : consumer_pc) (default : Z) : Z :=
  match c with
  | CTest cnt | CWait cnt | CScan cnt _ | CShowA cnt _ | CShowB cnt _ _ | CClearA cnt _ _ _ | CClearB cnt _ _ _ => cnt
  | CPost cnt => cnt + 1
  | CDone => default
  end.

Record inv s : Prop := {
  inv_length : length (buff s) = 32%nat;
  inv_sems : 0 <= sem_c s ∧ 0 <= sem_p s;
  inv_full : full s = sem_c s + p_full (pp s) + c_open (cp s);
  inv_free : 32 - full s = sem_p s + p_open (pp s) + c_free (cp s);
  inv_p : p_slot s;
  inv_c : c_slot s;
  inv_items : made s ≡ₚ eaten s ++ contents s;
  inv_made : Z.of_nat (length (made s)) = p_count (pp s) (Z.max 0 no_p);
  inv_eaten : Z.of_nat (length (eaten s)) = c_count (cp s) (Z.max 0 no_c);
  inv_p_le : match pp s with PTest cnt => 0 <= cnt <= Z.max 0 no_p | PDone => True | p => 0 <= p_count p 0 - p_full p < no_p end;
  inv_c_le : match cp s with CTest cnt => 0 <= cnt <= Z.max 0 no_c | CDone => True | c => 0 <= c_count c 0 - c_free c < no_c end }.

(** A bound on the steps that are left. *)
Definition p_left (p : producer_pc) : Z :=
  match p with
  | PTest cnt => 1 + 40 * Z.max 0 (no_p - cnt)
  | PWait cnt => 40 * (no_p - cnt)
  | PScan cnt i => 40 * (no_p - cnt) - 1 - Z.of_nat i
  | PSetA cnt _ => 40 * (no_p - cnt) - 36
  | PSetB cnt _ => 40 * (no_p - cnt) - 37
  | PPost cnt => 40 * (no_p - cnt) - 38
  | PDone => 0
  end.

Definition c_left (c : consumer_pc) : Z :=
  match c with
  | CTest cnt => 1 + 50 * Z.max 0 (no_c - cnt)
  | CWait cnt => 50 * (no_c - cnt)
  | CScan cnt i => 50 * (no_c - cnt) - 1 - Z.of_nat i
  | CShowA cnt _ => 50 * (no_c - cnt) - 36
  | CShowB cnt _ _ => 50 * (no_c - cnt) - 37
  | CClearA cnt _ _ _ => 50 * (no_c - cnt) - 38
  | CClearB cnt _ _ _ => 50 * (no_c - cnt) - 39
  | CPost cnt => 50 * (no_c - cnt) - 40
  | CDone => 0
  end.

Definition steps_left s : Z := p_left (pp s) + c_left (cp s).

(** ** Invariance *)

Lemma prodcons_init_inv s : init s → inv s.
Proof.
  intros ->. assert (filter is_full (replicate 32 (Item 0 0)) = []) as Hf by reflexivity.
  split; try done; unfold full, contents; simpl pp; simpl cp; simpl buff; rewrite ?Hf; simpl; lia || done.
Qed.

(** Filling a free slot and emptying a full one. *)
Lemma full_new s i it it' :
  buff s !! i = Some it → ¬ is_full it → is_full it' → full (set_buff s i it') = full s + 1.
Proof. intros Hi H0 H1. unfold full. simpl. rewrite (filter_insert_new is_full _ i it it' Hi H0 H1). simpl length. lia. Qed.

Lemma full_gone s i it it' :
  buff s !! i = Some it → is_full it → ¬ is_full it' → full (set_buff s i it') = full s - 1.
Proof.
  intros Hi H0 H1. unfold full. simpl. pose proof (Permutation_length (filter_insert_gone is_full _ i it it' Hi H0 H1)) as Hl.
  simpl in Hl. lia.
Qed.

Lemma full_same s i it it' :
  buff s !! i = Some it → (is_full it ↔ is_full it') → full (set_buff s i it') = full s.
Proof.
  intros Hi Hiff. unfold full. simpl. destruct (decide (is_full it)) as [Hf|Hf].
  - assert (is_full it') as Hf' by tauto.
    rewrite insert_take_drop by (by eapply lookup_lt_Some).
    rewrite <- (take_drop_middle (buff s) i it Hi) at 3. rewrite !filter_app, !filter_cons, !decide_True by done.
    by rewrite !length_app.
  - assert (¬ is_full it') as Hf' by tauto. by rewrite (filter_insert_neither is_full _ i it it' Hi Hf Hf').
Qed.

(** What one thread writes does not touch the slot of the other. *)
Lemma c_slot_write s i it it' pp' :
  c_slot s → buff s !! i = Some it → ¬ is_full it → c_slot (set_pp (set_buff s i it') pp').
Proof.
  unfold c_slot. simpl. intros Hc Hi Hit.
  assert (∀ e x, buff s !! e = Some x → is_full x → <[i := it']> (buff s) !! e = Some x) as Hne.
  { intros e x He Hx. rewrite list_lookup_insert_ne; [done|]. intros <-. naive_solver. }
  destruct (cp s); try done.
  - destruct Hc as (e & x & Hle & He & Hx). exists e, x. eauto.
  - destruct Hc as (x & He & Hx). exists x. eauto.
  - destruct Hc as (x & He & Hx & Ha). exists x. eauto.
  - destruct Hc as (He & Hb). split; [|done]. by apply Hne.
  - destruct Hc as (He & Hb). split; [|done]. by apply Hne.
Qed.

Lemma p_slot_write s i it it' cp' :
  p_slot s → buff s !! i = Some it → is_full it → p_slot (set_cp (set_buff s i it') cp').
Proof.
  unfold p_slot. simpl. intros Hp Hi Hit.
  assert (∀ e x, buff s !! e = Some x → ¬ is_full x → <[i := it']> (buff s) !! e = Some x) as Hne.
  { intros e x He Hx. rewrite list_lookup_insert_ne; [done|]. intros <-. naive_solver. }
  destruct (pp s); try done.
  - destruct Hp as (e & x & Hle & He & Hx). exists e, x. eauto.
  - destruct Hp as (x & He & Hx). exists x. eauto.
  - destruct Hp as (x & He & Hx). exists x. eauto.
Qed.

Lemma contents_write s i it it' pp' :
  c_slot s → buff s !! i = Some it → ¬ is_full it →
  contents (set_pp (set_buff s i it') pp') ≡ₚ (if decide (is_full it') then it' :: contents s else contents s).
Proof.
  intros Hc Hi Hit. unfold contents. simpl.
  assert (∀ l, l !! i = Some it → filter is_full (<[i := it']> l) ≡ₚ
    (if decide (is_full it') then it' :: filter is_full l else filter is_full l)) as Hl.
  { intros l Hli. case_decide as Hf; [by apply (filter_insert_new is_full l i it)|].
    by rewrite (filter_insert_neither is_full l i it). }
  unfold c_slot in Hc. destruct (cp s); try by apply Hl.
  destruct Hc as [Hj Hb]. assert (i0 ≠ i) as Hne by (intros ->; rewrite Hi in Hj; simplify_eq; by apply Hit).
  rewrite list_insert_insert_ne by done. apply Hl. by rewrite list_lookup_insert_ne.
Qed.

Lemma some_free (l : list item) : (length (filter is_full l) < length l)%nat → ∃ e it, l !! e = Some it ∧ ¬ is_full it.
Proof.
  induction l as [|x l IH]; simpl; [lia|]. rewrite filter_cons. case_decide as Hx; simpl; intros Hlt.
  - destruct IH as (e & it & He & Hit); [lia|]. by exists (S e), it.
  - by exists 0%nat, x.
Qed.

Lemma some_full (l : list item) : (0 < length (filter is_full l))%nat → ∃ e it, l !! e = Some it ∧ is_full it.
Proof.
  induction l as [|x l IH]; simpl; [lia|]. rewrite filter_cons. case_decide as Hx; simpl; intros Hlt.
  - by exists 0%nat, x.
  - destruct IH as (e & it & He & Hit); [lia|]. by exists (S e), it.
Qed.

Lemma full_set_pp s p : full (set_pp s p) = full s.
Proof. done. Qed.

Lemma producers_inv r s s' : inv s → producers r s = Some s' → inv s'.
Proof.
  intros [Hlen [Hsc Hsp] Hfull Hfree Hp Hc Hit Hmade Heat Hple Hcle] E. unfold producers in E.
  destruct (pp s) as [cnt|cnt|cnt i|cnt i|cnt i|cnt|] eqn:Epp; cbn [p_open p_full p_count] in *.
  - inv_some E. destruct (Z.ltb_spec cnt no_p); split; try done; simpl; lia.
  - destruct (Z.eqb_spec (sem_p s) 0); inv_some E. split; try done; simpl; unfold full in *; simpl in *; try lia.
    unfold p_slot. simpl. destruct (some_free (buff s)) as (e & it & He & Hf); [unfold full in *; destruct (cp s); simpl in *; lia|].
    exists e, it. split; [lia|done].
  - unfold p_slot in Hp. rewrite Epp in Hp. destruct Hp as (e & it & Hle & He & Hf).
    destruct (buff s !! i) as [x|] eqn:Ei; [inv_some E|].
    + destruct (Z.eqb_spec (item_b x) 0) as [Hx|Hx]; split; try done; unfold p_slot; simpl.
      * exists x. split; [done|]. unfold is_full. lia.
      * exists e, it. split; [|done]. destruct (decide (i = e)) as [->|]; [simplify_eq; by destruct Hf|lia].
    + apply lookup_ge_None in Ei. apply lookup_lt_Some in He. lia.
  - unfold p_slot in Hp. rewrite Epp in Hp. destruct Hp as (it & Hi & Hf). rewrite Hi in E. simpl in E.
    destruct (r <? 0); inv_some E.
    assert (¬ is_full (Item (Z.rem r 10) (item_b it))) as Hf' by exact Hf.
    split; try done; rewrite ?full_set_pp, ?(full_same s i it) by tauto; try done.
    + simpl. by rewrite length_insert.
    + unfold p_slot. simpl. eexists. rewrite list_lookup_insert_eq by (by eapply lookup_lt_Some). done.
    + by eapply c_slot_write.
    + simpl. rewrite (contents_write s i it) by done. by rewrite decide_False by done.
  - unfold p_slot in Hp. rewrite Epp in Hp. destruct Hp as (it & Hi & Hf). rewrite Hi in E. simpl in E.
    destruct (Z.ltb_spec r 0); inv_some E. set (it' := Item (item_a it) (2 + Z.rem r 8)).
    assert (is_full it') as Hf'. { unfold is_full, it'. simpl. pose proof (Z.rem_nonneg r 8 ltac:(lia) ltac:(lia)). lia. }
    pose proof (full_new s i it it' Hi Hf Hf') as Hnew.
    pose proof (c_slot_write s i it it' (PPost cnt) Hc Hi Hf) as Hcw.
    pose proof (contents_write s i it it' (PPost cnt) Hc Hi Hf) as Hcn. rewrite decide_True in Hcn by done.
    split; try done; simpl; unfold full in *; simpl in *; try lia.
    + by rewrite length_insert.
    + unfold contents in *. simpl in *. rewrite Hcn, Hit. rewrite <- app_assoc. f_equiv. by rewrite Permutation_app_comm.
    + rewrite length_app. simpl. lia.
  - inv_some E. split; try done; simpl; unfold full in *; simpl in *; lia.
  - done.
Qed.

Lemma consumers_inv s s' : inv s → consumers s = Some s' → inv s'.
Proof.
  intros [Hlen [Hsc Hsp] Hfull Hfree Hp Hc Hit Hmade Heat Hple Hcle] E. unfold consumers in E. unfold c_slot in Hc.
  destruct (cp s) as [cnt|cnt|cnt i|cnt i|cnt i a|cnt i a b|cnt i a b|cnt|] eqn:Ecp; cbn [c_open c_free c_count] in *.
  - inv_some E. unfold contents in *. rewrite Ecp in Hit. destruct (Z.ltb_spec cnt no_c); split; try done; simpl; lia.
  - destruct (Z.eqb_spec (sem_c s) 0); inv_some E. unfold contents in *. rewrite Ecp in Hit. split; try done; simpl; unfold full in *; simpl in *; try lia.
    unfold c_slot. simpl. pose proof (some_full (buff s)) as Hs. unfold full in *.
    destruct Hs as (e & it & He & Hf); [destruct (pp s); simpl in *; lia|]. exists e, it. split; [lia|done].
  - unfold contents in *. rewrite Ecp in Hit. destruct Hc as (e & it & Hle & He & Hf).
    destruct (buff s !! i) as [x|] eqn:Ei; [inv_some E|].
    + destruct (Z.eqb_spec (item_b x) 0) as [Hx|Hx]; split; try done; unfold c_slot; simpl.
      * exists e, it. split; [|done]. destruct (decide (i = e)) as [->|]; [simplify_eq; by destruct Hf|lia].
      * by exists x.
    + apply lookup_ge_None in Ei. apply lookup_lt_Some in He. lia.
  - unfold contents in *. rewrite Ecp in Hit. destruct Hc as (it & Hi & Hf). rewrite Hi in E. inv_some E.
    split; try done. unfold c_slot. simpl. by exists it.
  - unfold contents in *. rewrite Ecp in Hit. destruct Hc as (it & Hi & Hf & Ha). rewrite Hi in E. inv_some E.
    split; try done. unfold c_slot. simpl. subst a. split; [by destruct it|exact Hf].
  - unfold contents in *. rewrite Ecp in Hit. destruct Hc as (Hi & Hb). rewrite Hi in E. inv_some E.
    assert (is_full (Item a b)) as Hf by exact Hb.
    pose proof (full_same s i (Item a b) (Item 0 b) Hi ltac:(done)) as Hsame.
    pose proof (p_slot_write s i _ (Item 0 b) (CClearB cnt i a b) Hp Hi Hf) as Hpw.
    split; try done; try (unfold full in *; simpl in *; lia).
    + simpl. by rewrite length_insert.
    + unfold c_slot. simpl. rewrite list_lookup_insert_eq by (by eapply lookup_lt_Some). done.
    + unfold contents. simpl. rewrite list_insert_insert_eq, list_insert_id by done. done.
  - destruct Hc as (Hi & Hb). rewrite Hi in E. inv_some E.
    assert (is_full (Item 0 b)) as Hf by exact Hb. assert (¬ is_full (Item 0 0)) as Hf' by (unfold is_full; simpl; lia).
    pose proof (full_gone s i (Item 0 b) (Item 0 0) Hi Hf Hf') as Hgone.
    pose proof (p_slot_write s i _ (Item 0 0) (CPost cnt) Hp Hi Hf) as Hpw.
    split; try done; try (unfold full in *; simpl in *; lia).
    + simpl. by rewrite length_insert.
    + unfold contents in *. simpl. rewrite Ecp in Hit. rewrite Hit.
      rewrite <- (filter_insert_gone is_full (<[i:=Item a b]> (buff s)) i (Item a b) (Item 0 0)).
      * rewrite list_insert_insert_eq. by rewrite <- app_assoc.
      * rewrite list_lookup_insert_eq by (by eapply lookup_lt_Some). done.
      * exact Hb.
      * done.
    + simpl. rewrite length_app. simpl. lia.
  - inv_some E. unfold contents in *. rewrite Ecp in Hit. split; try done; simpl; unfold full in *; simpl in *; lia.
  - done.
Qed.

Lemma prodcons_reachable_inv s : reachable step init s → inv s.
Proof.
  apply reachable_ind; [apply prodcons_init_inv|]. intros [r|] s1 s2 Hi E; [by eapply producers_inv|by eapply consumers_inv].
Qed.

End threads.

(** ** Properties *)

Section properties.
Context (no_p no_c : Z).
Local Abbreviation step := (step no_p no_c).
Local Abbreviation inv := (inv no_p no_c).

Lemma scan_bound s : inv s →
  match pp s with PScan _ i | PSetA _ i | PSetB _ i => (i < 32)%nat | _ => True end ∧
  match cp s with CScan _ i | CShowA _ i | CShowB _ i _ | CClearA _ i _ _ | CClearB _ i _ _ => (i < 32)%nat | _ => True end.
Proof.
  intros [Hlen _ _ _ Hp Hc _ _ _ _ _]. unfold p_slot, c_slot in *.
  assert (∀ e it, buff s !! e = Some it → (e < 32)%nat) as Hb by (intros e it He; rewrite <- Hlen; by eapply lookup_lt_Some).
  split.
  - destruct (pp s); try done; [destruct Hp as (e & it & ? & He & _); apply Hb in He; lia|destruct Hp as (it & He & _); by eapply Hb..].
  - destruct (cp s); try done; [destruct Hc as (e & it & ? & He & _); apply Hb in He; lia|..];
      [destruct Hc as (it & He & _)|destruct Hc as (it & He & _)|destruct Hc as (He & _)|destruct Hc as (He & _)]; by eapply Hb.
Qed.

(** In every interleaving the semaphores keep the threads apart: the counts
    stay between 0 and 32, a thread that holds a permit finds a slot before the
    end of the buffer, and the two threads never work on the same slot. *)
Theorem prodcons_exclusion s :
  reachable step init s →
  0 <= sem_c s ∧ 0 <= sem_p s ∧ sem_c s + sem_p s <= 32 ∧
  match pp s with PScan _ i | PSetA _ i | PSetB _ i => (i < 32)%nat | _ => True end ∧
  match cp s with CScan _ i | CShowA _ i | CShowB _ i _ | CClearA _ i _ _ | CClearB _ i _ _ => (i < 32)%nat | _ => True end ∧
  match pp s, cp s with
  | (PSetA _ i | PSetB _ i), (CShowA _ j | CShowB _ j _ | CClearA _ j _ _ | CClearB _ j _ _) => i ≠ j
  | _, _ => True
  end.
Proof.
  intros Hr. apply prodcons_reachable_inv in Hr as Hi. destruct (scan_bound s Hi) as [Hp32 Hc32].
  destruct Hi as [Hlen [Hsc Hsp] Hfull Hfree Hp Hc _ _ _ _ _]. split_and!; try done.
  - destruct (pp s), (cp s); simpl in *; lia.
  - unfold p_slot, c_slot, is_full in *. destruct (pp s); try done; destruct (cp s); try done; naive_solver.
Qed.

(** No item is lost, duplicated or torn: what was produced is, up to order,
    what the consumer printed together with what is still in the buffer. *)
Theorem prodcons_items_conserved s :
  reachable step init s → made s ≡ₚ eaten s ++ contents s ∧ (length (contents s) <= 32)%nat.
Proof.
  intros Hr. apply prodcons_reachable_inv in Hr as [Hlen _ _ _ _ _ Hit _ _ _ _]. split; [done|].
  unfold contents. etransitivity; [apply length_filter|]. destruct (cp s); rewrite ?length_insert; lia.
Qed.

Lemma producers_cp r s s' : producers no_p r s = Some s' → cp s' = cp s.
Proof. intros E. unfold producers in E. destruct (pp s); cases_in E; try inv_some E; try done; destruct (buff s !! i); cases_in E; by inv_some E. Qed.

Lemma consumers_pp s s' : consumers no_c s = Some s' → pp s' = pp s.
Proof. intros E. unfold consumers in E. destruct (cp s); cases_in E; try inv_some E; try done; destruct (buff s !! i); by inv_some E. Qed.

Lemma producers_left r s s' : producers no_p r s = Some s' →
  match pp s with PScan _ i | PSetA _ i | PSetB _ i => (i < 32)%nat | _ => True end →
  match pp s with PTest cnt => 0 <= cnt <= Z.max 0 no_p | PDone => True | p => 0 <= p_count p 0 - p_full p < no_p end →
  p_left no_p (pp s') < p_left no_p (pp s).
Proof.
  intros E Hi Hn. unfold producers in E. destruct (pp s) as [cnt|cnt|cnt i|cnt i|cnt i|cnt|]; simpl in Hn;
    try (destruct (buff s !! i)); simpl in E; cases_in E; try inv_some E; simpl; lia.
Qed.

Lemma consumers_left s s' : consumers no_c s = Some s' →
  match cp s with CScan _ i | CShowA _ i | CShowB _ i _ | CClearA _ i _ _ | CClearB _ i _ _ => (i < 32)%nat | _ => True end →
  match cp s with CTest cnt => 0 <= cnt <= Z.max 0 no_c | CDone => True | c => 0 <= c_count c 0 - c_free c < no_c end →
  c_left no_c (cp s') < c_left no_c (cp s).
Proof.
  intros E Hi Hn. unfold consumers in E. destruct (cp s) as [cnt|cnt|cnt i|cnt i|cnt i a|cnt i a b|cnt i a b|cnt|]; simpl in Hn;
    try (destruct (buff s !! i)); simpl in E; cases_in E; try inv_some E; simpl; lia.
Qed.

Lemma step_decreases l s s' : inv s → step l s = Some s' → 0 <= steps_left no_p no_c s' < steps_left no_p no_c s.
Proof.
  intros Hi E. assert (inv s') as Hi' by (destruct l; [by eapply producers_inv|by eapply consumers_inv]).
  pose proof (scan_bound s Hi) as [Hp Hc]. pose proof (scan_bound s' Hi') as [Hp' Hc'].
  destruct Hi as [_ _ _ _ _ _ _ _ _ Hple Hcle]. destruct Hi' as [_ _ _ _ _ _ _ _ _ Hple' Hcle'].
  assert (0 <= p_left no_p (pp s') ∧ 0 <= c_left no_c (cp s')) as [Hpn Hcn].
  { clear E. split; [destruct (pp s')|destruct (cp s')]; simpl in *; lia. }
  unfold steps_left. split; [lia|].
  destruct l as [r|].
  - rewrite (producers_cp r s s' E). pose proof (producers_left r s s' E Hp Hple). lia.
  - rewrite (consumers_pp s s' E). pose proof (consumers_left s s' E Hc Hcle). lia.
Qed.

Lemma run_bound ls : ∀ s s', inv s → run step ls s = Some s' →
  Z.of_nat (length ls) + steps_left no_p no_c s' <= steps_left no_p no_c s.
Proof.
  induction ls as [|l ls IH]; intros s s' Hi E; simpl in E; [simplify_eq; simpl; lia|].
  destruct (step l s) as [s1|] eqn:E1; [|done]. pose proof (step_decreases l s s1 Hi E1) as Hd.
  assert (inv s1) as Hi1 by (destruct l; [by eapply producers_inv|by eapply consumers_inv]).
  specialize (IH s1 s' Hi1 E). simpl length. lia.
Qed.

(** Every run ends: no interleaving has more than 40 steps for each item to
    produce and 50 for each to consume, and two. *)
Theorem prodcons_terminates ls s s' :
  init s → run step ls s = Some s' → Z.of_nat (length ls) <= 2 + 40 * Z.max 0 no_p + 50 * Z.max 0 no_c.
Proof.
  intros Hs E. pose proof (run_bound ls s s' (prodcons_init_inv _ _ s Hs) E) as Hb.
  assert (inv s') as Hi by (eapply prodcons_reachable_inv, run_reachable; done).
  assert (0 <= steps_left no_p no_c s') as Hn.
  { destruct (scan_bound s' Hi) as [Hp Hc]. destruct Hi as [_ _ _ _ _ _ _ _ _ Hple Hcle]. unfold steps_left.
    destruct (pp s'), (cp s'); simpl in *; lia. }
  rewrite Hs in Hb. unfold steps_left in Hb at 2. simpl in Hb. rewrite !Z.sub_0_r in Hb. lia.
Qed.

(** Where a run ends: when neither thread can move, either both have returned,
    and then the counts of items fit, or the consumer waits for more items than
    are produced, or the producer waits with the buffer full because more than 32
    items are left over. *)
Theorem prodcons_end s :
  reachable step init s → (∀ l, step l s = None) →
  let p := Z.max 0 no_p in let c := Z.max 0 no_c in
  (pp s = PDone ∧ cp s = CDone ∧ c <= p <= c + 32 ∧ Z.of_nat (length (made s)) = p ∧ Z.of_nat (length (eaten s)) = c) ∨
  (pp s = PDone ∧ cp s = CWait p ∧ p < c ∧ Z.of_nat (length (eaten s)) = p) ∨
  (pp s = PWait (c + 32) ∧ cp s = CDone ∧ c + 32 < p ∧ Z.of_nat (length (made s)) = c + 32).
Proof.
  intros Hr Hstuck p c. apply prodcons_reachable_inv in Hr as Hi. pose proof (scan_bound s Hi) as [Hp32 Hc32].
  destruct Hi as [Hlen [Hsc Hsp] Hfull Hfree Hp Hc Hit Hmade Heat Hple Hcle].
  assert (pp s = PDone ∨ ∃ cnt, pp s = PWait cnt ∧ sem_p s = 0) as HP.
  { pose proof (Hstuck (Produce 0)) as E. unfold ProdCons.step, producers in E. clear Hstuck.
    destruct (pp s) as [cnt|cnt|cnt i|cnt i|cnt i|cnt|]; try done; [..|by left].
    - destruct (Z.eqb_spec (sem_p s) 0); [|done]. right. eauto.
    - by destruct (buff s !! i).
    - destruct (lookup_lt_is_Some_2 (buff s) i) as [it Hit']; [lia|]. by rewrite Hit' in E.
    - destruct (lookup_lt_is_Some_2 (buff s) i) as [it Hit']; [lia|]. by rewrite Hit' in E. }
  assert (cp s = CDone ∨ ∃ cnt, cp s = CWait cnt ∧ sem_c s = 0) as HC.
  { pose proof (Hstuck Consume) as E. unfold ProdCons.step, consumers in E. clear Hstuck.
    destruct (cp s) as [cnt|cnt|cnt i|cnt i|cnt i a|cnt i a b|cnt i a b|cnt|]; try done; [..|by left].
    - destruct (Z.eqb_spec (sem_c s) 0); [|done]. right. eauto.
    - by destruct (buff s !! i).
    - destruct (lookup_lt_is_Some_2 (buff s) i) as [it Hit']; [lia|]. by rewrite Hit' in E.
    - destruct (lookup_lt_is_Some_2 (buff s) i) as [it Hit']; [lia|]. by rewrite Hit' in E.
    - destruct (lookup_lt_is_Some_2 (buff s) i) as [it Hit']; [lia|]. by rewrite Hit' in E.
    - destruct (lookup_lt_is_Some_2 (buff s) i) as [it Hit']; [lia|]. by rewrite Hit' in E. }
  assert (cp s = CDone ∨ (∃ cnt, cp s = CWait cnt ∧ sem_c s = 0) → Z.of_nat (length (made s)) = Z.of_nat (length (eaten s)) + full s) as Hcount.
  { intros _. rewrite (Permutation_length Hit), length_app. unfold contents, full.
    destruct HC as [HC|(? & HC & _)]; rewrite HC; lia. }
  specialize (Hcount HC). clear Hstuck.
  destruct HP as [HP|(i & HP & Hs0)], HC as [HC|(j & HC & Hs1)]; rewrite HP, HC in *; simpl in *.
  - left. split_and!; try done; lia.
  - right; left. assert (j = p) as -> by lia. split_and!; try done; lia.
  - right; right. assert (i = c + 32) as -> by lia. split_and!; try done; lia.
  - lia.
Qed.

End properties.

(** ** Witnesses *)

Section witnesses.

(** The steps of one round of each thread, on the slot [i]. *)
Definition produce_one (i : nat) (a b : Z) : list label :=
  [Produce 0; Produce 0] ++ replicate (i + 1) (Produce 0) ++ [Produce a; Produce b; Produce 0].

Definition consume_one (i : nat) : list label := replicate (i + 8) Consume.

Definition ex_init : state := State 0 32 (replicate 32 (Item 0 0)) (PTest 0) (CTest 0) [] [].

(** Two items are produced and one is consumed. *)
Definition ex_run : list label := produce_one 0 27 13 ++ produce_one 1 5 1 ++ consume_one 0.

Definition ex_state : state := default ex_init (run (step 2 1) ex_run ex_init).

Lemma prodcons_ex_reachable : reachable (step 2 1) init ex_state.
Proof. apply (run_reachable _ init ex_run ex_init); [reflexivity|by vm_compute]. Qed.

Lemma prodcons_exclusion_witness : reachable (step 2 1) init ex_state ∧ sem_c ex_state + sem_p ex_state <= 32.
Proof. split; [exact prodcons_ex_reachable|]. exact (proj1 (proj2 (proj2 (prodcons_exclusion 2 1 ex_state prodcons_ex_reachable)))). Defined.

Lemma prodcons_items_conserved_witness : eaten ex_state = [Item 7 7] ∧ made ex_state ≡ₚ eaten ex_state ++ contents ex_state.
Proof. split; [by vm_compute|]. exact (proj1 (prodcons_items_conserved 2 1 ex_state prodcons_ex_reachable)). Defined.

Lemma prodcons_terminates_witness : Z.of_nat (length ex_run) <= 2 + 40 * Z.max 0 2 + 50 * Z.max 0 1.
Proof. apply (prodcons_terminates 2 1 ex_run ex_init ex_state); [reflexivity|by vm_compute]. Defined.

(** One item is produced, two are asked for. *)
Definition ex_stuck : state := default ex_init (run (step 1 2) (produce_one 0 3 4 ++ [Produce 0] ++ consume_one 0 ++ [Consume]) ex_init).

Lemma ex_stuck_reachable : reachable (step 1 2) init ex_stuck.
Proof. apply (run_reachable _ init (produce_one 0 3 4 ++ [Produce 0] ++ consume_one 0 ++ [Consume]) ex_init); [reflexivity|by vm_compute]. Qed.

Lemma ex_stuck_no_step l : step 1 2 l ex_stuck = None.
Proof. destruct l as [r|]; by vm_compute. Qed.

Lemma prodcons_end_witness : pp ex_stuck = PDone ∧ cp ex_stuck = CWait 1 ∧ Z.of_nat (length (eaten ex_stuck)) = 1.
Proof.
  destruct (prodcons_end 1 2 ex_stuck ex_stuck_reachable ex_stuck_no_step) as [(_ & Hc & _)|[(Hp & Hc & _ & He)|(Hp & _)]].
  - discriminate Hc.
  - split; [exact Hp|]. split; [exact Hc|exact He].
  - discriminate Hp.
Defined.

End witnesses.
