(* ===== verification/Dining.v ===== *)
(** * Dining philosophers (src/concur/concurrent2/concurrent2.c)

    Five philosopher threads, three left and two right forks as two counting
    semaphores, and for each philosopher a semaphore and a flag that are meant to
    let everyone eat once per cycle.  Every access to shared data is one step. *)

From S2P Require Import Prelude.

Local Open Scope Z_scope.

(** ** State *)

(** The statements of [philosopher], in order; [Check j] is the test of [phi[j]],
    [Post j] and [Clear j] the loop that starts a new cycle. *)
Inductive pc :=
| Think | ThinkEnd | WaitPhi | WaitLeft | GotLeft | WaitRight | GotRight | SetPhi
| Check (j : nat) | Post (j : nat) | Clear (j : nat)
| Eat | EatEnd | PostLeft | DropLeft | PostRight | DropRight.

#[global] Instance pc_eq_dec : EqDecision pc.
Proof. solve_decision. Defined.

Record state := State {
  sem_left : Z;
  sem_right : Z;
  sem_phi : list Z;
  phi : list bool;
  phi_forks : list Z;
  phi_status : list Z;
  pcs : list pc }.

Definition goto (i : nat) (p : pc) (s : state) : state :=
  State (sem_left s) (sem_right s) (sem_phi s) (phi s) (phi_forks s) (phi_status s) (<[i := p]> (pcs s)).

Definition set_left (v : Z) (s : state) : state :=
  State v (sem_right s) (sem_phi s) (phi s) (phi_forks s) (phi_status s) (pcs s).

Definition set_right (v : Z) (s : state) : state :=
  State (sem_left s) v (sem_phi s) (phi s) (phi_forks s) (phi_status s) (pcs s).

Definition add_phi_permits (i : nat) (d : Z) (s : state) : state :=
  State (sem_left s) (sem_right s) (alter (λ v, v + d) i (sem_phi s)) (phi s) (phi_forks s) (phi_status s) (pcs s).

Definition set_phi (i : nat) (b : bool) (s : state) : state :=
  State (sem_left s) (sem_right s) (sem_phi s) (<[i := b]> (phi s)) (phi_forks s) (phi_status s) (pcs s).

Definition add_fork (i : nat) (d : Z) (s : state) : state :=
  State (sem_left s) (sem_right s) (sem_phi s) (phi s) (alter (λ v, v + d) i (phi_forks s)) (phi_status s) (pcs s).

Definition set_status (i : nat) (v : Z) (s : state) : state :=
  State (sem_left s) (sem_right s) (sem_phi s) (phi s) (phi_forks s) (<[i := v]> (phi_status s)) (pcs s).

(** The next statement of philosopher [i]; [None] when it is blocked. The status
    is 0 for blocking, 1 for thinking, 2 for eating. *)
Definition philosopher (i : nat) (s : state) : option state :=
  p ← pcs s !! i;
  match p with
  | Think => Some (goto i ThinkEnd (set_status i 1 s))
  | ThinkEnd => Some (goto i WaitPhi (set_status i 0 s))
  | WaitPhi =>
      v ← sem_phi s !! i;
      if v =? 0 then None else Some (goto i WaitLeft (add_phi_permits i (-1) s))
  | WaitLeft => if sem_left s =? 0 then None else Some (goto i GotLeft (set_left (sem_left s - 1) s))
  | GotLeft => Some (goto i WaitRight (add_fork i 1 s))
  | WaitRight => if sem_right s =? 0 then None else Some (goto i GotRight (set_right (sem_right s - 1) s))
  | GotRight => Some (goto i SetPhi (add_fork i 1 s))
  | SetPhi => Some (goto i (Check 0) (set_phi i true s))
  | Check j =>
      b ← phi s !! j;
      Some (goto i (if negb b then Eat else if (j =? 4)%nat then Post 0 else Check (j + 1)) s)
  | Post j => Some (goto i (Clear j) (add_phi_permits j 1 s))
  | Clear j => Some (goto i (if (j =? 4)%nat then Eat else Post (j + 1)) (set_phi j false s))
  | Eat => Some (goto i EatEnd (set_status i 2 s))
  | EatEnd => Some (goto i PostLeft (set_status i 0 s))
  | PostLeft => Some (goto i DropLeft (set_left (sem_left s + 1) s))
  | DropLeft => Some (goto i PostRight (add_fork i (-1) s))
  | PostRight => Some (goto i DropRight (set_right (sem_right s + 1) s))
  | DropRight => Some (goto i Think (add_fork i (-1) s))
  end.

(** What the printer thread shows of a status, and of the whole table. *)
Definition status_text (v : Z) : string :=
  if v =? 0 then " Blocking 	" else if v =? 1 then " Thinking 	" else if v =? 2 then "  Eating  	"
  else "switch has sth wrong".

Definition phi_name : list string := ["Dijkstra"; "Confucius"; "Li"; "Hafed"; "KingFaysal"]%string.

Definition printer (s : state) : list (string * Z * string) :=
  zip (zip phi_name (phi_forks s)) (status_text <$> phi_status s).

(** The state in which main has created the threads. *)
Definition start : state :=
  State 3 2 (replicate 5 1) (replicate 5 false) (replicate 5 0) (replicate 5 0) (replicate 5 Think).

Definition init (s : state) : Prop := s = start.

(** ** Who holds a fork *)

Definition holds_left (p : pc) : Z :=
  match p with
  | Think | ThinkEnd | WaitPhi | WaitLeft | DropLeft | PostRight | DropRight => 0
  | _ => 1
  end.

Definition holds_right (p : pc) : Z :=
  match p with
  | Think | ThinkEnd | WaitPhi | WaitLeft | GotLeft | WaitRight | DropRight => 0
  | _ => 1
  end.

(** What [phi_forks] records of a philosopher at this point. *)
Definition counted_forks (p : pc) : Z :=
  match p with
  | Think | ThinkEnd | WaitPhi | WaitLeft | GotLeft => 0
  | WaitRight | GotRight | PostRight | DropRight => 1
  | _ => 2
  end.

Definition status_of (p : pc) : Z := match p with ThinkEnd => 1 | EatEnd => 2 | _ => 0 end.

Definition index_ok (p : pc) : Prop := match p with Check j | Post j | Clear j => (j < 5)%nat | _ => True end.

Record inv (s : state) : Prop := {
  inv_lengths : length (pcs s) = 5%nat ∧ length (sem_phi s) = 5%nat ∧ length (phi s) = 5%nat;
  inv_left : sem_left s + sum_of holds_left (pcs s) = 3 ∧ 0 <= sem_left s;
  inv_right : sem_right s + sum_of holds_right (pcs s) = 2 ∧ 0 <= sem_right s;
  inv_phi : Forall (λ v, 0 <= v) (sem_phi s);
  inv_forks : phi_forks s = counted_forks <$> pcs s;
  inv_status : phi_status s = status_of <$> pcs s;
  inv_index : Forall index_ok (pcs s) }.

(** ** Invariance *)

Lemma start_inv : inv start.
Proof. split; try done; simpl; repeat constructor; lia. Qed.

Lemma fmap_goto {B} (f : pc → B) (l : list pc) (i : nat) p q (g : B → B) :
  l !! i = Some p → g (f p) = f q → alter g i (f <$> l) = f <$> (<[i := q]> l).
Proof.
  intros Hi Hg. rewrite list_fmap_insert. apply list_eq. intros j. destruct (decide (i = j)) as [<-|Hne].
  - rewrite list_lookup_alter_eq, list_lookup_fmap, Hi. simpl. rewrite list_lookup_insert_eq; [by rewrite Hg|].
    rewrite length_fmap. by eapply lookup_lt_Some.
  - by rewrite list_lookup_alter_ne, list_lookup_insert_ne.
Qed.

Lemma fmap_same {B} (f : pc → B) (l : list pc) (i : nat) p q : l !! i = Some p → f p = f q → f <$> l = f <$> (<[i := q]> l).
Proof.
  intros Hi Hf. rewrite list_fmap_insert, list_insert_id; [done|]. rewrite list_lookup_fmap, Hi. simpl. by rewrite Hf.
Qed.

Lemma fmap_set {B} (f : pc → B) (l : list pc) (i : nat) q : <[i := f q]> (f <$> l) = f <$> (<[i := q]> l).
Proof. by rewrite list_fmap_insert. Qed.

Lemma alter_phi_nonneg (i : nat) d (l : list Z) v :
  Forall (λ v, 0 <= v) l → l !! i = Some v → 0 <= v + d → Forall (λ v, 0 <= v) (alter (λ v, v + d) i l).
Proof.
  intros Hl Hi Hv. rewrite Forall_lookup in Hl |- *. intros j w Hj. destruct (decide (i = j)) as [<-|Hne].
  - rewrite list_lookup_alter_eq, Hi in Hj. simpl in Hj. by simplify_eq.
  - rewrite list_lookup_alter_ne in Hj by done. by eapply Hl.
Qed.

Lemma philosopher_inv i s s' : inv s → philosopher i s = Some s' → inv s'.
Proof.
  intros [[Hl5 [Hp5 Hf5]] [Hleft Hl0] [Hright Hr0] Hphi Hforks Hstatus Hidx] E. unfold philosopher in E.
  destruct (pcs s !! i) as [p|] eqn:Hi; [|done]. cbn [mbind option_bind] in E.
  assert (index_ok p) as Hip by (rewrite Forall_lookup in Hidx; by eapply Hidx).
  assert (∀ q, sum_of holds_left (<[i := q]> (pcs s)) = sum_of holds_left (pcs s) - holds_left p + holds_left q) as HL
    by (intros; by apply sum_of_insert).
  assert (∀ q, sum_of holds_right (<[i := q]> (pcs s)) = sum_of holds_right (pcs s) - holds_right p + holds_right q) as HR
    by (intros; by apply sum_of_insert).
  assert (∀ q, index_ok q → Forall index_ok (<[i := q]> (pcs s))) as HI by (intros; by apply Forall_insert).
  assert (Hkeep : ∀ q (s1 : state), pcs s1 = pcs s → length (sem_phi s1) = 5%nat → length (phi s1) = 5%nat →
    sem_left s1 - holds_left p + holds_left q = sem_left s → 0 <= sem_left s1 →
    sem_right s1 - holds_right p + holds_right q = sem_right s → 0 <= sem_right s1 →
    Forall (λ v, 0 <= v) (sem_phi s1) → phi_forks s1 = counted_forks <$> <[i := q]> (pcs s) →
    phi_status s1 = status_of <$> <[i := q]> (pcs s) → index_ok q → inv (goto i q s1)).
  { intros q s1 Hpc. intros. split; simpl; rewrite ?Hpc, ?length_insert, ?HL, ?HR; try done; try (split; lia). by apply HI. }
  destruct p; cbn [holds_left holds_right counted_forks status_of index_ok] in *;
    repeat match type of E with
    | (if ?b then _ else _) = _ => destruct b eqn:?
    | (_ ← ?x; _) = _ => destruct x eqn:?; cbn [mbind option_bind] in E
    end; try discriminate E; injection E as <-;
    repeat match goal with |- context [if ?b then _ else _] => destruct b eqn:? end;
    match goal with |- inv (goto i ?q ?s1) => apply (Hkeep q s1) end; cbn [set_status set_left set_right add_phi_permits set_phi add_fork
      sem_left sem_right sem_phi phi phi_forks phi_status pcs holds_left holds_right index_ok]; rewrite ?length_alter, ?length_insert;
    repeat match goal with
    | H : (_ =? _) = false |- _ => apply Z.eqb_neq in H
    | H : (_ =? _)%nat = false |- _ => apply Nat.eqb_neq in H
    end;
    try done; try lia; rewrite ?Hforks, ?Hstatus;
    try (by eapply fmap_goto); try (by eapply fmap_same);
    try match goal with |- _ = status_of <$> <[i := ?q]> ?l => exact (fmap_set status_of l i q) end.
  - eapply alter_phi_nonneg; [exact Hphi|eassumption|]. rewrite Forall_lookup in Hphi. specialize (Hphi _ _ Heqo). simpl in Hphi. lia.
  - destruct (lookup_lt_is_Some_2 (sem_phi s) j) as [v Hv]; [lia|]. eapply alter_phi_nonneg; [exact Hphi|exact Hv|].
    rewrite Forall_lookup in Hphi. specialize (Hphi _ _ Hv). simpl in Hphi. lia.
Qed.

Lemma dining_reachable_inv s : reachable philosopher init s → inv s.
Proof. apply reachable_ind; [intros s0 ->; apply start_inv|]. intros i s1 s2. apply philosopher_inv. Qed.

(** ** Properties *)

(** In every interleaving forks are conserved and never shared: the left forks
    held and the free ones are three, the right ones two, so at most two
    philosophers have both and eat; the printed fork counts and statuses are those
    of the philosophers' positions. *)
Theorem dining_forks s :
  reachable philosopher init s →
  sem_left s + sum_of holds_left (pcs s) = 3 ∧ 0 <= sem_left s ∧
  sem_right s + sum_of holds_right (pcs s) = 2 ∧ 0 <= sem_right s ∧
  sum_of (λ p, b2z (bool_decide (p = EatEnd))) (pcs s) <= 2 ∧
  phi_forks s = counted_forks <$> pcs s ∧ phi_status s = status_of <$> pcs s.
Proof.
  intros [_ [? ?] [? ?] _ ? ? _]%dining_reachable_inv. split_and!; try done.
  enough (sum_of (λ p, b2z (bool_decide (p = EatEnd))) (pcs s) <= sum_of holds_right (pcs s)) by lia.
  apply sum_of_le. intros p _. destruct p; simpl; lia.
Qed.

(** The forks never deadlock: when no philosopher can move, every one of them
    waits for its own permit of the cycle, with all forks free. *)
Theorem dining_stuck_at_cycle s :
  reachable philosopher init s → (∀ i, (i < 5)%nat → philosopher i s = None) →
  pcs s = replicate 5 WaitPhi ∧ sem_phi s = replicate 5 0 ∧ sem_left s = 3 ∧ sem_right s = 2.
Proof.
  intros [[Hl5 [Hp5 Hf5]] [Hleft Hl0] [Hright Hr0] Hphi _ _ Hidx]%dining_reachable_inv Hstuck.
  assert (∀ i p, pcs s !! i = Some p → (p = WaitPhi ∧ sem_phi s !! i = Some 0) ∨
    (p = WaitLeft ∧ sem_left s = 0) ∨ (p = WaitRight ∧ sem_right s = 0)) as Hpos.
  { intros i p Hi. assert (i < 5)%nat as Hi5 by (rewrite <- Hl5; by eapply lookup_lt_Some).
    pose proof (Hstuck i Hi5) as E. unfold philosopher in E. rewrite Hi in E. cbn [mbind option_bind] in E.
    rewrite Forall_lookup in Hidx. specialize (Hidx i p Hi).
    destruct p; try discriminate E; simpl in Hidx.
    - destruct (lookup_lt_is_Some_2 (sem_phi s) i) as [v Hv]; [lia|]. rewrite Hv in E. cbn [mbind option_bind] in E.
      destruct (Z.eqb_spec v 0); [subst v; auto|done].
    - destruct (Z.eqb_spec (sem_left s) 0); [auto|done].
    - destruct (Z.eqb_spec (sem_right s) 0); [auto|done].
    - destruct (lookup_lt_is_Some_2 (phi s) j) as [v Hv]; [lia|]. by rewrite Hv in E. }
  assert (sum_of holds_right (pcs s) = 0) as HR0.
  { destruct (decide (0 < sum_of holds_right (pcs s))) as [Hs|Hs].
    - apply sum_of_pos in Hs as (i & p & Hi & Hh). apply Hpos in Hi as [[-> _]|[[-> _]|[-> _]]]; simpl in Hh; lia.
    - pose proof (sum_of_nonneg holds_right (pcs s) ltac:(intros []; simpl; lia)). lia. }
  assert (sum_of holds_left (pcs s) = 0) as HL0.
  { destruct (decide (0 < sum_of holds_left (pcs s))) as [Hs|Hs].
    - apply sum_of_pos in Hs as (i & p & Hi & Hh). apply Hpos in Hi as [[-> _]|[[-> _]|[-> ?]]]; simpl in Hh; lia.
    - pose proof (sum_of_nonneg holds_left (pcs s) ltac:(intros []; simpl; lia)). lia. }
  assert (∀ i p, pcs s !! i = Some p → p = WaitPhi ∧ sem_phi s !! i = Some 0) as Hall.
  { intros i p Hi. apply Hpos in Hi as [?|[[_ ?]|[_ ?]]]; [done|lia|lia]. }
  split_and!; try lia; apply list_eq_same_length with 5%nat; rewrite ?length_replicate; try done; intros i x y Hi Hx Hy;
    rewrite lookup_replicate in Hy; destruct Hy as [-> _].
  - by eapply Hall.
  - destruct (lookup_lt_is_Some_2 (pcs s) i) as [p Hp]; [lia|]. apply Hall in Hp as [_ Hp]. congruence.
Qed.

(** ** Schedules that break the cycle *)

Section schedules.

(** [n] steps of philosopher [i]; one whole round of a philosopher whose test of
    the flags fails at the [k]-th. *)
Definition steps (i n : nat) : list nat := replicate n i.

Definition eats (i k : nat) : list nat := steps i (14 + k).

(** Philosophers 0 to 3 have eaten; 4 starts the new cycle but is interrupted
    between the post to 1 and the reset of its flag, while 1 eats again. *)
Definition lost_flag : list nat :=
  eats 0 2 ++ eats 1 3 ++ eats 2 4 ++ eats 3 5 ++ steps 4 16 ++ eats 1 1 ++ steps 4 13 ++
  eats 0 2 ++ eats 2 2 ++ eats 3 2 ++ eats 4 2 ++
  steps 0 2 ++ steps 1 2 ++ steps 2 2 ++ steps 3 2 ++ steps 4 2.

(** Both 3 and 4 find all flags set. *)
Definition double_cycle : list nat :=
  eats 0 2 ++ eats 1 3 ++ eats 2 4 ++ steps 3 8 ++ steps 4 8 ++ steps 3 5 ++ steps 4 5 ++ steps 3 10 ++ steps 4 10.

(** The cycle protocol can deadlock: [phi[j]] is reset after [sem_phi[j]] was
    posted, so a philosopher that eats in between loses its flag, the flags are
    never all set again, and all five wait forever. *)
Theorem dining_can_deadlock :
  ∃ s, reachable philosopher init s ∧ (∀ i, philosopher i s = None).
Proof.
  destruct (run philosopher lost_flag start) as [s|] eqn:E; [|by vm_compute in E].
  exists s. split; [by apply (run_reachable philosopher init lost_flag start)|].
  vm_compute in E. injection E as <-. intros i. do 5 (destruct i as [|i]; [reflexivity|]). reflexivity.
Qed.

(** The cycle does not keep a philosopher from eating twice: two philosophers
    that both find all flags set both start the new cycle, and everyone has two
    permits. *)
Theorem dining_double_permits : ∃ s, reachable philosopher init s ∧ sem_phi s = replicate 5 2.
Proof.
  destruct (run philosopher double_cycle start) as [s|] eqn:E; [|by vm_compute in E].
  exists s. split; [by apply (run_reachable philosopher init double_cycle start)|].
  vm_compute in E. by injection E as <-.
Qed.

(** ** Witnesses *)

Lemma dining_ex_reachable : reachable philosopher init (default start (run philosopher double_cycle start)).
Proof. apply (run_reachable philosopher init double_cycle start); [reflexivity|by vm_compute]. Qed.

Lemma dining_forks_witness :
  sem_left (default start (run philosopher double_cycle start)) = 1 ∧
  sem_left (default start (run philosopher double_cycle start)) +
    sum_of holds_left (pcs (default start (run philosopher double_cycle start))) = 3.
Proof. split; [by vm_compute|]. exact (proj1 (dining_forks _ dining_ex_reachable)). Defined.

Definition ex_deadlock : state := default start (run philosopher lost_flag start).

Lemma ex_deadlock_reachable : reachable philosopher init ex_deadlock.
Proof. apply (run_reachable philosopher init lost_flag start); [reflexivity|by vm_compute]. Qed.

Lemma ex_deadlock_stuck i : (i < 5)%nat → philosopher i ex_deadlock = None.
Proof. intros _. do 5 (destruct i as [|i]; [by vm_compute|]). by vm_compute. Qed.

Lemma dining_stuck_at_cycle_witness : pcs ex_deadlock = replicate 5 WaitPhi ∧ sem_phi ex_deadlock = replicate 5 0.
Proof.
  destruct (dining_stuck_at_cycle ex_deadlock ex_deadlock_reachable ex_deadlock_stuck) as (Hp & Hs & _). split; [exact Hp|exact Hs].
Defined.

End schedules.
