(* ===== verification/Dinners.v ===== *)
(** * The list of dinners (src/concur/concurrent3/3way.c, data structure)

    The singly-linked list on a heap of nodes, its three operations with the
    dereferences they make, the list of nodes it represents, and the choice of a
    random index. *)

From Stdlib Require Import QArith Qround.
From S2P Require Import Prelude.

Local Open Scope Z_scope.

(** A node is named by a number. *)
Abbreviation loc := nat.

(** ** Nodes and the list *)

(** [struct TurkeyDinner] *)
Record dinner := Dinner { number_guests : Z; next_dinner : option loc }.

(** The nodes that are allocated, [turkey_dinners] and [dinner_count]. *)
Record dinners := Dinners {
  nodes : gmap loc dinner;
  turkey_dinners : option loc;
  dinner_count : Z }.

(** [while(my_last->next_dinner != NULL)]; [None] is an access to a node that is
    not allocated, or a loop longer than [fuel]. *)
Fixpoint find_last_loop (fuel : nat) (d : dinners) (my_last : loc) : option loc :=
  match fuel with
  | O => None
  | S fuel' =>
      n ← nodes d !! my_last;
      match next_dinner n with
      | None => Some my_last
      | Some l => find_last_loop fuel' d l
      end
  end.

(** The outer [None] is a failure, the inner one NULL. *)
Definition find_last_dinner (d : dinners) (first : option loc) : option (option loc) :=
  match first with
  | None => Some None
  | Some l => l ← find_last_loop (size (nodes d)) d l; Some (Some l)
  end.

Definition set_next (d : dinners) (l : loc) (n : option loc) : option dinners :=
  x ← nodes d !! l;
  Some (Dinners (<[l := Dinner (number_guests x) n]> (nodes d)) (turkey_dinners d) (dinner_count d)).

Definition add_dinner (d : dinners) (new_dinner : loc) : option dinners :=
  last_dinner ← find_last_dinner d (turkey_dinners d);
  d ← match last_dinner with
      | None => Some (Dinners (nodes d) (Some new_dinner) (dinner_count d))
      | Some l => set_next d l (Some new_dinner)
      end;
  Some (Dinners (nodes d) (turkey_dinners d) (s32 (dinner_count d + 1))).

(** [while( count != dinner_index )] of cancel_dinner: the previous and the
    current node. *)
Fixpoint cancel_loop (fuel : nat) (d : dinners) (prev curr : option loc) (count dinner_index : Z) : option (option loc * option loc) :=
  if count =? dinner_index then Some (prev, curr)
  else
    match fuel with
    | O => None
    | S fuel' =>
        c ← curr;
        n ← nodes d !! c;
        cancel_loop fuel' d curr (next_dinner n) (s32 (count + 1)) dinner_index
    end.

Definition cancel_dinner (d : dinners) (dinner_index : Z) : option dinners :=
  '(prev, curr) ← cancel_loop (size (nodes d)) d None (turkey_dinners d) 1 dinner_index;
  c ← curr;
  n ← nodes d !! c;
  d ← match prev with
      | None => Some (Dinners (nodes d) (next_dinner n) (dinner_count d))
      | Some p => set_next d p (next_dinner n)
      end;
  Some (Dinners (delete c (nodes d)) (turkey_dinners d) (s32 (dinner_count d - 1))).

Fixpoint find_loop (fuel : nat) (d : dinners) (curr : option loc) (count dinner_index : Z) : option Z :=
  if count =? dinner_index then Some 1
  else
    match fuel with
    | O => None
    | S fuel' =>
        c ← curr;
        n ← nodes d !! c;
        find_loop fuel' d (next_dinner n) (s32 (count + 1)) dinner_index
    end.

(** [TRUE] is 1. *)
Definition find_dinner (d : dinners) (dinner_index : Z) : option Z :=
  find_loop (size (nodes d)) d (turkey_dinners d) 1 dinner_index.

(** What the inserter allocates for a dinner. *)
Definition new_node (d : dinners) (l : loc) : dinners :=
  Dinners (<[l := Dinner 4 None]> (nodes d)) (turkey_dinners d) (dinner_count d).

(** ** A random index

    The doubles are rationals; [round] is the rounding of the result of an
    operation. *)

Class Rounding := {
  round : Q → Q;
  round_mono x y : (x <= y)%Q → (round x <= round y)%Q;
  round_int z : Z.abs z <= 2 ^ 53 → (round (inject_Z z) == inject_Z z)%Q }.

Definition RAND_MAX : Z := 2147483647.

(** [r] is what [random()] returned; the conversion to [int] truncates. *)
Definition random_range `{Rounding} (r start end_ : Z) : Z :=
  let my_range := inject_Z (end_ - start + 1) in
  let my_multiplier := round (inject_Z r / inject_Z RAND_MAX)%Q in
  start + Qfloor (round (my_range * my_multiplier)%Q).

(** ** The list that is represented *)

(** From [p] on the nodes [ls] are linked in this order, the last to NULL. *)
Fixpoint chain (h : gmap loc dinner) (p : option loc) (ls : list loc) : Prop :=
  match ls with
  | [] => p = None
  | l :: ls' => p = Some l ∧ ∃ n, h !! l = Some n ∧ chain h (next_dinner n) ls'
  end.

(** The state represents the dinners [ls]: linked, distinct, counted. *)
Definition represents (d : dinners) (ls : list loc) : Prop :=
  chain (nodes d) (turkey_dinners d) ls ∧ NoDup ls ∧ dinner_count d = Z.of_nat (length ls) ∧ Z.of_nat (length ls) < 2 ^ 31 - 1.

(** ** Chains *)

Section chains.
Implicit Types (d : dinners) (ls : list loc).

Lemma chain_agree h h' p ls : (∀ l, l ∈ ls → h' !! l = h !! l) → chain h p ls → chain h' p ls.
Proof.
  revert p. induction ls as [|l ls IH]; intros p Hh; [done|]. intros (-> & n & Hn & Hc). split; [done|].
  exists n. split; [rewrite Hh by set_solver; done|]. apply IH; [set_solver|done].
Qed.

Lemma chain_insert_ne h p ls l n : l ∉ ls → chain h p ls → chain (<[l := n]> h) p ls.
Proof. intros Hl. apply chain_agree. intros l' Hl'. rewrite lookup_insert_ne; [done|]. by intros ->. Qed.

Lemma chain_delete h p ls l : l ∉ ls → chain h p ls → chain (delete l h) p ls.
Proof. intros Hl. apply chain_agree. intros l' Hl'. rewrite lookup_delete_ne; [done|]. by intros ->. Qed.

Lemma chain_split h p l1 l l2 :
  chain h p (l1 ++ l :: l2) → ∃ n, h !! l = Some n ∧ chain h (next_dinner n) l2.
Proof.
  revert p. induction l1 as [|x l1 IH]; intros p; simpl.
  - intros (_ & n & Hn & Hc). eauto.
  - intros (_ & n & _ & Hc). by eapply IH.
Qed.

(** Redirecting the link behind [l]. *)
Lemma chain_relink h p l1 l l2 l3 n q :
  NoDup (l1 ++ l :: l2) → chain h p (l1 ++ l :: l2) → h !! l = Some n → l ∉ l3 → chain h q l3 →
  chain (<[l := Dinner (number_guests n) q]> h) p (l1 ++ l :: l3).
Proof.
  revert p. induction l1 as [|x l1 IH]; intros p; simpl.
  - intros _ (-> & _) Hn Hl3 Hq. split; [done|]. eexists. rewrite lookup_insert_eq. split; [done|]. simpl. by apply chain_insert_ne.
  - intros [Hx Hnd]%NoDup_cons (-> & m & Hm & Hc) Hn Hl3 Hq. split; [done|]. exists m.
    rewrite lookup_insert_ne by (intros ->; set_solver). split; [done|]. by apply IH.
Qed.

Lemma chain_size h p ls : NoDup ls → chain h p ls → (length ls <= size h)%nat.
Proof.
  revert p h. induction ls as [|l ls IH]; intros p h; simpl; [lia|]. intros [Hl Hnd]%NoDup_cons (_ & n & Hn & Hc).
  rewrite <- (insert_delete_id h l n Hn), map_size_insert_None by (by rewrite lookup_delete_eq).
  specialize (IH (next_dinner n) (delete l h) Hnd ltac:(by apply chain_delete)). lia.
Qed.

Lemma find_last_chain d p l1 l : NoDup (l1 ++ [l]) → chain (nodes d) p (l1 ++ [l]) →
  ∀ fuel, (length l1 < fuel)%nat → ∃ x, p = Some x ∧ find_last_loop fuel d x = Some l.
Proof.
  revert p. induction l1 as [|y l1 IH]; intros p Hnd Hc [|fuel] Hf; simpl in Hf; try lia; simpl in Hc;
    destruct Hc as (-> & n & Hn & Hc); eexists; (split; [done|]); simpl; rewrite Hn; cbn [mbind option_bind].
  - simpl in Hc. by rewrite Hc.
  - apply NoDup_cons in Hnd as [_ Hnd]. destruct (IH _ Hnd Hc fuel ltac:(lia)) as (x & Hx & E). by rewrite Hx.
Qed.

Lemma cancel_loop_chain d l1 l l2 : chain (nodes d) (turkey_dinners d) (l1 ++ l :: l2) →
  Z.of_nat (length (l1 ++ l :: l2)) < 2 ^ 31 →
  ∀ k a b fuel, l1 = a ++ b → k = Z.of_nat (length a) + 1 → (length b <= fuel)%nat →
  cancel_loop fuel d (last a) (head (b ++ l :: l2)) k (Z.of_nat (length l1) + 1) = Some (last l1, Some l).
Proof.
  intros Hc Hlen k a b. revert k a. induction b as [|x b IH]; intros k a fuel Hl1 Hk Hf.
  - rewrite app_nil_r in Hl1. subst a k. simpl. destruct fuel; simpl; by rewrite Z.eqb_refl.
  - destruct fuel as [|fuel]; simpl in Hf; [lia|]. simpl. rewrite length_app in Hlen.
    assert (k ≠ Z.of_nat (length l1) + 1) as Hne by (subst k l1; rewrite length_app; simpl; lia).
    rewrite (proj2 (Z.eqb_neq _ _)) by done.
    subst l1. rewrite <- app_assoc in Hc. simpl in Hc. destruct (chain_split _ _ a x _ Hc) as (n & Hn & Hc').
    rewrite Hn. cbn [mbind option_bind]. rewrite wrap_s_small by (rewrite length_app in Hlen; simpl in Hlen; cbn; lia).
    replace (next_dinner n) with (head (b ++ l :: l2)).
    2: { destruct b; simpl in Hc'; destruct Hc' as [-> _]; done. }
    specialize (IH (k + 1) (a ++ [x]) fuel). rewrite last_snoc in IH. apply IH; [by rewrite <- app_assoc| |lia].
    rewrite length_app. simpl. lia.
Qed.

Lemma find_loop_chain d ls : chain (nodes d) (turkey_dinners d) ls → Z.of_nat (length ls) < 2 ^ 31 →
  ∀ b k a fuel i, ls = a ++ b → k = Z.of_nat (length a) + 1 → k <= i <= Z.of_nat (length ls) → (length b <= fuel)%nat →
  find_loop fuel d (head b) k i = Some 1.
Proof.
  intros Hc Hlen. induction b as [|x b IH]; intros k a fuel i Hls Hk Hi Hf.
  - subst ls. rewrite app_nil_r in Hi. lia.
  - destruct fuel as [|fuel]; simpl in Hf; [lia|]. simpl. destruct (Z.eqb_spec k i) as [|Hne]; [done|].
    subst ls. destruct (chain_split _ _ a x _ Hc) as (n & Hn & Hc'). rewrite Hn. cbn [mbind option_bind].
    rewrite length_app in Hlen, Hi. simpl in Hlen, Hi. rewrite wrap_s_small by (cbn; lia).
    replace (next_dinner n) with (head b).
    2: { destruct b; simpl in Hc'; [by rewrite Hc'|destruct Hc' as [-> _]; done]. }
    apply (IH _ (a ++ [x])); [by rewrite <- app_assoc| | |lia]; rewrite ?length_app; simpl; rewrite ?length_app; simpl; lia.
Qed.

(** Beyond the end of the list the walk goes through NULL. *)
Lemma find_loop_null d ls : chain (nodes d) (turkey_dinners d) ls → Z.of_nat (length ls) < 2 ^ 31 - 1 →
  ∀ b k a fuel i, ls = a ++ b → k = Z.of_nat (length a) + 1 → Z.of_nat (length ls) + 1 < i →
  find_loop fuel d (head b) k i = None.
Proof.
  intros Hc Hlen. induction b as [|x b IH]; intros k a fuel i Hls Hk Hi; subst ls.
  - rewrite app_nil_r in Hi. destruct fuel; simpl; (rewrite (proj2 (Z.eqb_neq _ _)) by lia); done.
  - rewrite length_app in Hlen, Hi. simpl in Hlen, Hi. destruct fuel as [|fuel]; simpl; rewrite (proj2 (Z.eqb_neq _ _)) by lia; [done|].
    destruct (chain_split _ _ a x _ Hc) as (n & Hn & Hc'). rewrite Hn. cbn [mbind option_bind].
    rewrite wrap_s_small by (cbn; lia).
    replace (next_dinner n) with (head b).
    2: { destruct b; simpl in Hc'; [by rewrite Hc'|destruct Hc' as [-> _]; done]. }
    apply (IH _ (a ++ [x])); [by rewrite <- app_assoc| |]; rewrite ?length_app; simpl; lia.
Qed.

End chains.

(** ** Properties *)

Section properties.
Implicit Types (d : dinners) (ls : list loc).

Lemma find_last_spec d ls : represents d ls → find_last_dinner d (turkey_dinners d) = Some (last ls).
Proof.
  intros (Hc & Hnd & _ & _). destruct ls as [|l ls _] using rev_ind; [simpl in Hc; by rewrite Hc|].
  pose proof (chain_size _ _ _ Hnd Hc) as Hsz. rewrite length_app in Hsz. simpl in Hsz.
  destruct (find_last_chain d _ ls l Hnd Hc (size (nodes d))) as (x & Hx & E); [lia|]. rewrite Hx. simpl. by rewrite E, last_snoc.
Qed.

(** Adding a new node puts it behind the last dinner of the list, whatever the
    list was, and counts it. *)
Theorem add_dinner_appends d ls l :
  represents d ls → l ∉ ls → Z.of_nat (length ls) + 1 < 2 ^ 31 - 1 →
  ∃ d', add_dinner (new_node d l) l = Some d' ∧ represents d' (ls ++ [l]).
Proof.
  intros Hr Hl Hlen. assert (represents (new_node d l) ls) as Hr'.
  { destruct Hr as (Hc & ? & ? & ?). split; [by apply chain_insert_ne|done]. }
  pose proof Hr' as (Hc & Hnd & Hcnt & _). unfold add_dinner. rewrite (find_last_spec _ _ Hr'). cbn [mbind option_bind].
  assert (NoDup (ls ++ [l])) as Hnd'. { apply NoDup_app. split_and!; [done|set_solver|apply NoDup_singleton]. }
  assert (∀ d1, chain (nodes d1) (turkey_dinners d1) (ls ++ [l]) → dinner_count d1 = dinner_count d →
    represents (Dinners (nodes d1) (turkey_dinners d1) (s32 (dinner_count d1 + 1))) (ls ++ [l])) as Hfin.
  { intros d1 Hc1 Hd1. split; [done|]. split; [done|]. simpl. rewrite Hd1, length_app. simpl. simpl in Hcnt. rewrite Hcnt.
    rewrite wrap_s_small by (cbn; lia). lia. }
  destruct ls as [|x ls _] using rev_ind.
  - simpl. eexists. split; [done|].
    apply (Hfin (Dinners (nodes (new_node d l)) (Some l) (dinner_count (new_node d l)))); [|done].
    simpl. split; [done|]. exists (Dinner 4 None). rewrite lookup_insert_eq. done.
  - rewrite last_snoc. unfold set_next. destruct (chain_split _ _ ls x [] Hc) as (n & Hn & _). rewrite Hn. cbn [mbind option_bind].
    eexists. split; [done|]. apply (Hfin (Dinners (<[x := Dinner (number_guests n) (Some l)]> (nodes (new_node d l))) (turkey_dinners d) (dinner_count d))); [|done].
    rewrite <- app_assoc. simpl. apply (chain_relink _ _ ls x []); try done; [set_solver|]. simpl. split; [done|].
    exists (Dinner 4 None). by rewrite lookup_insert_eq.
Qed.

(** Cancelling the dinner number [i] of the list removes exactly that node,
    keeps the order of the others, frees it and uncounts it; searching for any
    number from 1 to the count succeeds. *)
Theorem cancel_dinner_removes d l1 l l2 :
  represents d (l1 ++ l :: l2) →
  find_dinner d (Z.of_nat (length l1) + 1) = Some 1 ∧
  ∃ d', cancel_dinner d (Z.of_nat (length l1) + 1) = Some d' ∧ represents d' (l1 ++ l2) ∧ nodes d' !! l = None.
Proof.
  intros (Hc & Hnd & Hcnt & Hlen). pose proof (chain_size _ _ _ Hnd Hc) as Hsz.
  assert (turkey_dinners d = head (l1 ++ l :: l2)) as Hhd by (destruct l1; simpl in Hc; by destruct Hc as [-> _]).
  split.
  { unfold find_dinner. rewrite Hhd. apply (find_loop_chain d _ Hc ltac:(lia) (l1 ++ l :: l2) 1 [] (size (nodes d))); try done.
    rewrite length_app. simpl. lia. }
  unfold cancel_dinner. pose proof (cancel_loop_chain d l1 l l2 Hc ltac:(lia) 1 [] l1 (size (nodes d)) eq_refl eq_refl) as E.
  rewrite length_app in Hsz. simpl in Hsz. rewrite <- Hhd in E.
  cbn [last] in E. rewrite E by lia. cbn [mbind option_bind]. clear E.
  destruct (chain_split _ _ l1 l l2 Hc) as (n & Hn & Hc2). rewrite Hn. cbn [mbind option_bind].
  apply NoDup_app in Hnd as (Hnd1 & Hdis & [Hl Hnd2]%NoDup_cons).
  assert (l ∉ l1) as Hl1 by set_solver.
  assert (NoDup (l1 ++ l2)) as Hnd' by (apply NoDup_app; split_and!; set_solver).
  rewrite length_app in Hcnt, Hlen. simpl in Hcnt, Hlen.
  assert (∀ h p, chain h p (l1 ++ l2) →
    represents (Dinners (delete l h) p (s32 (dinner_count d - 1))) (l1 ++ l2) ∧ delete l h !! l = None) as Hfin.
  { intros h p Hh. split; [|by rewrite lookup_delete_eq]. split; [apply chain_delete; set_solver|]. split; [done|]. simpl.
    rewrite length_app, Hcnt. rewrite wrap_s_small by (cbn; lia). lia. }
  destruct l1 as [|p l1 _] using rev_ind.
  - simpl. eexists. split; [done|]. simpl. by apply Hfin.
  - rewrite last_snoc. unfold set_next. rewrite <- app_assoc in Hc. simpl in Hc.
    destruct (chain_split _ _ l1 p _ Hc) as (m & Hm & _). rewrite Hm. cbn [mbind option_bind]. eexists. split; [done|].
    simpl. apply Hfin. rewrite <- app_assoc. simpl. apply (chain_relink _ _ l1 p (l :: l2)); try done; [|set_solver].
    apply NoDup_app in Hnd1 as (? & ? & ?). apply NoDup_app. split_and!; [done|set_solver|].
    apply NoDup_cons. split; [set_solver|]. by apply NoDup_cons.
Qed.

(** One number too many: for the count plus one the search reports a dinner
    that does not exist, and the cancellation goes through a NULL pointer. *)
Theorem dinner_index_beyond d ls :
  represents d ls → find_dinner d (Z.of_nat (length ls) + 1) = Some 1 ∧ cancel_dinner d (Z.of_nat (length ls) + 1) = None.
Proof.
  intros (Hc & Hnd & Hcnt & Hlen). pose proof (chain_size _ _ _ Hnd Hc) as Hsz.
  assert (∀ b a fuel k, ls = a ++ b → k = Z.of_nat (length a) + 1 → (length b <= fuel)%nat →
    find_loop fuel d (head b) k (Z.of_nat (length ls) + 1) = Some 1 ∧
    cancel_loop fuel d (last a) (head b) k (Z.of_nat (length ls) + 1) = Some (last ls, None)) as Hloop.
  { induction b as [|x b IH]; intros a fuel k Hls Hk Hf.
    - rewrite app_nil_r in Hls. subst a k. destruct fuel; simpl; by rewrite Z.eqb_refl.
    - destruct fuel as [|fuel]; simpl in Hf; [lia|]. simpl.
      assert (length ls = length a + S (length b))%nat as Hl by (rewrite Hls, length_app; done).
      rewrite (proj2 (Z.eqb_neq _ _)) by lia.
      pose proof Hc as Hc'. rewrite Hls in Hc'. destruct (chain_split _ _ a x _ Hc') as (n & Hn & Hcb). rewrite Hn. cbn [mbind option_bind].
      rewrite wrap_s_small by (cbn; lia). replace (next_dinner n) with (head b).
      2: { destruct b; simpl in Hcb; [by rewrite Hcb|destruct Hcb as [-> _]; done]. }
      destruct (IH (a ++ [x]) fuel (k + 1)) as [E1 E2]; [by rewrite <- app_assoc|rewrite length_app; simpl; lia|lia|].
      rewrite last_snoc in E2. done. }
  destruct (Hloop ls [] (size (nodes d)) 1 eq_refl eq_refl Hsz) as [E1 E2].
  assert (head ls = turkey_dinners d) as Hh by (destruct ls; simpl in Hc; [by rewrite Hc|destruct Hc as [-> _]; done]).
  rewrite Hh in E1, E2. split; [exact E1|]. unfold cancel_dinner. simpl in E2. by rewrite E2.
Qed.

Lemma Qfloor_round_int `{Rounding} z : Z.abs z <= 2 ^ 53 → Qfloor (round (inject_Z z)) = z.
Proof. intros Hz. rewrite (round_int z Hz). apply Qfloor_Z. Qed.

Lemma round_between `{Rounding} q a b : Z.abs a <= 2 ^ 53 → Z.abs b <= 2 ^ 53 →
  (inject_Z a <= q)%Q → (q <= inject_Z b)%Q → (inject_Z a <= round q)%Q ∧ (round q <= inject_Z b)%Q.
Proof.
  intros Ha Hb H1 H2. split; [rewrite <- (round_int a Ha)|rewrite <- (round_int b Hb)]; by apply round_mono.
Qed.

(** The random index: it is at least [start] and at most one more than [end],
    and it is [end + 1], outside the range the comment promises, when random()
    returns its largest value. *)
Theorem random_range_bounds `{Rounding} r start end_ :
  0 <= r <= RAND_MAX → 0 <= start <= end_ → end_ < 2 ^ 31 - 1 →
  start <= random_range r start end_ <= end_ + 1 ∧ random_range RAND_MAX start end_ = end_ + 1.
Proof.
  intros Hr Hse He. assert (∀ r', 0 <= r' <= RAND_MAX → (0 <= round (inject_Z r' / inject_Z RAND_MAX))%Q ∧
    (round (inject_Z r' / inject_Z RAND_MAX) <= 1)%Q) as Hmul.
  { intros r' Hr'. apply (round_between _ 0 1); try done.
    - apply Qle_shift_div_l; [done|]. change (inject_Z 0 * inject_Z RAND_MAX)%Q with (inject_Z 0). rewrite <- Zle_Qle. lia.
    - apply Qle_shift_div_r; [done|]. rewrite Qmult_1_l. rewrite <- Zle_Qle. lia. }
  set (n := end_ - start + 1) in *. assert (0 < n <= 2 ^ 31) as Hn by (unfold n; lia).
  assert (∀ m, (0 <= m)%Q → (m <= 1)%Q → 0 <= Qfloor (round (inject_Z n * m)) <= n) as Hfl.
  { intros m H0 H1. destruct (round_between (inject_Z n * m) 0 n) as [Ha Hb]; try (cbn; lia).
    - apply Qmult_le_0_compat; [|done]. rewrite <- (Zle_Qle 0). lia.
    - rewrite <- (Qmult_1_r (inject_Z n)) at 2. apply Qmult_le_compat_nonneg; split; try done; try apply Qle_refl; rewrite <- (Zle_Qle 0); lia.
    - apply Qfloor_resp_le in Ha, Hb. rewrite !Qfloor_Z in *. lia. }
  split.
  - unfold random_range. fold n. specialize (Hfl _ (proj1 (Hmul r Hr)) (proj2 (Hmul r Hr))). unfold n in *. lia.
  - unfold random_range. fold n. assert (round (inject_Z RAND_MAX / inject_Z RAND_MAX) == 1)%Q as Hone.
    { rewrite <- (round_int 1) by (cbn; lia). apply Qle_antisym; apply round_mono; by vm_compute. }
    assert (Qfloor (round (inject_Z n * round (inject_Z RAND_MAX / inject_Z RAND_MAX))) = n) as ->; [|unfold n; lia].
    rewrite <- (Qfloor_round_int n) at 2 by (cbn; lia).
    apply Z.le_antisymm; apply Qfloor_resp_le, round_mono; rewrite Hone, Qmult_1_r; apply Qle_refl.
Qed.

End properties.

(** ** Witnesses *)

Section witnesses.

Definition no_dinners : dinners := Dinners ∅ None 0.

Lemma no_dinners_represents : represents no_dinners [].
Proof. repeat split; try done. apply NoDup_nil_2. Qed.

(** Two dinners. *)
Definition two_dinners : dinners := Dinners {[1%nat := Dinner 4 (Some 2%nat); 2%nat := Dinner 4 None]} (Some 1%nat) 2.

Lemma two_dinners_represents : represents two_dinners [1%nat; 2%nat].
Proof.
  split; [|split; [|done]].
  - simpl. split; [done|]. eexists. split; [reflexivity|]. simpl. split; [done|]. eexists. by split.
  - apply NoDup_cons. split; [set_solver|]. apply NoDup_singleton.
Qed.

Lemma add_dinner_appends_witness : ∃ d', add_dinner (new_node two_dinners 7) 7 = Some d' ∧ represents d' [1; 2; 7]%nat.
Proof.
  destruct (add_dinner_appends two_dinners [1; 2]%nat 7 two_dinners_represents ltac:(set_solver) ltac:(by compute)) as (d' & E & Hr).
  exists d'. split; [exact E|exact Hr].
Defined.

Lemma cancel_dinner_removes_witness : ∃ d', cancel_dinner two_dinners 2 = Some d' ∧ represents d' [1%nat].
Proof.
  destruct (cancel_dinner_removes two_dinners [1%nat] 2 [] two_dinners_represents) as (_ & d' & E & Hr & _).
  exists d'. split; [exact E|exact Hr].
Defined.

Lemma dinner_index_beyond_witness : find_dinner two_dinners 3 = Some 1 ∧ cancel_dinner two_dinners 3 = None.
Proof. apply (dinner_index_beyond two_dinners [1; 2]%nat two_dinners_represents). Defined.

(** Rounding that is exact. *)
#[local] Instance exact_rounding : Rounding := { round q := q; round_mono x y H := H; round_int z _ := Qeq_refl _ }.

Lemma random_range_bounds_witness : 1 <= random_range 1000000000 1 5 <= 5 + 1 ∧ random_range RAND_MAX 1 5 = 5 + 1.
Proof. apply (random_range_bounds 1000000000 1 5); by compute. Defined.

End witnesses.
