(* ===== verification/ThreeWay.v ===== *)
(** * Searchers, inserters and deleters (src/concur/concurrent3/3way.c, threads)

    Any number of threads of the three kinds, the read/write lock, the two
    mutexes, and the list of dinners with its counter.  A thread's step is one
    lock operation or one access to shared data; the walk of a search takes one
    step per node, so that insertions can happen during it. *)

From S2P Require Import Prelude Dinners.

Local Open Scope Z_scope.

(** ** State *)

(** Where a searcher is: at [rdlock], reading the count, walking (the number of
    the node it is at and the one it looks for), at [unlock]. *)
Inductive searcher_pc := SLock | SCount | SWalk (count to_find : Z) | SUnlock.

(** An inserter: at the lock, linking the new node, counting it, at the unlock. *)
Inductive inserter_pc := ILock | ILink | ICount | IUnlock.

Inductive deleter_pc :=
| DWrLock | DLockIns | DTest | DLockDel | DChoose | DCancel (to_delete : Z)
| DUnlockDel | DUnlockIns | DWrUnlock.

Inductive thread := Searcher (p : searcher_pc) | Inserter (p : inserter_pc) | Deleter (p : deleter_pc) | Crashed.

(** [dinner_list] are the guests of the dinners in the list. *)
Record state := State {
  dinner_list : list Z;
  dinner_count : Z;
  readers : Z;
  writer : bool;
  inserters_lock : bool;
  deleters_lock : bool;
  threads : list thread }.

Definition set_thread (i : nat) (t : thread) (s : state) : state :=
  State (dinner_list s) (dinner_count s) (readers s) (writer s) (inserters_lock s) (deleters_lock s) (<[i := t]> (threads s)).

Definition set_readers (v : Z) (s : state) : state :=
  State (dinner_list s) (dinner_count s) v (writer s) (inserters_lock s) (deleters_lock s) (threads s).

Definition set_writer (b : bool) (s : state) : state :=
  State (dinner_list s) (dinner_count s) (readers s) b (inserters_lock s) (deleters_lock s) (threads s).

Definition set_ins (b : bool) (s : state) : state :=
  State (dinner_list s) (dinner_count s) (readers s) (writer s) b (deleters_lock s) (threads s).

Definition set_del (b : bool) (s : state) : state :=
  State (dinner_list s) (dinner_count s) (readers s) (writer s) (inserters_lock s) b (threads s).

Definition set_dinners (l : list Z) (c : Z) (s : state) : state :=
  State l c (readers s) (writer s) (inserters_lock s) (deleters_lock s) (threads s).

(** ** Steps *)

(** [over] is how far [random_range(1, dinner_count)] can exceed [dinner_count]. *)
Section steps.
Context (over : Z).

(** A value [random_range(1, n)] can return. *)
Definition in_range (r n : Z) : bool := (1 <=? r) && (r <=? n + over).

Definition searcher (r : Z) (i : nat) (p : searcher_pc) (s : state) : option state :=
  match p with
  | SLock => if writer s then None else Some (set_thread i (Searcher SCount) (set_readers (readers s + 1) s))
  | SCount =>
      if 0 <? dinner_count s then
        if in_range r (dinner_count s) then Some (set_thread i (Searcher (SWalk 1 r)) s) else None
      else Some (set_thread i (Searcher SUnlock) s)
  | SWalk count to_find =>
      if count =? to_find then Some (set_thread i (Searcher SUnlock) s)
      else if count <=? Z.of_nat (length (dinner_list s)) then Some (set_thread i (Searcher (SWalk (count + 1) to_find)) s)
      else Some (set_thread i Crashed s)
  | SUnlock => Some (set_thread i (Searcher SLock) (set_readers (readers s - 1) s))
  end.

Definition inserter (i : nat) (p : inserter_pc) (s : state) : option state :=
  match p with
  | ILock => if inserters_lock s then None else Some (set_thread i (Inserter ILink) (set_ins true s))
  | ILink => Some (set_thread i (Inserter ICount) (set_dinners (dinner_list s ++ [4]) (dinner_count s) s))
  | ICount => Some (set_thread i (Inserter IUnlock) (set_dinners (dinner_list s) (dinner_count s + 1) s))
  | IUnlock => Some (set_thread i (Inserter ILock) (set_ins false s))
  end.

Definition deleter (r : Z) (i : nat) (p : deleter_pc) (s : state) : option state :=
  match p with
  | DWrLock => if writer s || (0 <? readers s) then None else Some (set_thread i (Deleter DLockIns) (set_writer true s))
  | DLockIns => if inserters_lock s then None else Some (set_thread i (Deleter DTest) (set_ins true s))
  | DTest => Some (set_thread i (Deleter (if 0 <? dinner_count s then DLockDel else DUnlockIns)) s)
  | DLockDel => if deleters_lock s then None else Some (set_thread i (Deleter DChoose) (set_del true s))
  | DChoose => if in_range r (dinner_count s) then Some (set_thread i (Deleter (DCancel r)) s) else None
  | DCancel to_delete =>
      if to_delete <=? Z.of_nat (length (dinner_list s))
      then Some (set_thread i (Deleter DUnlockDel)
             (set_dinners (delete (Z.to_nat (to_delete - 1)) (dinner_list s)) (dinner_count s - 1) s))
      else Some (set_thread i Crashed s)
  | DUnlockDel => Some (set_thread i (Deleter DUnlockIns) (set_del false s))
  | DUnlockIns => Some (set_thread i (Deleter DWrUnlock) (set_ins false s))
  | DWrUnlock => Some (set_thread i (Deleter DWrLock) (set_writer false s))
  end.

(** The label is the thread and the random index. *)
Definition step (l : nat * Z) (s : state) : option state :=
  t ← threads s !! l.1;
  match t with
  | Searcher p => searcher l.2 l.1 p s
  | Inserter p => inserter l.1 p s
  | Deleter p => deleter l.2 l.1 p s
  | Crashed => None
  end.

End steps.

(** main has created the threads; the list is empty. *)
Definition started (t : thread) : Prop := t = Searcher SLock ∨ t = Inserter ILock ∨ t = Deleter DWrLock.

Definition init (s : state) : Prop :=
  dinner_list s = [] ∧ dinner_count s = 0 ∧ readers s = 0 ∧ writer s = false ∧ inserters_lock s = false ∧
  deleters_lock s = false ∧ Forall started (threads s).

(** The threads that main creates for its three arguments. *)
Definition main_threads (num_searchers num_inserters num_deleters : nat) : list thread :=
  replicate num_inserters (Inserter ILock) ++ replicate num_searchers (Searcher SLock) ++ replicate num_deleters (Deleter DWrLock).

(** ** Who holds which lock *)

Definition holds_read (t : thread) : Z := match t with Searcher SLock => 0 | Searcher _ => 1 | _ => 0 end.

Definition holds_write (t : thread) : Z := match t with Deleter DWrLock => 0 | Deleter _ => 1 | _ => 0 end.

Definition holds_ins (t : thread) : Z :=
  match t with
  | Inserter ILock => 0 | Inserter _ => 1
  | Deleter (DWrLock | DLockIns | DWrUnlock) => 0 | Deleter _ => 1
  | _ => 0
  end.

Definition holds_del (t : thread) : Z := match t with Deleter (DChoose | DCancel _ | DUnlockDel) => 1 | _ => 0 end.

(** A dinner is linked and not yet counted. *)
Definition uncounted (t : thread) : Z := match t with Inserter ICount => 1 | _ => 0 end.

(** What a thread that walks the list relies on. *)
Definition index_ok (n : Z) (t : thread) : Prop :=
  match t with
  | Searcher (SWalk c k) => 1 <= c <= k ∧ k <= n
  | Deleter (DCancel k) => 1 <= k <= n
  | Crashed => False
  | _ => True
  end.

(** Deleters beyond the test have found a dinner. *)
Definition some_left (n : Z) (t : thread) : Prop :=
  match t with Deleter (DLockDel | DChoose | DCancel _) => 0 < n | _ => True end.

Record inv (s : state) : Prop := {
  inv_readers : readers s = sum_of holds_read (threads s);
  inv_writer : b2z (writer s) = sum_of holds_write (threads s);
  inv_ins : b2z (inserters_lock s) = sum_of holds_ins (threads s);
  inv_del : b2z (deleters_lock s) = sum_of holds_del (threads s);
  inv_excl : writer s = true → readers s = 0;
  inv_count : Z.of_nat (length (dinner_list s)) = dinner_count s + sum_of uncounted (threads s);
  inv_index : Forall (index_ok (Z.of_nat (length (dinner_list s)))) (threads s);
  inv_left : Forall (some_left (dinner_count s)) (threads s) }.

(** ** Lemmas *)

Section proofs.

Lemma holds_range t : 0 <= holds_read t <= 1 ∧ 0 <= holds_write t <= 1 ∧ 0 <= holds_ins t <= 1 ∧ 0 <= holds_del t <= 1 ∧
  0 <= uncounted t <= holds_ins t.
Proof. destruct t as [[]|[]|[]|]; simpl; lia. Qed.

Lemma sums_nonneg l : 0 <= sum_of holds_read l ∧ 0 <= sum_of holds_write l ∧ 0 <= sum_of holds_ins l ∧ 0 <= sum_of holds_del l ∧
  0 <= sum_of uncounted l <= sum_of holds_ins l.
Proof. induction l as [|t l IH]; simpl; [lia|]. pose proof (holds_range t). lia. Qed.

(** One thread's share of a sum. *)
Lemma sum_of_share (f : thread → Z) l i t : (∀ t, 0 <= f t) → l !! i = Some t → f t <= sum_of f l.
Proof.
  intros Hf. revert i. induction l as [|x l IH]; intros [|i] Hi; simplify_eq/=.
  - pose proof (sum_of_nonneg f l ltac:(auto)). lia.
  - specialize (IH i Hi). pose proof (Hf x). lia.
Qed.

Lemma sum_of_unique (f : thread → Z) l i j t u :
  (∀ t, 0 <= f t) → l !! i = Some t → l !! j = Some u → i ≠ j → f t + f u <= sum_of f l.
Proof.
  intros Hf. revert i j. induction l as [|x l IH]; intros [|i] [|j] Hi Hj Hij; simplify_eq/=.
  - pose proof (sum_of_share f l j u Hf Hj). lia.
  - pose proof (sum_of_share f l i t Hf Hi). lia.
  - specialize (IH i j Hi Hj ltac:(lia)). pose proof (Hf x). lia.
Qed.

(** The other threads keep what they rely on while the list only grows. *)
Lemma index_ok_grow n n' l : n <= n' → Forall (index_ok n) l → Forall (index_ok n') l.
Proof.
  intros Hn Hl. eapply Forall_impl; [exact Hl|]. intros [[]|[]|[]|]; simpl; try done; lia.
Qed.

Lemma some_left_grow n n' l : n <= n' → Forall (some_left n) l → Forall (some_left n') l.
Proof. intros Hn Hl. eapply Forall_impl; [exact Hl|]. intros [[]|[]|[]|]; simpl; try done; lia. Qed.

(** Changing one thread and the shared data. *)
Lemma inv_step s s1 i t u :
  inv s → threads s !! i = Some t → threads s1 = threads s →
  readers s1 = readers s - holds_read t + holds_read u →
  b2z (writer s1) = b2z (writer s) - holds_write t + holds_write u →
  b2z (inserters_lock s1) = b2z (inserters_lock s) - holds_ins t + holds_ins u →
  b2z (deleters_lock s1) = b2z (deleters_lock s) - holds_del t + holds_del u →
  (writer s1 = true → readers s1 = 0) →
  Z.of_nat (length (dinner_list s1)) = Z.of_nat (length (dinner_list s)) + (dinner_count s1 - dinner_count s) - uncounted t + uncounted u →
  (∀ j v, j ≠ i → threads s !! j = Some v → index_ok (Z.of_nat (length (dinner_list s1))) v ∧ some_left (dinner_count s1) v) →
  index_ok (Z.of_nat (length (dinner_list s1))) u → some_left (dinner_count s1) u →
  inv (set_thread i u s1).
Proof.
  intros [Hr Hw Hi Hd He Hc Hx Hl] Ht Hth Er Ew Ei Ed Ee Ec Hother Hu1 Hu2.
  assert (i < length (threads s))%nat as Hlt by (by eapply lookup_lt_Some).
  split; simpl; rewrite ?Hth, ?(sum_of_insert _ _ _ _ _ Ht); try lia; try done.
  - apply Forall_lookup. intros j v Hj. destruct (decide (j = i)) as [->|Hne].
    + rewrite list_lookup_insert_eq in Hj by done. by simplify_eq.
    + rewrite list_lookup_insert_ne in Hj by done. by eapply Hother.
  - apply Forall_lookup. intros j v Hj. destruct (decide (j = i)) as [->|Hne].
    + rewrite list_lookup_insert_eq in Hj by done. by simplify_eq.
    + rewrite list_lookup_insert_ne in Hj by done. by eapply Hother.
Qed.

(** While a thread holds the write lock and the inserters' lock, nobody else walks
    the list or has counted on it. *)
Lemma alone s i t j v n m m' :
  inv s → threads s !! i = Some t → holds_write t = 1 → threads s !! j = Some v → j ≠ i →
  index_ok n v → index_ok m v ∧ some_left m' v.
Proof.
  intros [Hr Hw Hi Hd He _ _ _] Ht Hwt Hv Hne Hx.
  assert (∀ t, 0 <= holds_write t ∧ 0 <= holds_read t) as Hpos by (intros; split; apply holds_range).
  pose proof (sum_of_unique holds_write _ i j t v ltac:(intros; apply Hpos) Ht Hv ltac:(done)) as Huw.
  pose proof (sum_of_share holds_read _ j v ltac:(intros; apply Hpos) Hv) as Hur.
  assert (writer s = true) as Hwr by (destruct (writer s); simpl in *; [done|pose proof (Hpos v); lia]).
  specialize (He Hwr). rewrite Hwr in Hw. simpl in Hw.
  destruct v as [[]|[]|[]|]; simpl in *; try done; lia.
Qed.

Lemma threeway_step_inv l s s' : inv s → step 0 l s = Some s' → inv s'.
Proof.
  intros HI E. pose proof HI as [Hr Hw Hi Hd He Hc Hx Hl]. unfold step in E. destruct l as [i r]. simpl in E.
  destruct (threads s !! i) as [t|] eqn:Ht; [|done]. cbn [mbind option_bind] in E.
  pose proof (sums_nonneg (threads s)) as (Hn1 & Hn2 & Hn3 & Hn4 & Hn5).
  assert (∀ t, 0 <= holds_read t ∧ 0 <= holds_write t ∧ 0 <= holds_ins t ∧ 0 <= holds_del t) as Hpos
    by (intros; split_and!; apply holds_range).
  pose proof (sum_of_share holds_read _ i t ltac:(intros; apply Hpos) Ht) as Sr.
  pose proof (sum_of_share holds_write _ i t ltac:(intros; apply Hpos) Ht) as Sw.
  pose proof (sum_of_share holds_ins _ i t ltac:(intros; apply Hpos) Ht) as Si.
  pose proof (sum_of_share holds_del _ i t ltac:(intros; apply Hpos) Ht) as Sd.
  assert (index_ok (Z.of_nat (length (dinner_list s))) t) as Hxt by (rewrite Forall_lookup in Hx; by eapply Hx).
  assert (some_left (dinner_count s) t) as Hlt by (rewrite Forall_lookup in Hl; by eapply Hl).
  assert (∀ j v, j ≠ i → threads s !! j = Some v → index_ok (Z.of_nat (length (dinner_list s))) v ∧ some_left (dinner_count s) v) as Hsame.
  { intros j v _ Hj. rewrite Forall_lookup in Hx, Hl. eauto. }
  assert (Hgrow : ∀ n m, Z.of_nat (length (dinner_list s)) <= n → dinner_count s <= m →
    ∀ j v, j ≠ i → threads s !! j = Some v → index_ok n v ∧ some_left m v).
  { intros n m Hnn Hmm j v Hne Hj. pose proof (index_ok_grow _ _ _ Hnn Hx) as Hx'. pose proof (some_left_grow _ _ _ Hmm Hl) as Hl'.
    rewrite Forall_lookup in Hx', Hl'. eauto. }
  unfold searcher, inserter, deleter in E.
  destruct t as [[| |c k|]|[| | |]|[| | | | |k| | |]|]; simpl in *; cases_in E; try discriminate E; injection E as <-;
    repeat match goal with
    | H : (_ <? _) = true |- _ => apply Z.ltb_lt in H
    | H : (_ <? _) = false |- _ => apply Z.ltb_ge in H
    | H : (_ <=? _) = true |- _ => apply Z.leb_le in H
    | H : (_ <=? _) = false |- _ => apply Z.leb_gt in H
    | H : (_ =? _) = true |- _ => apply Z.eqb_eq in H
    | H : (_ =? _) = false |- _ => apply Z.eqb_neq in H
    | H : (_ || _) = false |- _ => apply orb_false_iff in H as [? ?]
    | H : in_range _ _ _ = true |- _ => apply andb_true_iff in H as [?%Z.leb_le ?%Z.leb_le]
    end; simpl in *;
    try (eapply (inv_step s _ i _ _ HI Ht); simpl; rewrite ?length_app; simpl; try done; try lia; try (apply Hgrow; lia);
      try (intros W; specialize (He W); lia);
      try (destruct (writer s), (inserters_lock s), (deleters_lock s); simpl in *; congruence || lia)).
  - rewrite length_delete by (apply lookup_lt_is_Some_2; lia). lia.
  - intros j v Hne Hj. eapply (alone s i _ j v (Z.of_nat (length (dinner_list s)))); try done. by eapply Hsame.
Qed.

Lemma threeway_init_inv s : init s → inv s.
Proof.
  intros (Hd & Hc & Hr & Hw & Hi & Hl & Hs).
  assert (∀ f : thread → Z, f (Searcher SLock) = 0 → f (Inserter ILock) = 0 → f (Deleter DWrLock) = 0 → sum_of f (threads s) = 0) as Hz.
  { intros f H1 H2 H3. induction Hs as [|t l Ht _ IH]; [done|]. simpl. rewrite IH. by destruct Ht as [->|[->| ->]]; rewrite ?H1, ?H2, ?H3. }
  split; rewrite ?Hw, ?Hi, ?Hl, ?Hd, ?Hc, ?Hr, ?Hz; try done; (eapply Forall_impl; [exact Hs|]); by intros t [->|[->| ->]].
Qed.

Lemma threeway_reachable_inv s : reachable (step 0) init s → inv s.
Proof. apply reachable_ind; [apply threeway_init_inv|]. intros l s1 s2. apply threeway_step_inv. Qed.

(** A thread that holds a lock, and the threads at their first lock. *)
Lemma holder (f : thread → Z) l : sum_of f l ≠ 0 → (∀ t, 0 <= f t) → ∃ i t, l !! i = Some t ∧ 0 < f t.
Proof. intros Hs Hf. apply sum_of_pos. pose proof (sum_of_nonneg f l ltac:(auto)). lia. Qed.

(** ** Properties *)

(** In every interleaving, as long as random indices stay in range: at most one
    deleter holds the write lock and then no searcher reads; at most one inserter
    or deleter changes the list; the counter is the length of the list, or one
    behind while an insertion is under way; every index in use is one of the list;
    and no thread follows a NULL pointer. *)
Theorem threeway_safe s :
  reachable (step 0) init s →
  sum_of holds_write (threads s) <= 1 ∧ sum_of holds_ins (threads s) <= 1 ∧
  (0 < sum_of holds_write (threads s) → sum_of holds_read (threads s) = 0) ∧
  dinner_count s <= Z.of_nat (length (dinner_list s)) <= dinner_count s + 1 ∧
  Forall (index_ok (Z.of_nat (length (dinner_list s)))) (threads s) ∧ Crashed ∉ threads s.
Proof.
  intros [Hr Hw Hi Hd He Hc Hx Hl]%threeway_reachable_inv. pose proof (sums_nonneg (threads s)) as (? & ? & ? & ? & ?).
  assert (b2z (writer s) <= 1 ∧ b2z (inserters_lock s) <= 1) as [Hw1 Hi1] by (destruct (writer s), (inserters_lock s); simpl; lia).
  split_and!; try done; try lia.
  - intros Hpos. rewrite <- Hr. apply He. destruct (writer s); simpl in *; [done|lia].
  - intros Hin. rewrite Forall_forall in Hx. by apply Hx in Hin.
Qed.

(** The locks never deadlock: as long as random indices stay in range and there
    is a thread, in every reachable state some thread can take a step. *)
Theorem threeway_no_deadlock s :
  reachable (step 0) init s → threads s ≠ [] → ∃ l s', step 0 l s = Some s'.
Proof.
  intros [Hr Hw Hi Hd He Hc Hx Hl]%threeway_reachable_inv Hne.
  assert (∀ f : thread → Z, (∀ t, 0 <= f t) → (∀ i t, threads s !! i = Some t → f t ≤ 0) → sum_of f (threads s) = 0) as Hzero.
  { intros f Hf Hall. destruct (decide (sum_of f (threads s) = 0)) as [|Hs]; [done|].
    destruct (holder f _ Hs Hf) as (i & t & Ht & Hpos). specialize (Hall i t Ht). lia. }
  assert (∀ i t, threads s !! i = Some t → 0 < holds_del t → ∃ s', step 0 (i, 1) s = Some s') as Hdel.
  { intros i t Ht Hpos. unfold step. simpl. rewrite Ht. rewrite Forall_lookup in Hx, Hl. specialize (Hx i t Ht). specialize (Hl i t Ht).
    destruct t as [[]|[]|[| | | | |k| | |]|]; simpl in *; try lia; [|case_match; eauto|eauto].
    unfold in_range. rewrite (proj2 (Z.leb_le 1 1)), (proj2 (Z.leb_le 1 (dinner_count s + 0))) by lia. simpl. eauto. }
  destruct (decide (sum_of holds_del (threads s) = 0)) as [Ed|Ed].
  2: { destruct (holder _ _ Ed) as (i & t & Ht & Hpos); [apply holds_range|]. destruct (Hdel i t Ht Hpos). eauto. }
  destruct (decide (sum_of holds_ins (threads s) = 0)) as [Ei|Ei].
  2: { destruct (holder _ _ Ei) as (i & t & Ht & Hpos); [apply holds_range|]. exists (i, 1). unfold step. simpl. rewrite Ht.
       rewrite Ed in Hd. destruct (deleters_lock s) eqn:El; [done|]. destruct (decide (0 < holds_del t)) as [Hp|Hp].
       - destruct (Hdel i t Ht Hp) as [s' E]. unfold step in E. simpl in E. rewrite Ht in E. eauto.
       - destruct t as [[]|[]|[| | | | |k| | |]|]; simpl in *; try lia; rewrite ?El; eauto. }
  rewrite Ei in Hi. destruct (inserters_lock s) eqn:El; [done|].
  destruct (decide (sum_of holds_write (threads s) = 0)) as [Ew|Ew].
  2: { destruct (holder _ _ Ew) as (i & t & Ht & Hpos); [apply holds_range|]. exists (i, 1). unfold step. simpl. rewrite Ht.
       pose proof (sum_of_share holds_ins _ i t ltac:(intros; apply holds_range) Ht) as Si.
       destruct t as [[]|[]|[| | | | |k| | |]|]; simpl in *; try lia; rewrite ?El; eauto. }
  rewrite Ew in Hw. destruct (writer s) eqn:Ewr; [done|].
  destruct (decide (sum_of holds_read (threads s) = 0)) as [Er|Er].
  2: { destruct (holder _ _ Er) as (i & t & Ht & Hpos); [apply holds_range|]. exists (i, 1). unfold step. simpl. rewrite Ht.
       destruct t as [[| |c k|]|[]|[]|]; simpl in *; try lia; [|repeat case_match; eauto|eauto].
       destruct (Z.ltb_spec 0 (dinner_count s)); [|eauto]. unfold in_range. rewrite (proj2 (Z.leb_le 1 1)), (proj2 (Z.leb_le 1 (dinner_count s + 0))) by lia. simpl. eauto. }
  destruct (threads s) as [|t l] eqn:Eth; [done|]. exists (0%nat, 1). unfold step. rewrite Eth. simpl.
  apply Forall_cons in Hx as [Hx _]. pose proof (holds_range t). pose proof (sums_nonneg l) as (? & ? & ? & ? & ?).
  rewrite Er in Hr. destruct t as [[| |c k|]|[]|[| | | | |k| | |]|]; simpl in *; try lia; rewrite ?El, ?Ewr, ?Hr; simpl; eauto.
Qed.

(** A deleter with one dinner to choose from gets the number two. *)
Definition overrun : list (nat * Z) :=
  [(0%nat, 0); (0%nat, 0); (0%nat, 0); (0%nat, 0); (2%nat, 0); (2%nat, 0); (2%nat, 0); (2%nat, 0); (2%nat, 2); (2%nat, 0)].

Definition one_each : state := State [] 0 0 false false false (main_threads 1 1 1).

(** With the index that random_range can return beyond its range, the threads
    that main creates can reach a state in which a deleter has followed a NULL
    pointer. *)
Theorem threeway_can_crash : ∃ s, reachable (step 1) init s ∧ Crashed ∈ threads s.
Proof.
  destruct (run (step 1) overrun one_each) as [s|] eqn:E; [|by vm_compute in E].
  exists s. split; [apply (run_reachable (step 1) init overrun one_each); [|done]|].
  - unfold init, one_each. simpl. split_and!; try done. repeat (apply Forall_cons; split); try by apply Forall_nil.
    all: unfold started; auto.
  - vm_compute in E. injection E as <-. simpl. set_solver.
Qed.

(** ** Witnesses *)

Lemma one_each_init : init one_each.
Proof.
  unfold init, one_each. simpl. split_and!; try done. repeat (apply Forall_cons; split); try by apply Forall_nil.
  all: unfold started; auto.
Qed.

(** A searcher walks while a second dinner is linked. *)
Definition ex_run : list (nat * Z) :=
  [(0%nat, 0); (0%nat, 0); (0%nat, 0); (0%nat, 0); (1%nat, 0); (1%nat, 1); (0%nat, 0); (0%nat, 0)].

Definition ex_state : state := default one_each (run (step 0) ex_run one_each).

Lemma threeway_ex_reachable : reachable (step 0) init ex_state.
Proof. apply (run_reachable (step 0) init ex_run one_each); [exact one_each_init|by vm_compute]. Qed.

Lemma threeway_safe_witness : dinner_count ex_state = 1 ∧ length (dinner_list ex_state) = 2%nat ∧ Crashed ∉ threads ex_state.
Proof.
  split; [by vm_compute|]. split; [by vm_compute|].
  exact (proj2 (proj2 (proj2 (proj2 (proj2 (threeway_safe ex_state threeway_ex_reachable)))))).
Defined.

Lemma threeway_no_deadlock_witness : ∃ l s', step 0 l ex_state = Some s'.
Proof. apply (threeway_no_deadlock ex_state threeway_ex_reachable). by vm_compute. Defined.

End proofs.
