(* ===== verification/Barber.v ===== *)
(** * Barbershop and shared resource (src/concur/concurrent4/barbershop.c,
    src/concur/concurrent5/concurrent5A.c)

    Two programs that share a plain counter between their threads.  An update of
    the counter is a load and a store, each a step of its own; a mutex is a flag
    that any thread may clear, the way both programs use it. *)

From S2P Require Import Prelude.

Local Open Scope Z_scope.

(** ** The barbershop *)

Module Barbershop.

(** The statements of [barber]. *)
Inductive barber_pc := BLock | BCut | BUnlock.

(** The statements of [customer]: the test, the decrement, the barber's chair, the
    increment, the signal to the barber. *)
Inductive customer_pc :=
| CTest | CLoadDec | CStoreDec (v : Z) | CLockChair | CLoadInc | CStoreInc (v : Z) | CUnlockHair | CServed | CLeft.

(** [cuts] counts the haircuts the barber has finished. *)
Record state := State {
  waiting_chair_count : Z;
  barber_chair_mutex : bool;
  hair_cut_mutex : bool;
  barber_at : barber_pc;
  customers : list customer_pc;
  cuts : Z }.

(** A step of the barber, of customer [i], or main creating a customer. *)
Inductive label := LBarber | LCustomer (i : nat) | LArrive.

Definition set_customer (i : nat) (c : customer_pc) (s : state) : state :=
  State (waiting_chair_count s) (barber_chair_mutex s) (hair_cut_mutex s) (barber_at s) (<[i := c]> (customers s)) (cuts s).

Definition set_count (v : Z) (s : state) : state :=
  State v (barber_chair_mutex s) (hair_cut_mutex s) (barber_at s) (customers s) (cuts s).

Definition barber (s : state) : option state :=
  match barber_at s with
  | BLock =>
      if hair_cut_mutex s then None
      else Some (State (waiting_chair_count s) (barber_chair_mutex s) true BCut (customers s) (cuts s))
  | BCut => Some (State (waiting_chair_count s) (barber_chair_mutex s) (hair_cut_mutex s) BUnlock (customers s) (cuts s))
  | BUnlock => Some (State (waiting_chair_count s) false (hair_cut_mutex s) BLock (customers s) (cuts s + 1))
  end.

Definition customer (i : nat) (s : state) : option state :=
  c ← customers s !! i;
  match c with
  | CTest => Some (set_customer i (if 0 <? waiting_chair_count s then CLoadDec else CLeft) s)
  | CLoadDec => Some (set_customer i (CStoreDec (waiting_chair_count s)) s)
  | CStoreDec v => Some (set_customer i CLockChair (set_count (v - 1) s))
  | CLockChair =>
      if barber_chair_mutex s then None
      else Some (set_customer i CLoadInc
             (State (waiting_chair_count s) true (hair_cut_mutex s) (barber_at s) (customers s) (cuts s)))
  | CLoadInc => Some (set_customer i (CStoreInc (waiting_chair_count s)) s)
  | CStoreInc v => Some (set_customer i CUnlockHair (set_count (v + 1) s))
  | CUnlockHair =>
      Some (set_customer i CServed
        (State (waiting_chair_count s) (barber_chair_mutex s) false (barber_at s) (customers s) (cuts s)))
  | CServed | CLeft => None
  end.

Definition step (l : label) (s : state) : option state :=
  match l with
  | LBarber => barber s
  | LCustomer i => customer i s
  | LArrive => Some (State (waiting_chair_count s) (barber_chair_mutex s) (hair_cut_mutex s) (barber_at s) (customers s ++ [CTest]) (cuts s))
  end.

(** main: the hair-cut mutex starts locked. *)
Definition init (num_waiting_chairs : Z) (s : state) : Prop := s = State num_waiting_chairs false true BLock [] 0.

(** How many customers main creates from the [i]-th on: 0 to 2 at a time, not
    beyond [num_customers]; [r] is rand(). *)
Definition arrivals (num_customers i r : Z) : Z :=
  let rd_cus := Z.rem r 3 in if num_customers <=? i + rd_cus then num_customers - i else rd_cus.

Definition in_chair (c : customer_pc) : Z := match c with CLoadInc | CStoreInc _ | CUnlockHair => 1 | _ => 0 end.

Definition served (c : customer_pc) : Z := match c with CServed => 1 | _ => 0 end.

Definition busy (b : barber_pc) : Z := match b with BLock => 0 | _ => 1 end.

(** One customer at a time has the barber's chair: it holds the mutex itself, or
    has signalled the barber, or is being served. *)
Record inv (s : state) : Prop := {
  inv_chair : b2z (barber_chair_mutex s) = sum_of in_chair (customers s) + b2z (negb (hair_cut_mutex s)) + busy (barber_at s);
  inv_cuts : sum_of served (customers s) = cuts s + b2z (negb (hair_cut_mutex s)) + busy (barber_at s) }.

Lemma in_chair_nonneg c : 0 <= in_chair c ∧ 0 <= served c.
Proof. destruct c; simpl; lia. Qed.

Lemma barber_step_inv l s s' : inv s → step l s = Some s' → inv s'.
Proof.
  intros [Hc Hs] E. destruct l as [|i|]; simpl in E.
  - unfold barber in E. destruct (barber_at s) eqn:Eb; simpl in *; [destruct (hair_cut_mutex s) eqn:Eh|..]; inv_some E;
      split; simpl in *; rewrite ?Eh in *; simpl in *; try lia.
    pose proof (sum_of_nonneg in_chair (customers s) ltac:(intros; apply in_chair_nonneg)).
    destruct (barber_chair_mutex s), (hair_cut_mutex s); simpl in *; lia.
  - unfold customer in E. destruct (customers s !! i) as [c|] eqn:Hi; [|done]. cbn [mbind option_bind] in E.
    assert (∀ f d, sum_of f (<[i := d]> (customers s)) = sum_of f (customers s) - f c + f d) as Hsum by (intros; by apply sum_of_insert).
    pose proof (sum_of_nonneg in_chair (customers s) ltac:(intros; apply in_chair_nonneg)) as Hn.
    assert (in_chair c <= sum_of in_chair (customers s)) as Hle.
    { pose proof (Hsum in_chair CLeft) as E1. simpl in E1.
      pose proof (sum_of_nonneg in_chair (<[i := CLeft]> (customers s)) ltac:(intros; apply in_chair_nonneg)). lia. }
    destruct c; simpl in E, Hle; try (destruct (barber_chair_mutex s) eqn:Em); try inv_some E; simplify_eq;
      split; simpl; rewrite ?Hsum; simpl; repeat case_match; simpl in *; try lia.
    all: destruct (barber_at s), (hair_cut_mutex s), (barber_chair_mutex s); simpl in *; lia.
  - injection E as <-. split; simpl; rewrite sum_of_app; simpl; lia.
Qed.

Lemma barber_reachable_inv n s : reachable step (init n) s → inv s.
Proof. apply reachable_ind; [intros s0 ->; by split|]. intros l s1 s2. apply barber_step_inv. Qed.

(** In every interleaving at most one customer is in the barber's chair, and
    the barber cuts hair only for one that has signalled: the customers served are
    those whose haircut is finished and at most one more, for whom the barber is
    signalled or working. *)
Theorem barber_one_at_a_time n s :
  reachable step (init n) s →
  sum_of in_chair (customers s) + b2z (negb (hair_cut_mutex s)) + busy (barber_at s) <= 1 ∧
  cuts s <= sum_of served (customers s) <= cuts s + 1 ∧
  (busy (barber_at s) = 1 → sum_of served (customers s) = cuts s + 1).
Proof.
  intros [Hc Hs]%barber_reachable_inv. pose proof (sum_of_nonneg in_chair (customers s) ltac:(intros; apply in_chair_nonneg)).
  destruct (barber_chair_mutex s), (hair_cut_mutex s), (barber_at s); simpl in *; lia.
Qed.

(** Two customers both find the only chair free. *)
Definition two_for_one : list label :=
  [LArrive; LArrive; LCustomer 0; LCustomer 1; LCustomer 0; LCustomer 0; LCustomer 1; LCustomer 1].

(** The test and the decrement of the waiting chairs are not one action: with
    one chair two customers can wait, and the count becomes negative. *)
Theorem waiting_chairs_negative : ∃ s, reachable step (init 1) s ∧ waiting_chair_count s = -1.
Proof.
  destruct (run step two_for_one (State 1 false true BLock [] 0)) as [s|] eqn:E; [|by vm_compute in E].
  exists s. split; [by apply (run_reachable step (init 1) two_for_one (State 1 false true BLock [] 0))|].
  vm_compute in E. by injection E as <-.
Qed.

(** A customer is served and the barber has begun. *)
Definition ex_run : list label := [LArrive] ++ replicate 7 (LCustomer 0) ++ [LBarber].

Definition ex_state : state := default (State 1 false true BLock [] 0) (run step ex_run (State 1 false true BLock [] 0)).

Lemma barber_ex_reachable : reachable step (init 1) ex_state.
Proof. apply (run_reachable step (init 1) ex_run (State 1 false true BLock [] 0)); [reflexivity|by vm_compute]. Qed.

Lemma barber_one_at_a_time_witness : busy (barber_at ex_state) = 1 ∧ sum_of served (customers ex_state) = cuts ex_state + 1.
Proof.
  assert (busy (barber_at ex_state) = 1) as Hb by (by vm_compute). split; [exact Hb|].
  exact (proj2 (proj2 (barber_one_at_a_time 1 ex_state barber_ex_reachable)) Hb).
Defined.

End Barbershop.

(** ** The shared resource *)

Module Resource.

(** The statements of [customer]: the test, the decrement, the use, the increment,
    the lock of a customer that finds no resource. *)
Inductive customer_pc :=
| CTest | CLoadDec | CStoreDec (v : Z) | CUse | CLoadInc | CStoreInc (v : Z) | CBlocked | CDone.

Inductive handler_pc := HTest | HUnlock.

Record state := State {
  resource_count : Z;
  resource_mutex : bool;
  handler_at : handler_pc;
  customers : list customer_pc }.

Inductive label := LHandler | LCustomer (i : nat) | LArrive.

Definition set_customer (i : nat) (c : customer_pc) (s : state) : state :=
  State (resource_count s) (resource_mutex s) (handler_at s) (<[i := c]> (customers s)).

Definition set_count (v : Z) (s : state) : state :=
  State v (resource_mutex s) (handler_at s) (customers s).

Definition handler (s : state) : option state :=
  match handler_at s with
  | HTest => Some (State (resource_count s) (resource_mutex s) (if resource_count s =? 3 then HUnlock else HTest) (customers s))
  | HUnlock => Some (State (resource_count s) false HTest (customers s))
  end.

Definition customer (i : nat) (s : state) : option state :=
  c ← customers s !! i;
  match c with
  | CTest => Some (set_customer i (if 0 <? resource_count s then CLoadDec else CBlocked) s)
  | CLoadDec => Some (set_customer i (CStoreDec (resource_count s)) s)
  | CStoreDec v => Some (set_customer i CUse (set_count (v - 1) s))
  | CUse => Some (set_customer i CLoadInc s)
  | CLoadInc => Some (set_customer i (CStoreInc (resource_count s)) s)
  | CStoreInc v => Some (set_customer i CDone (set_count (v + 1) s))
  | CBlocked =>
      if resource_mutex s then None
      else Some (set_customer i CTest (State (resource_count s) true (handler_at s) (customers s)))
  | CDone => None
  end.

Definition step (l : label) (s : state) : option state :=
  match l with
  | LHandler => handler s
  | LCustomer i => customer i s
  | LArrive => Some (State (resource_count s) (resource_mutex s) (handler_at s) (customers s ++ [CTest]))
  end.

(** main: three resources. *)
Definition start : state := State 3 false HTest [].

Definition init (s : state) : Prop := s = start.

Definition arrivals (num_customers i r : Z) : Z :=
  let rd_cus := Z.rem r 5 in if num_customers <=? i + rd_cus then num_customers - i else rd_cus.

Definition uses (c : customer_pc) : Z := match c with CUse => 1 | _ => 0 end.

(** Customers take their steps one after the other where the counter is concerned:
    no customer is between the load and the store of an update. *)
Definition quiet (c : customer_pc) : Prop := match c with CStoreDec _ | CStoreInc _ | CLoadDec => False | _ => True end.

(** What a customer that is past the decrement owes the counter. *)
Definition owes (c : customer_pc) : Z := match c with CUse | CLoadInc => 1 | _ => 0 end.

(** An execution in which a customer's test and update, or its increment, are not
    interrupted: one step of it is a whole such block. *)
Definition block (l : label) (s : state) : option state :=
  match l with
  | LCustomer i =>
      s1 ← step (LCustomer i) s;
      match customers s1 !! i with
      | Some CLoadDec => s2 ← step (LCustomer i) s1; step (LCustomer i) s2
      | Some (CStoreInc _) => step (LCustomer i) s1
      | _ => Some s1
      end
  | _ => step l s
  end.

Record inv (s : state) : Prop := {
  inv_quiet : Forall quiet (customers s);
  inv_count : resource_count s + sum_of owes (customers s) = 3;
  inv_nonneg : 0 <= resource_count s }.

Lemma set_quiet i c s : quiet c → Forall quiet (customers s) → Forall quiet (<[i := c]> (customers s)).
Proof. intros Hc Hs. by apply Forall_insert. Qed.

Lemma block_inv l s s' : inv s → block l s = Some s' → inv s'.
Proof.
  intros [Hq Hc Hn] E. destruct l as [|i|]; simpl in E.
  - unfold handler in E. destruct (handler_at s); inv_some E; by split.
  - unfold customer in E. destruct (customers s !! i) as [c|] eqn:Hi; [|done]. cbn [mbind option_bind] in E.
    assert (i < length (customers s))%nat as Hlt by (by eapply lookup_lt_Some).
    assert (∀ f d, sum_of f (<[i := d]> (customers s)) = sum_of f (customers s) - f c + f d) as Hsum by (intros; by apply sum_of_insert).
    assert (quiet c) as Hqc by (rewrite Forall_lookup in Hq; by eapply Hq).
    assert (∀ d m r, quiet d → r - resource_count s = owes c - owes d → 0 <= r →
      inv (State r m (handler_at s) (<[i := d]> (customers s)))) as Hfin.
    { intros d m r Hd Hr Hr0. split; simpl; [by apply set_quiet|rewrite Hsum; lia|done]. }
    destruct c; simpl in Hqc; try done; simpl in E.
    + destruct (Z.ltb_spec 0 (resource_count s)); simpl in E;
        rewrite !list_lookup_insert_eq in E by (rewrite ?length_insert; lia); simpl in E.
      * rewrite !list_lookup_insert_eq in E by (rewrite ?length_insert; lia). simpl in E. inv_some E.
        unfold set_customer, set_count. simpl. rewrite !list_insert_insert_eq. apply Hfin; simpl; lia || done.
      * inv_some E. apply Hfin; simpl; lia || done.
    + rewrite list_lookup_insert_eq in E by lia. simpl in E. inv_some E. apply Hfin; simpl; lia || done.
    + rewrite !list_lookup_insert_eq in E by (rewrite ?length_insert; lia). simpl in E.
      inv_some E. unfold set_customer, set_count. simpl. rewrite list_insert_insert_eq. apply Hfin; simpl; lia || done.
    + destruct (resource_mutex s); [done|]. simpl in E. rewrite list_lookup_insert_eq in E by lia. simpl in E. inv_some E.
      apply Hfin; simpl; lia || done.
  - injection E as <-. split; simpl; rewrite ?sum_of_app; simpl; try lia.
    apply Forall_app. split; [done|]. by apply Forall_singleton.
Qed.

(** If no customer is interrupted between its test and the end of its update,
    the counter is right: at most three customers use the resource. *)
Theorem resource_blocks_safe s :
  reachable block init s → sum_of uses (customers s) <= 3 ∧ resource_count s + sum_of owes (customers s) = 3.
Proof.
  intros Hr. assert (inv s) as [_ Hc Hn].
  { revert s Hr. apply reachable_ind; [intros s0 ->; split; [by apply Forall_nil|done|done]|]. intros l s1 s2. apply block_inv. }
  split; [|done]. enough (sum_of uses (customers s) <= sum_of owes (customers s)) by lia.
  apply sum_of_le. intros c _. destruct c; simpl; lia.
Qed.

(** Four customers load the counter before any of them stores it. *)
Definition four_users : list label :=
  replicate 4 LArrive ++ (LCustomer <$> [0; 1; 2; 3; 0; 1; 2; 3; 0; 1; 2; 3]%nat).

(** With the interleavings that the program allows, more customers than there
    are resources use one at the same time. *)
Theorem resource_overused : ∃ s, reachable step init s ∧ sum_of uses (customers s) = 4 ∧ resource_count s = 2.
Proof.
  destruct (run step four_users start) as [s|] eqn:E; [|by vm_compute in E].
  exists s. split; [by apply (run_reachable step init four_users start)|].
  vm_compute in E. by injection E as <-.
Qed.

Definition ex_run : list label := replicate 4 LArrive ++ (LCustomer <$> [0; 1; 2; 3]%nat).

Lemma resource_blocks_safe_witness :
  reachable block init (default start (run block ex_run start)) ∧
  sum_of uses (customers (default start (run block ex_run start))) <= 3.
Proof.
  assert (reachable block init (default start (run block ex_run start))) as Hr.
  { apply (run_reachable block init ex_run start); [reflexivity|by vm_compute]. }
  split; [exact Hr|]. exact (proj1 (resource_blocks_safe _ Hr)).
Defined.

End Resource.
