(* ===== verification/FuzzDesc.v ===== *)
(** * The fuzzer's system call table (syscall_def.h and syscall_def.c of
      src/544final/fuzzer_final/Fuzzy_v_0.5)

    The kinds of fuzzed arguments, the table that lists the kinds each argument
    of each call may have, and its lookup.  The numbers of the calls come from the
    system's headers: they are a class, whose law is that they are distinct. *)

From S2P Require Import Prelude.

Local Open Scope Z_scope.

(** ** Constants *)

Definition SYSCALL_NUM : nat := 15.

Definition FUZ_ARG_END : Z := -1.
Definition FUZ_ARG_NULL : Z := 0.
Definition FUZ_ARG_PTR_RAND : Z := 2.
Definition FUZ_ARG_UINT_FD_ROPEN : Z := 3.
Definition FUZ_ARG_UINT_FD_WOPEN : Z := 4.
Definition FUZ_ARG_UINT_FD_CLOSED : Z := 5.
Definition FUZ_ARG_BUF_GENERIC : Z := 6.
Definition FUZ_ARG_BUF_RANDFILL : Z := 7.
Definition FUZ_ARG_ULONG_BUFSIZE : Z := 8.
Definition FUZ_ARG_LONGINT_OFFSET : Z := 9.
Definition FUZ_ARG_PATH_FILE_EXIST : Z := 10.
Definition FUZ_ARG_PATH_FILE_NONEXIST : Z := 11.
Definition FUZ_ARG_PATH_DIR_EXIST : Z := 12.
Definition FUZ_ARG_OPEN_FLAGS : Z := 14.
Definition FUZ_ARG_OPEN_MODE : Z := 15.
Definition FUZ_ARG_DEV_TYPE : Z := 16.
Definition FUZ_ARG_FILE_PERM_MODE : Z := 17.
Definition FUZ_ARG_UID : Z := 18.
Definition FUZ_ARG_GID : Z := 19.
Definition FUZ_ARG_TIMESPEC : Z := 20.
Definition FUZ_ARG_UTIMBUF : Z := 21.
Definition FUZ_ARG_LSEEK_MODE : Z := 22.
Definition FUZ_ARG_EXECVE_ARGV : Z := 23.
Definition FUZ_ARG_EXECVE_ENVP : Z := 24.

Definition MIN_ULONG_BUFSIZE : Z := 0.
Definition MAX_ULONG_BUFSIZE : Z := 40960.

(** The call numbers of <sys/syscall.h>. *)
Class SyscallNumbers := {
  SYS_read : Z; SYS_write : Z; SYS_open : Z; SYS_close : Z; SYS_creat : Z;
  SYS_link : Z; SYS_execve : Z; SYS_chdir : Z; SYS_time : Z; SYS_mknod : Z;
  SYS_chmod : Z; SYS_lchown : Z; SYS_lseek : Z; SYS_nanosleep : Z; SYS_utime : Z;
  SYS_numbers : list Z :=
    [SYS_read; SYS_write; SYS_open; SYS_close; SYS_creat; SYS_link; SYS_execve; SYS_chdir;
     SYS_time; SYS_mknod; SYS_chmod; SYS_lchown; SYS_lseek; SYS_nanosleep; SYS_utime];
  SYS_nonneg : Forall (λ n, 0 <= n) SYS_numbers;
  SYS_distinct : NoDup SYS_numbers;
}.

(** ** The table *)

(** [scall_desc]; [arg_type] holds the initialisers of the rows, the elements
    after them are zero. *)
Record scall_desc := mk_scall_desc {
  scid : Z;
  name : string;
  argnum : Z;
  arg_type : list (list Z);
}.

(** [desc->arg_type[i][k]]: [None] outside the array [int arg_type[4][20]]. *)
Definition arg_type_at (d : scall_desc) (i k : nat) : option Z :=
  if decide ((i < 4)%nat ∧ (k < 20)%nat)
  then Some (default 0 (default [] (arg_type d !! i) !! k)) else None.

Section table.
Context `{SyscallNumbers}.

(** The lists of kinds several calls share. *)
Definition fd_kinds : list Z :=
  [FUZ_ARG_UINT_FD_ROPEN; FUZ_ARG_UINT_FD_WOPEN; FUZ_ARG_UINT_FD_CLOSED; FUZ_ARG_END].

Definition path_kinds : list Z :=
  [FUZ_ARG_PATH_FILE_EXIST; FUZ_ARG_PATH_FILE_NONEXIST; FUZ_ARG_PATH_DIR_EXIST; FUZ_ARG_END].

Definition fuzzer_call_spec_list : list scall_desc := [
  mk_scall_desc SYS_read "SYS_read" 3
    [fd_kinds; [FUZ_ARG_BUF_GENERIC; FUZ_ARG_NULL; FUZ_ARG_END]; [FUZ_ARG_ULONG_BUFSIZE; FUZ_ARG_END]];
  mk_scall_desc SYS_write "SYS_write" 3
    [fd_kinds; [FUZ_ARG_BUF_GENERIC; FUZ_ARG_NULL; FUZ_ARG_BUF_RANDFILL; FUZ_ARG_END];
     [FUZ_ARG_ULONG_BUFSIZE; FUZ_ARG_END]];
  mk_scall_desc SYS_open "SYS_open" 3
    [path_kinds; [FUZ_ARG_OPEN_FLAGS; FUZ_ARG_END]; [FUZ_ARG_OPEN_MODE; FUZ_ARG_END]];
  mk_scall_desc SYS_close "SYS_close" 1 [fd_kinds; [FUZ_ARG_END]; [FUZ_ARG_END]];
  mk_scall_desc SYS_creat "SYS_creat" 2
    [path_kinds; [FUZ_ARG_OPEN_MODE; FUZ_ARG_END]; [FUZ_ARG_END]];
  mk_scall_desc SYS_link "SYS_link" 2 [path_kinds; path_kinds; [FUZ_ARG_END]];
  mk_scall_desc SYS_execve "SYS_execve" 3
    [[FUZ_ARG_PATH_FILE_EXIST; FUZ_ARG_PATH_FILE_NONEXIST; FUZ_ARG_PATH_DIR_EXIST; FUZ_ARG_NULL; FUZ_ARG_END];
     [FUZ_ARG_EXECVE_ARGV; FUZ_ARG_NULL; FUZ_ARG_END]; [FUZ_ARG_NULL; FUZ_ARG_END]];
  mk_scall_desc SYS_chdir "SYS_chdir" 1 [path_kinds; [FUZ_ARG_END]; [FUZ_ARG_END]];
  mk_scall_desc SYS_time "SYS_time" 1
    [[FUZ_ARG_BUF_GENERIC; FUZ_ARG_NULL; FUZ_ARG_END]; [FUZ_ARG_END]; [FUZ_ARG_END]];
  mk_scall_desc SYS_mknod "SYS_mknod" 3
    [path_kinds; [FUZ_ARG_FILE_PERM_MODE; FUZ_ARG_END]; [FUZ_ARG_DEV_TYPE; FUZ_ARG_END]];
  mk_scall_desc SYS_chmod "SYS_chmod" 2
    [path_kinds; [FUZ_ARG_FILE_PERM_MODE; FUZ_ARG_END]; [FUZ_ARG_END]];
  mk_scall_desc SYS_lchown "SYS_lchown" 3
    [path_kinds; [FUZ_ARG_UID; FUZ_ARG_GID; FUZ_ARG_END]; [FUZ_ARG_UID; FUZ_ARG_GID; FUZ_ARG_END]];
  mk_scall_desc SYS_lseek "SYS_lseek" 3
    [fd_kinds; [FUZ_ARG_LONGINT_OFFSET; FUZ_ARG_END]; [FUZ_ARG_LSEEK_MODE; FUZ_ARG_END]];
  mk_scall_desc SYS_nanosleep "SYS_nanosleep" 2
    [[FUZ_ARG_TIMESPEC; FUZ_ARG_END]; [FUZ_ARG_TIMESPEC; FUZ_ARG_NULL; FUZ_ARG_END]; [FUZ_ARG_END]];
  mk_scall_desc SYS_utime "SYS_utime" 2
    [path_kinds; [FUZ_ARG_UTIMBUF; FUZ_ARG_END]; [FUZ_ARG_END]];
  mk_scall_desc (-1) EmptyString 0 [[FUZ_ARG_END]; [FUZ_ARG_END]; [FUZ_ARG_END]] ].

(** The loop of [get_scall_desc] from entry [scidx], [n] entries left; reading an
    entry beyond the table is an error ([Some None] is the NULL of the caller). *)
Fixpoint get_scall_desc_loop (id : Z) (n scidx : nat) : option (option scall_desc) :=
  match n with
  | O => Some None
  | S n' =>
      match fuzzer_call_spec_list !! scidx with
      | None => None
      | Some d => if decide (scid d = id) then Some (Some d) else get_scall_desc_loop id n' (S scidx)
      end
  end.

Definition get_scall_desc (id : Z) : option (option scall_desc) :=
  if decide (id < 0) then Some None else get_scall_desc_loop id SYSCALL_NUM 0.

(** ** The lookup *)

Lemma table_numbers : scid <$> fuzzer_call_spec_list = SYS_numbers ++ [-1].
Proof. done. Qed.

Lemma get_scall_desc_loop_spec id n k :
  (n + k <= length fuzzer_call_spec_list)%nat →
  match get_scall_desc_loop id n k with
  | None => False
  | Some None => ∀ i d, (k <= i < n + k)%nat → fuzzer_call_spec_list !! i = Some d → scid d ≠ id
  | Some (Some d) => ∃ i, (k <= i < n + k)%nat ∧ fuzzer_call_spec_list !! i = Some d ∧ scid d = id
  end.
Proof.
  revert k. induction n as [|n IH]; intros k Hk; cbn [get_scall_desc_loop]; [intros; lia|].
  destruct (lookup_lt_is_Some_2 fuzzer_call_spec_list k) as [d Hd]; [lia|]. rewrite Hd.
  case_decide as Hid; [exists k; split; [lia|done]|]. specialize (IH (S k) ltac:(lia)).
  destruct (get_scall_desc_loop id n (S k)) as [[d'|]|].
  - destruct IH as (i & ? & ?). exists i. split; [lia|done].
  - intros i d' Hi Hd'. destruct (decide (i = k)) as [->|]; [naive_solver|]. eapply IH; [|done]. lia.
  - done.
Qed.

(** The lookup never reads beyond the table; a number outside the table has no
    entry. *)
Lemma get_scall_desc_total id : ∃ r, get_scall_desc id = Some r.
Proof.
  unfold get_scall_desc. case_decide; [eauto|].
  pose proof (get_scall_desc_loop_spec id SYSCALL_NUM 0 ltac:(vm_compute; lia)) as Hs.
  destruct (get_scall_desc_loop id SYSCALL_NUM 0); [eauto|done].
Qed.

(** Every call of the table is found as itself. *)
Lemma get_scall_desc_entry i d :
  (i < SYSCALL_NUM)%nat → fuzzer_call_spec_list !! i = Some d → get_scall_desc (scid d) = Some (Some d).
Proof.
  intros Hi Hd. unfold get_scall_desc. unfold SYSCALL_NUM in Hi.
  assert (SYS_numbers !! i = Some (scid d)) as Hn.
  { rewrite <- (lookup_app_l _ [-1]) by (cbn; lia). rewrite <- table_numbers.
    by rewrite list_lookup_fmap, Hd. }
  assert (0 <= scid d) as H0.
  { apply list_elem_of_lookup_2 in Hn. by eapply (proj1 (Forall_forall _ _)) in Hn; [|apply SYS_nonneg]. }
  rewrite decide_False by lia.
  pose proof (get_scall_desc_loop_spec (scid d) SYSCALL_NUM 0 ltac:(vm_compute; lia)) as Hs.
  unfold SYSCALL_NUM in *. destruct (get_scall_desc_loop (scid d) 15 0) as [[d'|]|]; [|exfalso|done].
  - destruct Hs as (j & Hj & Hd' & He).
    assert (SYS_numbers !! j = Some (scid d)) as Hn'.
    { rewrite <- (lookup_app_l _ [-1]) by (cbn; lia). rewrite <- table_numbers.
      by rewrite list_lookup_fmap, Hd', <- He. }
    rewrite (NoDup_lookup _ _ _ _ SYS_distinct Hn Hn') in Hd. congruence.
  - eapply Hs; [|done|done]. lia.
Qed.

(** ** Shape of the rows *)

(** Argument [i] of [d] has at least one kind, and its list ends at a terminator
    inside the array. *)
Definition row_ok (d : scall_desc) (i : nat) : Prop :=
  ∃ n, (0 < n < 20)%nat ∧ arg_type_at d i n = Some FUZ_ARG_END ∧
    ∀ k, (k < n)%nat → ∃ z, arg_type_at d i k = Some z ∧ z ≠ FUZ_ARG_END.

Definition row_okb (d : scall_desc) (i : nat) : bool :=
  let row := default [] (arg_type d !! i) in
  let n := pred (length row) in
  bool_decide ((i < 4)%nat ∧ (0 < n < 20)%nat ∧ row !! n = Some FUZ_ARG_END
               ∧ Forall (λ z, z ≠ FUZ_ARG_END) (take n row)).

Definition desc_okb (d : scall_desc) : bool :=
  (0 <=? argnum d) && (argnum d <=? 3) && forallb (row_okb d) (seq 0 (Z.to_nat (argnum d))).

Lemma row_okb_ok d i : row_okb d i = true → row_ok d i.
Proof.
  unfold row_okb. set (row := default [] (arg_type d !! i)). set (n := pred (length row)).
  rewrite bool_decide_eq_true. intros (Hi & Hn & He & Hall). exists n. split; [done|].
  unfold arg_type_at. fold row. split; [rewrite decide_True by lia; by rewrite He|].
  intros k Hk. rewrite decide_True by lia.
  destruct (lookup_lt_is_Some_2 row k) as [z Hz]; [unfold n in *; lia|]. rewrite Hz. exists z. split; [done|].
  eapply (proj1 (Forall_lookup _ _) Hall k). by rewrite lookup_take_lt by done.
Qed.

(** Every argument of every call of the table has a well-formed list of kinds, and
    a call has at most three arguments. *)
Lemma table_ok i d :
  fuzzer_call_spec_list !! i = Some d →
  0 <= argnum d <= 3 ∧ ∀ j, Z.of_nat j < argnum d → row_ok d j.
Proof.
  assert (forallb desc_okb fuzzer_call_spec_list = true) as Hall by (vm_compute; reflexivity).
  intros Hd. rewrite forallb_forall in Hall.
  specialize (Hall d (proj1 (list_elem_of_In _ _) (list_elem_of_lookup_2 _ _ _ Hd))).
  unfold desc_okb in Hall. rewrite !andb_true_iff, !Z.leb_le, forallb_forall in Hall.
  destruct Hall as [Hn Hrows]. split; [done|]. intros j Hj. apply row_okb_ok, Hrows.
  apply in_seq. lia.
Qed.

End table.

(** The x86-64 numbers. *)
#[refine, global] Instance x86_64_numbers : SyscallNumbers := {|
  SYS_read := 0; SYS_write := 1; SYS_open := 2; SYS_close := 3; SYS_creat := 85;
  SYS_link := 86; SYS_execve := 59; SYS_chdir := 80; SYS_time := 201; SYS_mknod := 133;
  SYS_chmod := 90; SYS_lchown := 94; SYS_lseek := 8; SYS_nanosleep := 35; SYS_utime := 132 |}.
Proof.
  - apply (bool_decide_unpack _). vm_compute. exact I.
  - apply (bool_decide_unpack _). vm_compute. exact I.
Defined.
