(* ===== verification/FuzzSandbox.v ===== *)
(** * The fuzzer's sandbox (sandbox.c of src/544final/fuzzer_final/Fuzzy_v_0.5)

    The generator of fuzzed arguments works on three regions of bytes, a pool of
    file descriptors and the stream of [rand].  Its functions are computations of
    a small monad: a state, a fault (an access outside an object, a failed
    [assert]), or running out of the fuel that bounds the one loop that need not
    end.  The text written to the log is not modelled. *)

From S2P Require Import Prelude CMem FuzzDesc.

Local Open Scope Z_scope.

(** ** Constants of sandbox.h and of the system's headers *)

Definition SANDBOX_REGION_NUM : Z := 3.
Definition SANDBOX_REGION_SIZE : Z := MAX_ULONG_BUFSIZE.
Definition MAX_LEN_STR : Z := 4000.
Definition MAX_LEN_PATH : Z := 1024.
Definition MAX_LEN_FNAME : Z := 128.
Definition PROB_STR_NONASCII : Z := 5.
Definition FD_STATE_CLOSED : Z := 128.
Definition FD_POOL_NUM_ROPEN : Z := 50.
Definition FD_POOL_NUM_WOPEN : Z := 50.
Definition FD_POOL_NUM_CLOSED : Z := 10.
Definition FD_POOL_NUM : Z := FD_POOL_NUM_ROPEN + FD_POOL_NUM_WOPEN + FD_POOL_NUM_CLOSED.

Definition PATH_MAX : Z := 4096.
Definition O_RDONLY : Z := 0.
Definition O_WRONLY : Z := 1.
Definition O_RDWR : Z := 2.
Definition SEEK_SET : Z := 0.
Definition SEEK_CUR : Z := 1.
Definition SEEK_END : Z := 2.

(** The type flag [nftw] gives a callback. *)
Inductive ftw := FTW_F | FTW_D | FTW_OTHER.

#[global] Instance ftw_eq_dec : EqDecision ftw.
Proof. solve_decision. Defined.

(** ** The environment

    [rnd n] is the n-th value of [rand]; [tree n] the walk of the sandbox
    directory after [n] kernel calls; the kernel's results may depend on how many
    calls were made before. *)
Class FuzzEnv := {
  rnd : nat → Z;
  sandbox : Z;
  tree : nat → list (list Z * ftw);
  sys_open : nat → list Z → Z → Z;
  sys_close : nat → Z → Z;
  sys_call : nat → Z → list Z → memory → Z * memory;
}.

(** [rand] is between 0 and RAND_MAX; the regions are an object of the user's
    address space, clear of its ends; a path has at most PATH_MAX bytes with its
    terminator. *)
Class FuzzEnvSpec `{FuzzEnv} := {
  rnd_range n : 0 <= rnd n <= 2147483647;
  sandbox_user : 4096 <= sandbox < 2 ^ 47;
  tree_paths n : Forall (λ e, Z.of_nat (length e.1) < PATH_MAX) (tree n);
}.

(** ** State and monad *)

(** [fd_pool_item]. *)
Record fd_pool_item := mk_item { fd : Z; mode : Z; last_scid : Z }.

(** The static variables of sandbox.c, the memory that holds the regions, and the
    numbers of values drawn and of kernel calls made. *)
Record sbox := mk_sbox {
  pos : nat;
  calls : nat;
  mem : memory;
  fd_pool : list fd_pool_item;
  fd_pool_cnt : Z;
  last_fd_used : option nat;
  callback_path_tmp : list Z;
  callback_fuz_arg : Z;
}.

(** The program's start: static storage is zero. *)
Definition sbox_init : sbox :=
  mk_sbox 0 0 ∅ (replicate (Z.to_nat FD_POOL_NUM) (mk_item 0 0 0)) 0 None [] 0.

Definition with_pos (p : nat) (s : sbox) : sbox :=
  mk_sbox p (calls s) (mem s) (fd_pool s) (fd_pool_cnt s) (last_fd_used s) (callback_path_tmp s) (callback_fuz_arg s).
Definition with_calls (c : nat) (s : sbox) : sbox :=
  mk_sbox (pos s) c (mem s) (fd_pool s) (fd_pool_cnt s) (last_fd_used s) (callback_path_tmp s) (callback_fuz_arg s).
Definition with_mem (m : memory) (s : sbox) : sbox :=
  mk_sbox (pos s) (calls s) m (fd_pool s) (fd_pool_cnt s) (last_fd_used s) (callback_path_tmp s) (callback_fuz_arg s).
Definition with_pool (p : list fd_pool_item) (c : Z) (s : sbox) : sbox :=
  mk_sbox (pos s) (calls s) (mem s) p c (last_fd_used s) (callback_path_tmp s) (callback_fuz_arg s).
Definition with_last (l : option nat) (s : sbox) : sbox :=
  mk_sbox (pos s) (calls s) (mem s) (fd_pool s) (fd_pool_cnt s) l (callback_path_tmp s) (callback_fuz_arg s).
Definition with_callback (p : list Z) (f : Z) (s : sbox) : sbox :=
  mk_sbox (pos s) (calls s) (mem s) (fd_pool s) (fd_pool_cnt s) (last_fd_used s) p f.

Inductive res (A : Type) : Type :=
| Ret (a : A) (s : sbox)
| Fault
| OutOfFuel.
Arguments Ret {A} a s.
Arguments Fault {A}.
Arguments OutOfFuel {A}.

Definition M (A : Type) : Type := sbox → res A.

#[global] Instance M_ret : MRet M := λ A a s, Ret a s.

#[global] Instance M_bind : MBind M := λ A B f m s,
  match m s with Ret a s' => f a s' | Fault => Fault | OutOfFuel => OutOfFuel end.

Definition fault {A} : M A := λ _, Fault.

Definition out_of_fuel {A} : M A := λ _, OutOfFuel.

Definition get {A} (f : sbox → A) : M A := λ s, Ret (f s) s.

Definition modify (f : sbox → sbox) : M () := λ s, Ret () (f s).

(** [assert]. *)
Definition assert_ (P : Prop) `{Decision P} : M () := if decide P then mret () else fault.

(** ** Draws, stores and kernel calls *)

Section sandbox.
Context `{SyscallNumbers} `{FuzzEnv}.

Definition rand : M Z := λ s, Ret (rnd (pos s)) (with_pos (S (pos s)) s).

Definition region (argno : Z) : Z := sandbox + argno * SANDBOX_REGION_SIZE.

(** The [n] bytes at [a] lie in the three regions. *)
Definition in_sandbox (a n : Z) : Prop :=
  sandbox <= a ∧ a + n <= sandbox + SANDBOX_REGION_NUM * SANDBOX_REGION_SIZE.

#[global] Instance in_sandbox_dec a n : Decision (in_sandbox a n).
Proof. unfold in_sandbox. apply _. Defined.

Definition put8 (a v : Z) : M () :=
  assert_ (in_sandbox a 1);; modify (λ s, with_mem (<[a := v mod 256]> (mem s)) s).

Definition put32 (a v : Z) : M () :=
  assert_ (in_sandbox a 4);; modify (λ s, with_mem (store32 (mem s) a v) s).

Definition put64 (a v : Z) : M () :=
  assert_ (in_sandbox a 8);; modify (λ s, with_mem (store64 (mem s) a v) s).

(** [strcpy] of a string of the given bytes. *)
Fixpoint put_string (a : Z) (str : list Z) : M () :=
  match str with
  | [] => put8 a 0
  | c :: str' => put8 a c;; put_string (a + 1) str'
  end.

Definition open (path : list Z) (flags : Z) : M Z := λ s,
  Ret (sys_open (calls s) path flags) (with_calls (S (calls s)) s).

Definition close (d : Z) : M Z := λ s,
  Ret (sys_close (calls s) d) (with_calls (S (calls s)) s).

Definition syscall (id : Z) (args : list Z) : M Z := λ s,
  let '(r, m) := sys_call (calls s) id args (mem s) in
  Ret r (with_mem m (with_calls (S (calls s)) s)).

(** [nftw]: the callback is called on each entry of the walk until it returns a
    value other than 0. *)
Fixpoint nftw_walk (fn : list Z → ftw → M Z) (es : list (list Z * ftw)) : M Z :=
  match es with
  | [] => mret 0
  | (p, t) :: es' => r ← fn p t; if decide (r = 0) then nftw_walk fn es' else mret r
  end.

Definition nftw (fn : list Z → ftw → M Z) : M Z := t ← get (λ s, tree (calls s)); nftw_walk fn t.

(** ** Random values and strings *)

Definition rrand (min max : Z) : M Z :=
  assert_ (min <= max);; r ← rand; mret (min + Z.rem r (max - min + 1)).

(** One byte of [helper_gen_fuz_str]. *)
Definition fuz_char : M Z :=
  r ← rand; if decide (Z.rem r 100 < PROB_STR_NONASCII) then r ← rand; mret (Z.rem r 256) else rrand 97 122.

Fixpoint gen_fuz_str_loop (n : nat) (a : Z) : M () :=
  match n with
  | O => mret ()
  | S n' => c ← fuz_char; put8 a c;; gen_fuz_str_loop n' (a + 1)
  end.

Definition helper_gen_fuz_str (a cnt : Z) : M () := gen_fuz_str_loop (Z.to_nat cnt) a.

(** ** Paths *)

(** [strcpy(callback_path_tmp, fpath)]. *)
Definition set_callback_path (fpath : list Z) : M () :=
  assert_ (Z.of_nat (length fpath) < PATH_MAX);;
  modify (λ s, with_callback fpath (callback_fuz_arg s) s).

Definition callback_get_path (fpath : list Z) (tflag : ftw) : M Z :=
  r ← rand;
  if decide (Z.rem r 50 < 2) then
    arg ← get callback_fuz_arg;
    if decide (arg = FUZ_ARG_PATH_DIR_EXIST) then
      if decide (tflag = FTW_D) then set_callback_path fpath;; mret 1 else mret 0
    else if decide (arg = FUZ_ARG_PATH_FILE_EXIST) then
      if decide (tflag = FTW_F) then set_callback_path fpath;; mret 1 else mret 0
    else mret 1
  else mret 0.

(** The loop of [gen_path]; the result is [cnt]. *)
Fixpoint gen_path_loop (fuel : nat) (dst len cnt : Z) : M Z :=
  if decide (cnt < len) then
    match fuel with
    | O => out_of_fuel
    | S fuel' =>
        r ← rand;
        let chunk_len := Z.rem r MAX_LEN_FNAME in
        helper_gen_fuz_str (dst + cnt) chunk_len;;
        let cnt := cnt + (chunk_len - 1) in
        put8 (dst + cnt) 47;;
        gen_path_loop fuel' dst len (cnt + 1)
    end
  else mret cnt.

Definition gen_path (fuel : nat) (fuz_arg dst : Z) : M Z :=
  if decide (fuz_arg = FUZ_ARG_PATH_FILE_NONEXIST) then
    r ← rand;
    let len := Z.rem r MAX_LEN_PATH in
    put8 dst 47;;
    cnt ← gen_path_loop fuel dst len 1;
    put8 (dst + cnt) 0;;
    mret 0
  else
    modify (λ s, with_callback (callback_path_tmp s) fuz_arg s);;
    _ ← nftw callback_get_path;
    p ← get callback_path_tmp;
    put_string dst p;;
    mret 0.

(** ** The pool of descriptors *)

(** The loop of [find_fd_in_pool] from [i], [n] rounds left; [fd_pool[i]] outside
    the pool is a fault.  The bound of the loop is [sizeof(fd_pool)], in bytes. *)
Fixpoint find_fd_loop (md : Z) (n i : nat) : M (option nat) :=
  match n with
  | O => mret None
  | S n' =>
      it ← get (λ s, fd_pool s !! i);
      match it with
      | None => fault
      | Some it => if decide (mode it = md) then mret (Some i) else find_fd_loop md n' (S i)
      end
  end.

Definition sizeof_fd_pool : nat := 12 * Z.to_nat FD_POOL_NUM.

Definition find_fd_in_pool (fuz_arg : Z) : M nat :=
  let md := if decide (fuz_arg = FUZ_ARG_UINT_FD_ROPEN) then O_RDONLY
            else if decide (fuz_arg = FUZ_ARG_UINT_FD_WOPEN) then O_WRONLY else FD_STATE_CLOSED in
  r ← find_fd_loop md sizeof_fd_pool 0;
  mret (default (pred sizeof_fd_pool) r).

(** [fd_pool[fd_pool_cnt] = ...; fd_pool_cnt++]. *)
Definition push_fd (d md : Z) : M () :=
  c ← get fd_pool_cnt;
  assert_ (0 <= c < FD_POOL_NUM);;
  modify (λ s, with_pool (<[Z.to_nat c := mk_item d md (-1)]> (fd_pool s)) (c + 1) s).

Definition callback_fd_pool_populate (fpath : list Z) (tflag : ftw) : M Z :=
  cnt ← get fd_pool_cnt;
  if decide (FD_POOL_NUM <= cnt) then mret 1 else
  (if decide (tflag = FTW_F) then
     if decide (FD_POOL_NUM_WOPEN < cnt) then
       res1 ← open fpath O_RDONLY;
       res2 ← close res1;
       if decide (res1 ≠ -1 ∧ res2 = 0) then push_fd res1 FD_STATE_CLOSED else mret ()
     else if decide (FD_POOL_NUM_ROPEN < cnt) then
       res1 ← open fpath O_WRONLY;
       if decide (res1 ≠ -1) then push_fd res1 O_WRONLY else mret ()
     else
       res1 ← open fpath O_RDONLY;
       if decide (res1 ≠ -1) then push_fd res1 O_RDONLY else mret ()
   else mret ());;
  mret 0.

Definition fd_pool_populate : M Z :=
  modify (λ s, with_pool (fd_pool s) 0 s);;
  _ ← nftw callback_fd_pool_populate;
  mret 0.

(** ** Fuzzed arguments *)

(** [fd_pool[i].fd]. *)
Definition pool_fd (i : Z) : M Z :=
  it ← get (λ s, fd_pool s !! Z.to_nat i);
  match it with Some it => mret (fd it) | None => fault end.

Fixpoint randfill_loop (n : nat) (a : Z) : M () :=
  match n with
  | O => mret ()
  | S n' => r ← rand; put8 a (Z.rem r 256);; randfill_loop n' (a + 1)
  end.

(** glibc's [makedev]. *)
Definition makedev (maj min : Z) : Z :=
  let maj := u32 maj in let min := u32 min in
  Z.lor (Z.lor (Z.shiftl (Z.land maj 4095) 8) (Z.land min 255))
        (Z.lor (Z.shiftl (Z.land maj 4294963200) 32) (Z.shiftl (Z.land min 4294967040) 12)).

(** [(long int)(rand() << 16) + rand()]: the shift is done at the width of int. *)
Definition rand_long : M Z := a ← rand; b ← rand; mret (s64 (s32 (Z.shiftl a 16) + b)).

(** The pointer [(intptr_t)sandbox[argno][0]] takes: the value of one char. *)
Definition char_pointer (argno : Z) : M Z := get (λ s, s8 (byte (mem s) (region argno))).

Definition fuzarg_execve_argv (argno : Z) : M Z :=
  put64 (region argno) (region 0);;
  put64 (region argno + 8) (region argno + 10000);;
  put64 (region argno + 16) (region argno + 20000);;
  put64 (region argno + 24) 0;;
  helper_gen_fuz_str (region argno + 10000) 512;;
  put8 (region argno + (10000 + 512)) 0;;
  helper_gen_fuz_str (region argno + 20000) 512;;
  put8 (region argno + (20000 + 512)) 0;;
  mret 0.

(** [((int * )sandbox[argno])[0] = fd_pool[rrand(min, max)].fd]. *)
Definition put_fd (argno min max : Z) : M () :=
  i ← rrand min max; d ← pool_fd i; put32 (region argno) d.

(** The three cases of descriptors: the first two run on into the next. *)
Definition fuzarg_fd (argno fuz_type : Z) : M Z :=
  (if decide (fuz_type = FUZ_ARG_UINT_FD_ROPEN)
   then put_fd argno 0 FD_POOL_NUM_ROPEN else mret ());;
  (if decide (fuz_type = FUZ_ARG_UINT_FD_ROPEN ∨ fuz_type = FUZ_ARG_UINT_FD_WOPEN)
   then put_fd argno FD_POOL_NUM_ROPEN (FD_POOL_NUM_WOPEN + FD_POOL_NUM_ROPEN) else mret ());;
  put_fd argno (FD_POOL_NUM_WOPEN + FD_POOL_NUM_ROPEN) FD_POOL_NUM;;
  mret 0.

Definition fuzarg_open_flags (argno : Z) : M Z :=
  r ← rand;
  i ← (if decide (Z.rem r 2 ≠ 0) then mret O_RDONLY
       else r ← rand; if decide (Z.rem r 2 ≠ 0) then mret O_WRONLY else mret O_RDWR);
  r ← rand;
  put32 (region argno) (Z.lor i r);;
  mret 0.

Definition fuzarg_lseek_mode (argno : Z) : M Z :=
  r ← rand;
  i ← (if decide (Z.rem r 2 ≠ 0) then mret SEEK_SET
       else r ← rand; if decide (Z.rem r 2 ≠ 0) then mret SEEK_CUR
       else r ← rand; if decide (Z.rem r 2 ≠ 0) then mret SEEK_END else rand);
  put32 (region argno) i;;
  mret 0.

Definition sandbox_syscall_fuzarg (fuel : nat) (argno fuz_type : Z) : M Z :=
  let ty k := decide (fuz_type = k) in
  modify (with_last None);;
  if ty FUZ_ARG_END then mret 0
  else if ty FUZ_ARG_NULL then put64 (region argno) 0;; mret 0
  else if ty FUZ_ARG_BUF_GENERIC then put64 (region argno) (region argno);; mret 0
  else if ty FUZ_ARG_PTR_RAND then r ← rand; put64 (region argno) r;; mret 0
  else if ty FUZ_ARG_BUF_RANDFILL then
    put64 (region argno) (region argno);;
    randfill_loop (Z.to_nat SANDBOX_REGION_SIZE) (region argno);;
    mret 0
  else if ty FUZ_ARG_ULONG_BUFSIZE then
    r ← rrand MIN_ULONG_BUFSIZE MAX_ULONG_BUFSIZE; put64 (region argno) r;; mret 0
  else if decide (fuz_type = FUZ_ARG_UINT_FD_ROPEN ∨ fuz_type = FUZ_ARG_UINT_FD_WOPEN
                  ∨ fuz_type = FUZ_ARG_UINT_FD_CLOSED) then fuzarg_fd argno fuz_type
  else if decide (fuz_type = FUZ_ARG_PATH_FILE_EXIST ∨ fuz_type = FUZ_ARG_PATH_FILE_NONEXIST
                  ∨ fuz_type = FUZ_ARG_PATH_DIR_EXIST) then gen_path fuel fuz_type (region argno)
  else if ty FUZ_ARG_OPEN_FLAGS then fuzarg_open_flags argno
  else if ty FUZ_ARG_OPEN_MODE then r ← rand; put32 (region argno) r;; mret 0
  else if ty FUZ_ARG_FILE_PERM_MODE then r ← rand; put32 (region argno) r;; mret 0
  else if ty FUZ_ARG_DEV_TYPE then
    i ← rand; j ← rand; put64 (region argno) (makedev i j);; mret 0
  else if decide (fuz_type = FUZ_ARG_UID ∨ fuz_type = FUZ_ARG_GID) then
    a ← rand; b ← rand; put32 (region argno) (u32 (Z.shiftl a 1 + b));; mret 0
  else if ty FUZ_ARG_LONGINT_OFFSET then li ← rand_long; put64 (region argno) li;; mret 0
  else if ty FUZ_ARG_LSEEK_MODE then fuzarg_lseek_mode argno
  else if ty FUZ_ARG_TIMESPEC then
    t ← char_pointer argno;
    r ← rand; put64 t (Z.rem r 3);;
    a ← rand; b ← rand; put64 (t + 8) (s64 (Z.shiftl a 16 + b));;
    mret 0
  else if ty FUZ_ARG_UTIMBUF then
    ut ← char_pointer argno;
    li ← rand_long; put64 ut li;;
    li2 ← rand_long; put64 (ut + 8) li2;;
    mret 0
  else if ty FUZ_ARG_EXECVE_ARGV then fuzarg_execve_argv argno
  else mret (-1).

(** ** System calls *)

(** [while (arg_type[argidx][n] != FUZ_ARG_END) n++], [k] elements left to read. *)
Fixpoint count_types (d : scall_desc) (argidx k n : nat) : M nat :=
  match arg_type_at d argidx n with
  | None => fault
  | Some z =>
      if decide (z = FUZ_ARG_END) then mret n
      else match k with O => fault | S k' => count_types d argidx k' (S n) end
  end.

(** The choice of one of the kinds of an argument. *)
Definition choose_type (d : scall_desc) (argidx : nat) : M Z :=
  n ← count_types d argidx 20 0;
  assert_ (0 < Z.of_nat n);;
  r ← rand;
  match arg_type_at d argidx (Z.to_nat (Z.rem r (Z.of_nat n))) with
  | None => fault
  | Some z => mret z
  end.

(** The loop of [sandbox_syscall_fuzargs] from [argidx], [n] arguments left;
    [fuz_arg_type] has three elements. *)
Fixpoint fuzargs_loop (fuel : nat) (d : scall_desc) (n argidx : nat) : M () :=
  match n with
  | O => mret ()
  | S n' =>
      kind ← choose_type d argidx;
      assert_ (argidx < 3)%nat;;
      _ ← sandbox_syscall_fuzarg fuel (Z.of_nat argidx) kind;
      fuzargs_loop fuel d n' (S argidx)
  end.

(** The entry of a call. *)
Definition find_desc (id : Z) : M (option scall_desc) :=
  match get_scall_desc id with Some r => mret r | None => fault end.

Definition sandbox_syscall_fuzargs (fuel : nat) (id : Z) : M Z :=
  d ← find_desc id;
  match d with
  | None => mret (-1)
  | Some d => fuzargs_loop fuel d (Z.to_nat (argnum d)) 0;; mret 0
  end.

(** The pool's entry [last_fd_used] gets a new mode. *)
Definition update_last (id md : Z) : M () :=
  l ← get last_fd_used;
  match l with
  | None => fault
  | Some i => modify (λ s, with_pool (alter (λ it, mk_item (fd it) md id) i (fd_pool s)) (fd_pool_cnt s) s)
  end.

(** [(mode_t)sandbox[argno][0]]. *)
Definition mode_byte (argno : Z) : M Z := get (λ s, u32 (s8 (byte (mem s) (region argno)))).

Definition sandbox_syscall_run (fuel : nat) (id : Z) : M Z :=
  d ← find_desc id;
  match d with
  | None => mret (-1)
  | Some d =>
      _ ← sandbox_syscall_fuzargs fuel id;
      res ← (if decide (argnum d = 1) then syscall id [region 0]
             else if decide (argnum d = 2) then syscall id [region 0; region 1]
             else if decide (argnum d = 3) then syscall id [region 0; region 1; region 2]
             else mret (-1));
      last ← get last_fd_used;
      (if decide (0 <= res ∧ last ≠ None) then
         (if decide (id = SYS_open) then md ← mode_byte 2; update_last id md
          else if decide (id = SYS_creat) then md ← mode_byte 1; update_last id md
          else if decide (id = SYS_close) then update_last id FD_STATE_CLOSED
          else mret ());;
         modify (with_last None)
       else mret ());;
      mret res
  end.

End sandbox.
