(* ===== verification/FuzzSpec.v ===== *)
(** * What the fuzzer's sandbox guarantees

    A rule per construct of the monad and per primitive shows that a computation
    makes no fault and changes no byte outside an interval; the generator of each
    kind of argument follows by applying them.  Then the kinds that do fault, the
    pool of descriptors, and the paths. *)

From S2P Require Import Prelude CMem FuzzDesc FuzzSandbox.

Local Open Scope Z_scope.

Section spec.
Context `{SyscallNumbers} `{FuzzEnvSpec}.

(** ** Safe computations *)

(** The static path is a string of the buffer [callback_path_tmp[PATH_MAX]]. *)
Definition path_ok (s : sbox) : Prop := Z.of_nat (length (callback_path_tmp s)) < PATH_MAX.

(** Nothing changes but draws, the callback's variables and the bytes from [lo]
    to [hi] (excluded). *)
Definition frame (lo hi : Z) (s s' : sbox) : Prop :=
  (∀ x, ¬ (lo <= x < hi) → byte (mem s') x = byte (mem s) x) ∧
  fd_pool s' = fd_pool s ∧ fd_pool_cnt s' = fd_pool_cnt s ∧ calls s' = calls s ∧
  (last_fd_used s = None → last_fd_used s' = None).

#[global] Instance frame_preorder lo hi : PreOrder (frame lo hi).
Proof.
  split; unfold frame; [by intros s|].
  intros s1 s2 s3 (M1 & ? & ? & ? & ?) (M2 & ? & ? & ? & ?). conjs; [|congruence..|auto].
  intros x Hx. by rewrite M2, M1.
Qed.

(** From a state with a legal path, [m] makes no fault, keeps the frame, and its
    value satisfies [Q]; it runs out of fuel only if [F]. *)
Definition safe (F : Prop) {A} (lo hi : Z) (m : M A) (Q : A → Prop) : Prop := ∀ s, path_ok s →
  match m s with
  | Ret a s' => frame lo hi s s' ∧ path_ok s' ∧ Q a
  | Fault => False
  | OutOfFuel => F
  end.

Lemma safe_ret F {A} lo hi (a : A) (Q : A → Prop) : Q a → safe F lo hi (mret a) Q.
Proof. intros HQ s Hs. done. Qed.

Lemma safe_bind F {A B} lo hi (m : M A) (k : A → M B) Q R :
  safe F lo hi m Q → (∀ a, Q a → safe F lo hi (k a) R) → safe F lo hi (m ≫= k) R.
Proof.
  intros Hm Hk s Hs. specialize (Hm s Hs). unfold mbind, M_bind. destruct (m s) as [a s'| |]; [|done..].
  destruct Hm as (Hf & Hs' & Ha). specialize (Hk a Ha s' Hs'). destruct (k a s') as [b s''| |]; [|done..].
  destruct Hk as (Hf' & ? & ?). conjs; [|done..]. by transitivity s'.
Qed.

(** A computation whose value is not used. *)
Lemma safe_seq F {A B} lo hi (m : M A) (k : M B) Q R :
  safe F lo hi m Q → safe F lo hi k R → safe F lo hi (m;; k) R.
Proof. intros Hm Hk. eapply safe_bind; [done|]. by intros a _. Qed.

Lemma safe_conseq F {A} lo hi (m : M A) (Q R : A → Prop) :
  safe F lo hi m Q → (∀ a, Q a → R a) → safe F lo hi m R.
Proof.
  intros Hm HQ s Hs. specialize (Hm s Hs). destruct (m s); [|done..]. destruct Hm as (? & ? & ?). auto.
Qed.

Lemma safe_if F {A} lo hi P `{Decision P} (m1 m2 : M A) Q :
  (P → safe F lo hi m1 Q) → (¬ P → safe F lo hi m2 Q) → safe F lo hi (if decide P then m1 else m2) Q.
Proof. intros. by case_decide; auto. Qed.

Lemma safe_assert F lo hi P `{Decision P} : P → safe F lo hi (assert_ P) (λ _, True).
Proof. intros HP s Hs. unfold assert_. by rewrite decide_True. Qed.

Lemma safe_rand F lo hi : safe F lo hi rand (λ r, 0 <= r <= 2147483647).
Proof. intros s Hs. unfold rand. split; [by unfold frame|]. split; [done|apply rnd_range]. Qed.

(** A store inside the interval. *)
Lemma safe_put F lo hi a n (f : memory → memory) :
  lo <= a → a + n <= hi → in_sandbox a n →
  (∀ m x, ¬ (a <= x < a + n) → byte (f m) x = byte m x) →
  safe F lo hi (assert_ (in_sandbox a n);; modify (λ s, with_mem (f (mem s)) s)) (λ _, True).
Proof.
  intros ??? Hf s Hs. unfold mbind, M_bind, assert_. rewrite decide_True by done.
  cbn. conjs; [|done|done]. unfold frame. cbn. conjs; [|done..]. intros x Hx. apply Hf. lia.
Qed.

Lemma safe_put8 F lo hi a v : lo <= a < hi → in_sandbox a 1 → safe F lo hi (put8 a v) (λ _, True).
Proof. intros. apply (safe_put F lo hi a 1 (λ m, <[a := v mod 256]> m)); [lia..|done|]. intros m x Hx. by bytes. Qed.

Lemma byte_store32 m a v x : ¬ (a <= x < a + 4) → byte (store32 m a v) x = byte m x.
Proof. intros Hx. unfold store32. by bytes. Qed.

Lemma safe_put32 F lo hi a v :
  lo <= a → a + 4 <= hi → in_sandbox a 4 → safe F lo hi (put32 a v) (λ _, True).
Proof. intros. apply (safe_put F lo hi a 4 (λ m, store32 m a v)); [done..|]. intros m x Hx. by apply byte_store32. Qed.

Lemma byte_store64 m a v x : ¬ (a <= x < a + 8) → byte (store64 m a v) x = byte m x.
Proof. intros Hx. unfold store64. rewrite !byte_store32 by lia. done. Qed.

Lemma safe_put64 F lo hi a v :
  lo <= a → a + 8 <= hi → in_sandbox a 8 → safe F lo hi (put64 a v) (λ _, True).
Proof. intros. apply (safe_put F lo hi a 8 (λ m, store64 m a v)); [done..|]. intros m x Hx. by apply byte_store64. Qed.

Lemma safe_rrand F lo hi a b : a <= b → safe F lo hi (rrand a b) (λ v, a <= v <= b).
Proof.
  intros Hab. eapply safe_seq; [by apply safe_assert|]. eapply safe_bind; [apply safe_rand|].
  intros r [Hr _]. apply safe_ret. pose proof (Z.rem_bound_pos r (b - a + 1) Hr ltac:(lia)). cbn beta. lia.
Qed.

Lemma safe_fuz_char F lo hi : safe F lo hi fuz_char (λ c, 0 <= c < 256).
Proof.
  eapply safe_bind; [apply safe_rand|]. intros r Hr. apply safe_if; intros _.
  - eapply safe_bind; [apply safe_rand|]. intros r' [Hr' _]. apply safe_ret. by apply Z.rem_bound_pos.
  - eapply safe_conseq; [apply safe_rrand; lia|]. intros c Hc. cbn beta in Hc. lia.
Qed.

(** ** The regions *)

(** The interval of region [argno]. *)
Definition lo (argno : Z) : Z := region argno.
Definition hi (argno : Z) : Z := region argno + SANDBOX_REGION_SIZE.

Lemma region_in argno a n :
  0 <= argno < SANDBOX_REGION_NUM → lo argno <= a → a + n <= hi argno → in_sandbox a n.
Proof.
  unfold in_sandbox, lo, hi, region, SANDBOX_REGION_NUM, SANDBOX_REGION_SIZE, MAX_ULONG_BUFSIZE. lia.
Qed.

(** A goal [lo <= region + constant] and the like. *)
Ltac in_region :=
  unfold lo, hi, SANDBOX_REGION_SIZE, MAX_ULONG_BUFSIZE, MAX_LEN_PATH, MAX_LEN_FNAME, PATH_MAX in *; lia.

Ltac safe_store Ha :=
  first [apply safe_put8 | apply safe_put32 | apply safe_put64];
  [in_region..|eapply region_in; [exact Ha|in_region..]].

Lemma safe_gen_fuz_str_loop F argno n a :
  0 <= argno < SANDBOX_REGION_NUM → lo argno <= a → a + Z.of_nat n <= hi argno →
  safe F (lo argno) (hi argno) (gen_fuz_str_loop n a) (λ _, True).
Proof.
  intros Ha. revert a. induction n as [|n IH]; intros a Hlo Hhi; [by apply safe_ret|]. cbn [gen_fuz_str_loop].
  eapply safe_bind; [apply safe_fuz_char|]. intros c _. eapply safe_seq; [safe_store Ha|]. apply IH; lia.
Qed.

Lemma safe_randfill F argno n a :
  0 <= argno < SANDBOX_REGION_NUM → lo argno <= a → a + Z.of_nat n <= hi argno →
  safe F (lo argno) (hi argno) (randfill_loop n a) (λ _, True).
Proof.
  intros Ha. revert a. induction n as [|n IH]; intros a Hlo Hhi; [by apply safe_ret|]. cbn [randfill_loop].
  eapply safe_bind; [apply safe_rand|]. intros c _. eapply safe_seq; [safe_store Ha|]. apply IH; lia.
Qed.

Lemma safe_put_string F argno str a :
  0 <= argno < SANDBOX_REGION_NUM → lo argno <= a → a + Z.of_nat (length str) < hi argno →
  safe F (lo argno) (hi argno) (put_string a str) (λ _, True).
Proof.
  intros Ha. revert a. induction str as [|c str IH]; intros a Hlo Hhi; cbn [put_string length] in *; [safe_store Ha|].
  eapply safe_seq; [safe_store Ha|]. apply IH; lia.
Qed.

(** ** Paths *)

Lemma safe_gen_path_loop (F : Prop) fuel argno len cnt :
  F → 0 <= argno < SANDBOX_REGION_NUM → len < MAX_LEN_PATH → 1 <= cnt <= 1149 →
  safe F (lo argno) (hi argno) (gen_path_loop fuel (region argno) len cnt) (λ c, 1 <= c <= 1149).
Proof.
  intros HF Ha Hlen. revert cnt. induction fuel as [|fuel IH]; intros cnt Hc; cbn [gen_path_loop];
    (apply safe_if; intros Hlt; [|by apply safe_ret]); [by intros s Hs|].
  eapply safe_bind; [apply safe_rand|]. intros r [Hr _].
  pose proof (Z.rem_bound_pos r MAX_LEN_FNAME Hr ltac:(done)) as Hk. cbn zeta.
  eapply safe_seq; [apply safe_gen_fuz_str_loop; [done|in_region..]|].
  eapply safe_seq; [safe_store Ha|]. apply IH. in_region.
Qed.

Lemma safe_nftw F lo hi fn es :
  (∀ p t, (p, t) ∈ es → safe F lo hi (fn p t) (λ _, True)) → safe F lo hi (nftw_walk fn es) (λ _, True).
Proof.
  induction es as [|[p t] es IH]; intros Hfn; cbn [nftw_walk]; [by apply safe_ret|].
  eapply safe_bind; [apply Hfn; by left|]. intros r _.
  apply safe_if; intros _; [apply IH; intros; apply Hfn; by right|by apply safe_ret].
Qed.

Lemma safe_set_callback_path F lo hi p :
  Z.of_nat (length p) < PATH_MAX → safe F lo hi (set_callback_path p) (λ _, True).
Proof. intros Hp. eapply safe_seq; [by apply safe_assert|]. by intros s Hs. Qed.

Lemma safe_callback_get_path F lo hi p t :
  Z.of_nat (length p) < PATH_MAX → safe F lo hi (callback_get_path p t) (λ _, True).
Proof.
  intros Hp. eapply safe_bind; [apply safe_rand|]. intros r _.
  apply safe_if; intros _; [|by apply safe_ret].
  eapply (safe_bind _ _ _ _ _ (λ _, True)); [by intros s Hs|]. intros arg _.
  repeat (apply safe_if; intros _); try by apply safe_ret.
  all: eapply safe_seq; [by apply safe_set_callback_path|by apply safe_ret].
Qed.

Lemma safe_gen_path (F : Prop) fuel argno ty :
  (ty = FUZ_ARG_PATH_FILE_NONEXIST → F) → 0 <= argno < SANDBOX_REGION_NUM →
  safe F (lo argno) (hi argno) (gen_path fuel ty (region argno)) (λ r, r = 0).
Proof.
  intros HF Ha. apply safe_if; intros Hty.
  - specialize (HF Hty). eapply safe_bind; [apply safe_rand|]. intros r [Hr _].
    pose proof (Z.rem_bound_pos r MAX_LEN_PATH Hr ltac:(done)) as Hl.
    eapply safe_seq; [safe_store Ha|].
    eapply safe_bind; [apply safe_gen_path_loop; [done|done|in_region|in_region]|]. intros cnt Hc. cbn beta in Hc.
    eapply safe_seq; [safe_store Ha|by apply safe_ret].
  - eapply (safe_seq _ _ _ _ _ (λ _, True)); [by intros s Hs|].
    eapply (safe_bind _ _ _ _ _ (λ _, True)).
    + intros s Hs. apply (safe_nftw F (lo argno) (hi argno)); [|done].
      intros p t Hp. apply safe_callback_get_path.
      by apply (proj1 (Forall_forall _ _) (tree_paths (calls s)) (p, t)).
    + intros _ _. eapply (safe_bind _ _ _ _ _ (λ p, Z.of_nat (length p) < PATH_MAX)); [by intros s Hs|].
      intros p Hp. eapply safe_seq; [apply safe_put_string; [done|in_region..]|by apply safe_ret].
Qed.

(** ** Arguments *)

(** The kinds whose generation is safe whatever the draws: all but descriptors and
    the two structures written through a pointer. *)
Definition safe_kind (ty : Z) : Prop :=
  ty ≠ FUZ_ARG_UINT_FD_ROPEN ∧ ty ≠ FUZ_ARG_UINT_FD_WOPEN ∧ ty ≠ FUZ_ARG_UINT_FD_CLOSED ∧
  ty ≠ FUZ_ARG_TIMESPEC ∧ ty ≠ FUZ_ARG_UTIMBUF.

#[global] Instance safe_kind_dec ty : Decision (safe_kind ty).
Proof. unfold safe_kind. apply _. Defined.

Lemma safe_execve F argno :
  0 <= argno < SANDBOX_REGION_NUM →
  safe F (lo argno) (hi argno) (fuzarg_execve_argv argno) (λ r, r = 0).
Proof.
  intros Ha. repeat (eapply safe_seq; [first [safe_store Ha|apply safe_gen_fuz_str_loop; [done|in_region..]]|]).
  by apply safe_ret.
Qed.

(** One draw, or one store and the result. *)
Ltac safe_draw := eapply safe_bind; [apply safe_rand|intros ? _].
Ltac safe_end Ha := eapply safe_seq; [safe_store Ha|by apply safe_ret].

Lemma safe_open_flags F argno :
  0 <= argno < SANDBOX_REGION_NUM →
  safe F (lo argno) (hi argno) (fuzarg_open_flags argno) (λ r, r = 0).
Proof.
  intros Ha. safe_draw. eapply (safe_bind _ _ _ _ _ (λ _, True)).
  - apply safe_if; intros _; [by apply safe_ret|]. safe_draw. apply safe_if; intros _; by apply safe_ret.
  - intros i _. safe_draw. safe_end Ha.
Qed.

Lemma safe_lseek_mode F argno :
  0 <= argno < SANDBOX_REGION_NUM →
  safe F (lo argno) (hi argno) (fuzarg_lseek_mode argno) (λ r, r = 0).
Proof.
  intros Ha. safe_draw. eapply (safe_bind _ _ _ _ _ (λ _, True)).
  - do 2 (apply safe_if; intros _; [by apply safe_ret|]; safe_draw).
    apply safe_if; intros _; [by apply safe_ret|]. by eapply safe_conseq; [apply safe_rand|].
  - intros i _. safe_end Ha.
Qed.

Lemma safe_rand_long F lo hi : safe F lo hi rand_long (λ _, True).
Proof. do 2 safe_draw. by apply safe_ret. Qed.

(** The next case of the switch. *)
Ltac kind tac := apply safe_if; intros Hk; [tac|clear Hk].

Lemma safe_fuzarg fuel argno ty :
  0 <= argno < SANDBOX_REGION_NUM → safe_kind ty →
  safe (ty = FUZ_ARG_PATH_FILE_NONEXIST) (lo argno) (hi argno)
    (sandbox_syscall_fuzarg fuel argno ty) (λ r, r = 0 ∨ r = -1).
Proof.
  intros Ha (? & ? & ? & ? & ?). eapply (safe_seq _ _ _ _ _ (λ _, True)); [by intros s Hs|].
  cbn zeta.
  assert (∀ m, safe (ty = FUZ_ARG_PATH_FILE_NONEXIST) (lo argno) (hi argno) m (λ r, r = 0) →
               safe (ty = FUZ_ARG_PATH_FILE_NONEXIST) (lo argno) (hi argno) m (λ r, r = 0 ∨ r = -1)) as Hzero.
  { intros m Hm. eapply safe_conseq; [exact Hm|]. auto. }
  kind ltac:(apply safe_ret; auto).
  do 2 kind ltac:(apply Hzero; safe_end Ha).
  kind ltac:(apply Hzero; safe_draw; safe_end Ha).
  kind ltac:(apply Hzero; eapply safe_seq; [safe_store Ha|];
    eapply safe_seq; [apply safe_randfill; [done|in_region..]|by apply safe_ret]).
  kind ltac:(apply Hzero; eapply safe_bind; [by apply safe_rrand|]; intros ? _; safe_end Ha).
  kind ltac:(exfalso; tauto).
  kind ltac:(apply Hzero; by apply safe_gen_path).
  kind ltac:(apply Hzero; by apply safe_open_flags).
  do 2 kind ltac:(apply Hzero; safe_draw; safe_end Ha).
  do 2 kind ltac:(apply Hzero; do 2 safe_draw; safe_end Ha).
  kind ltac:(apply Hzero; eapply safe_bind; [apply safe_rand_long|]; intros ? _; safe_end Ha).
  kind ltac:(apply Hzero; by apply safe_lseek_mode).
  do 2 kind ltac:(exfalso; tauto).
  kind ltac:(apply Hzero; by apply safe_execve).
  apply safe_ret. auto.
Qed.

(** The two structures are written through a pointer made of one char, which is
    no address of the sandbox. *)
Lemma put64_char_pointer c v s : put64 (s8 c) v s = Fault.
Proof.
  unfold put64, mbind, M_bind, assert_. rewrite decide_False; [done|].
  pose proof (wrap_s_range 8 c ltac:(lia)) as Hb. change (2 ^ (8 - 1)) with 128 in Hb.
  unfold in_sandbox. pose proof sandbox_user. lia.
Qed.

(** The case of a given kind. *)
Ltac this_kind :=
  unfold sandbox_syscall_fuzarg; cbn zeta; rewrite ?decide_False by (cbv; lia); rewrite decide_True by (cbv; lia).

Lemma fuzarg_timespec fuel argno s : sandbox_syscall_fuzarg fuel argno FUZ_ARG_TIMESPEC s = Fault.
Proof.
  this_kind. unfold char_pointer, get, mbind, M_bind, modify, rand. by rewrite put64_char_pointer.
Qed.

Lemma fuzarg_utimbuf fuel argno s : sandbox_syscall_fuzarg fuel argno FUZ_ARG_UTIMBUF s = Fault.
Proof.
  this_kind. unfold char_pointer, get, rand_long, rand, mret, M_ret, mbind, M_bind, modify. cbv beta iota.
  by rewrite put64_char_pointer.
Qed.

(** ** Choices *)

Lemma choose_type_safe F lo hi d i :
  row_ok d i →
  safe F lo hi (choose_type d i) (λ z, z ≠ FUZ_ARG_END ∧ ∃ k, arg_type_at d i k = Some z).
Proof.
  intros (n & Hn & He & Hall).
  assert (∀ j k, (j <= n)%nat → (n <= k + j)%nat → count_types d i k j = mret n) as Hcount.
  { intros j k Hj Hk. revert j Hj Hk. induction k as [|k IH]; intros j Hj Hk; cbn [count_types].
    - replace j with n by lia. by rewrite He.
    - destruct (decide (j = n)) as [->|]; [by rewrite He|].
      destruct (Hall j) as (z & -> & Hz); [lia|]. rewrite decide_False by done. apply IH; lia. }
  unfold choose_type. rewrite Hcount by lia.
  eapply (safe_bind _ _ _ _ _ (λ m, m = n)); [by apply safe_ret|]. intros _ ->.
  eapply safe_seq; [apply safe_assert; lia|]. eapply safe_bind; [apply safe_rand|]. intros r [Hr _].
  pose proof (Z.rem_bound_pos r (Z.of_nat n) Hr ltac:(lia)) as Hm.
  destruct (Hall (Z.to_nat (Z.rem r (Z.of_nat n)))) as (z & Hz & Hne); [lia|].
  rewrite Hz. apply safe_ret. eauto.
Qed.

Lemma safe_weaken F {A} lo1 hi1 lo2 hi2 (m : M A) Q :
  lo2 <= lo1 → hi1 <= hi2 → safe F lo1 hi1 m Q → safe F lo2 hi2 m Q.
Proof.
  intros Hl Hh Hm s Hs. specialize (Hm s Hs). destruct (m s) as [a s'| |]; [|done..].
  destruct Hm as ((Hb & ?) & ? & ?). conjs; [|done..]. split; [|done]. intros x Hx. apply Hb. lia.
Qed.

(** A call all of whose arguments have safe kinds. *)
Definition safe_desc (d : scall_desc) : Prop := ∀ i k z,
  Z.of_nat i < argnum d → arg_type_at d i k = Some z → z ≠ FUZ_ARG_END → safe_kind z.

Lemma safe_fuzargs_loop fuel d n i :
  safe_desc d → (∀ j, Z.of_nat j < argnum d → row_ok d j) →
  argnum d <= 3 → Z.of_nat (n + i) = argnum d →
  safe True (lo 0) (hi 2) (fuzargs_loop fuel d n i) (λ _, True).
Proof.
  intros Hd Hrow H3. revert i. induction n as [|n IH]; intros i Hi; cbn [fuzargs_loop]; [by apply safe_ret|].
  eapply safe_bind; [apply choose_type_safe, Hrow; lia|]. intros z (Hz & k & Hk).
  eapply safe_seq; [apply safe_assert; lia|].
  eapply (safe_bind _ _ _ _ _ (λ _, True)); [|intros _ _; apply IH; lia].
  apply (safe_weaken _ (lo (Z.of_nat i)) (hi (Z.of_nat i)));
    [unfold lo, hi, region, SANDBOX_REGION_SIZE, MAX_ULONG_BUFSIZE; lia..|].
  intros s Hs. pose proof (safe_fuzarg fuel (Z.of_nat i) z) as Hf.
  specialize (Hf ltac:(unfold SANDBOX_REGION_NUM; lia) ltac:(eapply Hd; [|done..]; lia) s Hs).
  destruct (sandbox_syscall_fuzarg _ _ _ _); [naive_solver|done..].
Qed.

(** The boolean test of [safe_desc]. *)
Definition safe_descb (d : scall_desc) : bool :=
  forallb (λ row, forallb (λ z, bool_decide (z = FUZ_ARG_END ∨ safe_kind z)) row)
    (take (Z.to_nat (argnum d)) (arg_type d)).

Lemma safe_descb_ok d : safe_descb d = true → safe_desc d.
Proof.
  unfold safe_descb. rewrite forallb_forall. intros Hall i k z Hi Hz Hne. unfold arg_type_at in Hz.
  destruct (decide _) as [_|]; [|done]. injection Hz as <-.
  assert (safe_kind 0) as H0' by (unfold safe_kind; conjs; done).
  destruct (arg_type d !! i) as [row|] eqn:Hrow; [|done].
  specialize (Hall row). rewrite forallb_forall in Hall. cbn [default from_option id] in *.
  destruct (row !! k) as [z|] eqn:Hk; [|done]. cbn [default from_option id] in *.
  assert (bool_decide (z = FUZ_ARG_END ∨ safe_kind z) = true) as Hb.
  { apply Hall; apply list_elem_of_In.
    - apply (list_elem_of_lookup_2 _ i). by rewrite lookup_take_lt by lia.
    - by eapply list_elem_of_lookup_2. }
  apply bool_decide_eq_true in Hb. naive_solver.
Qed.

(** The calls without descriptors, timespec and utimbuf. *)
Definition safe_entries : list nat := [2; 4; 5; 6; 7; 8; 9; 10; 11]%nat.

Lemma safe_entries_ok i d :
  i ∈ safe_entries → fuzzer_call_spec_list !! i = Some d → safe_desc d ∧ (i < SYSCALL_NUM)%nat ∧ 1 <= argnum d.
Proof.
  intros Hi Hd.
  assert (forallb (λ i, match fuzzer_call_spec_list !! i with
    | Some d => safe_descb d && bool_decide ((i < SYSCALL_NUM)%nat ∧ 1 <= argnum d) | None => false end)
    safe_entries = true) as Hall by (vm_compute; reflexivity).
  rewrite forallb_forall in Hall. specialize (Hall i (proj1 (list_elem_of_In _ _) Hi)).
  rewrite Hd in Hall. apply andb_true_iff in Hall as [Hs Hb]. apply bool_decide_eq_true in Hb.
  split; [by apply safe_descb_ok|done].
Qed.

Lemma find_desc_entry i d s :
  (i < SYSCALL_NUM)%nat → fuzzer_call_spec_list !! i = Some d → find_desc (scid d) s = Ret (Some d) s.
Proof. intros Hi Hd. unfold find_desc. by rewrite (get_scall_desc_entry i d). Qed.

Lemma bind_ret {A B} (m : M A) (k : A → M B) s a s' : m s = Ret a s' → (m ≫= k) s = k a s'.
Proof. intros Hm. unfold mbind, M_bind. by rewrite Hm. Qed.

Lemma bind_fault {A B} (m : M A) (k : A → M B) s : m s = Fault → (m ≫= k) s = Fault.
Proof. intros Hm. unfold mbind, M_bind. by rewrite Hm. Qed.

(** The arguments of the call: the addresses of its regions. *)
Definition call_args (d : scall_desc) : list Z := take (Z.to_nat (argnum d)) [region 0; region 1; region 2].

Lemma run_call d s1 :
  1 <= argnum d <= 3 →
  (if decide (argnum d = 1) then syscall (scid d) [region 0]
   else if decide (argnum d = 2) then syscall (scid d) [region 0; region 1]
   else if decide (argnum d = 3) then syscall (scid d) [region 0; region 1; region 2] else mret (-1)) s1 =
  syscall (scid d) (call_args d) s1.
Proof.
  intros Hn. unfold call_args.
  assert (argnum d = 1 ∨ argnum d = 2 ∨ argnum d = 3) as [E|[E|E]] by lia; rewrite E; reflexivity.
Qed.

(** The first call of every batch of [nanosleep]s faults, and so does [utime]. *)
Lemma run_nanosleep fuel s : sandbox_syscall_run fuel SYS_nanosleep s = Fault.
Proof.
  pose proof (find_desc_entry 13 _ s ltac:(unfold SYSCALL_NUM; lia) eq_refl) as Hd. cbn [scid] in Hd.
  unfold sandbox_syscall_run. rewrite (bind_ret _ _ _ _ _ Hd). cbv beta iota. apply bind_fault.
  unfold sandbox_syscall_fuzargs. rewrite (bind_ret _ _ _ _ _ Hd). cbv beta iota. apply bind_fault.
  cbn [argnum]. change (Z.to_nat 2) with 2%nat. cbn [fuzargs_loop].
  rewrite (bind_ret _ _ s FUZ_ARG_TIMESPEC (with_pos (S (pos s)) s)).
  - rewrite (bind_ret _ _ _ () (with_pos (S (pos s)) s)) by reflexivity. apply bind_fault, fuzarg_timespec.
  - unfold choose_type. rewrite (bind_ret _ _ s 1%nat s) by reflexivity.
    rewrite (bind_ret _ _ s () s) by reflexivity.
    rewrite (bind_ret _ _ s (rnd (pos s)) (with_pos (S (pos s)) s)) by reflexivity.
    change (Z.of_nat 1) with 1. by rewrite Z.rem_1_r.
Qed.

(** A call of the table without descriptors, timespec or utimbuf never faults,
    whatever the draws: the kernel is called once, with the addresses of the
    call's regions and a memory that differs inside the sandbox only; its result is
    returned, and the pool of descriptors is not updated. *)
Theorem run_safe_call fuel i d s :
  i ∈ safe_entries → fuzzer_call_spec_list !! i = Some d → path_ok s → last_fd_used s = None →
  match sandbox_syscall_run fuel (scid d) s with
  | Ret r s' => ∃ s1, frame (lo 0) (hi 2) s s1 ∧
      sys_call (calls s) (scid d) (call_args d) (mem s1) = (r, mem s') ∧
      calls s' = S (calls s) ∧ fd_pool s' = fd_pool s ∧ fd_pool_cnt s' = fd_pool_cnt s ∧
      last_fd_used s' = None ∧ path_ok s'
  | Fault => False
  | OutOfFuel => True
  end.
Proof.
  intros Hi Hd Hs Hl. destruct (safe_entries_ok i d Hi Hd) as (Hsafe & Hlt & Hn1).
  destruct (table_ok i d Hd) as ([_ H3] & Hrow).
  unfold sandbox_syscall_run. rewrite (bind_ret _ _ _ _ _ (find_desc_entry i d s Hlt Hd)). cbv beta iota.
  unfold sandbox_syscall_fuzargs. unfold mbind at 1, M_bind at 1.
  rewrite (bind_ret _ _ _ _ _ (find_desc_entry i d s Hlt Hd)). cbv beta iota.
  pose proof (safe_fuzargs_loop fuel d (Z.to_nat (argnum d)) 0 Hsafe Hrow H3 ltac:(lia) s Hs) as Hf.
  unfold mbind at 1, M_bind at 1. destruct (fuzargs_loop _ _ _ _ s) as [[] s1| |]; [|done..].
  destruct Hf as (Hf & Hs1 & _). pose proof Hf as (_ & Hp & Hc & Hk & Hl1). specialize (Hl1 Hl).
  cbv beta iota. unfold mret, M_ret. unfold mbind at 1, M_bind at 1. rewrite run_call by lia. unfold syscall.
  rewrite Hk. destruct (sys_call _ _ _ _) as [r m] eqn:Hcall.
  rewrite (bind_ret _ _ _ (last_fd_used s1) (with_mem m (with_calls (S (calls s)) s1))) by (by rewrite <- Hk).
  rewrite Hl1. rewrite decide_False by naive_solver. cbn. by exists s1.
Qed.

(** *** Descriptors *)

Lemma run_rrand a b s :
  a <= b → rrand a b s = Ret (a + Z.rem (rnd (pos s)) (b - a + 1)) (with_pos (S (pos s)) s).
Proof. intros Hab. unfold rrand, assert_. by rewrite decide_True. Qed.

Lemma run_put32_region argno v s :
  0 <= argno < SANDBOX_REGION_NUM → put32 (region argno) v s = Ret () (with_mem (store32 (mem s) (region argno) v) s).
Proof.
  intros Ha. unfold put32, assert_. rewrite decide_True; [done|].
  eapply region_in; [exact Ha|unfold lo, hi, SANDBOX_REGION_SIZE, MAX_ULONG_BUFSIZE; lia..].
Qed.

(** The state after a descriptor of the pool was stored. *)
Definition stored_fd (argno i : Z) (s : sbox) : sbox :=
  match fd_pool s !! Z.to_nat i with
  | Some it => with_mem (store32 (mem s) (region argno) (fd it)) s
  | None => s
  end.

(** One draw of an index, and the descriptor stored. *)
Lemma run_put_fd argno a b s :
  0 <= argno < SANDBOX_REGION_NUM → a <= b →
  put_fd argno a b s =
  (let i := a + Z.rem (rnd (pos s)) (b - a + 1) in
   if decide (is_Some (fd_pool s !! Z.to_nat i))
   then Ret () (stored_fd argno i (with_pos (S (pos s)) s)) else Fault).
Proof.
  intros Ha Hab. unfold put_fd. rewrite (bind_ret _ _ _ _ _ (run_rrand a b s Hab)). cbn zeta.
  set (i := a + _). unfold pool_fd, stored_fd.
  unfold mbind at 1 2, M_bind at 1 2, get. cbn [fd_pool with_pos]. case_decide as Hi.
  - destruct Hi as [it ->]. unfold mret, M_ret. cbv beta iota.
    by rewrite (run_put32_region argno (fd it) (with_pos (S (pos s)) s) Ha).
  - destruct (fd_pool s !! Z.to_nat i); [|done]. destruct Hi. eauto.
Qed.

(** With a whole pool, a draw below its end stores the entry's descriptor. *)
Lemma run_put_fd_in argno a b s :
  0 <= argno < SANDBOX_REGION_NUM → length (fd_pool s) = Z.to_nat FD_POOL_NUM → 0 <= a <= b → b < FD_POOL_NUM →
  ∃ s', put_fd argno a b s = Ret () s' ∧ pos s' = S (pos s) ∧ frame (lo argno) (hi argno) s s' ∧
        (path_ok s → path_ok s').
Proof.
  intros Ha Hlen Hab Hb. rewrite run_put_fd by lia. cbn zeta.
  pose proof (Z.rem_bound_pos (rnd (pos s)) (b - a + 1) (proj1 (rnd_range (pos s))) ltac:(lia)) as Hr.
  destruct (lookup_lt_is_Some_2 (fd_pool s) (Z.to_nat (a + Z.rem (rnd (pos s)) (b - a + 1)))) as [it Hit]; [lia|].
  rewrite decide_True by eauto. unfold stored_fd. cbn [fd_pool with_pos]. rewrite Hit.
  eexists. conjs; [done..|split; cbn|done]. 2: by conjs.
  intros x Hx. apply byte_store32. unfold lo, hi, SANDBOX_REGION_SIZE, MAX_ULONG_BUFSIZE in Hx. lia.
Qed.

(** The number of draws the cases before the last one make. *)
Definition earlier_draws (ty : Z) : nat :=
  if decide (ty = FUZ_ARG_UINT_FD_ROPEN) then 2 else if decide (ty = FUZ_ARG_UINT_FD_WOPEN) then 1 else 0.

Definition fd_kind (ty : Z) : Prop :=
  ty = FUZ_ARG_UINT_FD_ROPEN ∨ ty = FUZ_ARG_UINT_FD_WOPEN ∨ ty = FUZ_ARG_UINT_FD_CLOSED.

(** The cases before the last one. *)
Lemma run_earlier argno ty s :
  fd_kind ty → 0 <= argno < SANDBOX_REGION_NUM → length (fd_pool s) = Z.to_nat FD_POOL_NUM →
  ∃ s1, fuzarg_fd argno ty s =
    (put_fd argno (FD_POOL_NUM_WOPEN + FD_POOL_NUM_ROPEN) FD_POOL_NUM;; mret 0) s1 ∧
    pos s1 = (pos s + earlier_draws ty)%nat ∧ frame (lo argno) (hi argno) s s1.
Proof.
  intros Hty Ha Hlen. unfold fuzarg_fd.
  destruct (run_put_fd_in argno 0 FD_POOL_NUM_ROPEN s Ha Hlen) as (s1 & E1 & P1 & F1 & _); [done..|].
  assert (length (fd_pool s1) = Z.to_nat FD_POOL_NUM) as Hlen1 by (destruct F1 as (_ & -> & _); done).
  destruct Hty as [->|[->| ->]]; cbn [decide]; repeat (rewrite decide_True by (cbv; lia) || rewrite decide_False by (cbv; lia)).
  - destruct (run_put_fd_in argno FD_POOL_NUM_ROPEN (FD_POOL_NUM_WOPEN + FD_POOL_NUM_ROPEN) s1 Ha Hlen1)
      as (s2 & E2 & P2 & F2 & _); [done..|].
    rewrite (bind_ret _ _ _ _ _ E1), (bind_ret _ _ _ _ _ E2).
    exists s2. conjs; [done|by rewrite P2, P1, Nat.add_comm|by transitivity s1].
  - destruct (run_put_fd_in argno FD_POOL_NUM_ROPEN (FD_POOL_NUM_WOPEN + FD_POOL_NUM_ROPEN) s Ha Hlen)
      as (s2 & E2 & P2 & F2 & _); [done..|].
    rewrite (bind_ret _ _ _ () s) by done. rewrite (bind_ret _ _ _ _ _ E2). exists s2. conjs; [done|by rewrite P2, Nat.add_comm|done].
  - rewrite !(bind_ret _ _ _ () s) by done. exists s. conjs; [done|by rewrite Nat.add_comm|done].
Qed.

(** Whichever of the three kinds of descriptor is asked for, the descriptor
    stored is the one of an entry from 100 on, those of closed files; the entry is
    chosen by the last draw, and when that draw is 10 modulo 11 the index is
    beyond the pool. *)
Theorem fuzarg_fd_closed fuel argno ty s :
  fd_kind ty → 0 <= argno < SANDBOX_REGION_NUM → length (fd_pool s) = Z.to_nat FD_POOL_NUM →
  let i := 100 + Z.rem (rnd (pos s + earlier_draws ty)) 11 in
  match sandbox_syscall_fuzarg fuel argno ty s with
  | Ret r s' => r = 0 ∧ i < 110 ∧ frame (lo argno) (hi argno) s s' ∧
      ∃ it, fd_pool s !! Z.to_nat i = Some it ∧ load32 (mem s') (region argno) = u32 (fd it)
  | Fault => i = 110
  | OutOfFuel => False
  end.
Proof.
  intros Hty Ha Hlen i.
  assert (sandbox_syscall_fuzarg fuel argno ty s = fuzarg_fd argno ty (with_last None s)) as ->.
  { destruct Hty as [->|[->| ->]]; by this_kind. }
  destruct (run_earlier argno ty (with_last None s) Hty Ha Hlen) as (s1 & -> & Hpos & Hf).
  unfold mbind at 1, M_bind at 1. rewrite run_put_fd by done. cbn zeta. rewrite Hpos. cbn [pos with_last].
  change (FD_POOL_NUM - (FD_POOL_NUM_WOPEN + FD_POOL_NUM_ROPEN) + 1) with 11.
  change (FD_POOL_NUM_WOPEN + FD_POOL_NUM_ROPEN) with 100. fold i.
  pose proof (Z.rem_bound_pos (rnd (pos s + earlier_draws ty)) 11 (proj1 (rnd_range _)) ltac:(done)) as Hi.
  pose proof Hf as (Hb & Hp & Hc & Hk & Hl). cbn [mem fd_pool fd_pool_cnt calls with_last last_fd_used] in *.
  rewrite Hp. destruct (fd_pool s !! Z.to_nat i) as [it|] eqn:Hit.
  - rewrite decide_True by eauto. unfold stored_fd. cbn [fd_pool with_pos]. rewrite Hp, Hit. cbn.
    apply lookup_lt_Some in Hit as Hlt. rewrite Hlen in Hlt. change (Z.to_nat FD_POOL_NUM) with 110%nat in Hlt.
    conjs; [done|lia| |exists it; split; [done|apply load32_store32]].
    split; [|by conjs; auto]. intros x Hx. cbn. rewrite byte_store32; [by apply Hb|].
    unfold lo, hi, SANDBOX_REGION_SIZE, MAX_ULONG_BUFSIZE in Hx. lia.
  - rewrite decide_False by (intros Hd; destruct Hd; done). apply lookup_ge_None in Hit.
    rewrite Hlen in Hit. change (Z.to_nat FD_POOL_NUM) with 110%nat in Hit. unfold i in *. lia.
Qed.

(** *** Every other kind *)

(** C38: the generator of any other kind but the two structures never leaves its
    region, whatever the draws and the fuel: it makes no fault, changes only the
    bytes of region [argno], neither the pool nor the number of kernel calls, and
    leaves [last_fd_used] null; only the path of a missing file needs fuel. *)
Theorem fuzarg_isolated fuel argno ty s :
  0 <= argno < SANDBOX_REGION_NUM → safe_kind ty → path_ok s →
  match sandbox_syscall_fuzarg fuel argno ty s with
  | Ret r s' => (r = 0 ∨ r = -1) ∧ path_ok s' ∧ fd_pool s' = fd_pool s ∧ calls s' = calls s ∧
      last_fd_used s' = None ∧
      ∀ x, ¬ (region argno <= x < region argno + 40960) → byte (mem s') x = byte (mem s) x
  | Fault => False
  | OutOfFuel => ty = FUZ_ARG_PATH_FILE_NONEXIST
  end.
Proof.
  intros Ha Hty Hs. pose proof (safe_fuzarg fuel argno ty Ha Hty (with_last None s) Hs) as Hf.
  change (sandbox_syscall_fuzarg fuel argno ty (with_last None s))
    with (sandbox_syscall_fuzarg fuel argno ty s) in Hf.
  destruct (sandbox_syscall_fuzarg _ _ _ _) as [r s'| |]; [|done..].
  destruct Hf as ((Hb & Hp & _ & Hc & Hl) & ? & ?). cbn in *. conjs; auto.
Qed.

(** *** Paths of missing files *)

(** One round of the loop, when the chunk is not empty. *)
Lemma path_round argno cnt chunk s :
  0 <= argno < SANDBOX_REGION_NUM → path_ok s → 0 < chunk < MAX_LEN_FNAME → 1 <= cnt < MAX_LEN_PATH →
  ∃ s', (helper_gen_fuz_str (region argno + cnt) chunk;; put8 (region argno + (cnt + (chunk - 1))) 47) s = Ret () s' ∧
    frame (region argno + cnt) (region argno + 1150) s s' ∧ path_ok s' ∧
    byte (mem s') (region argno + (cnt + chunk) - 1) = 47.
Proof.
  intros Ha Hs Hk Hc. unfold MAX_LEN_FNAME, MAX_LEN_PATH in *.
  assert (safe False (region argno + cnt) (region argno + 1150)
    (helper_gen_fuz_str (region argno + cnt) chunk) (λ _, True)) as Hg.
  { assert (∀ n a, region argno + cnt <= a → a + Z.of_nat n <= region argno + 1150 →
      safe False (region argno + cnt) (region argno + 1150) (gen_fuz_str_loop n a) (λ _, True)) as Hloop.
    { induction n as [|n IH]; intros a Hl Hh; [by apply safe_ret|]. cbn [gen_fuz_str_loop].
      eapply safe_bind; [apply safe_fuz_char|]. intros c _. eapply safe_seq; [apply safe_put8; [lia|]|apply IH; lia].
      eapply region_in; [exact Ha|in_region..]. }
    apply Hloop; lia. }
  specialize (Hg s Hs). unfold mbind, M_bind. destruct (helper_gen_fuz_str _ _ s) as [[] s1| |]; [|done..].
  destruct Hg as (Hf & Hs1 & _). unfold put8, assert_. rewrite decide_True.
  2: { eapply region_in; [exact Ha|in_region..]. }
  eexists. conjs; [reflexivity| |done|].
  - transitivity s1; [done|]. split; [|by conjs]. intros x Hx. cbn. by bytes.
  - cbn. by bytes.
Qed.

(** The draws do not stay multiples of 128 for ever. *)
Definition rnd_chunks : Prop := ∀ n, ∃ m, (n <= m)%nat ∧ Z.rem (rnd m) MAX_LEN_FNAME ≠ 0.

(** The loop's result, with enough fuel. *)
Definition loop_done (argno len cnt : Z) (s : sbox) (r : res Z) : Prop :=
  ∃ c s', r = Ret c s' ∧ len <= c ∧ cnt <= c <= 1149 ∧
    frame (region argno + cnt - 1) (region argno + 1150) s s' ∧ path_ok s' ∧
    byte (mem s') (region argno + cnt - 1) = 47 ∧ byte (mem s') (region argno + c - 1) = 47.

Lemma loop_done_exit fuel argno len cnt s :
  len <= cnt → 1 <= cnt <= 1149 → path_ok s → byte (mem s) (region argno + cnt - 1) = 47 →
  loop_done argno len cnt s (gen_path_loop fuel (region argno) len cnt s).
Proof.
  intros ????. exists cnt, s. conjs; try done; try lia.
  destruct fuel; cbn [gen_path_loop]; by rewrite decide_False by lia.
Qed.

(** One round, unfolded. *)
Lemma gen_path_loop_step fuel argno len cnt s :
  cnt < len →
  gen_path_loop (S fuel) (region argno) len cnt s =
  (let chunk := Z.rem (rnd (pos s)) MAX_LEN_FNAME in
   match (helper_gen_fuz_str (region argno + cnt) chunk;; put8 (region argno + (cnt + (chunk - 1))) 47)
           (with_pos (S (pos s)) s) with
   | Ret _ s' => gen_path_loop fuel (region argno) len (cnt + (chunk - 1) + 1) s'
   | Fault => Fault
   | OutOfFuel => OutOfFuel
   end).
Proof.
  intros Hlt. cbn [gen_path_loop]. rewrite decide_True by done. unfold mbind, M_bind, rand. cbn zeta.
  by destruct (helper_gen_fuz_str _ _ _).
Qed.

(** A chunk of length 0 draws one value and stores the separator again. *)
Lemma path_round_empty argno cnt s :
  0 <= argno < SANDBOX_REGION_NUM → 1 <= cnt <= 1149 →
  (helper_gen_fuz_str (region argno + cnt) 0;; put8 (region argno + (cnt + (0 - 1))) 47) s =
  Ret () (with_mem (<[region argno + (cnt + (0 - 1)) := 47]> (mem s)) s).
Proof.
  intros Ha Hc. unfold mbind, M_bind, put8, assert_. cbn [helper_gen_fuz_str]. cbn.
  rewrite decide_True; [done|]. eapply region_in; [exact Ha|in_region..].
Qed.

(** A round that is not empty makes the path longer. *)
Lemma path_progress argno len k cnt s :
  0 <= argno < SANDBOX_REGION_NUM → len < MAX_LEN_PATH →
  (∀ cnt s, len - cnt <= Z.of_nat k → path_ok s → 1 <= cnt <= 1149 → byte (mem s) (region argno + cnt - 1) = 47 →
    ∃ n, ∀ fuel, (n <= fuel)%nat → loop_done argno len cnt s (gen_path_loop fuel (region argno) len cnt s)) →
  len - cnt <= Z.of_nat (S k) → path_ok s → 1 <= cnt → cnt < len → byte (mem s) (region argno + cnt - 1) = 47 →
  Z.rem (rnd (pos s)) MAX_LEN_FNAME ≠ 0 →
  ∃ n, ∀ fuel, (n <= fuel)%nat → loop_done argno len cnt s (gen_path_loop fuel (region argno) len cnt s).
Proof.
  intros Ha Hlen IH Hk Hs Hc Hlt H47 Hz.
  pose proof (Z.rem_bound_pos (rnd (pos s)) MAX_LEN_FNAME (proj1 (rnd_range _)) ltac:(done)) as Hr.
  destruct (path_round argno cnt (Z.rem (rnd (pos s)) MAX_LEN_FNAME) (with_pos (S (pos s)) s))
    as (s1 & E & Hf & Hs1 & Hb); [done|done|lia|lia|].
  set (chunk := Z.rem (rnd (pos s)) MAX_LEN_FNAME) in *. unfold MAX_LEN_FNAME, MAX_LEN_PATH in Hr, Hlen.
  destruct (IH (cnt + chunk) s1) as [n Hn]; [lia|done|lia|done|].
  exists (S n). intros [|fuel] Hfuel; [lia|]. rewrite gen_path_loop_step by done. cbn zeta. fold chunk. rewrite E.
  replace (cnt + (chunk - 1) + 1) with (cnt + chunk) by lia.
  destruct (Hn fuel ltac:(lia)) as (c & s2 & -> & ? & ? & Hf2 & ? & ? & ?).
  exists c, s2. conjs; try done; try lia.
  - split; [|destruct Hf as (_ & ? & ? & ? & ?), Hf2 as (_ & ? & ? & ? & ?); cbn in *; conjs; [congruence..|auto]].
    intros x Hx. rewrite (proj1 Hf2) by lia. apply (proj1 Hf). lia.
  - rewrite (proj1 Hf2) by lia. rewrite (proj1 Hf) by lia. done.
Qed.

Lemma gen_path_loop_total argno len :
  0 <= argno < SANDBOX_REGION_NUM → len < MAX_LEN_PATH → rnd_chunks →
  ∀ k cnt s, len - cnt <= Z.of_nat k → path_ok s → 1 <= cnt <= 1149 →
  byte (mem s) (region argno + cnt - 1) = 47 →
  ∃ n, ∀ fuel, (n <= fuel)%nat → loop_done argno len cnt s (gen_path_loop fuel (region argno) len cnt s).
Proof.
  intros Ha Hlen Hrnd. induction k as [|k IHk]; intros cnt s Hk Hs Hc H47.
  { exists 0%nat. intros fuel _. apply loop_done_exit; [lia|done..]. }
  destruct (decide (cnt < len)) as [Hlt|]; [|exists 0%nat; intros fuel _; apply loop_done_exit; [lia|done..]].
  destruct (Hrnd (pos s)) as (m & Hm & Hne). remember (m - pos s)%nat as d eqn:Hd.
  revert s Hs H47 Hm Hd. induction d as [|d IHd]; intros s Hs H47 Hm Hd;
    (destruct (decide (Z.rem (rnd (pos s)) MAX_LEN_FNAME = 0)) as [Hz|Hz];
     [|by eapply path_progress; eauto; lia]).
  - by replace m with (pos s) in Hne by lia.
  - destruct (IHd (with_mem (<[region argno + (cnt + (0 - 1)) := 47]> (mem s)) (with_pos (S (pos s)) s)))
      as [n Hn]; [done| |cbn; lia..|].
    { cbn. by bytes. }
    exists (S n). intros [|fuel] Hfuel; [lia|]. rewrite gen_path_loop_step by done. cbn zeta. rewrite Hz.
    rewrite path_round_empty by done. cbn [mem with_pos]. replace (cnt + (0 - 1) + 1) with cnt by lia.
    destruct (Hn fuel ltac:(lia)) as (c & s' & -> & Hl & Hcc & Hf & ? & ? & ?).
    exists c, s'. conjs; try done; try lia.
    transitivity (with_mem (<[region argno + (cnt + (0 - 1)) := 47]> (mem s)) (with_pos (S (pos s)) s)); [|done].
    split; [|by conjs]. intros x Hx. cbn. by bytes.
Qed.

(** For the path of a missing file the generator returns, whenever the draws
    are not multiples of 128 for ever; what it wrote is a string of at most 1149
    bytes that starts with a slash, so an absolute path, and lies in the region;
    nothing beyond its first 1150 bytes changes. *)
Theorem gen_path_missing argno s :
  0 <= argno < SANDBOX_REGION_NUM → path_ok s → rnd_chunks →
  ∃ n, ∀ fuel, (n <= fuel)%nat → ∃ c s',
    gen_path fuel FUZ_ARG_PATH_FILE_NONEXIST (region argno) s = Ret 0 s' ∧
    Z.rem (rnd (pos s)) MAX_LEN_PATH <= c ∧ 1 <= c <= 1149 ∧
    byte (mem s') (region argno) = 47 ∧ byte (mem s') (region argno + c - 1) = 47 ∧
    byte (mem s') (region argno + c) = 0 ∧
    frame (region argno) (region argno + 1150) s s'.
Proof.
  intros Ha Hs Hrnd. set (len := Z.rem (rnd (pos s)) MAX_LEN_PATH).
  pose proof (Z.rem_bound_pos (rnd (pos s)) MAX_LEN_PATH (proj1 (rnd_range _)) ltac:(done)) as Hlen. fold len in Hlen.
  set (s1 := with_mem (<[region argno := 47]> (mem s)) (with_pos (S (pos s)) s)).
  destruct (gen_path_loop_total argno len Ha (proj2 Hlen) Hrnd (Z.to_nat len) 1 s1) as [n Hn];
    [lia|done|lia| |].
  { cbn. by bytes. }
  exists n. intros fuel Hfuel. destruct (Hn fuel Hfuel) as (c & s2 & E & ? & ? & Hf & Hs2 & Hb & Hb').
  exists c, (with_mem (<[region argno + c := 0]> (mem s2)) s2).
  unfold gen_path. rewrite decide_True by done.
  rewrite (bind_ret _ _ s (rnd (pos s)) (with_pos (S (pos s)) s)) by done. cbn zeta. fold len.
  rewrite (bind_ret _ _ _ () s1).
  2: { unfold put8, assert_. rewrite decide_True; [done|]. eapply region_in; [exact Ha|in_region..]. }
  rewrite (bind_ret _ _ _ _ _ E). rewrite (bind_ret _ _ _ () (with_mem (<[region argno + c := 0]> (mem s2)) s2)).
  2: { unfold put8, assert_. rewrite decide_True; [done|]. eapply region_in; [exact Ha|in_region..]. }
  replace (region argno + 1 - 1) with (region argno) in * by lia.
  conjs; try done; try lia; try (cbn; by bytes).
  transitivity s1; [split; [|by conjs]; intros x Hx; cbn; by bytes|].
  transitivity s2; [done|]. split; [|by conjs]. intros x Hx. cbn. by bytes.
Qed.

(** *** The pool of descriptors *)

(** What the first [fd_pool_cnt] entries hold; [p0] is the pool before. *)
Definition pool_inv (p0 : list fd_pool_item) (s : sbox) : Prop :=
  length (fd_pool s) = Z.to_nat FD_POOL_NUM ∧ 0 <= fd_pool_cnt s <= FD_POOL_NUM ∧
  ∀ i it, fd_pool s !! i = Some it →
    if decide (Z.of_nat i < fd_pool_cnt s)
    then mode it = (if decide ((i <= 50)%nat) then O_RDONLY else FD_STATE_CLOSED) ∧ fd it ≠ -1 ∧ last_scid it = -1
    else p0 !! i = Some it.

Lemma push_fd_inv p0 s d :
  pool_inv p0 s → fd_pool_cnt s < FD_POOL_NUM → d ≠ -1 →
  ∃ s', push_fd d (if decide (FD_POOL_NUM_WOPEN < fd_pool_cnt s) then FD_STATE_CLOSED else O_RDONLY) s = Ret () s' ∧
    pool_inv p0 s' ∧ fd_pool_cnt s' = fd_pool_cnt s + 1.
Proof.
  intros (Hlen & Hc & Hall) Hlt Hd. unfold push_fd, assert_.
  rewrite (bind_ret _ _ s (fd_pool_cnt s) s) by done. rewrite (decide_True (P := 0 <= fd_pool_cnt s < FD_POOL_NUM)) by lia.
  eexists. split; [reflexivity|]. unfold FD_POOL_NUM_WOPEN. split; [|done]. split; [|split].
  - cbn. by rewrite length_insert.
  - cbn. lia.
  - intros i it Hi. cbn in *. apply list_lookup_insert_Some in Hi as [(<- & <- & Hi)|[Hne Hi]].
    + rewrite decide_True by lia. cbn. conjs; [|done..]. repeat case_decide; done || lia.
    + specialize (Hall i it Hi). destruct (decide (Z.of_nat i < fd_pool_cnt s)).
      * by rewrite (decide_True (P := Z.of_nat i < fd_pool_cnt s + 1)) by lia.
      * by rewrite (decide_False (P := Z.of_nat i < fd_pool_cnt s + 1)) by lia.
Qed.

(** The kernel opens and closes every file. *)
Definition opens_all : Prop := (∀ n p f, sys_open n p f ≠ -1) ∧ ∀ n d, sys_close n d = 0.

Definition is_file (e : list Z * ftw) : Prop := e.2 = FTW_F.

#[global] Instance is_file_dec e : Decision (is_file e).
Proof. unfold is_file. apply _. Defined.

Lemma callback_fd_pool_inv p0 p t s :
  pool_inv p0 s →
  ∃ r s', callback_fd_pool_populate p t s = Ret r s' ∧ pool_inv p0 s' ∧
    (r ≠ 0 → fd_pool_cnt s' = FD_POOL_NUM) ∧ fd_pool_cnt s <= fd_pool_cnt s' ∧
    (opens_all → fd_pool_cnt s' = Z.min FD_POOL_NUM (fd_pool_cnt s + if decide (t = FTW_F) then 1 else 0)).
Proof.
  intros Hinv. pose proof Hinv as (Hlen & Hc & Hall). unfold callback_fd_pool_populate.
  rewrite (bind_ret _ _ s (fd_pool_cnt s) s) by done. case_decide as Hfull.
  { exists 1, s. conjs; [done|done|lia|lia|]. intros _. case_decide; lia. }
  destruct (decide (t = FTW_F)) as [->|].
  2: { exists 0, s. conjs; [done|done|done|lia|lia]. }
  pose proof (push_fd_inv p0) as Hpush. case_decide as Hw.
  - set (r1 := sys_open (calls s) p O_RDONLY). set (s2 := with_calls (S (S (calls s))) s).
    set (r2 := sys_close (S (calls s)) r1). unfold mbind, M_bind, open, close. cbn -[push_fd].
    fold r1 r2. change (with_calls _ (with_calls _ s)) with s2. case_decide as Hok.
    + destruct (Hpush s2 r1) as (s' & E & Hi & Hcnt); [done|cbn; lia|tauto|].
      rewrite decide_True in E by done. rewrite E. exists 0, s'. cbn in Hcnt. conjs; try done; intros; lia.
    + exists 0, s2. conjs; try done. intros [Ho Hcl]. destruct Hok. split; [apply Ho|apply Hcl].
  - rewrite decide_False by exact Hw.
    set (r1 := sys_open (calls s) p O_RDONLY). set (s2 := with_calls (S (calls s)) s).
    unfold mbind, M_bind, open. cbn -[push_fd]. fold r1 s2. case_decide as Hok.
    + destruct (Hpush s2 r1) as (s' & E & Hi & Hcnt); [done|cbn; lia|done|].
      rewrite decide_False in E by done. rewrite E. exists 0, s'. cbn in Hcnt. conjs; try done; intros; lia.
    + exists 0, s2. conjs; try done. intros [Ho Hcl]. exfalso. by eapply Ho.
Qed.

Lemma nftw_fd_pool_inv p0 es s :
  pool_inv p0 s →
  ∃ r s', nftw_walk callback_fd_pool_populate es s = Ret r s' ∧ pool_inv p0 s' ∧
    (opens_all → fd_pool_cnt s' = Z.min FD_POOL_NUM (fd_pool_cnt s + Z.of_nat (length (filter is_file es)))).
Proof.
  revert s. induction es as [|[p t] es IH]; intros s Hinv; cbn [nftw_walk].
  { exists 0, s. conjs; [done..|]. intros _. destruct Hinv as (_ & ? & _). cbn. lia. }
  destruct (callback_fd_pool_inv p0 p t s Hinv) as (r & s1 & E & Hinv1 & Hr & Hle & Hcnt).
  rewrite (bind_ret _ _ _ _ _ E).
  assert (Z.of_nat (length (filter is_file ((p, t) :: es))) =
    (if decide (t = FTW_F) then 1 else 0) + Z.of_nat (length (filter is_file es))) as ->.
  { rewrite filter_cons. destruct (decide (t = FTW_F)) as [Ht|Ht];
      [rewrite decide_True by exact Ht; cbn [length]; lia|by rewrite decide_False by exact Ht]. }
  destruct (decide (r = 0)) as [Hr0|Hr0].
  - destruct (IH s1 Hinv1) as (r' & s' & E' & Hinv' & Hcnt'). exists r', s'. conjs; [done..|].
    intros Ho. rewrite Hcnt', Hcnt by done. case_decide; lia.
  - exists r, s1. conjs; [done..|]. intros Ho. specialize (Hr Hr0). specialize (Hcnt Ho). case_decide; lia.
Qed.

Lemma fd_pool_populate_inv s :
  length (fd_pool s) = Z.to_nat FD_POOL_NUM →
  ∃ s', fd_pool_populate s = Ret 0 s' ∧ pool_inv (fd_pool s) s' ∧
    (opens_all → fd_pool_cnt s' = Z.min FD_POOL_NUM (Z.of_nat (length (filter is_file (tree (calls s)))))).
Proof.
  intros Hlen. unfold fd_pool_populate, nftw.
  destruct (nftw_fd_pool_inv (fd_pool s) (tree (calls s)) (with_pool (fd_pool s) 0 s)) as (r & s' & E & Hinv & Hcnt).
  { split; [done|]. split; [done|]. intros i it Hi. by rewrite decide_False by (cbn; lia). }
  exists s'. conjs; [|done..].
  rewrite (bind_ret _ _ s () (with_pool (fd_pool s) 0 s)) by done. unfold mbind, M_bind, get. cbn [calls with_pool].
  by rewrite E.
Qed.

(** Filling the pool always returns, within the pool, with entries 0 to 50
    opened for reading and all later ones closed: no entry is ever opened for
    writing.  When the kernel opens every file, the pool fills up to its size with
    the files of the walk. *)
Theorem fd_pool_populate_modes s :
  length (fd_pool s) = Z.to_nat FD_POOL_NUM →
  ∃ s', fd_pool_populate s = Ret 0 s' ∧ 0 <= fd_pool_cnt s' <= 110 ∧ length (fd_pool s') = 110%nat ∧
    (∀ i it, Z.of_nat i < fd_pool_cnt s' → fd_pool s' !! i = Some it →
      mode it = (if decide ((i <= 50)%nat) then O_RDONLY else FD_STATE_CLOSED) ∧ fd it ≠ -1 ∧ last_scid it = -1) ∧
    (∀ i, fd_pool_cnt s' <= Z.of_nat i → fd_pool s' !! i = fd_pool s !! i) ∧
    (opens_all → fd_pool_cnt s' = Z.min 110 (Z.of_nat (length (filter is_file (tree (calls s)))))).
Proof.
  intros Hlen. destruct (fd_pool_populate_inv s Hlen) as (s' & E & (Hlen' & Hc & Hall) & Hcnt).
  change FD_POOL_NUM with 110 in Hc, Hcnt. change (Z.to_nat FD_POOL_NUM) with 110%nat in Hlen'.
  exists s'. conjs; [done|lia..|done| | |done].
  - intros i it Hi Hit. specialize (Hall i it Hit). by rewrite decide_True in Hall.
  - intros i Hi. destruct (fd_pool s' !! i) as [it|] eqn:Hit.
    + specialize (Hall i it Hit). by rewrite decide_False in Hall by lia.
    + symmetry. apply lookup_ge_None. apply lookup_ge_None in Hit. rewrite Hlen. by rewrite Hlen' in Hit.
Qed.

(** The search for a descriptor of a given mode returns the first entry with that
    mode; without one it runs past the pool, since its bound counts bytes. *)
Lemma find_fd_loop_spec md s n i :
  (length (fd_pool s) < n + i)%nat →
  find_fd_loop md n i s =
  match list_find (λ it, mode it = md) (drop i (fd_pool s)) with
  | Some (k, _) => Ret (Some (i + k)%nat) s
  | None => Fault
  end ∨ (length (fd_pool s) < i)%nat.
Proof.
  revert i. induction n as [|n IH]; intros i Hi; [by right|]. left. cbn [find_fd_loop].
  rewrite (bind_ret _ _ s (fd_pool s !! i) s) by done.
  destruct (fd_pool s !! i) as [it|] eqn:Hit; [|by rewrite drop_ge by (by apply lookup_ge_None)].
  apply lookup_lt_Some in Hit as Hlt. rewrite (drop_S _ _ _ Hit). cbn [list_find].
  case_decide; [by rewrite Nat.add_0_r|]. destruct (IH (S i)) as [->|]; [lia| |lia].
  destruct (list_find _ (drop (S i) (fd_pool s))) as [[k x]|]; cbn; [|done]. do 2 f_equal. lia.
Qed.

Lemma find_fd_in_pool_spec fuz_arg s :
  length (fd_pool s) = Z.to_nat FD_POOL_NUM →
  let md := if decide (fuz_arg = FUZ_ARG_UINT_FD_ROPEN) then O_RDONLY
            else if decide (fuz_arg = FUZ_ARG_UINT_FD_WOPEN) then O_WRONLY else FD_STATE_CLOSED in
  find_fd_in_pool fuz_arg s =
  match list_find (λ it, mode it = md) (fd_pool s) with Some (k, _) => Ret k s | None => Fault end.
Proof.
  intros Hlen md. unfold find_fd_in_pool. fold md. unfold mbind, M_bind.
  destruct (find_fd_loop_spec md s sizeof_fd_pool 0) as [->|]; [|rewrite drop_0|lia].
  - rewrite Hlen. change (Z.to_nat FD_POOL_NUM) with 110%nat. unfold sizeof_fd_pool.
    change (Z.to_nat FD_POOL_NUM) with 110%nat. lia.
  - by destruct (list_find _ _) as [[k x]|].
Qed.

(** So looking for a descriptor open for writing in the pool that was just filled
    is an access outside the pool. *)
Lemma find_wopen_faults s s' :
  fd_pool s = replicate (Z.to_nat FD_POOL_NUM) (mk_item 0 0 0) → fd_pool_populate s = Ret 0 s' →
  find_fd_in_pool FUZ_ARG_UINT_FD_WOPEN s' = Fault.
Proof.
  intros Hp E. destruct (fd_pool_populate_inv s) as (s1 & E1 & (Hlen & _ & Hall) & _); [by rewrite Hp, length_replicate|].
  rewrite E in E1. injection E1 as <-. rewrite find_fd_in_pool_spec by done. cbn zeta.
  replace (list_find _ (fd_pool s')) with (@None (nat * fd_pool_item)); [done|]. symmetry.
  apply list_find_None, Forall_lookup. intros i it Hit.
  rewrite decide_False, decide_True by done. specialize (Hall i it Hit). case_decide.
  - destruct Hall as (-> & _). by case_decide.
  - rewrite Hp in Hall. apply lookup_replicate in Hall as [-> _]. done.
Qed.

End spec.
