(* ===== verification/Fuzzer.v ===== *)
(** * The fuzzer's processes (fuzzer.c of src/544final/fuzzer_final/Fuzzy_v_0.5)

    The process table with its pid and log files, the signal handlers, the batches
    of calls a worker makes, and the main process: a step relation in which forks,
    deaths of children and the handler of their signal interleave. *)

From stdpp Require Import pretty.
From S2P Require Import Prelude CMem FuzzDesc FuzzSandbox FuzzSpec.

Local Open Scope Z_scope.

(** ** Constants *)

Definition WORKER_NUM : nat := 4.
Definition PPD_SIZE : nat := WORKER_NUM + 2.

Definition PROC_TYPE_DEF : Z := -1.
Definition PROC_TYPE_MAIN : Z := 0.
Definition PROC_TYPE_WD : Z := 1.
Definition PROC_TYPE_WORKER : Z := 2.

(** ** The process table and the files *)

(** [proc_desc]; [flog] is the name of the open log, [None] for NULL. *)
Record proc_desc := mk_pd {
  pd_id : Z;
  flog : option string;
  pd_pid : Z;
  ptype : Z;
  died : bool;
}.

(** The array, the number of entries in use, the pid files and the logs. *)
Record table := mk_table {
  ppd : list proc_desc;
  proc_desc_cnt : nat;
  pid_files : gset string;
  logs : gmap string (list string);
}.

Definition table_init : table :=
  mk_table (replicate PPD_SIZE (mk_pd 0 None 0 0 false)) 0 ∅ ∅.

(** The index of the first entry with the given pid. *)
Definition get_proc_desc (pid : Z) (t : table) : option nat :=
  fst <$> list_find (λ d, pd_pid d = pid) (ppd t).

(** The prefix of a process's files. *)
Definition type_prefix (ty : Z) : string :=
  if decide (ty = PROC_TYPE_MAIN) then "main_"
  else if decide (ty = PROC_TYPE_WD) then "wd_"
  else if decide (ty = PROC_TYPE_WORKER) then "worker_"
  else EmptyString.

Definition pid_file (ty pid : Z) : string := "pid/" +:+ type_prefix ty +:+ pretty pid +:+ ".pid".
Definition log_file (ty pid : Z) : string := "log/" +:+ type_prefix ty +:+ pretty pid +:+ ".log".

Definition pids (t : table) : list Z := map pd_pid (ppd t).

Section processes.
(** Whether [fopen] of a name for writing succeeds. *)
Context (fopen_ok : string → bool).

(** [register_new_process]: [None] when it goes wrong (an entry beyond the array,
    a null entry, [fclose(NULL)]), otherwise the entry it returns. *)
Definition register_new_process (pid ty id replace_died_pid : Z) (t : table) : option (option nat * table) :=
  let slot :=
    if decide (replace_died_pid ≠ 0) then
      match get_proc_desc replace_died_pid t with
      | Some i => Some (Some i, proc_desc_cnt t)
      | None => None
      end
    else if decide (is_Some (get_proc_desc pid t)) then Some (None, proc_desc_cnt t)
    else Some (Some (proc_desc_cnt t), S (proc_desc_cnt t)) in
  match slot with
  | None => None
  | Some (None, _) => Some (None, t)
  | Some (Some i, cnt') =>
      if decide (i < length (ppd t))%nat then
        if fopen_ok (pid_file ty pid) then
          let log := log_file ty pid in
          let fl := if fopen_ok log then Some log else None in
          Some (Some i, mk_table (<[i := mk_pd id fl pid ty false]> (ppd t)) cnt'
                 ({[pid_file ty pid]} ∪ pid_files t)
                 (if fopen_ok log then <[log := []]> (logs t) else logs t))
        else None
      else None
  end.

(** [unregister_process]: the value of [remove], 0 when the file was there. *)
Definition unregister_process (pid ty : Z) (t : table) : Z * table :=
  match get_proc_desc pid t with
  | None => (-1, t)
  | Some i =>
      let f := pid_file ty pid in
      (if decide (f ∈ pid_files t) then 0 else -1,
       mk_table (alter (λ d, mk_pd (pd_id d) (flog d) 0 (ptype d) (died d)) i (ppd t)) (proc_desc_cnt t)
         (pid_files t ∖ {[f]}) (logs t))
  end.

(** [log_]: [None] when the entry has no stream. *)
Definition log_ (pid : Z) (src : string) (t : table) : option (Z * table) :=
  match get_proc_desc pid t with
  | None => Some (-1, t)
  | Some i =>
      match ppd t !! i with
      | Some (mk_pd _ (Some f) _ _ _) =>
          Some (0, mk_table (ppd t) (proc_desc_cnt t) (pid_files t)
                 (alter (λ l, l ++ ["[" +:+ pretty pid +:+ "] " +:+ src]) f (logs t)))
      | _ => None
      end
  end.

(** [get_log_stream]. *)
Definition get_log_stream (pid : Z) (t : table) : option string :=
  i ← get_proc_desc pid t; d ← ppd t !! i; flog d.

(** [close_log]: the log gets two entries; the entry keeps its stream. *)
Definition close_log (pid : Z) (t : table) : option (Z * table) :=
  match get_proc_desc pid t with
  | None => Some (-1, t)
  | Some _ =>
      match log_ pid "Normal process shutdown due to `close_log()` call..." t with
      | Some (_, t1) =>
          match log_ pid (String (Ascii.ascii_of_nat 10) (String (Ascii.ascii_of_nat 10) EmptyString)) t1 with
          | Some (_, t2) => Some (0, t2)
          | None => None
          end
      | None => None
      end
  end.

(** [helper_log_fix_str]: the bytes of [src] up to its terminator, 4000 of them at
    most, with an underscore for those that are not graphic; the result is what is
    stored in [dst] before the terminator. *)
Fixpoint helper_log_fix_loop (n : nat) (src : list Z) : list Z :=
  match n, src with
  | S n', c :: src' =>
      if decide (c = 0) then []
      else (if decide (33 <= c <= 126) then c else 95) :: helper_log_fix_loop n' src'
  | _, _ => []
  end.

Definition helper_log_fix_str (src : list Z) : list Z := helper_log_fix_loop (Z.to_nat MAX_LEN_STR) src ++ [0].

(** The signals [signal_handler] distinguishes. *)
Inductive signal := SIGHUP | SIGTERM | OTHER_SIGNAL.

(** [signal_handler] in process [pid]: whether the process exits, and the table. *)
Definition signal_handler (pid : Z) (sig : signal) (t : table) : option (bool * table) :=
  let shutdown msg :=
    match log_ pid msg t with
    | Some (_, t1) =>
        match close_log pid t1 with
        | Some (_, t2) => Some (snd (unregister_process pid PROC_TYPE_DEF t2))
        | None => None
        end
    | None => None
    end in
  match sig with
  | SIGHUP => match shutdown "hangup signal catched" with Some t' => Some (false, t') | None => None end
  | SIGTERM => match shutdown "terminate signal catched" with Some t' => Some (true, t') | None => None end
  | OTHER_SIGNAL => Some (false, t)
  end.

(** [SIGCHLD_handler] of process [self], given the children [waitpid] has to
    report; what is left of them is the first component. *)
Fixpoint SIGCHLD_handler (self : Z) (zombies : list Z) (t : table) : option (list Z * table) :=
  match zombies with
  | [] => Some ([], t)
  | pid :: zombies' =>
      match get_proc_desc pid t with
      | None => Some (zombies', t)
      | Some i =>
          let t1 := mk_table (alter (λ d, mk_pd (pd_id d) (flog d) (pd_pid d) (ptype d) true) i (ppd t))
                      (proc_desc_cnt t) (pid_files t) (logs t) in
          let id := default 0 (pd_id <$> ppd t !! i) in
          match log_ self ("Worker #" +:+ pretty id +:+ " crashed. Pid=" +:+ pretty pid) t1 with
          | Some (_, t2) => SIGCHLD_handler self zombies' t2
          | None => None
          end
      end
  end.

(** ** [main] *)

(** [main]'s check for another instance: [sscanf(name, "main_%4s.pid", ...) == 1]
    holds when [main_] is followed, after blanks, by a character. *)
Definition blank (c : Ascii.ascii) : bool :=
  let n := Ascii.nat_of_ascii c in bool_decide (n = 32%nat ∨ (9 <= n <= 13)%nat).

Fixpoint has_word (s : string) : bool :=
  match s with
  | EmptyString => false
  | String c s' => if blank c then has_word s' else true
  end.

Fixpoint strip_prefix (p s : string) : option string :=
  match p, s with
  | EmptyString, _ => Some s
  | String a p', String b s' => if decide (a = b) then strip_prefix p' s' else None
  | _, EmptyString => None
  end.

Definition matches_main (name : string) : bool :=
  match strip_prefix "main_" name with Some s => has_word s | None => false end.

Definition already_running (t : table) : bool :=
  existsb (λ f, match strip_prefix "pid/" f with Some name => matches_main name | None => false end)
    (elements (pid_files t)).

(** Where the main process is: about to fork worker [k], or the watchdog; between
    the fork that returned [r] and the registration; scanning entry [i]; between
    a fork that replaces entry [i] and the registration; running as a worker, after
    a fork failed in the scan; gone, or gone wrong. *)
Inductive phase :=
| Start (k : nat)
| Forked (k : nat) (r : Z)
| Scan (i : nat)
| Reforked (i : nat) (r : Z)
| AsWorker (id : Z)
| Exited
| Crashed.

(** The main process, its table, and its children: running, or waiting to be
    reported. *)
Record mstate := mk_m {
  ph : phase;
  tab : table;
  alive : gset Z;
  zombies : list Z;
}.

Inductive label :=
| Fork (r : Z)     (* a fork returns [r] *)
| Go               (* the main process runs on to its next fork or entry *)
| Die (p : Z)      (* child [p] terminates *)
| Sigchld.         (* the handler runs *)

Context (self : Z).

(** The kernel's pid for a new process: positive, none of the main process's
    family, and not still in the table. *)
Definition fresh (r : Z) (m : mstate) : Prop :=
  0 < r ∧ r ≠ self ∧ ¬ (r ∈ alive m) ∧ ¬ (r ∈ zombies m) ∧ ¬ (r ∈ pids (tab m)).

#[global] Instance fresh_dec r m : Decision (fresh r m).
Proof. unfold fresh. apply _. Defined.

Definition goto (p : phase) (m : mstate) : mstate := mk_m p (tab m) (alive m) (zombies m).
Definition with_tab (p : phase) (t : table) (m : mstate) : mstate := mk_m p t (alive m) (zombies m).
Definition spawn (r : Z) (m : mstate) : mstate := mk_m (ph m) (tab m) ({[r]} ∪ alive m) (zombies m).

(** A registration or a log entry, then phase [p]. *)
Definition then_register (pid ty id replace : Z) (p : phase) (m : mstate) : mstate :=
  match register_new_process pid ty id replace (tab m) with
  | Some (_, t) => with_tab p t m
  | None => goto Crashed m
  end.

Definition then_log (src : string) (p : phase) (m : mstate) : mstate :=
  match log_ self src (tab m) with
  | Some (_, t) => with_tab p t m
  | None => goto Crashed m
  end.

Definition crashed (m : mstate) : bool := match ph m with Crashed => true | _ => false end.

(** [m] goes on with [f] unless it went wrong. *)
Definition seq_m (m : mstate) (f : mstate → mstate) : mstate := if crashed m then m else f m.

(** The iteration of [main]'s first loop after [fork] returned [r > 0]: up to the
    registration of the child, which is the next step. *)
Definition after_fork (k : nat) (r : Z) (m : mstate) : mstate :=
  let m := spawn r m in
  let m := if decide (k = 0%nat) then then_log "Fuzzer v.0.5 Logging started." (Forked k r) m else goto (Forked k r) m in
  let m := seq_m m (then_register self PROC_TYPE_MAIN (Z.of_nat k) 0 (Forked k r)) in
  seq_m m (then_log ("Just created child worker process #" +:+ pretty (Z.of_nat k) +:+ " with pid=" +:+ pretty r +:+ ".")
    (Forked k r)).

(** Entry [d] is skipped by the scan. *)
Definition skipped (d : proc_desc) : Prop := ptype d ≠ PROC_TYPE_WORKER ∨ pd_pid d = 0 ∨ died d = false.

#[global] Instance skipped_dec d : Decision (skipped d).
Proof. unfold skipped. apply _. Defined.

(** The entry the scan is at, when it is in use. *)
Definition scan_entry (i : nat) (m : mstate) : option proc_desc :=
  if decide (i < proc_desc_cnt (tab m))%nat then ppd (tab m) !! i else None.

Definition step (l : label) (m : mstate) : option mstate :=
  match l with
  | Die p => if decide (p ∈ alive m) then Some (mk_m (ph m) (tab m) (alive m ∖ {[p]}) (zombies m ++ [p])) else None
  | Sigchld =>
      match ph m with
      | Start 0 | Exited | Crashed => None
      | _ =>
          match SIGCHLD_handler self (zombies m) (tab m) with
          | Some (z, t) => Some (mk_m (ph m) t (alive m) z)
          | None => Some (goto Crashed m)
          end
      end
  | Fork r =>
      if decide (r = -1 ∨ fresh r m) then
        match ph m with
        | Start k =>
            if decide (k < WORKER_NUM)%nat then Some (if decide (r = -1) then goto Exited m else after_fork k r m)
            else (* the watchdog *)
              let m := if decide (r = -1) then m else spawn r m in
              Some (then_log ("Just created WatchDog process with pid=" +:+ pretty r +:+ ".") (Scan 0) m)
        | Scan i =>
            match scan_entry i m with
            | Some d =>
                if decide (skipped d) then None
                else
                  let m := then_log ("Reforking worker #" +:+ pretty (pd_id d)) (Scan i) m in
                  Some (seq_m m (λ m,
                    if decide (r = -1) then
                      then_register self PROC_TYPE_WORKER (pd_id d) (pd_pid d) (AsWorker (pd_id d)) m
                    else goto (Reforked i r) (spawn r m)))
            | None => None
            end
        | _ => None
        end
      else None
  | Go =>
      match ph m with
      | Forked k r => Some (then_register r PROC_TYPE_WORKER (Z.of_nat k) 0 (Start (S k)) m)
      | Reforked i r =>
          match ppd (tab m) !! i with
          | Some d => Some (then_register r PROC_TYPE_WORKER (pd_id d) (pd_pid d) (Scan (S i)) m)
          | None => Some (goto Crashed m)
          end
      | Scan i =>
          if decide (i < proc_desc_cnt (tab m))%nat then
            match ppd (tab m) !! i with
            | Some d => if decide (skipped d) then Some (goto (Scan (S i)) m) else None
            | None => Some (goto Crashed m)
            end
          else Some (goto (Scan 0) m)
      | _ => None
      end
  end.

Definition main_init (m : mstate) : Prop := m = mk_m (Start 0) table_init ∅ [].

(** *** The scan, without deaths *)

(** The next step of a scan in which every fork succeeds; [choose] is the kernel's
    choice of pids. *)
Definition next_label (choose : mstate → Z) (m : mstate) : label :=
  match ph m with
  | Scan i =>
      match scan_entry i m with
      | Some d => if decide (skipped d) then Go else Fork (choose m)
      | None => Go
      end
  | _ => Go
  end.

Fixpoint exec (choose : mstate → Z) (n : nat) (m : mstate) : option mstate :=
  match n with
  | O => Some m
  | S n' => match step (next_label choose m) m with Some m' => exec choose n' m' | None => None end
  end.

(** ** The shape of the table *)

(** Every file can be opened, and the main process has a pid. *)
Context (Hopen : ∀ f, fopen_ok f = true) (Hself : 0 < self).

(** Entry [i] of the main process's table: itself first, then worker [i - 1]. *)
Definition entry_ok (i : nat) (d : proc_desc) : Prop :=
  is_Some (flog d) ∧ 0 < pd_pid d ∧
  if decide (i = 0%nat) then pd_pid d = self ∧ ptype d = PROC_TYPE_MAIN
  else ptype d = PROC_TYPE_WORKER ∧ pd_id d = Z.of_nat i - 1.

Definition table_ok (c : nat) (t : table) : Prop :=
  length (ppd t) = PPD_SIZE ∧ proc_desc_cnt t = c ∧ (c <= PPD_SIZE)%nat ∧
  ∀ i d, ppd t !! i = Some d → if decide (i < c)%nat then entry_ok i d else pd_pid d = 0.

(** No two entries in use have the same pid. *)
Definition pids_ok (t : table) : Prop := ∀ i j d e,
  ppd t !! i = Some d → ppd t !! j = Some e → pd_pid d = pd_pid e → pd_pid d ≠ 0 → i = j.

Lemma table_ok_get c t i d : table_ok c t → (i < c)%nat → ppd t !! i = Some d → entry_ok i d.
Proof. intros (_ & _ & _ & Hall) Hi Hd. specialize (Hall i d Hd). by rewrite decide_True in Hall. Qed.

Lemma table_ok_lt c t i d : table_ok c t → ppd t !! i = Some d → pd_pid d ≠ 0 → (i < c)%nat.
Proof. intros (_ & _ & _ & Hall) Hd Hp. specialize (Hall i d Hd). by case_decide. Qed.

Lemma get_proc_desc_Some pid t i :
  get_proc_desc pid t = Some i →
  ∃ d, ppd t !! i = Some d ∧ pd_pid d = pid ∧ ∀ j e, ppd t !! j = Some e → (j < i)%nat → pd_pid e ≠ pid.
Proof.
  unfold get_proc_desc. destruct (list_find _ _) as [[k d]|] eqn:E; [|done]. intros [= <-].
  apply list_find_Some in E as (? & ? & ?). exists d. split; [done|]. split; [done|]. naive_solver.
Qed.

Lemma get_proc_desc_None pid t : get_proc_desc pid t = None ↔ pid ∉ pids t.
Proof.
  unfold get_proc_desc, pids. destruct (list_find _ _) as [[k d]|] eqn:E; split; try done.
  - intros Hn. apply list_find_Some in E as (Hk & <- & _). destruct Hn.
    apply list_elem_of_fmap. exists d. split; [done|]. by eapply list_elem_of_lookup_2.
  - intros _ Hin. apply list_elem_of_fmap in Hin as (d & -> & Hd). apply list_find_None in E.
    rewrite Forall_forall in E. by apply (E d).
Qed.

(** With distinct pids the search finds the entry. *)
Lemma get_proc_desc_entry t i d :
  pids_ok t → ppd t !! i = Some d → pd_pid d ≠ 0 → get_proc_desc (pd_pid d) t = Some i.
Proof.
  intros Hok Hd Hp. destruct (get_proc_desc (pd_pid d) t) as [j|] eqn:E.
  - apply get_proc_desc_Some in E as (e & He & Hpe & _). f_equal. symmetry. by eapply (Hok i j).
  - apply get_proc_desc_None in E. destruct E. apply list_elem_of_fmap. exists d. split; [done|].
    by eapply list_elem_of_lookup_2.
Qed.

(** *** Logging and the handler keep the shape *)

(** An entry without the flag the handler sets. *)
Definition strip (d : proc_desc) : proc_desc := mk_pd (pd_id d) (flog d) (pd_pid d) (ptype d) false.

(** [t'] differs from [t] at most in flags and files. *)
Definition same_table (t t' : table) : Prop :=
  strip <$> ppd t' = strip <$> ppd t ∧ proc_desc_cnt t' = proc_desc_cnt t.

#[global] Instance same_table_equiv : Equivalence same_table.
Proof.
  split; unfold same_table; [by intros t|by intros t t' [-> ->]|].
  by intros t1 t2 t3 [-> ->] [-> ->].
Qed.

Lemma same_table_lookup t t' i d' :
  same_table t t' → ppd t' !! i = Some d' → ∃ d, ppd t !! i = Some d ∧ strip d' = strip d.
Proof.
  intros [Hs _] Hd'. assert ((strip <$> ppd t) !! i = Some (strip d')) as H.
  { by rewrite <- Hs, list_lookup_fmap, Hd'. }
  rewrite list_lookup_fmap in H. destruct (ppd t !! i) as [d|]; [|done]. exists d. split; [done|]. symmetry. by apply (inj Some).
Qed.

Lemma strip_eq d d' :
  strip d' = strip d → pd_id d' = pd_id d ∧ flog d' = flog d ∧ pd_pid d' = pd_pid d ∧ ptype d' = ptype d.
Proof. by intros [= -> -> -> ->]. Qed.

Lemma entry_ok_strip i d d' : strip d' = strip d → entry_ok i d → entry_ok i d'.
Proof. intros (E1 & E2 & E3 & E4)%strip_eq. unfold entry_ok. by rewrite E1, E2, E3, E4. Qed.

Lemma table_ok_same c t t' : same_table t t' → table_ok c t → table_ok c t'.
Proof.
  intros Hs (Hl & Hc & Hle & Hall). pose proof Hs as [Hs1 Hs2]. unfold table_ok; conjs; [|congruence|done|].
  - by rewrite <- (length_fmap strip), Hs1, length_fmap.
  - intros i d' Hd'. destruct (same_table_lookup t t' i d' Hs Hd') as (d & Hd & E). specialize (Hall i d Hd).
    case_decide; [by eapply entry_ok_strip|]. apply strip_eq in E as (_ & _ & -> & _). done.
Qed.

Lemma pids_ok_same t t' : same_table t t' → pids_ok t → pids_ok t'.
Proof.
  intros Hs Hok i j d' e' Hd He Hp Hz.
  destruct (same_table_lookup t t' i d' Hs Hd) as (d & Hd0 & (_ & _ & Ed & _)%strip_eq).
  destruct (same_table_lookup t t' j e' Hs He) as (e & He0 & (_ & _ & Ee & _)%strip_eq).
  eapply (Hok i j); [done..| |]; congruence.
Qed.

Lemma pids_same t t' : same_table t t' → pids t' = pids t.
Proof.
  intros [Hs _]. unfold pids. apply (f_equal (map pd_pid)) in Hs. 
  change (map pd_pid (map strip (ppd t')) = map pd_pid (map strip (ppd t))) in Hs.
  rewrite !map_map in Hs. exact Hs.
Qed.

(** The main process finds itself at entry 0. *)
Lemma get_self c t : table_ok c t → (0 < c)%nat → get_proc_desc self t = Some 0%nat.
Proof.
  intros Hok Hc. pose proof Hok as (Hl & _). destruct (ppd t) as [|d l] eqn:E; [done|].
  assert (ppd t !! 0%nat = Some d) as Hd by (by rewrite E).
  destruct (table_ok_get c t 0 d Hok Hc Hd) as (_ & _ & Hp). rewrite decide_True in Hp by done.
  unfold get_proc_desc. rewrite E. cbn. by rewrite decide_True by tauto.
Qed.

Lemma log_self c t src :
  table_ok c t → (0 < c)%nat → ∃ t', log_ self src t = Some (0, t') ∧ ppd t' = ppd t ∧ proc_desc_cnt t' = proc_desc_cnt t.
Proof.
  intros Hok Hc. unfold log_. rewrite (get_self c) by done.
  destruct (lookup_lt_is_Some_2 (ppd t) 0) as [d Hd]; [destruct Hok as (-> & _); unfold PPD_SIZE; lia|].
  destruct (table_ok_get c t 0 d Hok Hc Hd) as ([f Hf] & _). rewrite Hd. destruct d. cbn in Hf. subst.
  eexists. by conjs.
Qed.

(** Before it registers, a process has no log. *)
Lemma log_unregistered pid src t : pid ∉ pids t → log_ pid src t = Some (-1, t).
Proof. intros Hn. unfold log_. apply get_proc_desc_None in Hn. by rewrite Hn. Qed.

(** The handler takes a suffix of the children to report, and keeps the shape; it
    sets the flag of those it took only. *)
Lemma SIGCHLD_handler_spec c zs t :
  table_ok c t → (0 < c)%nat →
  ∃ zs' t', SIGCHLD_handler self zs t = Some (zs', t') ∧ same_table t t' ∧ (∃ l, zs = l ++ zs') ∧
    ∀ i d d', ppd t !! i = Some d → ppd t' !! i = Some d' → pd_pid d ∉ zs → d' = d.
Proof.
  revert t. induction zs as [|p zs IH]; intros t Hok Hc; cbn [SIGCHLD_handler].
  { exists [], t. conjs; [done..|by exists []|]. intros; congruence. }
  destruct (get_proc_desc p t) as [k|] eqn:Ek; [|exists zs, t; conjs; [done..|by exists [p]|]; intros; congruence].
  set (t1 := mk_table (alter _ k (ppd t)) _ _ _).
  assert (same_table t t1) as Hs1.
  { split; [|done]. apply list_eq. intros i. cbn. rewrite !list_lookup_fmap.
    destruct (decide (i = k)) as [->|]; [|by rewrite list_lookup_alter_ne by done].
    rewrite list_lookup_alter_eq. by destruct (ppd t !! k). }
  destruct (log_self c t1 ("Worker #" +:+ pretty (default 0 (pd_id <$> ppd t !! k)) +:+ " crashed. Pid=" +:+ pretty p))
    as (t2 & -> & Hp2 & Hc2); [by eapply table_ok_same|done|].
  assert (same_table t t2) as Hs2 by (etransitivity; [exact Hs1|split; congruence]).
  destruct (IH t2) as (zs' & t' & E & Hs & [l ->] & Hsame); [by eapply table_ok_same|done|].
  exists zs', t'. conjs; [done|by etransitivity|by exists (p :: l)|].
  intros i d d' Hd Hd' Hn. apply (Hsame i d d'); [|done|set_solver].
  rewrite Hp2. cbn. destruct (decide (i = k)) as [->|]; [|by rewrite list_lookup_alter_ne].
  apply get_proc_desc_Some in Ek as (e & He & Hpe & _). set_solver.
Qed.

(** *** Registration *)

Definition registered (pid ty id : Z) : proc_desc := mk_pd id (Some (log_file ty pid)) pid ty false.

Lemma register_new c t pid ty id :
  table_ok c t → (c < PPD_SIZE)%nat → pid ∉ pids t →
  ∃ t', register_new_process pid ty id 0 t = Some (Some c, t') ∧
    ppd t' = <[c := registered pid ty id]> (ppd t) ∧ proc_desc_cnt t' = S c ∧
    pid_files t' = {[pid_file ty pid]} ∪ pid_files t.
Proof.
  intros (Hl & Hcnt & Hle & _) Hc Hn. unfold register_new_process.
  rewrite decide_False by (intros Hz; by apply Hz). apply get_proc_desc_None in Hn. rewrite Hn.
  rewrite decide_False by (intros [??]; done). rewrite Hcnt, decide_True by lia. rewrite !Hopen.
  eexists. by conjs.
Qed.

Lemma register_replace t i d pid ty id :
  pids_ok t → ppd t !! i = Some d → pd_pid d ≠ 0 →
  ∃ t', register_new_process pid ty id (pd_pid d) t = Some (Some i, t') ∧
    ppd t' = <[i := registered pid ty id]> (ppd t) ∧ proc_desc_cnt t' = proc_desc_cnt t ∧
    pid_files t' = {[pid_file ty pid]} ∪ pid_files t.
Proof.
  intros Hok Hd Hp. unfold register_new_process. rewrite decide_True by done.
  rewrite (get_proc_desc_entry t i d) by done. apply lookup_lt_Some in Hd.
  rewrite decide_True by done. rewrite !Hopen. eexists. by conjs.
Qed.

(** Registering twice changes nothing. *)
Lemma register_again c t ty id :
  table_ok c t → (0 < c)%nat → register_new_process self ty id 0 t = Some (None, t).
Proof.
  intros Hok Hc. unfold register_new_process. rewrite decide_False by (intros Hz; by apply Hz).
  rewrite (get_self c) by done. by rewrite decide_True by eauto.
Qed.

Lemma table_ok_insert c c' t t' i pid ty id :
  table_ok c t → ppd t' = <[i := registered pid ty id]> (ppd t) → proc_desc_cnt t' = c' →
  ((i < c)%nat ∧ c' = c ∨ i = c ∧ c' = S c ∧ (c < PPD_SIZE)%nat) →
  entry_ok i (registered pid ty id) → table_ok c' t'.
Proof.
  intros (Hl & Hcnt & Hle & Hall) Hp Hc Hi Hok. unfold table_ok. rewrite Hp. conjs; [by rewrite length_insert|done|lia|].
  intros j e He. apply list_lookup_insert_Some in He as [(<- & <- & _)|[Hne He]].
  - by rewrite decide_True by lia.
  - specialize (Hall j e He). destruct (decide (j < c)%nat); [rewrite decide_True by lia|rewrite decide_False by lia]; done.
Qed.

Lemma pids_ok_insert t t' i pid ty id :
  pids_ok t → pid ∉ pids t → ppd t' = <[i := registered pid ty id]> (ppd t) → pids_ok t'.
Proof.
  intros Hok Hn Hp.
  assert (∀ j e, ppd t !! j = Some e → pd_pid e ≠ pid) as Hne.
  { intros j e He <-. destruct Hn. apply list_elem_of_fmap. exists e. split; [done|]. by eapply list_elem_of_lookup_2. }
  intros j k d e. rewrite Hp.
  intros [(<- & <- & _)|[? Hd]]%list_lookup_insert_Some [(<- & <- & _)|[? He]]%list_lookup_insert_Some Hpe Hz;
    [done| | |by eapply Hok]; exfalso; [by eapply Hne|by eapply (Hne j)].
Qed.

Lemma entry_ok_self ty id : ty = PROC_TYPE_MAIN → entry_ok 0 (registered self ty id).
Proof. intros ->. unfold entry_ok. cbn. conjs; [by eexists|done|done]. Qed.

Lemma entry_ok_worker i pid id :
  (0 < i)%nat → 0 < pid → id = Z.of_nat i - 1 → entry_ok i (registered pid PROC_TYPE_WORKER id).
Proof. intros Hi Hp ->. unfold entry_ok. rewrite decide_False by lia. cbn. conjs; [by eexists|done|done|done]. Qed.

(** *** The invariant of the main process *)

Definition inv (m : mstate) : Prop :=
  match ph m with
  | Start k => (k <= WORKER_NUM)%nat ∧ table_ok (if decide (k = 0%nat) then 0 else S k) (tab m) ∧ pids_ok (tab m)
  | Forked k r => (k < WORKER_NUM)%nat ∧ table_ok (S k) (tab m) ∧ pids_ok (tab m) ∧ 0 < r ∧ r ∉ pids (tab m)
  | Scan i => (i <= S WORKER_NUM)%nat ∧ table_ok (S WORKER_NUM) (tab m) ∧ pids_ok (tab m)
  | Reforked i r => (0 < i <= WORKER_NUM)%nat ∧ table_ok (S WORKER_NUM) (tab m) ∧ pids_ok (tab m) ∧
                    0 < r ∧ r ∉ pids (tab m)
  | AsWorker _ => table_ok (S WORKER_NUM) (tab m)
  | Exited => ∃ c, (c <= S WORKER_NUM)%nat ∧ table_ok c (tab m)
  | Crashed => False
  end.

Lemma inv_init m : main_init m → inv m.
Proof.
  intros ->. unfold inv. cbn [ph tab]. rewrite decide_True by done.
  assert (∀ i d, ppd table_init !! i = Some d → pd_pid d = 0) as H0.
  { intros i d [-> _]%lookup_replicate. done. }
  conjs; [unfold WORKER_NUM; lia| |intros i j d e Hd _ _ Hz; destruct Hz; by eapply H0].
  unfold table_ok. conjs; [done|done|lia|]. intros i d Hd. rewrite decide_False by lia. by eapply H0.
Qed.

(** Registering worker [k]. *)
Lemma register_worker k r t :
  (k < WORKER_NUM)%nat → table_ok (S k) t → pids_ok t → 0 < r → r ∉ pids t →
  ∃ t', register_new_process r PROC_TYPE_WORKER (Z.of_nat k) 0 t = Some (Some (S k), t') ∧
    table_ok (S (S k)) t' ∧ pids_ok t'.
Proof.
  unfold WORKER_NUM. intros Hk Ht Hp Hr Hn.
  destruct (register_new (S k) t r PROC_TYPE_WORKER (Z.of_nat k)) as (t' & E & Hpp & Hc & _);
    [done|unfold PPD_SIZE, WORKER_NUM; lia|done|].
  exists t'. conjs; [done| |by eapply pids_ok_insert].
  eapply table_ok_insert; [exact Ht|done|done|unfold PPD_SIZE, WORKER_NUM; lia|].
  apply entry_ok_worker; lia.
Qed.

(** Replacing worker [i - 1]. *)
Lemma replace_worker i d r t :
  (0 < i <= WORKER_NUM)%nat → table_ok (S WORKER_NUM) t → pids_ok t → ppd t !! i = Some d → 0 < r →
  ∃ t', register_new_process r PROC_TYPE_WORKER (pd_id d) (pd_pid d) t = Some (Some i, t') ∧
    ppd t' = <[i := registered r PROC_TYPE_WORKER (pd_id d)]> (ppd t) ∧
    table_ok (S WORKER_NUM) t' ∧ (r ∉ pids t → pids_ok t').
Proof.
  intros Hi Ht Hp Hd Hr.
  destruct (table_ok_get _ t i d Ht ltac:(lia) Hd) as (_ & Hpd & Hok). rewrite decide_False in Hok by lia.
  destruct (register_replace t i d r PROC_TYPE_WORKER (pd_id d)) as (t' & E & Hpp & Hc & _); [done|done|lia|].
  exists t'. conjs; [done|done| |intros; by eapply pids_ok_insert].
  eapply (table_ok_insert (S WORKER_NUM) (S WORKER_NUM) t t' i); [done|done| |left; lia|apply entry_ok_worker; [lia|done|tauto]].
  rewrite Hc. apply Ht.
Qed.

(** A log entry leaves the entries alone. *)
Definition same_entries (t t' : table) : Prop := ppd t' = ppd t ∧ proc_desc_cnt t' = proc_desc_cnt t.

Lemma same_entries_table t t' : same_entries t t' → same_table t t'.
Proof. intros [Hp Hc]. split; [by rewrite Hp|done]. Qed.

Lemma then_log_unregistered src p m : self ∉ pids (tab m) → then_log src p m = goto p m.
Proof. intros Hn. unfold then_log. by rewrite log_unregistered. Qed.

Lemma then_log_self c m src p :
  table_ok c (tab m) → (0 < c)%nat →
  ∃ t, then_log src p m = mk_m p t (alive m) (zombies m) ∧ same_entries (tab m) t.
Proof.
  intros Ht Hc. unfold then_log. destruct (log_self c (tab m) src Ht Hc) as (t & -> & Hp & Hcnt).
  by exists t.
Qed.

(** The part of the loop after a fork of worker [k]. *)
Lemma after_fork_ok k r m :
  inv m → ph m = Start k → (k < WORKER_NUM)%nat → fresh r m →
  ∃ t, after_fork k r m = mk_m (Forked k r) t ({[r]} ∪ alive m) (zombies m) ∧
    table_ok (S k) t ∧ pids_ok t ∧ (k ≠ 0%nat → same_entries (tab m) t) ∧
    (k = 0%nat → pids t = <[0%nat := self]> (pids (tab m))).
Proof.
  intros Hinv Hph Hk (Hr & Hne & _ & _ & Hn). unfold inv in Hinv. rewrite Hph in Hinv. destruct Hinv as (_ & Ht & Hp).
  unfold after_fork. set (m1 := spawn r m). change (tab m) with (tab m1) in *.
  destruct (decide (k = 0%nat)) as [->|Hk0].
  - assert (self ∉ pids (tab m1)) as Hs.
    { destruct Ht as (_ & _ & _ & Hall). intros (e & -> & He)%list_elem_of_fmap.
      apply list_elem_of_lookup_1 in He as [j He]. specialize (Hall j e He). rewrite decide_False in Hall by lia. lia. }
    rewrite then_log_unregistered by done. unfold seq_m at 2. cbn [crashed goto ph].
    destruct (register_new 0 (tab m1) self PROC_TYPE_MAIN (Z.of_nat 0)) as (t1 & E & Hpp & Hc & _);
      [done|unfold PPD_SIZE; lia|done|].
    unfold then_register. cbn [tab goto]. rewrite E.
    assert (table_ok 1 t1) as Ht1.
    { eapply (table_ok_insert 0 1); [done..|right; unfold PPD_SIZE; lia|by apply entry_ok_self]. }
    unfold seq_m. cbn [crashed with_tab ph].
    destruct (then_log_self 1 (with_tab (Forked 0 r) t1 (goto (Forked 0 r) m1)) ("Just created child worker process #" +:+ pretty (Z.of_nat 0) +:+ " with pid=" +:+ pretty r +:+ ".") (Forked 0 r))
      as (t2 & -> & Hs2%same_entries_table); [done|lia|]. cbn [tab with_tab] in Hs2.
    exists t2. conjs; [done|by eapply table_ok_same|by eapply pids_ok_same, pids_ok_insert|done|].
    intros _. rewrite (pids_same _ _ Hs2). unfold pids. rewrite Hpp. apply list_fmap_insert.
  - unfold seq_m at 2. cbn [crashed goto ph]. unfold then_register. cbn [tab goto].
    rewrite (register_again (S k)) by (done || lia). unfold seq_m. cbn [crashed with_tab ph].
    destruct (then_log_self (S k) (with_tab (Forked k r) (tab m1) (goto (Forked k r) m1)) ("Just created child worker process #" +:+ pretty (Z.of_nat k) +:+ " with pid=" +:+ pretty r +:+ ".") (Forked k r))
      as (t2 & -> & He2); [done|lia|]. cbn [tab with_tab] in He2. pose proof (same_entries_table _ _ He2) as Hs2.
    exists t2. conjs; [done|by eapply table_ok_same|by eapply pids_ok_same|done|done].
Qed.

(** In every phase in which the handler can run the table holds the main process. *)
Lemma inv_table m :
  inv m → match ph m with Start O | Exited | Crashed => True | _ => ∃ c, (0 < c)%nat ∧ table_ok c (tab m) end.
Proof.
  unfold inv. destruct (ph m) as [[|k]|k r|i|i r|id| |]; try done.
  - intros (_ & Ht & _). rewrite decide_False in Ht by done. (eexists; split; [|exact Ht]; lia).
  - intros (_ & Ht & _). (eexists; split; [|exact Ht]; lia).
  - intros (_ & Ht & _). unfold WORKER_NUM in Ht. (eexists; split; [|exact Ht]; lia).
  - intros (_ & Ht & _). unfold WORKER_NUM in Ht. (eexists; split; [|exact Ht]; lia).
  - intros Ht. unfold WORKER_NUM in Ht. (eexists; split; [|exact Ht]; lia).
Qed.

Lemma inv_same m t a z : inv m → same_table (tab m) t → inv (mk_m (ph m) t a z).
Proof.
  unfold inv. cbn [ph tab]. intros Hinv Hs. rewrite (pids_same _ _ Hs). destruct (ph m) as [k|k r|i|i r|id| |].
  all: try (destruct Hinv as [c Hinv]; exists c).
  all: repeat match goal with H : _ ∧ _ |- _ => destruct H end; conjs; try done.
  all: first [by eapply table_ok_same|by eapply pids_ok_same].
Qed.

Lemma inv_fork r m m' : inv m → step (Fork r) m = Some m' → inv m'.
Proof.
  intros Hinv. cbn [step]. destruct (decide (r = -1 ∨ fresh r m)) as [Hr|]; [|done].
  assert (r ≠ -1 → fresh r m) as Hfr by tauto.
  destruct (ph m) as [k| |i| | | |] eqn:Hph; try done.
  - pose proof Hinv as Hi. unfold inv in Hi. rewrite Hph in Hi. destruct Hi as (Hk & Ht & Hp).
    destruct (decide (k < WORKER_NUM)%nat) as [Hlt|Hge].
    + intros [= <-]. destruct (decide (r = -1)) as [->|Hne].
      * unfold inv. cbn [goto ph tab]. eexists. split; [|exact Ht]. unfold WORKER_NUM in *. case_decide; lia.
      * destruct (after_fork_ok k r m Hinv Hph Hlt (Hfr Hne)) as (t & -> & Ht' & Hp' & Hs & Hs0).
        destruct (Hfr Hne) as (? & ? & _ & _ & Hn). unfold inv. cbn [ph tab]. conjs; [done..|].
        destruct (decide (k = 0%nat)) as [->|Hk0]; [|by rewrite (pids_same _ _ (same_entries_table _ _ (Hs Hk0)))].
        rewrite (Hs0 eq_refl). intros (j & Hj)%list_elem_of_lookup_1. apply list_lookup_insert_Some in Hj as [(_ & ? & _)|[_ Hj]]; [done|].
        destruct Hn. by eapply list_elem_of_lookup_2.
    + intros [= <-]. assert (k = WORKER_NUM) as -> by lia. rewrite decide_False in Ht by done.
      set (m1 := if decide (r = -1) then m else spawn r m).
      assert (tab m1 = tab m) as E by (unfold m1; by case_decide).
      destruct (then_log_self (S WORKER_NUM) m1 ("Just created WatchDog process with pid=" +:+ pretty r +:+ ".") (Scan 0))
        as (t & -> & Hs%same_entries_table); [by rewrite E|lia|]. rewrite E in Hs.
      unfold inv. cbn [ph tab]. conjs; [lia|by eapply table_ok_same|by eapply pids_ok_same].
  - pose proof Hinv as Hi. unfold inv in Hi. rewrite Hph in Hi. destruct Hi as (Hi & Ht & Hp).
    destruct (scan_entry i m) as [d|] eqn:Hd; [|done]. destruct (decide (skipped d)) as [|Hsk]; [done|]. intros [= <-].
    unfold scan_entry in Hd. destruct (decide (i < proc_desc_cnt (tab m))%nat) as [Hic|]; [|done].
    assert (proc_desc_cnt (tab m) = S WORKER_NUM) as Hcnt by apply Ht. rewrite Hcnt in Hic.
    destruct (then_log_self (S WORKER_NUM) m ("Reforking worker #" +:+ pretty (pd_id d)) (Scan i)) as (t & -> & Hs%same_entries_table); [done|lia|].
    pose proof (table_ok_same _ _ _ Hs Ht) as Ht'. pose proof (pids_ok_same _ _ Hs Hp) as Hp'.
    unfold seq_m. cbn [crashed ph].
    destruct (table_ok_get _ _ i d Ht Hic Hd) as (Hfl & Hpd & Hok).
    assert (0 < i)%nat as Hi0.
    { destruct (decide (i = 0%nat)); [|lia]. destruct Hok as [_ Hty]. unfold skipped in Hsk. rewrite Hty in Hsk. by destruct Hsk; left. }
    destruct (decide (r = -1)) as [->|Hne].
    + destruct (lookup_lt_is_Some_2 (ppd t) i) as [d' Hd']; [destruct Ht' as (-> & _); unfold PPD_SIZE; lia|].
      destruct (same_table_lookup _ _ _ _ Hs Hd') as (d0 & Hd0 & (E1 & _ & E3 & _)%strip_eq).
      rewrite Hd in Hd0. injection Hd0 as <-. rewrite <- E1, <- E3.
      destruct (replace_worker i d' self t) as (t' & E & _ & Ht2 & _); [unfold WORKER_NUM in *; lia|done..|].
      unfold then_register. cbn [tab]. rewrite E. exact Ht2.
    + destruct (Hfr Hne) as (? & ? & _ & _ & Hn). unfold inv. cbn [ph tab goto spawn].
      rewrite (pids_same _ _ Hs). conjs; try done; lia.
Qed.

Lemma inv_go m m' : inv m → step Go m = Some m' → inv m'.
Proof.
  intros Hinv. cbn [step]. pose proof Hinv as Hi. unfold inv in Hi.
  destruct (ph m) as [|k r|i|i r| | |] eqn:Hph; try done.
  - destruct Hi as (Hk & Ht & Hp & Hr & Hn). intros [= <-].
    destruct (register_worker k r (tab m)) as (t & E & Ht' & Hp'); [done..|].
    unfold then_register. rewrite E. unfold inv. cbn [ph tab with_tab]. by rewrite decide_False by done.
  - destruct Hi as (Hi & Ht & Hp). assert (proc_desc_cnt (tab m) = S WORKER_NUM) as Hcnt by apply Ht. rewrite Hcnt.
    destruct (decide (i < S WORKER_NUM)%nat) as [Hlt|].
    + destruct (lookup_lt_is_Some_2 (ppd (tab m)) i) as [d Hd]; [destruct Ht as (-> & _); unfold PPD_SIZE; lia|].
      rewrite Hd. destruct (decide (skipped d)); [|done]. intros [= <-]. unfold inv. cbn [ph tab goto]. conjs; [lia|done..].
    + intros [= <-]. unfold inv. cbn [ph tab goto]. conjs; [lia|done..].
  - destruct Hi as (Hi & Ht & Hp & Hr & Hn).
    destruct (lookup_lt_is_Some_2 (ppd (tab m)) i) as [d Hd]; [destruct Ht as (-> & _); unfold PPD_SIZE; lia|].
    rewrite Hd. intros [= <-]. destruct (replace_worker i d r (tab m)) as (t & E & _ & Ht' & Hp'); [done..|].
    unfold then_register. rewrite E. unfold inv. cbn [ph tab with_tab]. conjs; [lia|done|by apply Hp'].
Qed.

Lemma main_inv_step l m m' : inv m → step l m = Some m' → inv m'.
Proof.
  destruct l as [r| |p|]; [apply inv_fork|apply inv_go| |]; intros Hinv; cbn [step].
  - case_decide; [|done]. intros [= <-]. by apply inv_same.
  - intros H. pose proof (inv_table m Hinv) as Ht.
    assert (match SIGCHLD_handler self (zombies m) (tab m) with
            | Some (z, t) => Some (mk_m (ph m) t (alive m) z) | None => Some (goto Crashed m) end = Some m' ∧
            ∃ c, (0 < c)%nat ∧ table_ok c (tab m)) as [E (c & Hc & Hok)] by (by destruct (ph m) as [[|]| | | | | |]).
    destruct (SIGCHLD_handler_spec c (zombies m) (tab m) Hok Hc) as (z & t & Eh & Hs & _). rewrite Eh in E.
    injection E as <-. by apply inv_same.
Qed.

Lemma reachable_inv m : reachable step main_init m → inv m.
Proof. apply reachable_ind; [apply inv_init|]. intros l s s'. apply main_inv_step. Qed.

(** ** A scan without deaths *)

(** Entry [i] of [t'] against the one of [t] before the scan reached it: replaced
    when it had died. *)
Definition reforked (d d' : proc_desc) : Prop :=
  if decide (skipped d) then strip d' = strip d ∧ died d' = died d
  else died d' = false ∧ ptype d' = PROC_TYPE_WORKER ∧ pd_id d' = pd_id d ∧ pd_pid d' ≠ pd_pid d.

(** One entry takes at most two steps. *)
Lemma scan_one choose i m d :
  (∀ m, fresh (choose m) m) → inv m → ph m = Scan i → (i < S WORKER_NUM)%nat → ppd (tab m) !! i = Some d →
  ∃ n m', (n <= 2)%nat ∧ exec choose n m = Some m' ∧ ph m' = Scan (S i) ∧
    (∃ d', ppd (tab m') !! i = Some d' ∧ reforked d d') ∧
    ∀ j, j ≠ i → ppd (tab m') !! j = ppd (tab m) !! j.
Proof.
  intros Hch Hinv Hph Hi Hd. pose proof Hinv as Hv. unfold inv in Hv. rewrite Hph in Hv. destruct Hv as (_ & Ht & Hp).
  assert (proc_desc_cnt (tab m) = S WORKER_NUM) as Hcnt by apply Ht.
  assert (scan_entry i m = Some d) as Hse by (unfold scan_entry; by rewrite Hcnt, decide_True).
  destruct (decide (skipped d)) as [Hsk|Hsk].
  - exists 1%nat, (goto (Scan (S i)) m). cbn [exec]. unfold next_label. rewrite Hph, Hse, decide_True by done.
    cbn [step]. rewrite Hph, Hcnt, decide_True, Hd, decide_True by done.
    conjs; [lia|done|done| |done]. exists d. split; [done|]. unfold reforked. by rewrite decide_True.
  - destruct (table_ok_get _ _ i d Ht Hi Hd) as (_ & Hpd & Hok).
    assert (0 < i)%nat as Hi0.
    { destruct (decide (i = 0%nat)); [|lia]. destruct Hok as [_ Hty]. unfold skipped in Hsk. rewrite Hty in Hsk. by destruct Hsk; left. }
    set (r := choose m). pose proof (Hch m) as Hfr. fold r in Hfr. pose proof Hfr as (Hr & Hrs & _ & _ & Hn).
    destruct (log_self (S WORKER_NUM) (tab m) ("Reforking worker #" +:+ pretty (pd_id d)) Ht ltac:(lia)) as (t & El & Hpt & Hct).
    assert (same_table (tab m) t) as Hs by (split; congruence).
    assert (ppd t !! i = Some d) as Hdt by (by rewrite Hpt).
    destruct (replace_worker i d r t) as (t' & E & Hpp & _ & _);
      [lia|by eapply table_ok_same|by eapply pids_ok_same|done|done|].
    exists 2%nat, (mk_m (Scan (S i)) t' ({[r]} ∪ alive m) (zombies m)). cbn [exec].
    assert (next_label choose m = Fork r) as ->.
    { unfold next_label. by rewrite Hph, Hse, decide_False. }
    assert (step (Fork r) m = Some (mk_m (Reforked i r) t ({[r]} ∪ alive m) (zombies m))) as ->.
    { cbn [step]. rewrite decide_True by (by right). rewrite Hph, Hse, decide_False by done. unfold then_log. rewrite El.
      unfold seq_m. cbn [crashed with_tab ph]. by rewrite decide_False by lia. }
    unfold next_label. cbn [ph step tab]. rewrite Hdt. unfold then_register. cbn [tab]. rewrite E.
    conjs; [lia|done|done| |].
    + exists (registered r PROC_TYPE_WORKER (pd_id d)). cbn [tab]. rewrite Hpp.
      split; [apply list_lookup_insert_eq; by eapply lookup_lt_Some|].
      unfold reforked. rewrite decide_False by done. conjs; try done. cbn. intros ->. destruct Hn.
      apply list_elem_of_fmap. exists d. split; [done|]. by eapply list_elem_of_lookup_2.
    + intros j Hj. cbn [tab]. by rewrite Hpp, list_lookup_insert_ne, Hpt by done.
Qed.

Lemma exec_app choose n1 n2 m m1 : exec choose n1 m = Some m1 → exec choose (n1 + n2) m = exec choose n2 m1.
Proof.
  revert m. induction n1 as [|n1 IH]; intros m; cbn [exec Nat.add]; [by intros [= <-]|].
  destruct (step _ m); [apply IH|done].
Qed.

Lemma exec_inv choose n m m' : inv m → exec choose n m = Some m' → inv m'.
Proof.
  revert m. induction n as [|n IH]; intros m Hinv; cbn [exec]; [by intros [= <-]|].
  destruct (step _ m) as [m1|] eqn:E; [|done]. apply IH. by eapply main_inv_step.
Qed.

(** The rest of a scan. *)
Lemma scan_rest choose k i m :
  (∀ m, fresh (choose m) m) → inv m → ph m = Scan i → (i + k = S WORKER_NUM)%nat →
  ∃ n m', (n <= 2 * k)%nat ∧ exec choose n m = Some m' ∧ ph m' = Scan (S WORKER_NUM) ∧
    (∀ j d, (i <= j < S WORKER_NUM)%nat → ppd (tab m) !! j = Some d → ∃ d', ppd (tab m') !! j = Some d' ∧ reforked d d') ∧
    ∀ j, ¬ (i <= j < S WORKER_NUM)%nat → ppd (tab m') !! j = ppd (tab m) !! j.
Proof.
  intros Hch. revert i m. induction k as [|k IH]; intros i m Hinv Hph Hik.
  { exists 0%nat, m. conjs; [lia|done|rewrite Hph; f_equal; lia|intros; lia|done]. }
  pose proof Hinv as Hv. unfold inv in Hv. rewrite Hph in Hv. destruct Hv as (_ & (Hl & _) & _).
  destruct (lookup_lt_is_Some_2 (ppd (tab m)) i) as [d Hd]; [unfold PPD_SIZE in Hl; lia|].
  destruct (scan_one choose i m d) as (n1 & m1 & Hn1 & E1 & Hph1 & (d1 & Hd1 & Hr1) & Hoth1); [done..|lia|done|].
  destruct (IH (S i) m1) as (n2 & m2 & Hn2 & E2 & Hph2 & Hin2 & Hoth2); [by eapply exec_inv|done|lia|].
  exists (n1 + n2)%nat, m2. conjs; [lia|by rewrite (exec_app _ _ _ _ _ E1)|done| |].
  - intros j e Hj He. destruct (decide (j = i)) as [->|Hne].
    + exists d1. rewrite Hd in He. injection He as <-. split; [|done]. rewrite Hoth2 by lia. done.
    + apply Hin2; [lia|]. rewrite Hoth1 by done. done.
  - intros j Hj. rewrite Hoth2, Hoth1 by lia. done.
Qed.

(** ** A worker whose death was missed *)

(** Worker entry [i] is taken for running, but its process [p] is gone, has been
    reported, and the entry is not being replaced. *)
Definition lost (i : nat) (p : Z) (m : mstate) : Prop :=
  (∃ d, ppd (tab m) !! i = Some d ∧ pd_pid d = p ∧ died d = false) ∧
  0 < p ∧ ¬ (p ∈ alive m) ∧ ¬ (p ∈ zombies m) ∧ ∀ r, ph m ≠ Reforked i r.

Lemma lost_in_table i p m : lost i p m → p ∈ pids (tab m).
Proof.
  intros ((d & Hd & Hp & _) & _). apply list_elem_of_fmap. exists d. split; [done|]. by eapply list_elem_of_lookup_2.
Qed.

(** The entry survives a step that keeps it, gives no process its pid, and does
    not start to replace it. *)
Lemma lost_keep i p m m' :
  lost i p m → ppd (tab m') !! i = ppd (tab m) !! i →
  (p ∈ alive m' → p ∈ alive m) → (p ∈ zombies m' → p ∈ zombies m ∨ p ∈ alive m) →
  (∀ r, ph m' ≠ Reforked i r) → lost i p m'.
Proof. intros ((d & Hd & ? & ?) & ? & ? & ? & ?) He Ha Hz Hr. split; [exists d; by rewrite He|]. conjs; tauto. Qed.

(** A step that leaves the table and the children alone. *)
Ltac lost_here i p m :=
  apply (lost_keep i p m); cbn [tab alive zombies ph goto]; [done|done|tauto|tauto|done].

Lemma lost_fork i p r m m' : inv m → lost i p m → step (Fork r) m = Some m' → lost i p m'.
Proof.
  intros Hinv Hlost. pose proof (lost_in_table i p m Hlost) as Hin. cbn [step].
  destruct (decide (r = -1 ∨ fresh r m)) as [Hr|]; [|done].
  assert (r ≠ -1 → fresh r m ∧ r ≠ p) as Hfr.
  { intros Hne. assert (fresh r m) as Hf by tauto. split; [done|]. intros ->. by apply Hf. }
  destruct (ph m) as [k| |j| | | |] eqn:Hph; try done; pose proof Hinv as Hi; unfold inv in Hi; rewrite Hph in Hi.
  - destruct Hi as (Hk & Ht & Hp). destruct (decide (k < WORKER_NUM)%nat) as [Hlt|Hge]; intros [= <-].
    + destruct (decide (r = -1)) as [->|Hne]; [lost_here i p m|].
      destruct (Hfr Hne) as [Hfresh Hrp].
      destruct (after_fork_ok k r m Hinv Hph Hlt Hfresh) as (t & -> & _ & _ & Hs & _).
      destruct (decide (k = 0%nat)) as [->|Hk0].
      * destruct Hlost as ((d & Hd & <- & _) & Hpos & _). destruct Ht as (_ & _ & _ & Hall).
        specialize (Hall i d Hd). rewrite decide_False in Hall by lia. lia.
      * apply (lost_keep i p m); cbn [tab alive zombies ph]; [done|by rewrite (proj1 (Hs Hk0))|set_solver|tauto|done].
    + assert (k = WORKER_NUM) as -> by lia. rewrite decide_False in Ht by done.
      set (m1 := if decide (r = -1) then m else spawn r m).
      assert (tab m1 = tab m ∧ zombies m1 = zombies m ∧ (p ∈ alive m1 → p ∈ alive m)) as (E & Ez & Ea).
      { unfold m1. case_decide; [done|]. cbn. conjs; [done..|]. destruct (Hfr H); set_solver. }
      destruct (then_log_self (S WORKER_NUM) m1 ("Just created WatchDog process with pid=" +:+ pretty r +:+ ".") (Scan 0))
        as (t & -> & Hs); [by rewrite E|lia|]. rewrite E in Hs.
      apply (lost_keep i p m); cbn [tab alive zombies ph]; [done|by rewrite (proj1 Hs)|done|rewrite Ez; tauto|done].
  - destruct Hi as (Hi & Ht & Hp). destruct (scan_entry j m) as [d|] eqn:Hd; [|done].
    destruct (decide (skipped d)) as [|Hsk]; [done|]. intros [= <-].
    unfold scan_entry in Hd. destruct (decide (j < proc_desc_cnt (tab m))%nat) as [Hjc|]; [|done].
    assert (proc_desc_cnt (tab m) = S WORKER_NUM) as Hcnt by apply Ht. rewrite Hcnt in Hjc.
    assert (i ≠ j) as Hij.
    { intros ->. destruct Hlost as ((e & He & _ & Hdied) & _). apply Hsk. unfold skipped. right; right. congruence. }
    destruct (then_log_self (S WORKER_NUM) m ("Reforking worker #" +:+ pretty (pd_id d)) (Scan j)) as (t & -> & Hs); [done|lia|].
    unfold seq_m. cbn [crashed ph]. pose proof (same_entries_table _ _ Hs) as Hst. destruct Hs as [Hpt Hct].
    destruct (decide (r = -1)) as [->|Hne].
    + unfold then_register. cbn [tab]. destruct (register_replace t j d self PROC_TYPE_WORKER (pd_id d)) as (t' & -> & Hpp & _).
      { by eapply pids_ok_same. } { by rewrite Hpt. } { destruct (table_ok_get _ _ j d Ht Hjc Hd) as (_ & ? & _). lia. }
      apply (lost_keep i p m); cbn [tab alive zombies ph with_tab]; [done| |tauto|tauto|done].
      by rewrite Hpp, list_lookup_insert_ne, Hpt by done.
    + destruct (Hfr Hne) as [_ Hrp]. apply (lost_keep i p m); cbn [tab alive zombies ph goto spawn]; [done|by rewrite Hpt|set_solver|tauto|].
      intros r' [= ? _]. done.
Qed.

Lemma lost_go i p m m' : inv m → lost i p m → step Go m = Some m' → lost i p m'.
Proof.
  intros Hinv Hlost. cbn [step]. pose proof Hinv as Hi. unfold inv in Hi.
  destruct (ph m) as [|k r|j|j r| | |] eqn:Hph; try done.
  - destruct Hi as (Hk & Ht & Hp & Hr & Hn). intros [= <-].
    destruct (register_new (S k) (tab m) r PROC_TYPE_WORKER (Z.of_nat k)) as (t & E & Hpp & _);
      [done|unfold PPD_SIZE, WORKER_NUM in *; lia|done|].
    unfold then_register. rewrite E. apply (lost_keep i p m); cbn [tab alive zombies ph with_tab]; [done| |tauto|tauto|done].
    rewrite Hpp, list_lookup_insert_ne; [done|]. intros <-.
    destruct Hlost as ((d & Hd & <- & _) & Hpos & _). pose proof (table_ok_lt _ _ _ _ Ht Hd). lia.
  - destruct (decide _) as [Hlt|]; [|intros [= <-]; lost_here i p m].
    destruct (ppd (tab m) !! j) as [d|]; [|intros [= <-]; lost_here i p m].
    case_decide; [|done]. intros [= <-]. lost_here i p m.
  - destruct Hi as (Hi & Ht & Hp & Hr & Hn).
    destruct (lookup_lt_is_Some_2 (ppd (tab m)) j) as [d Hd]; [destruct Ht as (-> & _); unfold PPD_SIZE; lia|].
    rewrite Hd. intros [= <-]. destruct (replace_worker j d r (tab m)) as (t & E & Hpp & _); [done..|].
    unfold then_register. rewrite E. apply (lost_keep i p m); cbn [tab alive zombies ph with_tab]; [done| |tauto|tauto|done].
    rewrite Hpp, list_lookup_insert_ne; [done|]. intros ->. destruct Hlost as (_ & _ & _ & _ & Hnr). by eapply Hnr.
Qed.

Lemma lost_step i p l m m' : inv m → lost i p m → step l m = Some m' → lost i p m'.
Proof.
  destruct l as [r| |q|]; [apply lost_fork|apply lost_go| |]; intros Hinv Hlost; cbn [step].
  - case_decide as Hq; [|done]. intros [= <-]. pose proof Hlost as (_ & _ & Ha & Hz & Hr).
    apply (lost_keep i p m); cbn [tab alive zombies ph]; [done|done|set_solver| |done].
    intros [?|Hq']%elem_of_app; [by left|]. apply list_elem_of_singleton in Hq' as ->. by right.
  - intros H. pose proof (inv_table m Hinv) as Ht.
    assert (match SIGCHLD_handler self (zombies m) (tab m) with
            | Some (z, t) => Some (mk_m (ph m) t (alive m) z) | None => Some (goto Crashed m) end = Some m' ∧
            ∃ c, (0 < c)%nat ∧ table_ok c (tab m)) as [E (c & Hc & Hok)] by (by destruct (ph m) as [[|]| | | | | |]).
    destruct (SIGCHLD_handler_spec c (zombies m) (tab m) Hok Hc) as (z & t & Eh & Hs & [l Hl] & Hsame). rewrite Eh in E.
    injection E as <-. pose proof Hlost as ((d & Hd & Hp & _) & _ & _ & Hz & Hr).
    apply (lost_keep i p m); cbn [tab alive zombies ph]; [done| |done| |done].
    2: { rewrite Hl. intros ?. left. apply elem_of_app. by right. }
    destruct (lookup_lt_is_Some_2 (ppd t) i) as [d' Hd'].
    { destruct (table_ok_same _ _ _ Hs Hok) as (-> & _). destruct Hok as (<- & _). by eapply lookup_lt_Some. }
    rewrite Hd', Hd. f_equal. apply (Hsame i d d'); [done..|by rewrite Hp].
Qed.

(** ** Theorems *)


(** When no child dies meanwhile, a scan of the table ends within ten steps, and
    every worker that had died has been replaced by a new process with the same
    number, whatever pids the kernel chose; the other entries are untouched. *)
Theorem scan_reforks choose m :
  (∀ m, fresh (choose m) m) → reachable step main_init m → ph m = Scan 0 →
  ∃ n m', (n <= 10)%nat ∧ exec choose n m = Some m' ∧ ph m' = Scan 5 ∧
    ∀ i d, (i < 5)%nat → ppd (tab m) !! i = Some d → ∃ d', ppd (tab m') !! i = Some d' ∧ reforked d d'.
Proof.
  intros Hch Hinv%reachable_inv Hph.
  destruct (scan_rest choose (S WORKER_NUM) 0 m Hch Hinv Hph eq_refl) as (n & m' & Hn & E & Hph' & Hin & _).
  exists n, m'. conjs; [exact Hn|done|done|]. intros i d Hi. apply Hin. unfold WORKER_NUM. lia.
Qed.

(** A worker whose death was reported before it was registered is never
    replaced: in every continuation its entry keeps the dead process's pid, without
    the flag the scan looks for. *)
Theorem lost_worker_stays i p m m' :
  reachable step main_init m → lost i p m → rtc (lts step) m m' → lost i p m'.
Proof.
  intros Hinv%reachable_inv Hlost Hr. induction Hr as [|m1 m2 m3 [l ? ? Hl] _ IH]; [done|].
  apply IH; [by eapply main_inv_step|by eapply lost_step].
Qed.

End processes.

(** ** Smaller facts *)

(** After the hang-up signal the process goes on, but it has no log any more: the
    stream its next system calls print to is NULL. *)
Lemma hangup_loses_log pid t b t' :
  signal_handler pid SIGHUP t = Some (b, t') → pids_ok t → pid ≠ 0 →
  b = false ∧ get_log_stream pid t' = None.
Proof.
  cbn [signal_handler]. intros E Hok Hp.
  destruct (log_ pid "hangup signal catched" t) as [[z t1]|] eqn:E1; [|done].
  destruct (close_log pid t1) as [[z2 t2]|] eqn:E2; [|done]. injection E as <- <-. split; [done|].
  assert (∀ src t t' z, log_ pid src t = Some (z, t') → ppd t' = ppd t) as Hlog.
  { intros src u u' z0. unfold log_. destruct (get_proc_desc pid u); [|by intros [= _ <-]].
    destruct (ppd u !! n) as [[? [f|] ? ? ?]|]; [by intros [= _ <-]|done..]. }
  assert (ppd t2 = ppd t) as Hpp.
  { unfold close_log in E2. destruct (get_proc_desc pid t1); [|injection E2 as _ <-; by eapply Hlog].
    destruct (log_ pid _ t1) as [[z3 t3]|] eqn:E3; [|done].
    destruct (log_ pid _ t3) as [[z4 t4]|] eqn:E4; [|done]. injection E2 as _ <-.
    apply Hlog in E1, E3, E4. congruence. }
  unfold unregister_process. destruct (get_proc_desc pid t2) as [k|] eqn:Ek; cbn [snd].
  - unfold get_log_stream. replace (get_proc_desc pid _) with (@None nat); [done|]. symmetry.
    apply get_proc_desc_None. intros (e & Epid & He)%list_elem_of_fmap. cbn [ppd] in He.
    apply list_elem_of_lookup_1 in He as [j Hj].
    apply get_proc_desc_Some in Ek as (d & Hd & Hpd & _).
    destruct (decide (j = k)) as [->|Hne].
    + rewrite list_lookup_alter_eq, Hd in Hj. injection Hj as <-. done.
    + rewrite list_lookup_alter_ne in Hj by done. rewrite Hpp in Hj, Hd. apply Hne.
      eapply (Hok j k e d); congruence.
  - unfold get_log_stream. by rewrite Ek.
Qed.

(** Neither signal removes the pid file the process created. *)
Lemma signal_keeps_pid_file pid sig t b t' f :
  signal_handler pid sig t = Some (b, t') → f ∈ pid_files t → f ≠ pid_file PROC_TYPE_DEF pid → f ∈ pid_files t'.
Proof.
  intros E Hf Hne.
  assert (∀ src t t' z, log_ pid src t = Some (z, t') → pid_files t' = pid_files t) as Hlog.
  { intros src u u' z0. unfold log_. destruct (get_proc_desc pid u); [|by intros [= _ <-]].
    destruct (ppd u !! n) as [[? [g|] ? ? ?]|]; [by intros [= _ <-]|done..]. }
  assert (∀ u, f ∈ pid_files u → f ∈ pid_files (snd (unregister_process pid PROC_TYPE_DEF u))) as Hun.
  { intros u Hu. unfold unregister_process. destruct (get_proc_desc pid u); [|done]. cbn. set_solver. }
  assert (∀ msg r, match log_ pid msg t with
    | Some (_, t1) => match close_log pid t1 with
      | Some (_, t2) => Some (snd (unregister_process pid PROC_TYPE_DEF t2)) | None => None end
    | None => None end = Some r → f ∈ pid_files r) as Hsh.
  { intros msg r. destruct (log_ pid msg t) as [[z1 t1]|] eqn:E1; [|done].
    destruct (close_log pid t1) as [[z2 t2]|] eqn:E2; [|done]. intros [= <-]. apply Hun.
    unfold close_log in E2. destruct (get_proc_desc pid t1); [|injection E2 as _ <-; by rewrite (Hlog _ _ _ _ E1)].
    destruct (log_ pid _ t1) as [[z3 t3]|] eqn:E3; [|done].
    destruct (log_ pid _ t3) as [[z4 t4]|] eqn:E4; [|done]. injection E2 as _ <-.
    by rewrite (Hlog _ _ _ _ E4), (Hlog _ _ _ _ E3), (Hlog _ _ _ _ E1). }
  destruct sig; cbn [signal_handler] in E; [| |congruence];
    (match type of E with match ?x with _ => _ end = _ => destruct x as [r|] eqn:Er end; [|done]);
    injection E as _ <-; by eapply Hsh.
Qed.

(** A second instance does not start as long as the first one's pid file is there. *)
Lemma strip_prefix_app p s : strip_prefix p (p +:+ s) = Some s.
Proof. induction p as [|a p IH]; [done|]. unfold String.append; fold String.append; cbn. by rewrite decide_True. Qed.

Lemma has_word_pid s : has_word (s +:+ ".pid") = true.
Proof. induction s as [|c s IH]; [done|]. change (has_word (String c (s +:+ ".pid")) = true). cbn [has_word]. by destruct (blank c). Qed.

Lemma registered_main_runs t pid :
  pid_file PROC_TYPE_MAIN pid ∈ pid_files t → already_running t = true.
Proof.
  intros Hf. unfold already_running. apply existsb_exists. exists (pid_file PROC_TYPE_MAIN pid).
  split; [by apply list_elem_of_In, elem_of_elements|].
  unfold pid_file. rewrite strip_prefix_app. unfold matches_main, type_prefix. rewrite decide_True by done.
  rewrite strip_prefix_app. apply has_word_pid.
Qed.

(** The text for the log is printable, and fits a buffer of 4001 bytes. *)
Lemma helper_log_fix_str_ok src :
  ∃ l, helper_log_fix_str src = l ++ [0] ∧ Z.of_nat (length l) <= MAX_LEN_STR ∧ Forall (λ c, 33 <= c <= 126) l.
Proof.
  eexists. split; [reflexivity|].
  assert (∀ n src, (length (helper_log_fix_loop n src) <= n)%nat ∧
    Forall (λ c, 33 <= c <= 126) (helper_log_fix_loop n src)) as Hloop.
  { intros n. induction n as [|n IH]; intros [|c l]; cbn [helper_log_fix_loop]; try (split; [cbn; lia|constructor]).
    destruct (decide (c = 0)); [split; [cbn; lia|constructor]|]. destruct (IH l) as [Hl Ha].
    split; [cbn [length]; lia|]. constructor; [case_decide; lia|done]. }
  destruct (Hloop (Z.to_nat MAX_LEN_STR) src) as [Hl Ha]. split; [|done].
  assert (0 <= MAX_LEN_STR) by done. lia.
Qed.

(** ** A concrete fuzzer *)

Definition opens (_ : string) : bool := true.

(** A pid above all others. *)
Definition next_pid (self : Z) (m : mstate) : Z :=
  1 + foldr Z.max self (elements (alive m) ++ zombies m ++ pids (tab m)).

Lemma next_pid_fresh self m : 0 < self → fresh self (next_pid self m) m.
Proof.
  intros Hs. unfold fresh, next_pid. set (l := elements (alive m) ++ zombies m ++ pids (tab m)).
  assert (∀ x, x ∈ l → x <= foldr Z.max self l) as Hl.
  { induction l as [|y l IH]; intros x Hx; [by apply not_elem_of_nil in Hx|]. cbn.
    apply elem_of_cons in Hx as [->|Hx]; [lia|]. specialize (IH x Hx). lia. }
  assert (self <= foldr Z.max self l) by (clear; induction l as [|y l IH]; cbn; lia).
  conjs; [lia|lia|intros Hin; assert (1 + foldr Z.max self l ∈ l) as Hin' by (unfold l; set_solver); specialize (Hl _ Hin'); lia..].
Qed.

Definition mstep := step opens 1.

(** All four workers and the watchdog. *)
Definition start_labels : list label :=
  [Fork 10; Go; Fork 11; Go; Fork 12; Go; Fork 13; Go; Fork 14].

Definition started : mstate := default (mk_m Crashed table_init ∅ []) (run mstep start_labels (mk_m (Start 0) table_init ∅ [])).

(** The first worker dies before it is registered. *)
Definition lost_labels : list label := [Fork 10; Die 10; Sigchld; Go].

Definition lost_state : mstate := default (mk_m Crashed table_init ∅ []) (run mstep lost_labels (mk_m (Start 0) table_init ∅ [])).

(** It dies after the start. *)
Definition died_labels : list label := start_labels ++ [Die 11; Sigchld].

Definition died_state : mstate := default (mk_m Crashed table_init ∅ []) (run mstep died_labels (mk_m (Start 0) table_init ∅ [])).

Lemma run_state ls m :
  run mstep ls (mk_m (Start 0) table_init ∅ []) = Some m → reachable mstep main_init m.
Proof. intros E. by eapply run_reachable. Qed.


Lemma scan_reforks_witness :
  ∃ n m', (n <= 10)%nat ∧ exec opens 1 (next_pid 1) n died_state = Some m' ∧ ph m' = Scan 5 ∧
    ∀ i d, (i < 5)%nat → ppd (tab died_state) !! i = Some d → ∃ d', ppd (tab m') !! i = Some d' ∧ reforked d d'.
Proof.
  apply (scan_reforks opens 1 (λ _, eq_refl) eq_refl (next_pid 1) died_state (λ m, next_pid_fresh 1 m eq_refl)).
  - apply (run_state died_labels). vm_compute. reflexivity.
  - vm_compute. reflexivity.
Defined.

Lemma lost_worker_stays_witness :
  ∃ m', run mstep [Fork 11; Go; Fork 12; Go; Fork 13; Go; Fork 14; Go; Go] lost_state = Some m' ∧ lost 1 10 m'.
Proof.
  destruct (run mstep [Fork 11; Go; Fork 12; Go; Fork 13; Go; Fork 14; Go; Go] lost_state) as [m'|] eqn:E.
  - exists m'. split; [reflexivity|].
    apply (lost_worker_stays opens 1 (λ _, eq_refl) eq_refl 1 10 lost_state m').
    + apply (run_state lost_labels). vm_compute. reflexivity.
    + split; [eexists; split; [vm_compute; reflexivity|split; reflexivity]|].
      split; [reflexivity|]. split; [|split].
      * apply (bool_decide_unpack _). vm_compute. exact I.
      * apply (bool_decide_unpack _). vm_compute. exact I.
      * intros r Hr. vm_compute in Hr. discriminate.
    + by eapply run_rtc.
  - exfalso. vm_compute in E. discriminate.
Defined.
