(* ===== verification/FuzzBatch.v ===== *)
(** * The batches of the fuzzer's workers (fuzzer.c of
      src/544final/fuzzer_final/Fuzzy_v_0.5)

    What a worker process runs: single calls, rounds over the table, random
    calls, and its endless loop; and a concrete environment. *)

From S2P Require Import Prelude CMem FuzzDesc FuzzSandbox FuzzSpec.

Local Open Scope Z_scope.

Section batch.
Context `{SyscallNumbers} `{FuzzEnv}.

(** The stream of the worker's log, and the fuel of path generation. *)
Context (stream : option string) (fuel : nat).

(** The loop of [sc_batch_single]; the value is the last call's, if any was made.
    The first thing a call does is to print to the stream. *)
Fixpoint sc_batch_single_loop (id : Z) (n : nat) (ret : option Z) : M (option Z) :=
  match n with
  | O => mret ret
  | S n' =>
      assert_ (is_Some stream);;
      r ← sandbox_syscall_run fuel id;
      sc_batch_single_loop id n' (Some r)
  end.

Definition sc_batch_single (id times : Z) : M (option Z) :=
  if decide (id < 0) then mret (Some (-1)) else sc_batch_single_loop id (Z.to_nat times) None.

(** The loop of [sc_batch_roundrobbin] from entry [i], [n] entries left. *)
Fixpoint roundrobbin_loop (times : Z) (n i : nat) : M () :=
  match n with
  | O => mret ()
  | S n' =>
      match fuzzer_call_spec_list !! i with
      | None => fault
      | Some d =>
          (if decide (scid d ≠ -1) then _ ← sc_batch_single (scid d) times; mret () else mret ());;
          roundrobbin_loop times n' (S i)
      end
  end.

Definition sc_batch_roundrobbin (times : Z) : M () := roundrobbin_loop times SYSCALL_NUM 0.

(** The [do] loop of [sc_batch_random], [k] draws at most. *)
Fixpoint draw_call (k : nat) : M Z :=
  match k with
  | O => out_of_fuel
  | S k' =>
      r ← rand;
      match fuzzer_call_spec_list !! Z.to_nat (Z.rem r (Z.of_nat SYSCALL_NUM)) with
      | None => fault
      | Some d => if decide (scid d = -1) then draw_call k' else mret (scid d)
      end
  end.

Definition sc_batch_random (times : Z) : M () :=
  id ← draw_call (S fuel);
  _ ← sc_batch_single id times;
  mret ().

(** One round of worker [id]'s loop, and [n] of them after the pool was filled. *)
Definition worker_round (id : Z) : M () :=
  if decide (id = 0) then sc_batch_roundrobbin 10
  else if decide (id = 1) then sc_batch_roundrobbin 1
  else if decide (id = 2) then sc_batch_random 10
  else if decide (id = 3) then sc_batch_random 1
  else sc_batch_roundrobbin 1.

Fixpoint worker_rounds (id : Z) (n : nat) : M () :=
  match n with
  | O => mret ()
  | S n' => worker_round id;; worker_rounds id n'
  end.

Definition worker (id : Z) (n : nat) : M () :=
  assert_ (is_Some stream);; _ ← fd_pool_populate; worker_rounds id n.

End batch.

(** ** What the batches do *)

Section facts.
Context `{SyscallNumbers} `{FuzzEnvSpec}.

(** Whether a computation returns. *)
Definition returns {A} (r : res A) : Prop := match r with Ret _ _ => True | _ => False end.

Lemma bind_not_returns {A B} (m : M A) (k : A → M B) s :
  (∀ a s', m s = Ret a s' → ¬ returns (k a s')) → ¬ returns ((m ≫= k) s).
Proof. intros Hk. unfold mbind, M_bind. destruct (m s) as [a s'| |] eqn:E; [by apply Hk|intros []..]. Qed.

(** A call of the table's number for nanosleep, and a batch of at least one. *)
Lemma batch_nanosleep stream fuel times s :
  0 < times → ¬ returns (sc_batch_single stream fuel SYS_nanosleep times s).
Proof.
  intros Ht. unfold sc_batch_single. case_decide; [|].
  - exfalso. pose proof (find_desc_entry 13 _ s ltac:(unfold SYSCALL_NUM; lia) eq_refl) as Hd. cbn [scid] in Hd.
    unfold find_desc, get_scall_desc in Hd. by rewrite decide_True in Hd.
  - destruct (Z.to_nat times) as [|n] eqn:E; [lia|]. cbn [sc_batch_single_loop].
    apply bind_not_returns. intros [] s' _. apply bind_not_returns. intros r s'' Hr.
    by rewrite run_nanosleep in Hr.
Qed.

(** A round over the table is entry after entry. *)
Lemma roundrobbin_stops stream fuel times n i j d s :
  (i <= j < n + i)%nat → fuzzer_call_spec_list !! j = Some d → scid d ≠ -1 →
  (∀ s, ¬ returns (sc_batch_single stream fuel (scid d) times s)) →
  ¬ returns (roundrobbin_loop stream fuel times n i s).
Proof.
  intros Hij Hj Hne Hbad. revert i s Hij. induction n as [|n IH]; intros i s Hij; [lia|]. cbn [roundrobbin_loop].
  destruct (fuzzer_call_spec_list !! i) as [e|] eqn:He; [|by intros []].
  apply bind_not_returns. intros [] s' Hr. destruct (decide (i = j)) as [->|]; [|apply IH; lia].
  exfalso. rewrite Hj in He. injection He as <-. rewrite decide_True in Hr by done.
  apply (bind_not_returns (sc_batch_single stream fuel (scid d) times) (λ _, mret ()) s).
  - intros a s2 Ha _. apply (Hbad s). by rewrite Ha.
  - by rewrite Hr.
Qed.

(** No round over the table ever returns: the batch of nanosleep, whose first
    argument is written through a pointer made of one byte, is an access outside
    any object; so the workers 0 and 1, and any beyond 3, never finish their first
    round, and utime, the last call of the table, is never made by them. *)
Theorem roundrobbin_never_returns stream fuel times s :
  0 < times → ¬ returns (sc_batch_roundrobbin stream fuel times s).
Proof.
  intros Ht. unfold sc_batch_roundrobbin.
  eapply (roundrobbin_stops _ _ _ SYSCALL_NUM 0 13); [unfold SYSCALL_NUM; lia|reflexivity| |].
  - cbn [scid]. intros E. assert (0 <= SYS_nanosleep) as Hn; [|lia].
    apply (proj1 (Forall_forall _ _) SYS_nonneg). by apply (list_elem_of_lookup_2 _ 13).
  - intros s'. cbn [scid]. by apply batch_nanosleep.
Qed.

Lemma worker_never_ends stream fuel id n s :
  id ≠ 2 → id ≠ 3 → (0 < n)%nat → ¬ returns (worker stream fuel id n s).
Proof.
  intros H2 H3 Hn. destruct n as [|n]; [lia|]. unfold worker.
  apply bind_not_returns. intros [] s1 _. apply bind_not_returns. intros r s2 _. cbn [worker_rounds].
  apply bind_not_returns. intros [] s3 Hr. exfalso. revert Hr. unfold worker_round.
  rewrite (decide_False (P := id = 2)), (decide_False (P := id = 3)) by done.
  assert (∀ t, 0 < t → sc_batch_roundrobbin stream fuel t s2 ≠ Ret () s3) as Hrr.
  { intros t Ht E. apply (roundrobbin_never_returns stream fuel t s2 Ht). by rewrite E. }
  repeat case_decide; by apply Hrr.
Qed.

(** A random batch draws a call of the table at once: no entry it can draw is the
    terminator. *)
Lemma draw_call_first fuel s :
  ∃ d, fuzzer_call_spec_list !! Z.to_nat (Z.rem (rnd (pos s)) 15) = Some d ∧
    draw_call (S fuel) s = Ret (scid d) (with_pos (S (pos s)) s).
Proof.
  cbn [draw_call]. change (Z.of_nat SYSCALL_NUM) with 15.
  pose proof (Z.rem_bound_pos (rnd (pos s)) 15 (proj1 (rnd_range _)) ltac:(done)) as Hr.
  set (i := Z.to_nat (Z.rem (rnd (pos s)) 15)).
  destruct (lookup_lt_is_Some_2 fuzzer_call_spec_list i) as [d Hd]; [unfold i; cbn; lia|].
  exists d. split; [done|]. rewrite (bind_ret _ _ s (rnd (pos s)) (with_pos (S (pos s)) s)) by done. fold i. rewrite Hd.
  rewrite decide_False; [done|]. intros E.
  assert (SYS_numbers !! i = Some (scid d)) as Hn.
  { rewrite <- (lookup_app_l _ [-1]) by (unfold i; cbn; lia). rewrite <- table_numbers. by rewrite list_lookup_fmap, Hd. }
  apply list_elem_of_lookup_2 in Hn. apply (proj1 (Forall_forall _ _) SYS_nonneg) in Hn. lia.
Qed.

End facts.

(** ** A concrete environment *)

(** Odd draws, a sandbox of 120 files and a directory, and a kernel that opens
    every file and leaves memory alone. *)
#[global] Instance demo_env : FuzzEnv := {|
  rnd n := 2 * Z.of_nat (n `mod` 5000) + 1;
  sandbox := 65536;
  tree _ := ([46], FTW_D) :: replicate 120 ([46; 47; 102], FTW_F);
  sys_open n _ _ := Z.of_nat n + 3;
  sys_close _ _ := 0;
  sys_call _ _ _ m := (0, m) |}.

#[global] Instance demo_env_spec : FuzzEnvSpec.
Proof.
  split; unfold rnd, sandbox, tree, demo_env.
  - intros n. pose proof (Nat.mod_upper_bound n 5000). lia.
  - lia.
  - intros _. constructor; [done|]. apply Forall_replicate. done.
Qed.

Lemma demo_chunks : rnd_chunks.
Proof.
  intros n. exists n. split; [done|]. unfold MAX_LEN_FNAME, rnd, demo_env. intros E.
  rewrite Z.rem_mod_nonneg in E by lia. dlia.
Qed.

(** A full pool. *)
Definition demo_state : sbox := match fd_pool_populate sbox_init with Ret _ s => s | _ => sbox_init end.

Lemma region_0 : 0 <= 0 < SANDBOX_REGION_NUM.
Proof. done. Qed.

Lemma demo_path_ok : path_ok sbox_init.
Proof. done. Qed.

Lemma fuzarg_fd_closed_witness :
  match sandbox_syscall_fuzarg 0 0 FUZ_ARG_UINT_FD_ROPEN demo_state with Ret r _ => r = 0 | _ => False end.
Proof.
  pose proof (fuzarg_fd_closed 0 0 FUZ_ARG_UINT_FD_ROPEN demo_state (or_introl eq_refl) region_0 eq_refl) as Hf.
  cbv zeta in Hf. destruct (sandbox_syscall_fuzarg 0 0 FUZ_ARG_UINT_FD_ROPEN demo_state).
  - exact (proj1 Hf).
  - vm_compute in Hf. discriminate.
  - exact Hf.
Defined.

Lemma fuzarg_isolated_witness :
  match sandbox_syscall_fuzarg 0 1 FUZ_ARG_EXECVE_ARGV sbox_init with
  | Ret _ s' => byte (mem s') (region 0) = 0 ∧ byte (mem s') (region 2) = 0 | _ => False end.
Proof.
  assert (0 <= 1 < SANDBOX_REGION_NUM) as H1 by done.
  assert (safe_kind FUZ_ARG_EXECVE_ARGV) as Hk by (apply (bool_decide_unpack _); vm_compute; exact I).
  pose proof (fuzarg_isolated 0 1 FUZ_ARG_EXECVE_ARGV sbox_init H1 Hk demo_path_ok) as Hf.
  destruct (sandbox_syscall_fuzarg 0 1 FUZ_ARG_EXECVE_ARGV sbox_init) as [r s'| |]; [|exact Hf|discriminate].
  destruct Hf as (_ & _ & _ & _ & _ & Hb).
  split; rewrite Hb; [reflexivity|vm_compute; intros [E _]; by apply E|reflexivity|vm_compute; intros [_ E]; discriminate].
Defined.

Lemma gen_path_missing_witness :
  ∃ n, ∀ fuel, (n <= fuel)%nat → ∃ c s',
    gen_path fuel FUZ_ARG_PATH_FILE_NONEXIST (region 0) sbox_init = Ret 0 s' ∧ 1 <= c ∧
    byte (mem s') (region 0) = 47 ∧ byte (mem s') (region 0 + c) = 0.
Proof.
  destruct (gen_path_missing 0 sbox_init region_0 demo_path_ok demo_chunks) as [n Hn].
  exists n. intros fuel Hf. destruct (Hn fuel Hf) as (c & s' & E & _ & [Hc _] & Hb & _ & Hz & _).
  by exists c, s'.
Defined.

Lemma fd_pool_populate_modes_witness :
  ∃ s', fd_pool_populate sbox_init = Ret 0 s' ∧ fd_pool_cnt s' <= 110.
Proof.
  destruct (fd_pool_populate_modes sbox_init eq_refl) as (s' & E & [_ Hc] & _). exists s'. split; [exact E|exact Hc].
Defined.

Lemma run_safe_call_witness :
  match sandbox_syscall_run 0 SYS_mknod sbox_init with Fault => False | _ => True end.
Proof.
  assert (9%nat ∈ safe_entries) as H9 by (apply (bool_decide_unpack _); vm_compute; exact I).
  pose proof (run_safe_call 0 9 _ sbox_init H9 eq_refl demo_path_ok eq_refl) as Hf. cbn [scid] in Hf.
  destruct (sandbox_syscall_run 0 SYS_mknod sbox_init); [exact I|exact Hf|exact I].
Defined.

Lemma roundrobbin_never_returns_witness :
  0 < 10 ∧ ¬ returns (sc_batch_roundrobbin (Some "log"%string) 100 10 sbox_init).
Proof. split; [reflexivity|]. apply (roundrobbin_never_returns (Some "log"%string) 100 10 sbox_init). reflexivity. Defined.
