(* ===== verification/RtState.v ===== *)
(** * The state of the real-time scheduling class (sched_rt.c and the parts of
      sched.c it uses, src/indwriterups/project1)

    The configuration modelled is the one with several processors and without
    group scheduling.  Run-queue lists, bitmaps and priority lists of the kernel
    library are classes with laws, as are the search of the priority map, the
    clocks, the topology and what other processors do while a lock is dropped. *)

From stdpp Require Export functions.
From S2P Require Import Prelude.

Local Open Scope Z_scope.

(** ** Constants *)

Definition MAX_RT_PRIO : nat := 100.
Definition RUNTIME_INF : Z := 2 ^ 64 - 1.
Definition HZ : Z := 1000.
Definition DEF_TIMESLICE : Z := 100 * HZ / 1000.
Definition SCHED_NORMAL : Z := 0.
Definition SCHED_FIFO : Z := 1.
Definition SCHED_RR : Z := 2.
Definition SCHED_BATCH : Z := 3.
Definition SCHED_IDLE : Z := 5.
Definition TASK_RUNNING : Z := 0.
Definition TASK_INTERRUPTIBLE : Z := 1.
Definition TASK_UNINTERRUPTIBLE : Z := 2.
Definition TASK_NORMAL : Z := Z.lor TASK_INTERRUPTIBLE TASK_UNINTERRUPTIBLE.
Definition TASK_STOPPED : Z := 4.
Definition TASK_TRACED : Z := 8.
Definition TASK_DEAD : Z := 64.
Definition TASK_WAKING : Z := 256.
Definition TASK_ALL : Z := Z.lor TASK_NORMAL (Z.lor TASK_STOPPED TASK_TRACED).
Definition CPUPRI_INVALID : Z := -1.
Definition RLIM_INFINITY : Z := 2 ^ 64 - 1.

(** ** The kernel library *)

(** Lists of tasks, bitmaps, and lists sorted by priority. *)
Class KernelLib := {
  rlist : Type;
  rlist_init : rlist;
  list_add : nat → rlist → rlist;
  list_add_tail : nat → rlist → rlist;
  list_del : nat → rlist → rlist;
  list_items : rlist → list nat;
  bitmap : Type;
  bitmap_zero : bitmap;
  __set_bit : nat → bitmap → bitmap;
  __clear_bit : nat → bitmap → bitmap;
  test_bit : nat → bitmap → bool;
  find_next_bit : bitmap → nat → nat → nat;
  plist : Type;
  plist_init : plist;
  plist_add : nat → Z → plist → plist;
  plist_del : nat → plist → plist;
  plist_items : plist → list (nat * Z);
}.

(** A priority list is sorted; equal priorities are in the order of insertion. *)
Fixpoint plist_insert (p : nat) (pr : Z) (l : list (nat * Z)) : list (nat * Z) :=
  match l with
  | [] => [(p, pr)]
  | (q, qr) :: l' => if decide (qr <= pr) then (q, qr) :: plist_insert p pr l' else (p, pr) :: l
  end.

Class KernelLibSpec `{KernelLib} := {
  items_init : list_items rlist_init = [];
  items_add p l : list_items (list_add p l) = p :: list_items l;
  items_add_tail p l : list_items (list_add_tail p l) = list_items l ++ [p];
  items_del p l : list_items (list_del p l) = filter (λ q, q ≠ p) (list_items l);
  test_zero i : test_bit i bitmap_zero = false;
  test_set i j b : test_bit i (__set_bit j b) = if decide (i = j) then true else test_bit i b;
  test_clear i j b : test_bit i (__clear_bit j b) = if decide (i = j) then false else test_bit i b;
  find_next_ge b n k : (k <= n)%nat → (k <= find_next_bit b n k <= n)%nat;
  find_next_set b n k : (find_next_bit b n k < n)%nat → test_bit (find_next_bit b n k) b = true;
  find_next_least b n k j : (k <= j)%nat → (j < find_next_bit b n k)%nat → test_bit j b = false;
  plist_items_init : plist_items plist_init = [];
  plist_items_add p pr l : plist_items (plist_add p pr l) = plist_insert p pr (plist_items l);
  plist_items_del p l : plist_items (plist_del p l) = filter (λ e, e.1 ≠ p) (plist_items l);
}.

(** ** Data *)

(** The scheduling classes, from the highest. *)
Inductive sclass := stop_sched_class | rt_sched_class | fair_sched_class | idle_sched_class.

#[export] Instance sclass_eq_dec : EqDecision sclass.
Proof. solve_decision. Defined.

(** The fields of a task the scheduler uses; [lim_soft] and [lim_hard] are its limits of real-time,
    [preempt_active] the bit PREEMPT_ACTIVE of its preemption count.  Address spaces are numbered; a
    kernel thread has none of its own and borrows the active one. *)
Record task := mk_task {
  prio : Z;
  policy : Z;
  sched_class : sclass;
  nr_cpus_allowed : Z;
  cpus_allowed : gset nat;
  time_slice : Z;
  timeout : Z;
  exec_start : Z;
  sum_exec_runtime : Z;
  sched_exp : Z;
  on_rq : bool;
  on_cpu : bool;
  task_cpu : nat;
  need_resched : bool;
  lim_soft : Z;
  lim_hard : Z;
  static_prio : Z;
  normal_prio : Z;
  rt_priority : Z;
  sched_reset_on_fork : bool;
  mm : option nat;
  active_mm : option nat;
  state : Z;
  preempt_active : bool;
}.

Section state.
Context `{KernelLib}.

(** [struct rt_prio_array] and [struct rt_rq]. *)
Record rt_rq := mk_rt_rq {
  queue : list rlist;
  bits : bitmap;
  rt_nr_running : Z;
  highest_curr : Z;
  highest_next : Z;
  rt_nr_migratory : Z;
  rt_nr_total : Z;
  overloaded : bool;
  pushable_tasks : plist;
  rt_throttled : bool;
  rt_time : Z;
  rt_runtime : Z;
}.

(** The fields of [struct rq] that are modelled; [resched_ipi] is whether the interrupt that a wake-up
    sends is on its way. *)
Record rq := mk_rq {
  rt : rt_rq;
  nr_running : Z;
  curr : nat;
  idle : nat;
  clock : Z;
  clock_task : Z;
  online : bool;
  post_schedule : bool;
  skip_clock_update : Z;
  stop : option nat;
  wake_list : list nat;
  prev_mm : option nat;
  resched_ipi : bool;
}.

(** [struct root_domain]; [cpupri] holds the priority last set for a processor. *)
Record root_domain := mk_rd {
  span : list nat;
  rto_mask : gset nat;
  rto_count : Z;
  cpupri : nat → Z;
}.

(** [def_rt_bandwidth], whether its timer is active, and the two system settings. *)
Record bandwidth := mk_bw {
  bw_period : Z;
  bw_runtime : Z;
  timer_active : bool;
  sysctl_sched_rt_runtime : Z;
  scheduler_running : bool;
}.

(** [mm_count] holds the references to an address space, [this_cpu] is the processor that executes. *)
Record sys := mk_sys {
  tasks : nat → task;
  rqs : nat → rq;
  rd : root_domain;
  bw : bandwidth;
  mm_count : nat → Z;
  this_cpu : nat;
}.

(** ** Updates *)

Definition upd_task (p : nat) (f : task → task) (s : sys) : sys :=
  mk_sys (<[p := f (tasks s p)]> (tasks s)) (rqs s) (rd s) (bw s) (mm_count s) (this_cpu s).
Definition upd_rq (c : nat) (f : rq → rq) (s : sys) : sys :=
  mk_sys (tasks s) (<[c := f (rqs s c)]> (rqs s)) (rd s) (bw s) (mm_count s) (this_cpu s).
Definition upd_rd (f : root_domain → root_domain) (s : sys) : sys :=
  mk_sys (tasks s) (rqs s) (f (rd s)) (bw s) (mm_count s) (this_cpu s).
Definition upd_bw (f : bandwidth → bandwidth) (s : sys) : sys :=
  mk_sys (tasks s) (rqs s) (rd s) (f (bw s)) (mm_count s) (this_cpu s).

Definition set_rt (r : rt_rq) (q : rq) : rq :=
  mk_rq r (nr_running q) (curr q) (idle q) (clock q) (clock_task q) (online q) (post_schedule q)
    (skip_clock_update q) (stop q) (wake_list q) (prev_mm q) (resched_ipi q).
Definition set_nr_running (n : Z) (q : rq) : rq :=
  mk_rq (rt q) n (curr q) (idle q) (clock q) (clock_task q) (online q) (post_schedule q)
    (skip_clock_update q) (stop q) (wake_list q) (prev_mm q) (resched_ipi q).
Definition set_clocks (t tt : Z) (q : rq) : rq :=
  mk_rq (rt q) (nr_running q) (curr q) (idle q) t tt (online q) (post_schedule q)
    (skip_clock_update q) (stop q) (wake_list q) (prev_mm q) (resched_ipi q).
Definition set_post_schedule (b : bool) (q : rq) : rq :=
  mk_rq (rt q) (nr_running q) (curr q) (idle q) (clock q) (clock_task q) (online q) b
    (skip_clock_update q) (stop q) (wake_list q) (prev_mm q) (resched_ipi q).
Definition set_skip_clock_update (z : Z) (q : rq) : rq :=
  mk_rq (rt q) (nr_running q) (curr q) (idle q) (clock q) (clock_task q) (online q) (post_schedule q)
    z (stop q) (wake_list q) (prev_mm q) (resched_ipi q).
Definition upd_rt (c : nat) (f : rt_rq → rt_rq) : sys → sys := upd_rq c (λ q, set_rt (f (rt q)) q).

Definition set_active (q : list rlist) (b : bitmap) (r : rt_rq) : rt_rq :=
  mk_rt_rq q b (rt_nr_running r) (highest_curr r) (highest_next r) (rt_nr_migratory r) (rt_nr_total r)
    (overloaded r) (pushable_tasks r) (rt_throttled r) (rt_time r) (rt_runtime r).
Definition set_rt_nr_running (n : Z) (r : rt_rq) : rt_rq :=
  mk_rt_rq (queue r) (bits r) n (highest_curr r) (highest_next r) (rt_nr_migratory r) (rt_nr_total r)
    (overloaded r) (pushable_tasks r) (rt_throttled r) (rt_time r) (rt_runtime r).
Definition set_highest_curr (n : Z) (r : rt_rq) : rt_rq :=
  mk_rt_rq (queue r) (bits r) (rt_nr_running r) n (highest_next r) (rt_nr_migratory r) (rt_nr_total r)
    (overloaded r) (pushable_tasks r) (rt_throttled r) (rt_time r) (rt_runtime r).
Definition set_highest_next (n : Z) (r : rt_rq) : rt_rq :=
  mk_rt_rq (queue r) (bits r) (rt_nr_running r) (highest_curr r) n (rt_nr_migratory r) (rt_nr_total r)
    (overloaded r) (pushable_tasks r) (rt_throttled r) (rt_time r) (rt_runtime r).
Definition set_migration (m t : Z) (r : rt_rq) : rt_rq :=
  mk_rt_rq (queue r) (bits r) (rt_nr_running r) (highest_curr r) (highest_next r) m t
    (overloaded r) (pushable_tasks r) (rt_throttled r) (rt_time r) (rt_runtime r).
Definition set_overloaded (b : bool) (r : rt_rq) : rt_rq :=
  mk_rt_rq (queue r) (bits r) (rt_nr_running r) (highest_curr r) (highest_next r) (rt_nr_migratory r) (rt_nr_total r)
    b (pushable_tasks r) (rt_throttled r) (rt_time r) (rt_runtime r).
Definition set_pushable (l : plist) (r : rt_rq) : rt_rq :=
  mk_rt_rq (queue r) (bits r) (rt_nr_running r) (highest_curr r) (highest_next r) (rt_nr_migratory r) (rt_nr_total r)
    (overloaded r) l (rt_throttled r) (rt_time r) (rt_runtime r).
Definition set_throttle (b : bool) (t : Z) (r : rt_rq) : rt_rq :=
  mk_rt_rq (queue r) (bits r) (rt_nr_running r) (highest_curr r) (highest_next r) (rt_nr_migratory r) (rt_nr_total r)
    (overloaded r) (pushable_tasks r) b t (rt_runtime r).
Definition set_rt_runtime (t : Z) (r : rt_rq) : rt_rq :=
  mk_rt_rq (queue r) (bits r) (rt_nr_running r) (highest_curr r) (highest_next r) (rt_nr_migratory r) (rt_nr_total r)
    (overloaded r) (pushable_tasks r) (rt_throttled r) (rt_time r) t.

(** ** Initial run queue *)

(** [init_rt_rq]: empty queues, no bit but the delimiter. *)
Definition init_rt_rq : rt_rq :=
  mk_rt_rq (replicate MAX_RT_PRIO rlist_init)
    (__set_bit MAX_RT_PRIO (foldr __clear_bit bitmap_zero (seq 0 MAX_RT_PRIO)))
    0 (Z.of_nat MAX_RT_PRIO) (Z.of_nat MAX_RT_PRIO) 0 0 false plist_init false 0 0.

(** ** Small helpers of sched.c *)

Definition rt_class (t : task) : bool := bool_decide (sched_class t = rt_sched_class).

Definition rt_prio (pr : Z) : bool := bool_decide (pr < Z.of_nat MAX_RT_PRIO).

Definition rt_task (t : task) : bool := rt_prio (prio t).

Definition task_current (s : sys) (c p : nat) : bool := bool_decide (curr (rqs s c) = p).

Definition task_running (s : sys) (p : nat) : bool := on_cpu (tasks s p).

Definition rt_bandwidth_enabled (s : sys) : bool := bool_decide (0 <= sysctl_sched_rt_runtime (bw s)).

(** The timer is started unless bandwidth is unlimited. *)
Definition start_rt_bandwidth (s : sys) : sys :=
  if negb (rt_bandwidth_enabled s) || bool_decide (bw_runtime (bw s) = RUNTIME_INF) then s
  else upd_bw (λ b, mk_bw (bw_period b) (bw_runtime b) true (sysctl_sched_rt_runtime b) (scheduler_running b)) s.

Definition set_need_resched (b : bool) (t : task) : task :=
  mk_task (prio t) (policy t) (sched_class t) (nr_cpus_allowed t) (cpus_allowed t) (time_slice t) (timeout t)
    (exec_start t) (sum_exec_runtime t) (sched_exp t) (on_rq t) (on_cpu t) (task_cpu t) b (lim_soft t) (lim_hard t)
    (static_prio t) (normal_prio t) (rt_priority t) (sched_reset_on_fork t)
    (mm t) (active_mm t) (state t) (preempt_active t).

(** The task that executes. *)
Definition current (s : sys) : nat := curr (rqs s (this_cpu s)).

(** The reschedule interrupt to another processor has no effect on the state. *)
Definition resched_task (p : nat) (s : sys) : sys :=
  if need_resched (tasks s p) then s else upd_task p (set_need_resched true) s.

Definition set_exec (start sum : Z) (t : task) : task :=
  mk_task (prio t) (policy t) (sched_class t) (nr_cpus_allowed t) (cpus_allowed t) (time_slice t) (timeout t)
    start sum (sched_exp t) (on_rq t) (on_cpu t) (task_cpu t) (need_resched t) (lim_soft t) (lim_hard t)
    (static_prio t) (normal_prio t) (rt_priority t) (sched_reset_on_fork t)
    (mm t) (active_mm t) (state t) (preempt_active t).
Definition set_timeout (n e : Z) (t : task) : task :=
  mk_task (prio t) (policy t) (sched_class t) (nr_cpus_allowed t) (cpus_allowed t) (time_slice t) n
    (exec_start t) (sum_exec_runtime t) e (on_rq t) (on_cpu t) (task_cpu t) (need_resched t) (lim_soft t) (lim_hard t)
    (static_prio t) (normal_prio t) (rt_priority t) (sched_reset_on_fork t)
    (mm t) (active_mm t) (state t) (preempt_active t).
Definition set_time_slice (n : Z) (t : task) : task :=
  mk_task (prio t) (policy t) (sched_class t) (nr_cpus_allowed t) (cpus_allowed t) n (timeout t)
    (exec_start t) (sum_exec_runtime t) (sched_exp t) (on_rq t) (on_cpu t) (task_cpu t) (need_resched t) (lim_soft t) (lim_hard t)
    (static_prio t) (normal_prio t) (rt_priority t) (sched_reset_on_fork t)
    (mm t) (active_mm t) (state t) (preempt_active t).
Definition set_cpu (c : nat) (t : task) : task :=
  mk_task (prio t) (policy t) (sched_class t) (nr_cpus_allowed t) (cpus_allowed t) (time_slice t) (timeout t)
    (exec_start t) (sum_exec_runtime t) (sched_exp t) (on_rq t) (on_cpu t) c (need_resched t) (lim_soft t) (lim_hard t)
    (static_prio t) (normal_prio t) (rt_priority t) (sched_reset_on_fork t)
    (mm t) (active_mm t) (state t) (preempt_active t).
Definition set_affinity (n : Z) (m : gset nat) (t : task) : task :=
  mk_task (prio t) (policy t) (sched_class t) n m (time_slice t) (timeout t)
    (exec_start t) (sum_exec_runtime t) (sched_exp t) (on_rq t) (on_cpu t) (task_cpu t) (need_resched t) (lim_soft t) (lim_hard t)
    (static_prio t) (normal_prio t) (rt_priority t) (sched_reset_on_fork t)
    (mm t) (active_mm t) (state t) (preempt_active t).
Definition set_on_rq (b : bool) (t : task) : task :=
  mk_task (prio t) (policy t) (sched_class t) (nr_cpus_allowed t) (cpus_allowed t) (time_slice t) (timeout t)
    (exec_start t) (sum_exec_runtime t) (sched_exp t) b (on_cpu t) (task_cpu t) (need_resched t) (lim_soft t) (lim_hard t)
    (static_prio t) (normal_prio t) (rt_priority t) (sched_reset_on_fork t)
    (mm t) (active_mm t) (state t) (preempt_active t).
Definition set_on_cpu (b : bool) (t : task) : task :=
  mk_task (prio t) (policy t) (sched_class t) (nr_cpus_allowed t) (cpus_allowed t) (time_slice t) (timeout t)
    (exec_start t) (sum_exec_runtime t) (sched_exp t) (on_rq t) b (task_cpu t) (need_resched t) (lim_soft t) (lim_hard t)
    (static_prio t) (normal_prio t) (rt_priority t) (sched_reset_on_fork t)
    (mm t) (active_mm t) (state t) (preempt_active t).
Definition set_state (z : Z) (t : task) : task :=
  mk_task (prio t) (policy t) (sched_class t) (nr_cpus_allowed t) (cpus_allowed t) (time_slice t) (timeout t)
    (exec_start t) (sum_exec_runtime t) (sched_exp t) (on_rq t) (on_cpu t) (task_cpu t) (need_resched t) (lim_soft t) (lim_hard t)
    (static_prio t) (normal_prio t) (rt_priority t) (sched_reset_on_fork t)
    (mm t) (active_mm t) z (preempt_active t).
Definition set_active_mm (m : option nat) (t : task) : task :=
  mk_task (prio t) (policy t) (sched_class t) (nr_cpus_allowed t) (cpus_allowed t) (time_slice t) (timeout t)
    (exec_start t) (sum_exec_runtime t) (sched_exp t) (on_rq t) (on_cpu t) (task_cpu t) (need_resched t) (lim_soft t) (lim_hard t)
    (static_prio t) (normal_prio t) (rt_priority t) (sched_reset_on_fork t)
    (mm t) m (state t) (preempt_active t).
Definition set_preempt_active (b : bool) (t : task) : task :=
  mk_task (prio t) (policy t) (sched_class t) (nr_cpus_allowed t) (cpus_allowed t) (time_slice t) (timeout t)
    (exec_start t) (sum_exec_runtime t) (sched_exp t) (on_rq t) (on_cpu t) (task_cpu t) (need_resched t) (lim_soft t) (lim_hard t)
    (static_prio t) (normal_prio t) (rt_priority t) (sched_reset_on_fork t)
    (mm t) (active_mm t) (state t) b.

Definition set_curr (p : nat) (q : rq) : rq :=
  mk_rq (rt q) (nr_running q) p (idle q) (clock q) (clock_task q) (online q) (post_schedule q)
    (skip_clock_update q) (stop q) (wake_list q) (prev_mm q) (resched_ipi q).
Definition set_stop (p : option nat) (q : rq) : rq :=
  mk_rq (rt q) (nr_running q) (curr q) (idle q) (clock q) (clock_task q) (online q) (post_schedule q)
    (skip_clock_update q) p (wake_list q) (prev_mm q) (resched_ipi q).
Definition set_wake_list (l : list nat) (q : rq) : rq :=
  mk_rq (rt q) (nr_running q) (curr q) (idle q) (clock q) (clock_task q) (online q) (post_schedule q)
    (skip_clock_update q) (stop q) l (prev_mm q) (resched_ipi q).
Definition set_prev_mm (m : option nat) (q : rq) : rq :=
  mk_rq (rt q) (nr_running q) (curr q) (idle q) (clock q) (clock_task q) (online q) (post_schedule q)
    (skip_clock_update q) (stop q) (wake_list q) m (resched_ipi q).

Definition set_resched_ipi (b : bool) (q : rq) : rq :=
  mk_rq (rt q) (nr_running q) (curr q) (idle q) (clock q) (clock_task q) (online q) (post_schedule q)
    (skip_clock_update q) (stop q) (wake_list q) (prev_mm q) b.

Definition upd_mm_count (m : nat) (f : Z → Z) (s : sys) : sys :=
  mk_sys (tasks s) (rqs s) (rd s) (bw s) (<[m := f (mm_count s m)]> (mm_count s)) (this_cpu s).

End state.

(** ** What the class relies on outside its files *)

Class RtEnv `{KernelLib} := {
  (* the mask of the processors [cpupri_find] proposes for a task, if any *)
  cpupri_find : sys → nat → option (gset nat);
  (* whether the kernel is preemptible, whether the lock of a queue is free, and
     what other processors do while one waits for it, the lock of the first
     queue being held or not *)
  config_preempt : bool;
  raw_spin_trylock : sys → nat → bool;
  others : bool → nat → nat → sys → sys;
  (* the number of processors, and those online *)
  nr_cpu_ids : nat;
  cpu_online_mask : list nat;
  (* the clock of a processor *)
  sched_clock_cpu : sys → nat → Z;
  (* the scheduling domains of a processor: affine wake-ups, and the span *)
  domains : nat → list (bool * gset nat);
  (* some processor of a mask, the first one of a mask *)
  cpumask_any : gset nat → option nat;
  cpumask_first : gset nat → option nat;
}.
