(* ===== verification/RtBandwidth.v ===== *)
(** * Real-time bandwidth (sched_rt.c, src/indwriterups/project1)

    Every run queue may use [rt_runtime] of each period; a queue that needs more
    borrows from the others of its root domain.  The loops over processors, the
    accounting of the running task, throttling and the period's timer. *)

From S2P Require Import Prelude RtState.

Local Open Scope Z_scope.

Section bandwidth.
Context `{RtEnv}.

Definition rt_of (s : sys) (c : nat) : rt_rq := rt (rqs s c).

(** The period of [sched_rt_period]; the runtime of [sched_rt_runtime]. *)
Definition sched_rt_period (s : sys) : Z := bw_period (bw s).

Definition sched_rt_runtime (s : sys) (c : nat) : Z := rt_runtime (rt_of s c).

(** ** Borrowing *)

(** The loop of [do_balance_runtime] for queue [c]. *)
Fixpoint balance_loop (c : nat) (weight : Z) (cpus : list nat) (more : bool) (s : sys) : bool * sys :=
  match cpus with
  | [] => (more, s)
  | i :: cpus' =>
      if decide (i = c) then balance_loop c weight cpus' more s
      else
        let iter := rt_of s i in
        if decide (rt_runtime iter = RUNTIME_INF) then balance_loop c weight cpus' more s
        else
          let diff := s64 (rt_runtime iter - rt_time iter) in
          if decide (0 < diff) then
            let mine := sched_rt_runtime s c in
            let diff := u64 diff / weight in
            let diff := if decide (sched_rt_period s < u64 (mine + diff)) then s64 (sched_rt_period s - mine) else diff in
            let s := upd_rt i (set_rt_runtime (u64 (rt_runtime iter - diff))) s in
            let s := upd_rt c (set_rt_runtime (u64 (mine + diff))) s in
            if decide (u64 (mine + diff) = sched_rt_period s) then (true, s)
            else balance_loop c weight cpus' true s
          else balance_loop c weight cpus' more s
  end.

Definition do_balance_runtime (c : nat) (s : sys) : bool * sys :=
  balance_loop c (Z.of_nat (length (span (rd s)))) (span (rd s)) false s.

Definition balance_runtime (c : nat) (s : sys) : bool * sys :=
  if decide (rt_runtime (rt_of s c) < rt_time (rt_of s c)) then do_balance_runtime c s else (false, s).

(** The loop of [__disable_runtime]; the first component is [want]. *)
Fixpoint reclaim_loop (c : nat) (cpus : list nat) (want : Z) (s : sys) : Z * sys :=
  match cpus with
  | [] => (want, s)
  | i :: cpus' =>
      let iter := rt_of s i in
      if decide (i = c ∨ rt_runtime iter = RUNTIME_INF) then reclaim_loop c cpus' want s
      else
        let diff := if decide (0 < want) then Z.min (s64 (rt_runtime iter)) want else want in
        let s := upd_rt i (set_rt_runtime (u64 (rt_runtime iter - diff))) s in
        let want := s64 (want - diff) in
        if decide (want = 0) then (want, s) else reclaim_loop c cpus' want s
  end.

(** [None] is the [BUG_ON]. *)
Definition __disable_runtime (c : nat) (s : sys) : option sys :=
  if scheduler_running (bw s) then
    let mine := sched_rt_runtime s c in
    if decide (mine = RUNTIME_INF ∨ mine = bw_runtime (bw s)) then Some (upd_rt c (set_rt_runtime RUNTIME_INF) s)
    else
      let '(want, s) := reclaim_loop c (span (rd s)) (s64 (bw_runtime (bw s) - mine)) s in
      if decide (want ≠ 0) then None else Some (upd_rt c (set_rt_runtime RUNTIME_INF) s)
  else Some s.

Definition disable_runtime (c : nat) (s : sys) : option sys := __disable_runtime c s.

Definition __enable_runtime (c : nat) (s : sys) : sys :=
  if scheduler_running (bw s) then
    upd_rt c (λ r, set_throttle false 0 (set_rt_runtime (bw_runtime (bw s)) r)) s
  else s.

Definition enable_runtime (c : nat) (s : sys) : sys := __enable_runtime c s.

(** The hotplug actions the notifiers are told of, frozen or not. *)
Inductive cpu_action := CPU_UP_PREPARE | CPU_ONLINE | CPU_DOWN_PREPARE | CPU_DOWN_FAILED | CPU_DYING | CPU_OTHER.

(** The notifier of sched.c; [true] is NOTIFY_OK, [false] NOTIFY_DONE. *)
Definition update_runtime (action : cpu_action) (c : nat) (s : sys) : option (bool * sys) :=
  match action with
  | CPU_DOWN_PREPARE => s ← disable_runtime c s; Some (true, s)
  | CPU_DOWN_FAILED | CPU_ONLINE => Some (true, enable_runtime c s)
  | _ => Some (false, s)
  end.

(** ** Throttling *)

(** Without groups, putting a queue back means rescheduling its processor, and
    taking it off does nothing. *)
Definition sched_rt_rq_enqueue (c : nat) (s : sys) : sys :=
  if decide (rt_nr_running (rt_of s c) ≠ 0) then resched_task (curr (rqs s c)) s else s.

Definition sched_rt_rq_dequeue (c : nat) (s : sys) : sys := s.

Definition rt_rq_throttled (s : sys) (c : nat) : bool := rt_throttled (rt_of s c).

(** One processor of [do_sched_rt_period_timer]; whether it leaves [idle] set. *)
Definition period_cpu (overrun : Z) (i : nat) (s : sys) : bool * sys :=
  let r := rt_of s i in
  if decide (rt_time r ≠ 0) then
    let s := if rt_throttled r then snd (balance_runtime i s) else s in
    let runtime := sched_rt_runtime s i in
    let time := rt_time (rt_of s i) - Z.min (rt_time (rt_of s i)) (u64 (overrun * runtime)) in
    let unthrottle := rt_throttled r && bool_decide (time < runtime) in
    let s := upd_rt i (set_throttle (rt_throttled r && negb unthrottle) time) s in
    let s :=
      if unthrottle && bool_decide (rt_nr_running r ≠ 0) && bool_decide (curr (rqs s i) = idle (rqs s i))
      then upd_rq i (set_skip_clock_update (-1)) s else s in
    (bool_decide (time = 0) && bool_decide (rt_nr_running r = 0), if unthrottle then sched_rt_rq_enqueue i s else s)
  else if decide (rt_nr_running r ≠ 0) then
    (false, if rt_rq_throttled s i then s else sched_rt_rq_enqueue i s)
  else (true, s).

Fixpoint period_loop (overrun : Z) (cpus : list nat) (idle : bool) (s : sys) : bool * sys :=
  match cpus with
  | [] => (idle, s)
  | i :: cpus' => let '(b, s) := period_cpu overrun i s in period_loop overrun cpus' (idle && b) s
  end.

Definition do_sched_rt_period_timer (overrun : Z) (s : sys) : bool * sys :=
  if negb (rt_bandwidth_enabled s) || bool_decide (bw_runtime (bw s) = RUNTIME_INF) then (true, s)
  else period_loop overrun cpu_online_mask true s.

Definition sched_rt_runtime_exceeded (c : nat) (s : sys) : bool * sys :=
  if rt_throttled (rt_of s c) then (rt_rq_throttled s c, s)
  else if decide (sched_rt_period s <= sched_rt_runtime s c) then (false, s)
  else
    let s := snd (balance_runtime c s) in
    let runtime := sched_rt_runtime s c in
    if decide (runtime = RUNTIME_INF) then (false, s)
    else if decide (runtime < rt_time (rt_of s c)) then
      let s := upd_rt c (λ r, set_throttle true (rt_time r) r) s in
      if rt_rq_throttled s c then (true, sched_rt_rq_dequeue c s) else (false, s)
    else (false, s).

(** The statistics other than the task's execution time are not modelled. *)
Definition update_curr_rt (c : nat) (s : sys) : sys :=
  let p := curr (rqs s c) in
  let t := tasks s p in
  if rt_class t then
    let now := clock_task (rqs s c) in
    let delta_exec := u64 (now - exec_start t) in
    let delta_exec := if decide (s64 delta_exec < 0) then 0 else delta_exec in
    let s := upd_task p (set_exec now (u64 (sum_exec_runtime t + delta_exec))) s in
    if rt_bandwidth_enabled s then
      let c' := task_cpu (tasks s p) in
      if decide (sched_rt_runtime s c' = RUNTIME_INF) then s
      else
        let s := upd_rt c' (λ r, set_throttle (rt_throttled r) (u64 (rt_time r + delta_exec)) r) s in
        let '(exceeded, s) := sched_rt_runtime_exceeded c' s in
        if exceeded then resched_task p s else s
    else s
  else s.

End bandwidth.
