(* ===== verification/RtQueue.v ===== *)
(** * The real-time run queue (sched_rt.c, src/indwriterups/project1)

    Enqueueing, dequeueing and choosing tasks on one processor's queue: an array
    of lists by priority with a bitmap of the lists in use, the highest
    priorities, and the counts that say whether tasks may be pushed away. *)

From S2P Require Import Prelude RtState RtBandwidth.

Local Open Scope Z_scope.

Section queue.
Context `{RtEnv}.

(** ** Overload and pushable tasks *)

Definition rt_overloaded (s : sys) : Z := rto_count (rd s).

Definition rt_set_overload (c : nat) (s : sys) : sys :=
  if online (rqs s c)
  then upd_rd (λ d, mk_rd (span d) ({[c]} ∪ rto_mask d) (s32 (rto_count d + 1)) (cpupri d)) s else s.

Definition rt_clear_overload (c : nat) (s : sys) : sys :=
  if online (rqs s c)
  then upd_rd (λ d, mk_rd (span d) (rto_mask d ∖ {[c]}) (s32 (rto_count d - 1)) (cpupri d)) s else s.

(** [cpupri_set]. *)
Definition cpupri_set (c : nat) (pr : Z) (s : sys) : sys :=
  upd_rd (λ d, mk_rd (span d) (rto_mask d) (rto_count d) (<[c := pr]> (cpupri d))) s.

Definition update_rt_migration (c : nat) (s : sys) : sys :=
  let r := rt_of s c in
  if negb (bool_decide (rt_nr_migratory r = 0)) && bool_decide (1 < rt_nr_total r) then
    if overloaded r then s else upd_rt c (set_overloaded true) (rt_set_overload c s)
  else if overloaded r then upd_rt c (set_overloaded false) (rt_clear_overload c s) else s.

Definition inc_rt_migration (p c : nat) (s : sys) : sys :=
  let m := if decide (1 < nr_cpus_allowed (tasks s p)) then 1 else 0 in
  update_rt_migration c (upd_rt c (λ r, set_migration (u64 (rt_nr_migratory r + m)) (u64 (rt_nr_total r + 1)) r) s).

Definition dec_rt_migration (p c : nat) (s : sys) : sys :=
  let m := if decide (1 < nr_cpus_allowed (tasks s p)) then 1 else 0 in
  update_rt_migration c (upd_rt c (λ r, set_migration (u64 (rt_nr_migratory r - m)) (u64 (rt_nr_total r - 1)) r) s).

Definition enqueue_pushable_task (c p : nat) (s : sys) : sys :=
  upd_rt c (λ r, set_pushable (plist_add p (prio (tasks s p)) (plist_del p (pushable_tasks r))) r) s.

Definition dequeue_pushable_task (c p : nat) (s : sys) : sys :=
  upd_rt c (λ r, set_pushable (plist_del p (pushable_tasks r)) r) s.

Definition has_pushable_tasks (s : sys) (c : nat) : bool :=
  negb (bool_decide (plist_items (pushable_tasks (rt_of s c)) = [])).

(** ** The array *)

(** The tasks of a queue, by priority and then in order. *)
Definition queued (r : rt_rq) : list nat := concat (list_items <$> queue r).

(** [on_rt_rq]: the entity is linked in a list of its queue. *)
Definition on_rt_rq (s : sys) (p : nat) : bool := bool_decide (p ∈ queued (rt_of s (task_cpu (tasks s p)))).

(** The list of a priority. *)
Definition queue_at (r : rt_rq) (k : nat) : list nat := list_items (default rlist_init (queue r !! k)).

Definition sched_find_first_bit (b : bitmap) : nat := find_next_bit b (S MAX_RT_PRIO) 0.

(** [pick_rt_task] for processor [cpu], or for any when there is none. *)
Definition pick_rt_task (s : sys) (cpu : option nat) (p : nat) : bool :=
  negb (task_running s p) &&
  match cpu with Some c => bool_decide (c ∈ cpus_allowed (tasks s p)) | None => true end &&
  bool_decide (1 < nr_cpus_allowed (tasks s p)).

(** The loop of [pick_next_highest_task_rt] from bit [idx]. *)
Fixpoint pick_highest_loop (fuel : nat) (s : sys) (c : nat) (cpu : option nat) (idx : nat) : option nat :=
  match fuel with
  | O => None
  | S fuel' =>
      if decide (MAX_RT_PRIO <= idx)%nat then None
      else
        match find (pick_rt_task s cpu) (queue_at (rt_of s c) idx) with
        | Some p => Some p
        | None => pick_highest_loop fuel' s c cpu (find_next_bit (bits (rt_of s c)) MAX_RT_PRIO (S idx))
        end
  end.

Definition pick_next_highest_task_rt (s : sys) (c : nat) (cpu : option nat) : option nat :=
  pick_highest_loop (S MAX_RT_PRIO) s c cpu (sched_find_first_bit (bits (rt_of s c))).

(** ** Highest priorities *)

Definition next_prio (s : sys) (c : nat) : Z :=
  match pick_next_highest_task_rt s c (Some c) with
  | Some p => if rt_prio (prio (tasks s p)) then prio (tasks s p) else Z.of_nat MAX_RT_PRIO
  | None => Z.of_nat MAX_RT_PRIO
  end.

Definition inc_rt_prio_smp (c : nat) (pr prev_prio : Z) (s : sys) : sys :=
  if decide (pr < prev_prio) then
    let s := upd_rt c (set_highest_next prev_prio) s in
    if online (rqs s c) then cpupri_set c pr s else s
  else if decide (pr = highest_curr (rt_of s c)) then upd_rt c (set_highest_next pr) s
  else if decide (pr < highest_next (rt_of s c)) then upd_rt c (set_highest_next (next_prio s c)) s
  else s.

Definition dec_rt_prio_smp (c : nat) (pr prev_prio : Z) (s : sys) : sys :=
  let s := if negb (bool_decide (rt_nr_running (rt_of s c) = 0)) && bool_decide (pr <= highest_next (rt_of s c))
           then upd_rt c (set_highest_next (next_prio s c)) s else s in
  if online (rqs s c) && negb (bool_decide (highest_curr (rt_of s c) = prev_prio))
  then cpupri_set c (highest_curr (rt_of s c)) s else s.

Definition inc_rt_prio (c : nat) (pr : Z) (s : sys) : sys :=
  let prev_prio := highest_curr (rt_of s c) in
  let s := if decide (pr < prev_prio) then upd_rt c (set_highest_curr pr) s else s in
  inc_rt_prio_smp c pr prev_prio s.

Definition dec_rt_prio (c : nat) (pr : Z) (s : sys) : sys :=
  let prev_prio := highest_curr (rt_of s c) in
  let s :=
    if decide (rt_nr_running (rt_of s c) ≠ 0) then
      if decide (pr = prev_prio)
      then upd_rt c (set_highest_curr (Z.of_nat (sched_find_first_bit (bits (rt_of s c))))) s else s
    else upd_rt c (set_highest_curr (Z.of_nat MAX_RT_PRIO)) s in
  dec_rt_prio_smp c pr prev_prio s.

(** ** Entities *)

Definition inc_rt_tasks (p c : nat) (s : sys) : sys :=
  let s := upd_rt c (λ r, set_rt_nr_running (u64 (rt_nr_running r + 1)) r) s in
  let s := inc_rt_prio c (prio (tasks s p)) s in
  let s := inc_rt_migration p c s in
  start_rt_bandwidth s.

Definition dec_rt_tasks (p c : nat) (s : sys) : sys :=
  let s := upd_rt c (λ r, set_rt_nr_running (u64 (rt_nr_running r - 1)) r) s in
  let s := dec_rt_prio c (prio (tasks s p)) s in
  dec_rt_migration p c s.

(** The priority as an index of the array. *)
Definition prio_index (s : sys) (p : nat) : nat := Z.to_nat (prio (tasks s p)).

Definition __enqueue_rt_entity (p : nat) (head : bool) (s : sys) : sys :=
  let c := task_cpu (tasks s p) in
  let k := prio_index s p in
  let s := upd_rt c (λ r, set_active (alter (if head then list_add p else list_add_tail p) k (queue r))
                            (__set_bit k (bits r)) r) s in
  inc_rt_tasks p c s.

(** [list_del_init] takes the entity out of the list it is linked in. *)
Definition array_del (p : nat) (q : list rlist) : list rlist := list_del p <$> q.

Definition __dequeue_rt_entity (p : nat) (s : sys) : sys :=
  let c := task_cpu (tasks s p) in
  let k := prio_index s p in
  let s := upd_rt c (λ r, set_active (array_del p (queue r)) (bits r) r) s in
  let s := if decide (queue_at (rt_of s c) k = [])
           then upd_rt c (λ r, set_active (queue r) (__clear_bit k (bits r)) r) s else s in
  dec_rt_tasks p c s.

Definition dequeue_rt_stack (p : nat) (s : sys) : sys :=
  if on_rt_rq s p then __dequeue_rt_entity p s else s.

Definition enqueue_rt_entity (p : nat) (head : bool) (s : sys) : sys :=
  __enqueue_rt_entity p head (dequeue_rt_stack p s).

Definition dequeue_rt_entity (p : nat) (s : sys) : sys := dequeue_rt_stack p s.

(** ** Tasks *)

(** The flags ENQUEUE_WAKEUP and ENQUEUE_HEAD are the two booleans. *)
Definition enqueue_task_rt (c p : nat) (wakeup head : bool) (s : sys) : sys :=
  let s := if wakeup then upd_task p (λ t, set_timeout 0 (sched_exp t) t) s else s in
  let s := enqueue_rt_entity p head s in
  if negb (task_current s c p) && bool_decide (1 < nr_cpus_allowed (tasks s p))
  then enqueue_pushable_task c p s else s.

Definition dequeue_task_rt (c p : nat) (s : sys) : sys :=
  dequeue_pushable_task c p (dequeue_rt_entity p (update_curr_rt c s)).

(** [list_move] and [list_move_tail]. *)
Definition requeue_rt_entity (p : nat) (head : bool) (s : sys) : sys :=
  if on_rt_rq s p then
    upd_rt (task_cpu (tasks s p)) (λ r,
      set_active (alter (if head then list_add p else list_add_tail p) (prio_index s p) (array_del p (queue r))) (bits r) r) s
  else s.

Definition requeue_task_rt (p : nat) (head : bool) (s : sys) : sys := requeue_rt_entity p head s.

Definition yield_task_rt (c : nat) (s : sys) : sys := requeue_task_rt (curr (rqs s c)) false s.

Definition check_preempt_equal_prio (c p : nat) (s : sys) : sys :=
  let cur := curr (rqs s c) in
  if decide (nr_cpus_allowed (tasks s cur) = 1) then s
  else if decide (nr_cpus_allowed (tasks s p) ≠ 1 ∧ is_Some (cpupri_find s p)) then s
  else if decide (is_Some (cpupri_find s cur)) then resched_task cur (requeue_task_rt p true s)
  else s.

Definition check_preempt_curr_rt (c p : nat) (s : sys) : sys :=
  let cur := curr (rqs s c) in
  if decide (prio (tasks s p) < prio (tasks s cur)) then resched_task cur s
  else if decide (prio (tasks s p) = prio (tasks s cur)) then
    if need_resched (tasks s cur) then s else check_preempt_equal_prio c p s
  else s.

(** ** Choosing *)

(** [None] is the [BUG_ON], or an empty list behind a bit that is set. *)
Definition pick_next_rt_entity (s : sys) (c : nat) : option nat :=
  let idx := sched_find_first_bit (bits (rt_of s c)) in
  if decide (MAX_RT_PRIO <= idx)%nat then None else head (queue_at (rt_of s c) idx).

Definition _pick_next_task_rt (c : nat) (s : sys) : option (option nat * sys) :=
  if decide (rt_nr_running (rt_of s c) = 0) then Some (None, s)
  else if rt_rq_throttled s c then Some (None, s)
  else
    match pick_next_rt_entity s c with
    | None => None
    | Some p => Some (Some p, upd_task p (λ t, set_exec (clock_task (rqs s c)) (sum_exec_runtime t) t) s)
    end.

Definition pick_next_task_rt (c : nat) (s : sys) : option (option nat * sys) :=
  match _pick_next_task_rt c s with
  | None => None
  | Some (p, s) =>
      let s := match p with Some p => dequeue_pushable_task c p s | None => s end in
      Some (p, upd_rq c (set_post_schedule (has_pushable_tasks s c)) s)
  end.

Definition put_prev_task_rt (c p : nat) (s : sys) : sys :=
  let s := update_curr_rt c s in
  let s := upd_task p (λ t, set_exec 0 (sum_exec_runtime t) t) s in
  if on_rt_rq s p && bool_decide (1 < nr_cpus_allowed (tasks s p)) then enqueue_pushable_task c p s else s.

Definition set_curr_task_rt (c : nat) (s : sys) : sys :=
  let p := curr (rqs s c) in
  dequeue_pushable_task c p (upd_task p (λ t, set_exec (clock_task (rqs s c)) (sum_exec_runtime t) t) s).

(** ** The tick *)

Definition watchdog (p : nat) (s : sys) : sys :=
  let t := tasks s p in
  if decide (lim_soft t = RLIM_INFINITY) then s
  else
    let timeout := u64 (timeout t + 1) in
    let next := u64 (Z.min (lim_soft t) (lim_hard t) + 1000000 / HZ - 1) / (1000000 / HZ) in
    upd_task p (set_timeout timeout (if decide (next < timeout) then sum_exec_runtime t else sched_exp t)) s.

(** The neighbours of the entity differ: it is not alone in its list. *)
Definition run_list_shared (s : sys) (p : nat) : bool :=
  existsb (λ l, bool_decide (p ∈ list_items l) && bool_decide (1 < length (list_items l))%nat)
    (queue (rt_of s (task_cpu (tasks s p)))).

Definition task_tick_rt (c p : nat) (s : sys) : sys :=
  let s := watchdog p (update_curr_rt c s) in
  if decide (policy (tasks s p) ≠ SCHED_RR) then s
  else
    let slice := u32 (time_slice (tasks s p) - 1) in
    let s := upd_task p (set_time_slice slice) s in
    if decide (slice ≠ 0) then s
    else
      let s := upd_task p (set_time_slice DEF_TIMESLICE) s in
      if run_list_shared s p
      then upd_task p (set_need_resched true) (requeue_task_rt p false s) else s.

Definition get_rr_interval_rt (s : sys) (p : nat) : Z :=
  if decide (policy (tasks s p) = SCHED_RR) then DEF_TIMESLICE else 0.

(** ** Affinity *)

Definition bool_to_Z (b : bool) : Z := if b then 1 else 0.

(** [None] is one of the two [BUG_ON]s. *)
Definition set_cpus_allowed_rt (p : nat) (new_mask : gset nat) (s : sys) : option sys :=
  let weight := Z.of_nat (size new_mask) in
  let t := tasks s p in
  let c := task_cpu t in
  let finish s := Some (upd_task p (set_affinity weight new_mask) s) in
  if rt_task t then
    if on_rq t && negb (bool_decide (weight = nr_cpus_allowed t)) then
      let s :=
        if task_current s c p then s
        else
          let s := if decide (1 < nr_cpus_allowed t) then dequeue_pushable_task c p s else s in
          if decide (1 < weight) then enqueue_pushable_task c p s else s in
      if decide (nr_cpus_allowed t <= 1 ∧ 1 < weight) then
        finish (update_rt_migration c (upd_rt c (λ r, set_migration (u64 (rt_nr_migratory r + 1)) (rt_nr_total r) r) s))
      else if decide (1 < nr_cpus_allowed t ∧ weight <= 1) then
        if decide (rt_nr_migratory (rt_of s c) = 0) then None
        else finish (update_rt_migration c (upd_rt c (λ r, set_migration (u64 (rt_nr_migratory r - 1)) (rt_nr_total r) r) s))
      else finish (update_rt_migration c s)
    else finish s
  else None.

End queue.
