(* ===== verification/SchedCore.v ===== *)
(** * The core of the scheduler the real-time class calls (sched.c,
      src/indwriterups/project1)

    The table of a scheduling class, and moving a task on and off a run queue
    through it. *)

From S2P Require Import Prelude RtState RtBandwidth RtQueue.

Local Open Scope Z_scope.

(** ** Scheduling classes *)

Section core.
Context `{RtEnv}.

(** [struct sched_class], for several processors; a handler a class may leave out
    is an option.  Processors stand for their run queues. *)
Record class_ops := mk_class_ops {
  c_enqueue_task : nat → nat → bool → bool → sys → sys;
  c_dequeue_task : nat → nat → sys → sys;
  c_yield_task : nat → sys → sys;
  c_check_preempt_curr : nat → nat → sys → sys;
  c_pick_next_task : nat → sys → res (option nat * sys);
  c_put_prev_task : nat → nat → sys → sys;
  c_select_task_rq : nat → bool → sys → nat;
  c_set_cpus_allowed : option (nat → gset nat → sys → res sys);
  c_rq_online : option (nat → sys → res sys);
  c_rq_offline : option (nat → sys → res sys);
  c_pre_schedule : option (nat → nat → sys → res sys);
  c_post_schedule : option (nat → sys → res sys);
  c_task_woken : option (nat → nat → sys → res sys);
  c_switched_from : option (nat → nat → sys → res sys);
  c_set_curr_task : nat → sys → sys;
  c_task_tick : nat → nat → sys → sys;
  c_get_rr_interval : nat → sys → Z;
  c_prio_changed : nat → nat → Z → sys → res sys;
  c_switched_to : nat → nat → sys → res sys;
  c_task_fork : option (nat → sys → sys);
}.

End core.

(** The classes whose code is in other files (sched_stoptask.c, sched_fair.c and
    sched_idletask.c). *)
Class OtherClasses `{RtEnv} := { other_class : sclass → class_ops }.

Section locks.
Context `{RtEnv}.

(** Both variants of [_double_lock_balance]; queues are ordered as their
    processors.  The first component says whether the lock of [this] was dropped. *)
Definition double_lock_balance (this busiest : nat) (s : sys) : bool * sys :=
  if config_preempt then (true, others false this busiest s)
  else if raw_spin_trylock s busiest then (false, s)
  else if decide (busiest < this)%nat then (true, others false this busiest s)
  else (false, others true this busiest s).

End locks.

Section moves.
Context `{OtherClasses}.

(** Interrupt time is not accounted apart. *)
Definition update_rq_clock_task (c : nat) (delta : Z) (s : sys) : sys :=
  upd_rq c (λ q, set_clocks (clock q) (u64 (clock_task q + delta)) q) s.

Definition update_rq_clock (c : nat) (s : sys) : sys :=
  if decide (0 < skip_clock_update (rqs s c)) then s
  else
    let delta := s64 (sched_clock_cpu s c - clock (rqs s c)) in
    let s := upd_rq c (λ q, set_clocks (u64 (clock q + delta)) (clock_task q) q) s in
    update_rq_clock_task c delta s.

Definition inc_nr_running (c : nat) (s : sys) : sys :=
  upd_rq c (λ q, set_nr_running (u64 (nr_running q + 1)) q) s.

Definition dec_nr_running (c : nat) (s : sys) : sys :=
  upd_rq c (λ q, set_nr_running (u64 (nr_running q - 1)) q) s.

(** The flags ENQUEUE_WAKEUP and ENQUEUE_HEAD are the two booleans. *)
Definition enqueue_task (c p : nat) (wakeup head : bool) (s : sys) : sys :=
  let s := update_rq_clock c s in
  match sched_class (tasks s p) with
  | rt_sched_class => enqueue_task_rt c p wakeup head s
  | k => c_enqueue_task (other_class k) c p wakeup head s
  end.

Definition dequeue_task (c p : nat) (s : sys) : sys :=
  let s := update_rq_clock c s in
  match sched_class (tasks s p) with
  | rt_sched_class => dequeue_task_rt c p s
  | k => c_dequeue_task (other_class k) c p s
  end.

(** The counts of uninterruptible tasks are not modelled. *)
Definition activate_task (c p : nat) (wakeup head : bool) (s : sys) : sys :=
  inc_nr_running c (enqueue_task c p wakeup head s).

Definition deactivate_task (c p : nat) (s : sys) : sys :=
  dec_nr_running c (dequeue_task c p s).

(** The number of migrations is not modelled. *)
Definition set_task_cpu (p c : nat) (s : sys) : sys := upd_task p (set_cpu c) s.

End moves.
