(* ===== verification/RtPush.v ===== *)
(** * Pushing and pulling real-time tasks (sched_rt.c, src/indwriterups/project1)

    A processor with more real-time tasks than it can run pushes them to the
    processors whose work is less urgent; one that is about to run something less
    urgent pulls from the overloaded ones.  Locking a second queue may drop the
    lock of the first: what others do meanwhile is [double_lock_balance].  The
    bound [fuel] counts the passes of the two loops that have none in the code. *)

From S2P Require Import Prelude RtState RtBandwidth RtQueue SchedCore.

Local Open Scope Z_scope.

Definition RT_MAX_TRIES : nat := 3.

Section push.
Context `{OtherClasses}.

(** ** Choosing a processor *)

(** The loop of [find_lowest_rq] over the domains. *)
Fixpoint lowest_in_domains (lowest : gset nat) (this : option nat) (ds : list (bool * gset nat)) : option nat :=
  match ds with
  | [] => None
  | (affine, dspan) :: ds' =>
      if affine then
        match this with
        | Some t =>
            if decide (t ∈ dspan) then Some t
            else match cpumask_first (lowest ∩ dspan) with
                 | Some b => Some b
                 | None => lowest_in_domains lowest this ds'
                 end
        | None =>
            match cpumask_first (lowest ∩ dspan) with
            | Some b => Some b
            | None => lowest_in_domains lowest this ds'
            end
        end
      else lowest_in_domains lowest this ds'
  end.

(** [None] is -1. *)
Definition find_lowest_rq (s : sys) (p : nat) : option nat :=
  let cpu := task_cpu (tasks s p) in
  if decide (nr_cpus_allowed (tasks s p) = 1) then None
  else
    match cpupri_find s p with
    | None => None
    | Some lowest =>
        if decide (cpu ∈ lowest) then Some cpu
        else
          let this := if decide (this_cpu s ∈ lowest) then Some (this_cpu s) else None in
          match lowest_in_domains lowest this (domains cpu) with
          | Some best => Some best
          | None => match this with Some t => Some t | None => cpumask_any lowest end
          end
    end.

Definition select_task_rq_rt (p : nat) (wake : bool) (s : sys) : nat :=
  if negb wake then this_cpu s
  else
    let cpu := task_cpu (tasks s p) in
    let cur := tasks s (curr (rqs s cpu)) in
    if rt_task cur && (bool_decide (nr_cpus_allowed cur < 2) || bool_decide (prio cur < prio (tasks s p)))
       && bool_decide (1 < nr_cpus_allowed (tasks s p))
    then default cpu (find_lowest_rq s p) else cpu.

(** Whether a task can no longer be moved from [c] to [d] after the lock of [c]
    was dropped. *)
Definition task_shifted (s : sys) (p c d : nat) : bool :=
  negb (bool_decide (task_cpu (tasks s p) = c)) || negb (bool_decide (d ∈ cpus_allowed (tasks s p)))
  || task_running s p || negb (on_rq (tasks s p)).

(** The tries of [find_lock_lowest_rq]. *)
Fixpoint find_lock_tries (tries : nat) (p c : nat) (s : sys) : option nat * sys :=
  match tries with
  | O => (None, s)
  | S tries' =>
      match find_lowest_rq s p with
      | None => (None, s)
      | Some d =>
          if decide (d = c) then (None, s)
          else
            let '(dropped, s) := double_lock_balance c d s in
            if dropped && task_shifted s p c d then (None, s)
            else if decide (prio (tasks s p) < highest_curr (rt_of s d)) then (Some d, s)
            else find_lock_tries tries' p c s
      end
  end.

Definition find_lock_lowest_rq (p c : nat) (s : sys) : option nat * sys :=
  find_lock_tries RT_MAX_TRIES p c s.

(** ** Pushing *)

Definition pick_next_pushable_task (s : sys) (c : nat) : res (option nat) :=
  match plist_items (pushable_tasks (rt_of s c)) with
  | [] => Ok None
  | (p, _) :: _ =>
      let t := tasks s p in
      if decide (c ≠ task_cpu t) then Bug
      else if task_current s c p then Bug
      else if decide (nr_cpus_allowed t <= 1) then Bug
      else if negb (on_rq t) then Bug
      else if negb (rt_task t) then Bug
      else Ok (Some p)
  end.

(** From the label [retry] on. *)
Fixpoint push_retry (fuel : nat) (c next : nat) (s : sys) : res (bool * sys) :=
  match fuel with
  | O => Out
  | S fuel' =>
      if decide (next = curr (rqs s c)) then Ok (false, s)
      else if decide (prio (tasks s next) < prio (tasks s (curr (rqs s c))))
      then Ok (false, resched_task (curr (rqs s c)) s)
      else
        let '(lowest, s) := find_lock_lowest_rq next c s in
        match lowest with
        | None =>
            task ← pick_next_pushable_task s c;
            if decide (task_cpu (tasks s next) = c ∧ task = Some next)
            then Ok (true, dequeue_pushable_task c next s)
            else match task with
                 | None => Ok (true, s)
                 | Some t => push_retry fuel' c t s
                 end
        | Some d =>
            let s := deactivate_task c next s in
            let s := set_task_cpu next d s in
            let s := activate_task d next false false s in
            Ok (true, resched_task (curr (rqs s d)) s)
        end
  end.

Definition push_rt_task (fuel : nat) (c : nat) (s : sys) : res (bool * sys) :=
  if negb (overloaded (rt_of s c)) then Ok (false, s)
  else
    next ← pick_next_pushable_task s c;
    match next with None => Ok (false, s) | Some p => push_retry fuel c p s end.

Fixpoint push_rt_tasks (fuel : nat) (c : nat) (s : sys) : res sys :=
  match fuel with
  | O => Out
  | S fuel' =>
      '(moved, s) ← push_rt_task fuel c s;
      if moved : bool then push_rt_tasks fuel' c s else Ok s
  end.

(** ** Pulling *)

(** One processor of [pull_rt_task]. *)
Definition pull_from (this cpu : nat) (s : sys) : bool * sys :=
  if decide (highest_curr (rt_of s this) <= highest_next (rt_of s cpu)) then (false, s)
  else
    let s := snd (double_lock_balance this cpu s) in
    if decide (rt_nr_running (rt_of s cpu) <= 1) then (false, s)
    else
      match pick_next_highest_task_rt s cpu (Some this) with
      | None => (false, s)
      | Some p =>
          if decide (prio (tasks s p) < highest_curr (rt_of s this)) then
            if decide (prio (tasks s p) < prio (tasks s (curr (rqs s cpu)))) then (false, s)
            else
              let s := deactivate_task cpu p s in
              let s := set_task_cpu p this s in
              (true, activate_task this p false false s)
          else (false, s)
      end.

(** The mask is read again at each processor. *)
Fixpoint pull_loop (this : nat) (cpus : list nat) (ret : bool) (s : sys) : bool * sys :=
  match cpus with
  | [] => (ret, s)
  | cpu :: cpus' =>
      if decide (cpu ∉ rto_mask (rd s) ∨ this = cpu) then pull_loop this cpus' ret s
      else let '(b, s) := pull_from this cpu s in pull_loop this cpus' (ret || b) s
  end.

Definition pull_rt_task (this : nat) (s : sys) : bool * sys :=
  if decide (rt_overloaded s = 0) then (false, s)
  else pull_loop this (seq 0 nr_cpu_ids) false s.

(** ** Handlers *)

Definition pre_schedule_rt (c prev : nat) (s : sys) : sys :=
  if rt_task (tasks s prev) && bool_decide (prio (tasks s prev) < highest_curr (rt_of s c))
  then snd (pull_rt_task c s) else s.

Definition post_schedule_rt (fuel : nat) (c : nat) (s : sys) : res sys := push_rt_tasks fuel c s.

Definition task_woken_rt (fuel : nat) (c p : nat) (s : sys) : res sys :=
  let cur := tasks s (curr (rqs s c)) in
  if negb (task_running s p) && negb (need_resched cur) && has_pushable_tasks s c
     && bool_decide (1 < nr_cpus_allowed (tasks s p)) && rt_task cur
     && (bool_decide (nr_cpus_allowed cur < 2) || bool_decide (prio cur < prio (tasks s p)))
  then push_rt_tasks fuel c s else Ok s.

Definition rq_online_rt (c : nat) (s : sys) : sys :=
  let s := if overloaded (rt_of s c) then rt_set_overload c s else s in
  let s := __enable_runtime c s in
  cpupri_set c (highest_curr (rt_of s c)) s.

Definition rq_offline_rt (c : nat) (s : sys) : res sys :=
  let s := if overloaded (rt_of s c) then rt_clear_overload c s else s in
  s ← of_option (__disable_runtime c s);
  Ok (cpupri_set c CPUPRI_INVALID s).

Definition switched_from_rt (c p : nat) (s : sys) : sys :=
  if on_rq (tasks s p) && bool_decide (rt_nr_running (rt_of s c) = 0) then snd (pull_rt_task c s) else s.

Definition switched_to_rt (fuel : nat) (c p : nat) (s : sys) : res sys :=
  if on_rq (tasks s p) && negb (bool_decide (curr (rqs s c) = p)) then
    '(moved, s) ← (if overloaded (rt_of s c) then push_rt_task fuel c s else Ok (false, s));
    let check_resched := negb (moved && negb (bool_decide (c = task_cpu (tasks s p)))) in
    if check_resched && bool_decide (prio (tasks s p) < prio (tasks s (curr (rqs s c))))
    then Ok (resched_task (curr (rqs s c)) s) else Ok s
  else Ok s.

Definition prio_changed_rt (c p : nat) (oldprio : Z) (s : sys) : sys :=
  if negb (on_rq (tasks s p)) then s
  else if decide (curr (rqs s c) = p) then
    let s := if decide (oldprio < prio (tasks s p)) then snd (pull_rt_task c s) else s in
    if bool_decide (highest_curr (rt_of s c) < prio (tasks s p)) && bool_decide (curr (rqs s c) = p)
    then resched_task p s else s
  else if decide (prio (tasks s p) < prio (tasks s (curr (rqs s c))))
  then resched_task (curr (rqs s c)) s else s.

(** [rt_sched_class]. *)
Definition rt_class_ops (fuel : nat) : class_ops :=
  mk_class_ops
    enqueue_task_rt dequeue_task_rt yield_task_rt check_preempt_curr_rt
    (λ c s, of_option (pick_next_task_rt c s)) put_prev_task_rt select_task_rq_rt
    (Some (λ p m s, of_option (set_cpus_allowed_rt p m s)))
    (Some (λ c s, Ok (rq_online_rt c s))) (Some rq_offline_rt)
    (Some (λ c p s, Ok (pre_schedule_rt c p s))) (Some (post_schedule_rt fuel))
    (Some (task_woken_rt fuel)) (Some (λ c p s, Ok (switched_from_rt c p s)))
    set_curr_task_rt task_tick_rt (λ p s, get_rr_interval_rt s p)
    (λ c p o s, Ok (prio_changed_rt c p o s)) (switched_to_rt fuel) None.

End push.
