(* ===== verification/RtKeeps.v ===== *)
(** * What leaves the pushable tasks alone (sched_rt.c,
      src/indwriterups/project1)

    Two states are close when they have the same lists of pushable tasks, the same
    running tasks and wake lists, and tasks that differ in their accounting only.  The operations
    on the array, the bandwidth and the clock lead to a close state. *)

From S2P Require Import Prelude RtState RtBandwidth RtQueue SchedCore.

Local Open Scope Z_scope.

Section keeps.
Context `{RtEnv}.

Definition kview (t : task) :=
  (prio t, task_cpu t, nr_cpus_allowed t, sched_class t, cpus_allowed t, on_rq t, on_cpu t,
   (state t, mm t, active_mm t, preempt_active t)).

Definition rqview (q : rq) := (curr q, idle q, wake_list q, prev_mm q, resched_ipi q).

Record close (s s' : sys) : Prop := {
  cl_push c : pushable_tasks (rt_of s c) = pushable_tasks (rt_of s' c);
  cl_rq c : rqview (rqs s c) = rqview (rqs s' c);
  cl_task p : kview (tasks s p) = kview (tasks s' p);
  cl_mm : mm_count s = mm_count s';
  cl_cpu : this_cpu s = this_cpu s';
}.

Infix "≈" := close (at level 70).

#[export] Instance close_equiv : Equivalence close.
Proof.
  split.
  - intros s. by split.
  - intros s s' [? ? ? ? ?]. by split.
  - intros s1 s2 s3 [E1 E2 E3 E4 E5] [F1 F2 F3 F4 F5].
    split; intros; [by rewrite E1|by rewrite E2|by rewrite E3|by rewrite E4|by rewrite E5].
Qed.

Lemma close_upd_rq c f s :
  (∀ q, pushable_tasks (rt (f q)) = pushable_tasks (rt q) ∧ rqview (f q) = rqview q) → upd_rq c f s ≈ s.
Proof.
  intros Hf. split; [| |done|done|done]; intros c'; unfold rt_of, upd_rq; cbn;
    (destruct (decide (c = c')) as [<-|]; [rewrite fn_lookup_insert; apply Hf|by rewrite fn_lookup_insert_ne]).
Qed.

Lemma close_upd_rt c f s : (∀ r, pushable_tasks (f r) = pushable_tasks r) → upd_rt c f s ≈ s.
Proof. intros Hf. apply close_upd_rq. intros q. by split; [apply Hf|]. Qed.

Lemma close_upd_task p f s : (∀ t, kview (f t) = kview t) → upd_task p f s ≈ s.
Proof.
  intros Hf. split; [done|done| |done|done]. intros q. unfold upd_task; cbn.
  destruct (decide (p = q)) as [<-|]; [rewrite fn_lookup_insert; apply Hf|by rewrite fn_lookup_insert_ne].
Qed.

Lemma close_upd_rd f s : upd_rd f s ≈ s.
Proof. by split. Qed.

Lemma close_upd_bw f s : upd_bw f s ≈ s.
Proof. by split. Qed.

End keeps.

Infix "≈" := close (at level 70).

(** Removes the outermost update that stays close. *)
Ltac close_step :=
  lazymatch goal with
  | |- ?s ≈ ?s => reflexivity
  | |- (if ?b then _ else _) ≈ _ => destruct b
  | |- upd_rt _ _ _ ≈ _ => etransitivity; [apply close_upd_rt; reflexivity|]
  | |- upd_rq _ _ _ ≈ _ => etransitivity; [apply close_upd_rq; by intros|]
  | |- upd_task _ _ _ ≈ _ => etransitivity; [apply close_upd_task; reflexivity|]
  | |- upd_rd _ _ ≈ _ => etransitivity; [apply close_upd_rd|]
  | |- upd_bw _ _ ≈ _ => etransitivity; [apply close_upd_bw|]
  end.

Ltac close_solve := repeat close_step; try reflexivity.

Section operations.
Context `{OtherClasses}.

Lemma close_resched p s : resched_task p s ≈ s.
Proof. unfold resched_task. close_solve. Qed.

Lemma close_balance_loop c w cpus more s : snd (balance_loop c w cpus more s) ≈ s.
Proof.
  revert more s. induction cpus as [|i cpus IH]; intros more s; cbn -[s64 u64]; [done|].
  repeat (case_decide; try apply IH); cbn -[s64 u64]; try (etransitivity; [apply IH|]); close_solve.
Qed.

Lemma close_balance c s : snd (balance_runtime c s) ≈ s.
Proof. unfold balance_runtime. case_decide; [apply close_balance_loop|done]. Qed.

Lemma close_exceeded c s : snd (sched_rt_runtime_exceeded c s) ≈ s.
Proof.
  unfold sched_rt_runtime_exceeded, sched_rt_rq_dequeue.
  repeat case_match; cbn; try done; close_solve; apply close_balance.
Qed.

Lemma close_update_curr c s : update_curr_rt c s ≈ s.
Proof.
  unfold update_curr_rt. case_match; [|done]. cbv zeta.
  set (delta := if decide (s64 _ < 0) then _ else _).
  set (s1 := upd_task _ _ _). assert (s1 ≈ s) as Hs1 by (unfold s1; close_solve). clearbody s1 delta.
  case_match; [|done]. case_decide; [done|].
  set (s2 := upd_rt _ _ _). assert (s2 ≈ s) as Hs2 by (unfold s2; close_solve; exact Hs1).
  pose proof (close_exceeded (task_cpu (tasks s1 (curr (rqs s c)))) s2) as Hs3.
  destruct (sched_rt_runtime_exceeded _ _) as [ex s3]. cbn in Hs3.
  case_match; [etransitivity; [apply close_resched|]|]; by etransitivity.
Qed.

Lemma close_clock c s : update_rq_clock c s ≈ s.
Proof. unfold update_rq_clock, update_rq_clock_task. close_solve. Qed.

Lemma close_migration c s : update_rt_migration c s ≈ s.
Proof. unfold update_rt_migration, rt_set_overload, rt_clear_overload. close_solve. Qed.

Lemma close_inc_prio c pr s : inc_rt_prio c pr s ≈ s.
Proof. unfold inc_rt_prio, inc_rt_prio_smp, cpupri_set. close_solve. Qed.

Lemma close_dec_prio c pr s : dec_rt_prio c pr s ≈ s.
Proof. unfold dec_rt_prio, dec_rt_prio_smp, cpupri_set. close_solve. Qed.

Lemma close_inc_tasks p c s : inc_rt_tasks p c s ≈ s.
Proof.
  unfold inc_rt_tasks, start_rt_bandwidth, inc_rt_migration.
  case_match; close_solve; (etransitivity; [apply close_migration|]); close_solve;
    (etransitivity; [apply close_inc_prio|]); close_solve.
Qed.

Lemma close_dec_tasks p c s : dec_rt_tasks p c s ≈ s.
Proof.
  unfold dec_rt_tasks, dec_rt_migration. etransitivity; [apply close_migration|]. close_step.
  etransitivity; [apply close_dec_prio|]. close_solve.
Qed.

Lemma close_dequeue_stack p s : dequeue_rt_stack p s ≈ s.
Proof.
  unfold dequeue_rt_stack, __dequeue_rt_entity. case_match; [|done].
  etransitivity; [apply close_dec_tasks|]. close_solve.
Qed.

Lemma close_enqueue_entity p h s : enqueue_rt_entity p h s ≈ s.
Proof.
  unfold enqueue_rt_entity, __enqueue_rt_entity. etransitivity; [apply close_inc_tasks|].
  close_step. apply close_dequeue_stack.
Qed.

Lemma close_nr_running_inc c s : inc_nr_running c s ≈ s.
Proof. unfold inc_nr_running. close_solve. Qed.

Lemma close_nr_running_dec c s : dec_nr_running c s ≈ s.
Proof. unfold dec_nr_running. close_solve. Qed.

End operations.
