(* ===== verification/RtBalance.v ===== *)
(** * Pushing ends, and moves tasks where they may run (sched_rt.c,
      src/indwriterups/project1) *)

From S2P Require Import Prelude RtState RtBandwidth RtQueue SchedCore RtPush RtKeeps.

Local Open Scope Z_scope.

(** What the search of the priority map and the masks promise. *)
Class MaskSpec `{RtEnv} := {
  cpupri_find_allowed s p m : cpupri_find s p = Some m → m ⊆ cpus_allowed (tasks s p);
  cpumask_any_in m c : cpumask_any m = Some c → c ∈ m;
  cpumask_first_in m c : cpumask_first m = Some c → c ∈ m;
}.

Section pushing.
Context `{OtherClasses} `{!KernelLibSpec}.

(** The entries of a queue's pushable list. *)
Definition pushables (s : sys) (c : nat) : list (nat * Z) := plist_items (pushable_tasks (rt_of s c)).

(** A task that may be pushed from [c]. *)
Definition pushable_task (s : sys) (c p : nat) : Prop :=
  let t := tasks s p in
  task_cpu t = c ∧ curr (rqs s c) ≠ p ∧ 1 < nr_cpus_allowed t ∧ on_rq t = true ∧
  prio t < Z.of_nat MAX_RT_PRIO ∧ sched_class t = rt_sched_class.

Definition pushable_ok (s : sys) (c : nat) : Prop := ∀ e, e ∈ pushables s c → pushable_task s c e.1.

(** *** Effects on the pushable lists *)

Lemma close_pushables s s' c : s' ≈ s → pushables s' c = pushables s c.
Proof. intros Hc. unfold pushables. by rewrite (cl_push _ _ Hc). Qed.

Lemma close_pushable_task s s' c p : s' ≈ s → pushable_task s c p → pushable_task s' c p.
Proof.
  intros [_ Hq Ht _ _]. unfold pushable_task. injection (Hq c) as -> _ _ _ _.
  injection (Ht p) as -> -> -> -> _ -> _ _ _ _ _. done.
Qed.

Lemma dequeue_pushable_pushables c p s c' :
  pushables (dequeue_pushable_task c p s) c' =
  if decide (c' = c) then filter (λ e, e.1 ≠ p) (pushables s c) else pushables s c'.
Proof.
  unfold pushables, dequeue_pushable_task, rt_of, upd_rt, upd_rq; cbn. case_decide; subst;
    [rewrite fn_lookup_insert; apply plist_items_del|by rewrite fn_lookup_insert_ne].
Qed.

Lemma enqueue_pushable_pushables c p s c' :
  c' ≠ c → pushables (enqueue_pushable_task c p s) c' = pushables s c'.
Proof.
  intros Hne. unfold pushables, enqueue_pushable_task, rt_of, upd_rt, upd_rq; cbn. by rewrite fn_lookup_insert_ne.
Qed.

Lemma pushable_same_task c f s c' p :
  pushable_task (upd_rt c f s) c' p ↔ pushable_task s c' p.
Proof.
  unfold pushable_task, upd_rt, upd_rq; cbn.
  destruct (decide (c = c')) as [<-|]; [by rewrite fn_lookup_insert|by rewrite fn_lookup_insert_ne].
Qed.

(** The task with the lowest priority value is taken, and is as it has to be. *)
Lemma pick_pushable s c :
  pushable_ok s c → pick_next_pushable_task s c = Ok (fst <$> head (pushables s c)).
Proof.
  intros Hok. unfold pick_next_pushable_task. fold (pushables s c).
  destruct (pushables s c) as [|[p pr] l] eqn:E; [done|].
  destruct (Hok (p, pr)) as (Hc & Hcur & Hn & Hon & Hpr & _); [rewrite E; set_solver|]. cbn [fst] in *.
  cbv zeta. rewrite decide_False by by intros []. unfold task_current. rewrite bool_decide_false by done.
  rewrite decide_False by lia. rewrite Hon. unfold rt_task, rt_prio. by rewrite bool_decide_true.
Qed.

(** *** Moving a task from a queue to another *)

Definition move_task (c d p : nat) (s : sys) : sys :=
  activate_task d p false false (set_task_cpu p d (deactivate_task c p s)).

#[export] Instance close_dequeue_pushable c p : Proper (close ==> close) (dequeue_pushable_task c p).
Proof.
  intros s s' [Hp Hc Ht Hm Ho]. unfold dequeue_pushable_task. split; [| |done|done|done]; intros c'.
  - unfold upd_rt, upd_rq, rt_of; cbn. destruct (decide (c = c')) as [<-|];
      [rewrite !fn_lookup_insert; cbn; f_equal; apply Hp|rewrite !fn_lookup_insert_ne by done; apply Hp].
  - unfold upd_rt, upd_rq; cbn. destruct (decide (c = c')) as [<-|];
      [rewrite !fn_lookup_insert; apply Hc|rewrite !fn_lookup_insert_ne by done; apply Hc].
Qed.

Lemma close_deactivate c p s :
  sched_class (tasks s p) = rt_sched_class → deactivate_task c p s ≈ dequeue_pushable_task c p s.
Proof.
  intros Hcl. unfold deactivate_task, dequeue_task. etransitivity; [apply close_nr_running_dec|].
  pose proof (close_clock c s) as Hk. set (s1 := update_rq_clock c s) in *.
  assert (sched_class (tasks s1 p) = rt_sched_class) as -> by (injection (cl_task _ _ Hk p); congruence).
  unfold dequeue_task_rt. apply close_dequeue_pushable. unfold dequeue_rt_entity.
  etransitivity; [apply close_dequeue_stack|]. etransitivity; [apply close_update_curr|exact Hk].
Qed.

Lemma close_activate d p s :
  sched_class (tasks s p) = rt_sched_class →
  ∃ s1, s1 ≈ s ∧ (activate_task d p false false s ≈ s ∨ activate_task d p false false s ≈ enqueue_pushable_task d p s1).
Proof.
  intros Hcl. unfold activate_task, enqueue_task. pose proof (close_clock d s) as Hk.
  set (s1 := update_rq_clock d s) in *.
  assert (sched_class (tasks s1 p) = rt_sched_class) as -> by (injection (cl_task _ _ Hk p); congruence).
  unfold enqueue_task_rt. exists (enqueue_rt_entity p false s1).
  assert (enqueue_rt_entity p false s1 ≈ s) as He by (etransitivity; [apply close_enqueue_entity|exact Hk]).
  split; [done|]. case_match; [right; apply close_nr_running_inc|left].
  etransitivity; [apply close_nr_running_inc|exact He].
Qed.

Lemma move_task_effect s c d p :
  sched_class (tasks s p) = rt_sched_class → d ≠ c →
  pushables (move_task c d p s) c = filter (λ e, e.1 ≠ p) (pushables s c) ∧
  ∀ q, q ≠ p → pushable_task s c q → pushable_task (move_task c d p s) c q.
Proof.
  intros Hcl Hd. unfold move_task. pose proof (close_deactivate c p s Hcl) as H1'.
  set (s1 := deactivate_task c p s) in *. clearbody s1.
  assert (pushables s1 c = filter (λ e, e.1 ≠ p) (pushables s c)) as Hp1.
  { rewrite (close_pushables _ _ _ H1'), dequeue_pushable_pushables. by rewrite decide_True. }
  assert (∀ q, pushable_task s c q → pushable_task s1 c q) as Ht1.
  { intros q Hq. eapply close_pushable_task; [exact H1'|]. by apply pushable_same_task. }
  assert (sched_class (tasks s1 p) = rt_sched_class) as Hcl1.
  { injection (cl_task _ _ H1' p). intros. by rewrite <- Hcl. }
  set (s2 := set_task_cpu p d s1).
  assert (sched_class (tasks s2 p) = rt_sched_class) as Hcl2.
  { unfold s2, set_task_cpu, upd_task; cbn. by rewrite fn_lookup_insert. }
  assert (∀ q, q ≠ p → pushable_task s1 c q → pushable_task s2 c q) as Ht2.
  { intros q Hq. unfold pushable_task, s2, set_task_cpu, upd_task; cbn. by rewrite fn_lookup_insert_ne. }
  destruct (close_activate d p s2 Hcl2) as (s3 & Hs3 & [Ha|Ha]).
  - split; [rewrite (close_pushables _ _ _ Ha); exact Hp1|]. intros q Hq Hpq.
    eapply close_pushable_task; [exact Ha|]. by apply Ht2, Ht1.
  - split.
    + rewrite (close_pushables _ _ _ Ha), enqueue_pushable_pushables by done.
      rewrite (close_pushables _ _ _ Hs3). exact Hp1.
    + intros q Hq Hpq. eapply close_pushable_task; [exact Ha|]. unfold enqueue_pushable_task.
      apply pushable_same_task. eapply close_pushable_task; [exact Hs3|]. by apply Ht2, Ht1.
Qed.

(** ** Where tasks go *)

Section targets.
Context `{!MaskSpec}.

Lemma lowest_in_domains_in lowest this ds d :
  (∀ t, this = Some t → t ∈ lowest) → lowest_in_domains lowest this ds = Some d → d ∈ lowest.
Proof.
  intros Ht. induction ds as [|[affine dspan] ds IH]; cbn; [done|].
  destruct affine; [|done]. destruct this as [t|].
  - case_decide; [intros [= <-]; by apply Ht|].
    destruct (cpumask_first _) eqn:E; [|done]. intros [= <-]. apply cpumask_first_in in E. set_solver.
  - destruct (cpumask_first _) eqn:E; [|done]. intros [= <-]. apply cpumask_first_in in E. set_solver.
Qed.

Lemma find_lowest_allowed s p d : find_lowest_rq s p = Some d → d ∈ cpus_allowed (tasks s p).
Proof.
  unfold find_lowest_rq. case_decide; [done|]. destruct (cpupri_find s p) as [lowest|] eqn:E; [|done].
  apply cpupri_find_allowed in E. case_decide; [intros [= <-]; set_solver|].
  set (this := if decide (this_cpu s ∈ lowest) then _ else _).
  assert (∀ t, this = Some t → t ∈ lowest) as Ht by (intros t; unfold this; case_decide; [by intros [= <-]|done]).
  destruct (lowest_in_domains lowest this (domains _)) as [b|] eqn:El.
  - intros [= <-]. apply lowest_in_domains_in in El; [set_solver|done].
  - destruct this as [t|]; [intros [= <-]; specialize (Ht t eq_refl); set_solver|].
    intros Ha%cpumask_any_in. set_solver.
Qed.

(** A processor whose queue is locked is not changed by others. *)
Definition lock_protects : Prop := ∀ c d s p, task_cpu (tasks s p) = c →
  task_cpu (tasks (others true c d s) p) = c ∧ cpus_allowed (tasks (others true c d s) p) = cpus_allowed (tasks s p).

Lemma double_lock_kept c d s p dropped s' :
  lock_protects → task_cpu (tasks s p) = c → d ∈ cpus_allowed (tasks s p) →
  double_lock_balance c d s = (dropped, s') → dropped && task_shifted s' p c d = false →
  task_cpu (tasks s' p) = c ∧ d ∈ cpus_allowed (tasks s' p).
Proof.
  intros Hheld Hp Hd. unfold double_lock_balance. specialize (Hheld c d s p Hp).
  assert (∀ s0, task_shifted s0 p c d = false → task_cpu (tasks s0 p) = c ∧ d ∈ cpus_allowed (tasks s0 p)) as Hs.
  { intros s0. unfold task_shifted. rewrite !orb_false_iff, !negb_false_iff. intros [[[Hc Ha] _] _].
    by apply bool_decide_eq_true_1 in Hc, Ha. }
  repeat (case_match || case_decide); intros [= <- <-]; cbn; intros Hsh; try by apply Hs.
  - done.
  - destruct Hheld as [? ->]. done.
Qed.

(** C20: the queue a task is pushed to is another one, of a processor the task may run
    on, where nothing as urgent is queued, whatever others did in between. *)
Theorem push_target_fits p c s d s' :
  lock_protects → task_cpu (tasks s p) = c → find_lock_lowest_rq p c s = (Some d, s') →
  d ≠ c ∧ task_cpu (tasks s' p) = c ∧ d ∈ cpus_allowed (tasks s' p) ∧ prio (tasks s' p) < highest_curr (rt_of s' d).
Proof.
  intros Hheld. unfold find_lock_lowest_rq. generalize RT_MAX_TRIES as tries. intros tries. revert s.
  induction tries as [|tries IH]; intros s Hp; cbn; [done|].
  destruct (find_lowest_rq s p) as [d0|] eqn:El; [|done]. apply find_lowest_allowed in El.
  case_decide as Hd; [done|]. destruct (double_lock_balance c d0 s) as [dropped s1] eqn:Edl.
  destruct (dropped && task_shifted s1 p c d0) eqn:Esh; [done|].
  destruct (double_lock_kept _ _ _ _ _ _ Hheld Hp El Edl Esh) as [Hp1 Ha1].
  case_decide; [by intros [= <- <-]|]. by apply IH.
Qed.

End targets.

(** ** Pushing ends *)

(** What may happen to processor [c] while a lock is awaited: its pushable tasks
    may become fewer, and tasks do not change class. *)
Record calm (c : nat) (s s' : sys) : Prop := {
  calm_fewer : sublist (pushables s' c) (pushables s c);
  calm_ok : pushable_ok s c → pushable_ok s' c;
  calm_class p : sched_class (tasks s' p) = sched_class (tasks s p);
}.

#[export] Instance calm_preorder c : PreOrder (calm c).
Proof.
  split; [by split|]. intros s1 s2 s3 [E1 E2 E3] [F1 F2 F3]. split; [by etrans|auto|].
  intros p. by rewrite F3, E3.
Qed.

Section termination.
Context (c : nat).
Hypothesis others_calm : ∀ held d s, calm c s (others held c d s).

Lemma lock_calm d s : calm c s (snd (double_lock_balance c d s)).
Proof. unfold double_lock_balance. repeat (case_match || case_decide); cbn; (apply others_calm || reflexivity). Qed.

Lemma find_lock_calm tries p s :
  calm c s (snd (find_lock_tries tries p c s)) ∧ fst (find_lock_tries tries p c s) ≠ Some c.
Proof.
  revert s. induction tries as [|tries IH]; intros s; cbn; [done|].
  destruct (find_lowest_rq s p) as [d|]; [|done]. case_decide as Hd; [done|].
  pose proof (lock_calm d s) as Hl. destruct (double_lock_balance c d s) as [dropped s1]. cbn in Hl.
  case_match; [done|]. case_decide; [split; [done|by intros [= ->]]|].
  destruct (IH s1) as [? ?]. split; [by etrans|done].
Qed.

Lemma filter_head_shorter (l : list (nat * Z)) p :
  p ∈ fst <$> l → (length (filter (λ e, e.1 ≠ p) l) < length l)%nat.
Proof.
  induction l as [|[q qr] l IH]; cbn [fmap list_fmap fst]; intros Hp; [set_solver|].
  rewrite filter_cons. cbn [fst]. case_decide as Hq.
  - cbn. apply elem_of_cons in Hp as [->|Hp]; [done|]. specialize (IH Hp). lia.
  - pose proof (length_filter (λ e : nat * Z, e.1 ≠ p) l). cbn. lia.
Qed.

(** What a pass that returns true has done. *)
Definition fewer_left (s s' : sys) : Prop :=
  pushable_ok s' c ∧ (length (pushables s' c) < length (pushables s c))%nat.

Lemma dequeue_fewer p s0 s :
  pushable_ok s c → sublist (pushables s c) (pushables s0 c) → p ∈ fst <$> pushables s0 c →
  (p ∉ fst <$> pushables s c → (length (pushables s c) < length (pushables s0 c))%nat) →
  ∀ s', pushables s' c = filter (λ e, e.1 ≠ p) (pushables s c) →
  (∀ q, q ≠ p → pushable_task s c q → pushable_task s' c q) → fewer_left s0 s'.
Proof.
  intros Hok Hsub Hp Hout s' Hs' Ht. split.
  - intros e He. rewrite Hs' in He. apply list_elem_of_filter in He as [Hne He]. by apply Ht, Hok.
  - rewrite Hs'. apply sublist_length in Hsub. destruct (decide (p ∈ fst <$> pushables s c)) as [Hin|Hin].
    + pose proof (filter_head_shorter _ _ Hin). lia.
    + pose proof (length_filter (λ e : nat * Z, e.1 ≠ p) (pushables s c)). specialize (Hout Hin). lia.
Qed.

(** An entry that was first and is no longer there leaves a shorter list. *)
Lemma sublist_without (e : nat * Z) l l' :
  sublist l' (e :: l) → head l' ≠ Some e → (length l' < length (e :: l))%nat.
Proof.
  intros Hs Hh. destruct l' as [|e' l']; cbn; [lia|].
  inversion Hs as [|? ? ? Hs'|? ? ? Hs']; subst; [done|]. apply sublist_length in Hs'. cbn in Hs'. lia.
Qed.

Lemma push_retry_done fuel next pr l s :
  pushable_ok s c → pushables s c = (next, pr) :: l → (length (pushables s c) <= fuel)%nat →
  ∃ b s', push_retry fuel c next s = Ok (b, s') ∧ (b = true → fewer_left s s').
Proof.
  revert next pr l s. induction fuel as [|fuel IH]; intros next pr l s Hok Hl Hf.
  { rewrite Hl in Hf. cbn in Hf. lia. }
  assert (pushable_task s c next) as Hnext by (apply (Hok (next, pr)); rewrite Hl; set_solver).
  cbn [push_retry]. case_decide; [by eexists _, _|]. case_decide; [by eexists _, _|].
  destruct (find_lock_calm RT_MAX_TRIES next s) as [[Hsub Hok1 Hcl] Hd]. fold (find_lock_lowest_rq next c s) in *.
  destruct (find_lock_lowest_rq next c s) as [lowest s1]. cbn [fst snd] in *. specialize (Hok1 Hok).
  assert (next ∈ fst <$> pushables s c) as Hin by (rewrite Hl; cbn; set_solver).
  assert (next ∉ fst <$> pushables s1 c → (length (pushables s1 c) < length (pushables s c))%nat) as Hout.
  { intros Hn. rewrite Hl in Hsub |- *. apply sublist_without; [done|]. intros Hh. apply Hn.
    destruct (pushables s1 c); simplify_eq/=. set_solver. }
  destruct lowest as [d|].
  - eexists true, _. split; [reflexivity|]. intros _.
    assert (sched_class (tasks s1 next) = rt_sched_class) as Hcl1 by (rewrite Hcl; apply Hnext).
    assert (d ≠ c) as Hdc by by intros ->.
    destruct (move_task_effect s1 c d next Hcl1 Hdc) as [Hp Ht]. fold (move_task c d next s1).
    eapply (dequeue_fewer next s s1); try done.
    + rewrite (close_pushables _ _ _ (close_resched _ _)). exact Hp.
    + intros q Hq Hq'. eapply close_pushable_task; [apply close_resched|]. by apply Ht.
  - rewrite pick_pushable by done. cbn [mbind res_bind]. case_decide as Ht.
    + eexists true, _. split; [reflexivity|]. intros _.
      eapply (dequeue_fewer next s s1); try done.
      * by rewrite dequeue_pushable_pushables, decide_True.
      * intros q _ Hq. by apply pushable_same_task.
    + destruct (pushables s1 c) as [|[t tr] l1] eqn:E1; cbn.
      * eexists true, _. split; [reflexivity|]. intros _. split; [done|]. rewrite E1, Hl. cbn. lia.
      * assert (length (pushables s1 c) < length (pushables s c))%nat as Hlt.
        { rewrite E1, Hl in *. apply sublist_without; [done|]. intros [= -> ->]. apply Ht. split; [|done].
          by destruct (Hok1 (next, pr) ltac:(rewrite E1; set_solver)) as [? _]. }
        destruct (IH t tr l1 s1 Hok1 E1) as (b & s' & Hr & Hb); [lia|].
        exists b, s'. split; [done|]. intros [Ho Hlen]%Hb. split; [done|]. lia.
Qed.


End termination.

End pushing.
