(* ===== verification/SchedPolicy.v ===== *)
(** * Priorities, policies and the dispatch to scheduling classes (sched.c,
      src/indwriterups/project1)

    The functions that compute priorities from policies and nice values, that
    change them, and the core operations that call the class of a task.  User
    credentials, limits, the security module and priority inheritance are
    parameters, as is what others do before the lock of a queue is obtained. *)

From S2P Require Import Prelude RtState RtBandwidth RtQueue SchedCore RtPush.

Local Open Scope Z_scope.

Definition MAX_PRIO : Z := Z.of_nat MAX_RT_PRIO + 40.
Definition MAX_USER_RT_PRIO : Z := 100.
Definition SCHED_RESET_ON_FORK : Z := 0x40000000.
Definition EPERM : Z := 1.
Definition ESRCH : Z := 3.
Definition EFAULT : Z := 14.
Definition EINVAL : Z := 22.

(** What sched.c relies on outside its files, and [policy_name]: the value of the
    name [policy], which [task_has_rt_policy] reads without declaring it. *)
Class PolicyEnv `{OtherClasses} := {
  policy_name : Z;
  capable_sys_nice : bool;
  rlimit_nice : nat → Z;
  rlimit_rtprio : nat → Z;
  same_user_ns : nat → bool;
  current_euid : Z;
  task_euid : nat → Z;
  task_uid : nat → Z;
  security_task_setscheduler : nat → Z;
  security_task_setnice : nat → Z → Z;
  rt_mutex_getprio : sys → nat → Z;
  rt_mutex_adjust_pi : nat → sys → sys;
  before_lock : nat → sys → sys;
  cpu_active : nat → bool;
  node_mask : nat → list nat;
  cpuset_cpus_allowed_fallback : nat → sys → nat * sys;
}.

(** ** Changes of a task *)

Definition set_prio (z : Z) (t : task) : task :=
  mk_task z (policy t) (sched_class t) (nr_cpus_allowed t) (cpus_allowed t) (time_slice t) (timeout t)
    (exec_start t) (sum_exec_runtime t) (sched_exp t) (on_rq t) (on_cpu t) (task_cpu t) (need_resched t)
    (lim_soft t) (lim_hard t) (static_prio t) (normal_prio t) (rt_priority t) (sched_reset_on_fork t)
    (mm t) (active_mm t) (state t) (preempt_active t).
Definition set_class (k : sclass) (t : task) : task :=
  mk_task (prio t) (policy t) k (nr_cpus_allowed t) (cpus_allowed t) (time_slice t) (timeout t)
    (exec_start t) (sum_exec_runtime t) (sched_exp t) (on_rq t) (on_cpu t) (task_cpu t) (need_resched t)
    (lim_soft t) (lim_hard t) (static_prio t) (normal_prio t) (rt_priority t) (sched_reset_on_fork t)
    (mm t) (active_mm t) (state t) (preempt_active t).
Definition set_policy (z : Z) (t : task) : task :=
  mk_task (prio t) z (sched_class t) (nr_cpus_allowed t) (cpus_allowed t) (time_slice t) (timeout t)
    (exec_start t) (sum_exec_runtime t) (sched_exp t) (on_rq t) (on_cpu t) (task_cpu t) (need_resched t)
    (lim_soft t) (lim_hard t) (static_prio t) (normal_prio t) (rt_priority t) (sched_reset_on_fork t)
    (mm t) (active_mm t) (state t) (preempt_active t).
Definition set_static_prio (z : Z) (t : task) : task :=
  mk_task (prio t) (policy t) (sched_class t) (nr_cpus_allowed t) (cpus_allowed t) (time_slice t) (timeout t)
    (exec_start t) (sum_exec_runtime t) (sched_exp t) (on_rq t) (on_cpu t) (task_cpu t) (need_resched t)
    (lim_soft t) (lim_hard t) z (normal_prio t) (rt_priority t) (sched_reset_on_fork t)
    (mm t) (active_mm t) (state t) (preempt_active t).
Definition set_normal_prio (z : Z) (t : task) : task :=
  mk_task (prio t) (policy t) (sched_class t) (nr_cpus_allowed t) (cpus_allowed t) (time_slice t) (timeout t)
    (exec_start t) (sum_exec_runtime t) (sched_exp t) (on_rq t) (on_cpu t) (task_cpu t) (need_resched t)
    (lim_soft t) (lim_hard t) (static_prio t) z (rt_priority t) (sched_reset_on_fork t)
    (mm t) (active_mm t) (state t) (preempt_active t).
Definition set_rt_priority (z : Z) (t : task) : task :=
  mk_task (prio t) (policy t) (sched_class t) (nr_cpus_allowed t) (cpus_allowed t) (time_slice t) (timeout t)
    (exec_start t) (sum_exec_runtime t) (sched_exp t) (on_rq t) (on_cpu t) (task_cpu t) (need_resched t)
    (lim_soft t) (lim_hard t) (static_prio t) (normal_prio t) z (sched_reset_on_fork t)
    (mm t) (active_mm t) (state t) (preempt_active t).
Definition set_reset_on_fork (b : bool) (t : task) : task :=
  mk_task (prio t) (policy t) (sched_class t) (nr_cpus_allowed t) (cpus_allowed t) (time_slice t) (timeout t)
    (exec_start t) (sum_exec_runtime t) (sched_exp t) (on_rq t) (on_cpu t) (task_cpu t) (need_resched t)
    (lim_soft t) (lim_hard t) (static_prio t) (normal_prio t) (rt_priority t) b
    (mm t) (active_mm t) (state t) (preempt_active t).
(** ** Nice values *)

Definition NICE_TO_PRIO (nice : Z) : Z := Z.of_nat MAX_RT_PRIO + nice + 20.
Definition PRIO_TO_NICE (pr : Z) : Z := pr - Z.of_nat MAX_RT_PRIO - 20.
Definition TASK_NICE (t : task) : Z := PRIO_TO_NICE (static_prio t).

Definition task_nice (t : task) : Z := TASK_NICE t.

Definition task_prio (t : task) : Z := prio t - Z.of_nat MAX_RT_PRIO.

(** Every policy is said not to be of the class. *)
Definition rt_policy (policy : Z) : Z := 0.

Section policy.
Context `{PolicyEnv}.

Definition task_has_rt_policy (t : task) : Z :=
  if decide (policy_name = SCHED_FIFO ∨ policy_name = SCHED_RR) then 1 else rt_policy (policy t).

Definition __normal_prio (t : task) : Z := static_prio t.

Definition normal_prio_of (t : task) : Z :=
  if decide (task_has_rt_policy t ≠ 0) then Z.of_nat MAX_RT_PRIO - 1 - rt_priority t else __normal_prio t.

(** The priority, and the task with its normal priority brought up to date. *)
Definition effective_prio (t : task) : Z * task :=
  let t := set_normal_prio (normal_prio_of t) t in
  (if rt_prio (prio t) then prio t else normal_prio t, t).

Definition task_curr (s : sys) (p : nat) : bool := bool_decide (curr (rqs s (task_cpu (tasks s p))) = p).

Definition idle_cpu (s : sys) (c : nat) : bool := bool_decide (curr (rqs s c) = idle (rqs s c)).

Definition idle_task (s : sys) (c : nat) : nat := idle (rqs s c).

(** ** Dispatch *)

Variable fuel : nat.

Definition ops_of (k : sclass) : class_ops :=
  match k with rt_sched_class => rt_class_ops fuel | k => other_class k end.

(** The classes in the order of [for_each_class]. *)
Definition classes : list sclass := [stop_sched_class; rt_sched_class; fair_sched_class; idle_sched_class].

Definition class_of (s : sys) (p : nat) : class_ops := ops_of (sched_class (tasks s p)).

Definition check_class_changed (c p : nat) (prev_class : sclass) (oldprio : Z) (s : sys) : res sys :=
  if decide (prev_class ≠ sched_class (tasks s p)) then
    s ← match c_switched_from (ops_of prev_class) with Some f => f c p s | None => Ok s end;
    c_switched_to (class_of s p) c p s
  else if decide (oldprio ≠ prio (tasks s p)) then c_prio_changed (class_of s p) c p oldprio s
  else Ok s.

(** The loop over the classes: that of the running task first, or that of [p]. *)
Fixpoint preempt_by_class (ks : list sclass) (cur pcl : sclass) : bool :=
  match ks with
  | [] => false
  | k :: ks' => if decide (k = cur) then false else if decide (k = pcl) then true else preempt_by_class ks' cur pcl
  end.

Definition check_preempt_curr (c p : nat) (s : sys) : sys :=
  let cur := curr (rqs s c) in
  let s :=
    if decide (sched_class (tasks s p) = sched_class (tasks s cur)) then c_check_preempt_curr (class_of s cur) c p s
    else if preempt_by_class classes (sched_class (tasks s cur)) (sched_class (tasks s p)) then resched_task cur s
    else s in
  if on_rq (tasks s (curr (rqs s c))) && need_resched (tasks s (curr (rqs s c)))
  then upd_rq c (set_skip_clock_update 1) s else s.

(** [put_prev_task] and [pick_next_task] of the core; the shortcut for queues with
    tasks of the fair class only calls the same handler first.  [Bug] when no
    class has a task. *)
Definition put_prev_task (c p : nat) (s : sys) : sys :=
  let s := if on_rq (tasks s p) || bool_decide (skip_clock_update (rqs s c) < 0) then update_rq_clock c s else s in
  c_put_prev_task (class_of s p) c p s.

Fixpoint pick_from (ks : list sclass) (c : nat) (s : sys) : res (nat * sys) :=
  match ks with
  | [] => Bug
  | k :: ks' =>
      '(q, s) ← c_pick_next_task (ops_of k) c s;
      match q with Some p => Ok (p, s) | None => pick_from ks' c s end
  end.

Definition pick_next_task (fair_only : bool) (c : nat) (s : sys) : res (nat * sys) :=
  if fair_only then
    '(q, s) ← c_pick_next_task (ops_of fair_sched_class) c s;
    match q with Some p => Ok (p, s) | None => pick_from classes c s end
  else pick_from classes c s.

Definition pre_schedule (c prev : nat) (s : sys) : res sys :=
  match c_pre_schedule (class_of s prev) with Some f => f c prev s | None => Ok s end.

Definition post_schedule_core (c : nat) (s : sys) : res sys :=
  if post_schedule (rqs s c) then
    s ← match c_post_schedule (class_of s (curr (rqs s c))) with Some f => f c s | None => Ok s end;
    Ok (upd_rq c (set_post_schedule false) s)
  else Ok s.

(** The load averages, the events and the balancing of the tick are not modelled. *)
Definition scheduler_tick (c : nat) (s : sys) : sys :=
  let cur := curr (rqs s c) in
  let s := update_rq_clock c s in
  c_task_tick (class_of s cur) c cur s.

(** The flag ENQUEUE_WAKEUP is [wakeup]; the workqueue code that hears of its
    workers waking up is not modelled. *)
Definition ttwu_activate (c p : nat) (wakeup : bool) (s : sys) : sys :=
  upd_task p (set_on_rq true) (activate_task c p wakeup false s).

(** The fields of a new task; it is not yet linked anywhere. *)
Definition __sched_fork (t : task) : task := set_exec 0 0 (set_on_rq false t).

(** What a parent that asked for it does not pass on. *)
Definition revert_on_fork (t : task) : task :=
  if sched_reset_on_fork t then
    let t := if decide (policy t = SCHED_FIFO ∨ policy t = SCHED_RR)
             then set_normal_prio (static_prio t) (set_policy SCHED_NORMAL t) else t in
    let t := if decide (PRIO_TO_NICE (static_prio t) < 0)
             then let t := set_static_prio (NICE_TO_PRIO 0) t in set_normal_prio (static_prio t) t else t in
    set_reset_on_fork false t
  else t.

(** [sched_fork]; load weights and the preemption count are not modelled, and the
    new task is in no pushable list. *)
Definition sched_fork (p : nat) (s : sys) : sys :=
  let s := upd_task p (λ t, revert_on_fork (set_state TASK_RUNNING (__sched_fork t))) s in
  let s := upd_task p (set_prio (normal_prio (tasks s (current s)))) s in
  let s := if rt_prio (prio (tasks s p)) then s else upd_task p (set_class fair_sched_class) s in
  let s := match c_task_fork (class_of s p) with Some f => f p s | None => s end in
  upd_task p (set_on_cpu false) (set_task_cpu p (this_cpu s) s).

(** A processor of the task's node, then any that is active and allowed, then what
    the cpuset says, which may change the task's affinity. *)
Definition select_fallback_rq (c p : nat) (s : sys) : nat * sys :=
  let allowed d := cpu_active d && bool_decide (d ∈ cpus_allowed (tasks s p)) in
  match find allowed (node_mask c) with
  | Some d => (d, s)
  | None =>
      match cpumask_any (filter (λ d, cpu_active d = true) (cpus_allowed (tasks s p))) with
      | Some d => (d, s)
      | None => cpuset_cpus_allowed_fallback p s
      end
  end.

(** [wake] is SD_BALANCE_WAKE. *)
Definition select_task_rq (p : nat) (wake : bool) (s : sys) : nat * sys :=
  let c := c_select_task_rq (class_of s p) p wake s in
  if negb (bool_decide (c ∈ cpus_allowed (tasks s p))) || negb (bool_decide (c ∈ cpu_online_mask))
  then select_fallback_rq (task_cpu (tasks s p)) p s else (c, s).

Definition wake_up_new_task (p : nat) (s : sys) : res sys :=
  let '(c, s) := select_task_rq p false s in
  let s := set_task_cpu p c s in
  let s := upd_task p (set_on_rq true) (activate_task c p false false s) in
  let s := check_preempt_curr c p s in
  match c_task_woken (class_of s p) with Some f => f c p s | None => Ok s end.

Definition do_set_cpus_allowed (p : nat) (m : gset nat) (s : sys) : res sys :=
  match c_set_cpus_allowed (class_of s p) with
  | Some f => f p m s
  | None => Ok (upd_task p (set_affinity (Z.of_nat (size m)) m) s)
  end.

(** The first component is the value returned. *)
Definition __migrate_task (p src dest : nat) (s : sys) : Z * sys :=
  if negb (cpu_active dest) then (0, s)
  else
    let s := before_lock p s in
    if decide (task_cpu (tasks s p) ≠ src) then (1, s)
    else if decide (dest ∉ cpus_allowed (tasks s p)) then (0, s)
    else if on_rq (tasks s p) then
      let s := deactivate_task src p s in
      let s := set_task_cpu p dest s in
      let s := activate_task dest p false false s in
      (1, check_preempt_curr dest p s)
    else (1, s).

(** ** Changing priorities *)

(** [None] of the first test is its [BUG_ON]. *)
Definition rt_mutex_setprio (p : nat) (pr : Z) (s : sys) : res sys :=
  if decide (pr < 0 ∨ MAX_PRIO < pr) then Bug
  else
    let s := before_lock p s in
    let c := task_cpu (tasks s p) in
    let oldprio := prio (tasks s p) in
    let prev_class := sched_class (tasks s p) in
    let queued := on_rq (tasks s p) in
    let running := task_current s c p in
    let s := if queued then dequeue_task c p s else s in
    let s := if running then c_put_prev_task (class_of s p) c p s else s in
    let s := upd_task p (set_class (if rt_prio pr then rt_sched_class else fair_sched_class)) s in
    let s := upd_task p (set_prio pr) s in
    let s := if running then c_set_curr_task (class_of s p) c s else s in
    let s := if queued then enqueue_task c p false (bool_decide (oldprio < pr)) s else s in
    check_class_changed c p prev_class oldprio s.

(** Load weights are not modelled. *)
Definition set_user_nice (p : nat) (nice : Z) (s : sys) : sys :=
  if decide (TASK_NICE (tasks s p) = nice ∨ nice < -20 ∨ 19 < nice) then s
  else
    let s := before_lock p s in
    let c := task_cpu (tasks s p) in
    if decide (task_has_rt_policy (tasks s p) ≠ 0) then upd_task p (set_static_prio (NICE_TO_PRIO nice)) s
    else
      let queued := on_rq (tasks s p) in
      let s := if queued then dequeue_task c p s else s in
      let s := upd_task p (set_static_prio (NICE_TO_PRIO nice)) s in
      let old_prio := prio (tasks s p) in
      let '(pr, t) := effective_prio (tasks s p) in
      let s := upd_task p (λ _, set_prio pr t) s in
      let delta := prio (tasks s p) - old_prio in
      if queued then
        let s := enqueue_task c p false false s in
        if bool_decide (delta < 0) || (bool_decide (0 < delta) && task_running s p)
        then resched_task (curr (rqs s c)) s else s
      else s.

Definition can_nice (p : nat) (nice : Z) : bool :=
  bool_decide (u64 (20 - nice) <= rlimit_nice p) || capable_sys_nice.

(** The system call; the value returned and the state. *)
Definition sys_nice (increment : Z) (s : sys) : Z * sys :=
  let increment := if decide (increment < -40) then -40 else increment in
  let increment := if decide (40 < increment) then 40 else increment in
  let nice := TASK_NICE (tasks s (current s)) + increment in
  let nice := if decide (nice < -20) then -20 else nice in
  let nice := if decide (19 < nice) then 19 else nice in
  if bool_decide (increment < 0) && negb (can_nice (current s) nice) then (- EPERM, s)
  else
    let retval := security_task_setnice (current s) nice in
    if decide (retval ≠ 0) then (retval, s) else (0, set_user_nice (current s) nice s).

(** The queue's lock is held; load weights are not modelled. *)
Definition __setscheduler (p : nat) (policy pr : Z) (s : sys) : sys :=
  let s := upd_task p (λ t, set_rt_priority pr (set_policy policy t)) s in
  let s := upd_task p (λ t, set_normal_prio (normal_prio_of t) t) s in
  let s := upd_task p (set_prio (rt_mutex_getprio s p)) s in
  upd_task p (set_class (if rt_prio (prio (tasks s p)) then rt_sched_class else fair_sched_class)) s.

Definition check_same_owner (p : nat) : bool :=
  if same_user_ns p then bool_decide (current_euid = task_euid p) || bool_decide (current_euid = task_uid p) else false.

(** The checks of a request by an unprivileged user; [true] is -EPERM. *)
Definition user_refused (p : nat) (policy' pr : Z) (reset : bool) (s : sys) : bool :=
  let t := tasks s p in
  (bool_decide (rt_policy policy' ≠ 0) &&
    ((bool_decide (policy' ≠ policy t) && bool_decide (rlimit_rtprio p = 0)) ||
     (bool_decide (rt_priority t < pr) && bool_decide (rlimit_rtprio p < pr)))) ||
  (bool_decide (policy t = SCHED_IDLE) && bool_decide (policy' ≠ SCHED_IDLE) && negb (can_nice p (TASK_NICE t))) ||
  negb (check_same_owner p) ||
  (sched_reset_on_fork t && negb reset).

(** What is done once the locks are held and everything is checked. *)
Definition change_scheduler (p : nat) (policy pr : Z) (reset : bool) (s : sys) : res (Z * sys) :=
  let c := task_cpu (tasks s p) in
  let queued := on_rq (tasks s p) in
  let running := task_current s c p in
  let s := if queued then deactivate_task c p s else s in
  let s := if running then c_put_prev_task (class_of s p) c p s else s in
  let s := upd_task p (set_reset_on_fork reset) s in
  let oldprio := prio (tasks s p) in
  let prev_class := sched_class (tasks s p) in
  let s := __setscheduler p policy pr s in
  let s := if running then c_set_curr_task (class_of s p) c s else s in
  let s := if queued then activate_task c p false false s else s in
  s ← check_class_changed c p prev_class oldprio s;
  Ok (0, rt_mutex_adjust_pi p s).

Definition valid_policy (policy : Z) : bool :=
  bool_decide (policy ∈ [SCHED_FIFO; SCHED_RR; SCHED_NORMAL; SCHED_BATCH; SCHED_IDLE]).

Definition valid_priority (t : task) (pr : Z) : bool :=
  negb (bool_decide (pr < 0) || (bool_decide (is_Some (mm t)) && bool_decide (MAX_USER_RT_PRIO - 1 < pr))
        || (bool_decide (mm t = None) && bool_decide (Z.of_nat MAX_RT_PRIO - 1 < pr))).

(** [tries] counts the passes from the label [recheck]: another is needed when
    the policy was to be kept and changed before the lock was obtained. *)
Fixpoint __sched_setscheduler (tries : nat) (p : nat) (policy' pr : Z) (user : bool) (s : sys) : res (Z * sys) :=
  match tries with
  | O => Out
  | S tries' =>
      let keep := bool_decide (policy' < 0) in
      let reset := if keep then sched_reset_on_fork (tasks s p)
                   else negb (bool_decide (Z.land policy' SCHED_RESET_ON_FORK = 0)) in
      let pol := if keep then policy (tasks s p) else Z.land policy' (Z.lnot SCHED_RESET_ON_FORK) in
      if negb keep && negb (valid_policy pol) then Ok (- EINVAL, s)
      else if negb (valid_priority (tasks s p) pr) then Ok (- EINVAL, s)
      else if decide (rt_policy pol ≠ b2z (negb (bool_decide (pr = 0)))) then Ok (- EINVAL, s)
      else if user && negb capable_sys_nice && user_refused p pol pr reset s then Ok (- EPERM, s)
      else if user && negb (bool_decide (security_task_setscheduler p = 0)) then Ok (security_task_setscheduler p, s)
      else
        let oldpolicy := policy (tasks s p) in
        let s := before_lock p s in
        if decide (stop (rqs s (task_cpu (tasks s p))) = Some p) then Ok (- EINVAL, s)
        else if decide (pol = policy (tasks s p) ∧ (rt_policy pol = 0 ∨ pr = rt_priority (tasks s p))) then Ok (0, s)
        else if decide (keep = true ∧ oldpolicy ≠ -1 ∧ oldpolicy ≠ policy (tasks s p))
        then __sched_setscheduler tries' p (-1) pr user s
        else change_scheduler p pol pr reset s
  end.

Definition sched_setscheduler (tries p : nat) (policy' pr : Z) (s : sys) : res (Z * sys) :=
  __sched_setscheduler tries p policy' pr true s.

Definition sched_setscheduler_nocheck (tries p : nat) (policy' pr : Z) (s : sys) : res (Z * sys) :=
  __sched_setscheduler tries p policy' pr false s.

(** The argument in user space: [None] when there is none, [Some None] when it
    cannot be read; [find] looks a process up. *)
Definition do_sched_setscheduler (find : Z → option nat) (tries : nat) (pid policy' : Z)
    (param : option (option Z)) (s : sys) : res (Z * sys) :=
  match param with
  | None => Ok (- EINVAL, s)
  | Some arg =>
      if decide (pid < 0) then Ok (- EINVAL, s)
      else match arg with
           | None => Ok (- EFAULT, s)
           | Some pr =>
               match (if decide (pid = 0) then Some (current s) else find pid) with
               | None => Ok (- ESRCH, s)
               | Some p => sched_setscheduler tries p policy' pr s
               end
           end
  end.

Definition sys_sched_setscheduler (find : Z → option nat) (tries : nat) (pid policy' : Z)
    (param : option (option Z)) (s : sys) : res (Z * sys) :=
  if decide (policy' < 0) then Ok (- EINVAL, s) else do_sched_setscheduler find tries pid policy' param s.

Definition sys_sched_setparam (find : Z → option nat) (tries : nat) (pid : Z)
    (param : option (option Z)) (s : sys) : res (Z * sys) :=
  do_sched_setscheduler find tries pid (-1) param s.

(** ** Nice values *)

Lemma nice_round_trip nice : PRIO_TO_NICE (NICE_TO_PRIO nice) = nice.
Proof. unfold PRIO_TO_NICE, NICE_TO_PRIO. lia. Qed.

(** The static priority of the others is not touched, that of the task is either
    kept or the one asked for. *)
Lemma static_prio_upd p z s : static_prio (tasks (upd_task p (set_static_prio z) s) p) = z.
Proof. unfold upd_task; cbn. by rewrite fn_lookup_insert. Qed.

(** ** Policies *)


(** What a reset on fork forgets: the child of a real-time task that asked for it
    has the normal policy and yet keeps its parent's urgency and class. *)
Theorem reset_child_stays_urgent p s :
  p ≠ current s → sched_reset_on_fork (tasks s p) = true → policy (tasks s p) = SCHED_FIFO →
  sched_class (tasks s p) = rt_sched_class → rt_prio (normal_prio (tasks s (current s))) = true →
  let t := tasks (sched_fork p s) p in
  policy t = SCHED_NORMAL ∧ sched_class t = rt_sched_class ∧ prio t = normal_prio (tasks s (current s)) ∧ rt_prio (prio t) = true.
Proof.
  intros Hne Hreset Hpol Hcl Hrt. unfold sched_fork.
  set (s1 := upd_task p (λ t, revert_on_fork (set_state TASK_RUNNING (__sched_fork t))) s).
  assert (tasks s1 p = revert_on_fork (set_state TASK_RUNNING (__sched_fork (tasks s p)))) as E1 by (unfold s1, upd_task; cbn; by rewrite fn_lookup_insert).
  assert (tasks s1 (current s) = tasks s (current s)) as E2 by (unfold s1, upd_task; cbn; by rewrite fn_lookup_insert_ne).
  change (current s1) with (current s). rewrite E2. set (s2 := upd_task p (set_prio _) s1).
  assert (tasks s2 p = set_prio (normal_prio (tasks s (current s))) (tasks s1 p)) as E3
    by (unfold s2, upd_task; cbn; by rewrite fn_lookup_insert).
  assert (policy (tasks s2 p) = SCHED_NORMAL ∧ sched_class (tasks s2 p) = rt_sched_class) as [Hp2 Hc2].
  { rewrite E3, E1. unfold revert_on_fork, __sched_fork. cbn [sched_reset_on_fork set_state set_exec set_on_rq policy].
    rewrite Hreset, Hpol.
    destruct (decide (SCHED_FIFO = SCHED_FIFO ∨ SCHED_FIFO = SCHED_RR)) as [_|[]]; [|by left]. by case_decide. }
  assert (prio (tasks s2 p) = normal_prio (tasks s (current s))) as Hpr by by rewrite E3.
  rewrite Hpr, Hrt. unfold class_of. rewrite Hc2. cbn [ops_of c_task_fork rt_class_ops].
  clearbody s1 s2. unfold set_task_cpu, upd_task; cbn. rewrite !fn_lookup_insert. cbn. by rewrite Hp2, Hc2, Hpr.
Qed.

End policy.
