(* ===== verification/SchedTypes.v ===== *)
(** * Priorities stay in their ranges (sched.c, src/indwriterups/project1)

    The typing of a task: its static, normal and actual priorities and its class
    fit together, and the operations that change priorities keep that. *)

From S2P Require Import Prelude RtState RtBandwidth RtQueue SchedCore RtPush SchedPolicy.

Local Open Scope Z_scope.

(** The priorities of a task: the static one is that of a nice value; a task is of
    the real-time class exactly when its priority is one of the array's; boosting
    only makes it more urgent than it normally is. *)
Record task_typed (t : task) : Prop := {
  ty_static : Z.of_nat MAX_RT_PRIO <= static_prio t < MAX_PRIO;
  ty_normal : normal_prio t = static_prio t ∨ normal_prio t = Z.of_nat MAX_RT_PRIO - 1 - rt_priority t;
  ty_prio : 0 <= prio t <= normal_prio t;
  ty_rt : 0 <= rt_priority t <= MAX_USER_RT_PRIO - 1;
  ty_class : sched_class t = rt_sched_class ↔ prio t < Z.of_nat MAX_RT_PRIO;
  ty_fair : sched_class t = rt_sched_class ∨ sched_class t = fair_sched_class;
}.

Section types.
Context `{PolicyEnv}.

Lemma task_upd p f s : tasks (upd_task p f s) p = f (tasks s p).
Proof. unfold upd_task; cbn. by rewrite fn_lookup_insert. Qed.

Lemma normal_prio_choice t :
  normal_prio_of t = static_prio t ∨ normal_prio_of t = Z.of_nat MAX_RT_PRIO - 1 - rt_priority t.
Proof. unfold normal_prio_of, __normal_prio. case_decide; [by right|by left]. Qed.

(** The class that goes with a priority. *)
Lemma class_choice pr k :
  k = (if rt_prio pr then rt_sched_class else fair_sched_class) →
  (k = rt_sched_class ↔ pr < Z.of_nat MAX_RT_PRIO) ∧ (k = rt_sched_class ∨ k = fair_sched_class).
Proof.
  intros ->. unfold rt_prio. case_bool_decide; (split; [|by (left + right)]); split; (done || lia).
Qed.

(** What the typing reads. *)
Definition typing (t : task) := (static_prio t, normal_prio t, prio t, rt_priority t, sched_class t).

Lemma typed_same t t' : typing t' = typing t → task_typed t → task_typed t'.
Proof. unfold typing. intros [= E1 E2 E3 E4 E5] []. split; congruence. Qed.

Lemma setscheduler_typed p pol pr s :
  (∀ s0, 0 <= normal_prio (tasks s0 p) → 0 <= rt_mutex_getprio s0 p <= normal_prio (tasks s0 p)) → task_typed (tasks s p) →
  0 <= pr <= MAX_USER_RT_PRIO - 1 → task_typed (tasks (__setscheduler p pol pr s) p).
Proof.
  intros Hpi Ht Hpr. unfold __setscheduler.
  set (s1 := upd_task p (λ t, set_rt_priority pr (set_policy pol t)) s).
  set (s2 := upd_task p (λ t, set_normal_prio (normal_prio_of t) t) s1).
  set (s3 := upd_task p (set_prio (rt_mutex_getprio s2 p)) s2).
  assert (tasks s1 p = set_rt_priority pr (set_policy pol (tasks s p))) as E1
    by exact (task_upd p (λ t, set_rt_priority pr (set_policy pol t)) s).
  assert (tasks s2 p = set_normal_prio (normal_prio_of (tasks s1 p)) (tasks s1 p)) as E2
    by exact (task_upd p (λ t, set_normal_prio (normal_prio_of t) t) s1).
  assert (tasks s3 p = set_prio (rt_mutex_getprio s2 p) (tasks s2 p)) as E3 by apply task_upd.
  pose proof (normal_prio_choice (tasks s1 p)) as Hch.
  assert (static_prio (tasks s1 p) = static_prio (tasks s p) ∧ rt_priority (tasks s1 p) = pr) as [Est Ert] by by rewrite E1.
  assert (0 <= normal_prio (tasks s2 p)) as Hpos.
  { rewrite E2. cbn [normal_prio set_normal_prio]. pose proof (ty_static _ Ht) as Hs. unfold MAX_USER_RT_PRIO in Hpr.
    change (Z.of_nat MAX_RT_PRIO) with 100 in *. lia. }
  pose proof (Hpi s2 Hpos) as Hgp. rewrite task_upd. clearbody s3.
  assert (static_prio (tasks s3 p) = static_prio (tasks s p) ∧ rt_priority (tasks s3 p) = pr ∧
    normal_prio (tasks s3 p) = normal_prio_of (tasks s1 p) ∧ prio (tasks s3 p) = rt_mutex_getprio s2 p) as (F1 & F2 & F3 & F4)
    by (rewrite E3, E2; by repeat split).
  destruct (class_choice (prio (tasks s3 p)) _ eq_refl) as [Hc1 Hc2].
  split; cbn [static_prio normal_prio prio rt_priority sched_class set_class]; rewrite ?F1, ?F2, ?F3; try done.
  - apply Ht.
  - by rewrite <- Est, <- Ert.
  - rewrite F4. rewrite E2 in Hgp. exact Hgp.
Qed.

Lemma nice_typed t nice :
  task_typed t → -20 <= nice <= 19 → policy_name ≠ SCHED_FIFO → policy_name ≠ SCHED_RR →
  let '(pr, t') := effective_prio (set_static_prio (NICE_TO_PRIO nice) t) in task_typed (set_prio pr t').
Proof.
  intros [Hs Hn Hp Hr Hc Hf] Hnice H1' H2'. unfold effective_prio. cbv zeta.
  set (t1 := set_static_prio (NICE_TO_PRIO nice) t).
  assert (normal_prio_of t1 = NICE_TO_PRIO nice) as E.
  { unfold normal_prio_of, task_has_rt_policy, rt_policy. rewrite (decide_False (P := _ ∨ _)) by tauto. by rewrite decide_False by tauto. }
  rewrite E. unfold rt_prio. cbn [prio set_normal_prio normal_prio].
  change (prio t1) with (prio t). unfold NICE_TO_PRIO, MAX_PRIO in *. change (Z.of_nat MAX_RT_PRIO) with 100 in *.
  case_bool_decide as Hlt; split; cbn [static_prio normal_prio prio rt_priority sched_class set_prio set_normal_prio set_static_prio];
    try done; try lia; try by left.
  - change (100 <= 100 + nice + 20 < 140). lia.
  - change (100 <= 100 + nice + 20 < 140). lia.
  - change (sched_class t = rt_sched_class ↔ 100 + nice + 20 < 100). rewrite Hc. lia.
Qed.

Lemma revert_fields t :
  sched_class (revert_on_fork t) = sched_class t ∧ rt_priority (revert_on_fork t) = rt_priority t.
Proof. unfold revert_on_fork. by repeat case_match. Qed.

Lemma revert_typed t :
  task_typed t → Z.of_nat MAX_RT_PRIO <= static_prio (revert_on_fork t) < MAX_PRIO ∧
  normal_prio t <= normal_prio (revert_on_fork t) ∧
  (normal_prio (revert_on_fork t) = static_prio (revert_on_fork t) ∨
   normal_prio (revert_on_fork t) = Z.of_nat MAX_RT_PRIO - 1 - rt_priority t).
Proof.
  intros [Hs Hn Hp Hr _ _]. unfold revert_on_fork, PRIO_TO_NICE, NICE_TO_PRIO, MAX_PRIO in *.
  change (Z.of_nat MAX_RT_PRIO) with 100 in *.
  repeat case_match; cbn in *; lia.
Qed.

(** The child of a fork: a copy of the parent, brought up to date. *)
Lemma fork_typed fuel p s :
  p ≠ current s → tasks s p = tasks s (current s) → task_typed (tasks s (current s)) →
  (∀ f s0, c_task_fork (other_class fair_sched_class) = Some f → typing (tasks (f p s0) p) = typing (tasks s0 p)) →
  task_typed (tasks (sched_fork fuel p s) p).
Proof.
  intros Hne Hcopy Ht Hfork. unfold sched_fork.
  set (s1 := upd_task p (λ t, revert_on_fork (set_state TASK_RUNNING (__sched_fork t))) s).
  assert (tasks s1 p = revert_on_fork (set_state TASK_RUNNING (__sched_fork (tasks s p)))) as E1
    by exact (task_upd p (λ t, revert_on_fork (set_state TASK_RUNNING (__sched_fork t))) s).
  change (current s1) with (current s).
  assert (tasks s1 (current s) = tasks s (current s)) as -> by (unfold s1, upd_task; cbn; by rewrite fn_lookup_insert_ne).
  set (s2 := upd_task p (set_prio _) s1).
  assert (tasks s2 p = set_prio (normal_prio (tasks s (current s))) (tasks s1 p)) as E2 by apply task_upd.
  assert (task_typed (set_state TASK_RUNNING (__sched_fork (tasks s (current s))))) as Hf by (eapply typed_same; [|exact Ht]; done).
  pose proof (revert_typed _ Hf) as (Hs & Hn & Hn'). pose proof (revert_fields (set_state TASK_RUNNING (__sched_fork (tasks s (current s))))) as [Hcl Hrp].
  set (s3 := if rt_prio _ then s2 else _).
  assert (task_typed (tasks s3 p)) as H3.
  { rewrite Hcopy in E1. destruct Ht as [Ts Tn Tp Tr Tc Tf].
    assert (rt_prio (normal_prio (tasks s (current s))) = true → sched_class (tasks s (current s)) = rt_sched_class) as Hrt.
    { unfold rt_prio. intros Hx%bool_decide_eq_true_1. apply Tc. lia. }
    assert (0 <= normal_prio (tasks s (current s))) as Hpos by lia.
    unfold s3. rewrite E2. cbn [prio set_prio]. destruct (rt_prio (normal_prio (tasks s (current s)))) eqn:Er.
    - rewrite E2, E1. split; cbn [static_prio normal_prio prio rt_priority sched_class set_prio];
        rewrite ?Hcl, ?Hrp; try done.
      + change (sched_class (set_state TASK_RUNNING (__sched_fork ?t))) with (sched_class t). rewrite Hrt by done. split; [|done]. intros _. by apply bool_decide_eq_true_1 in Er.
    - rewrite task_upd, E2, E1.
      split; cbn [static_prio normal_prio prio rt_priority sched_class set_prio set_class]; rewrite ?Hrp; try done.
      + apply bool_decide_eq_false_1 in Er. split; [done|lia].
      + by right. }
  clearbody s3. unfold set_task_cpu. rewrite task_upd.
  set (s4 := match c_task_fork _ with Some f => f p s3 | None => s3 end).
  assert (task_typed (tasks s4 p)) as H4.
  { unfold s4, class_of. destruct (ty_fair _ H3) as [-> | ->]; [done|]. cbn [ops_of].
    destruct (c_task_fork (other_class fair_sched_class)) as [f|] eqn:E; [|done].
    eapply typed_same; [by apply Hfork|done]. }
  rewrite task_upd. by eapply typed_same; [|exact H4].
Qed.


End types.
