(* ===== verification/RtView.v ===== *)
(** * What the queue operations change (sched_rt.c, src/indwriterups/project1)

    Two states are equivalent when they agree on the fields the run-queue
    invariant reads.  Accounting, throttling, the pushable lists and the flags of
    the tasks are invisible; the helpers that keep counts and priorities are, up
    to this equivalence, plain assignments. *)

From S2P Require Import Prelude RtState RtBandwidth RtQueue.

Local Open Scope Z_scope.

Section view.
Context `{RtEnv}.

(** ** The equivalences *)

Definition rview (r : rt_rq) :=
  (queue r, bits r, rt_nr_running r, highest_curr r, rt_nr_migratory r, rt_nr_total r, overloaded r).

Definition req (r r' : rt_rq) : Prop := rview r = rview r'.

Definition tview (t : task) := (prio t, task_cpu t, nr_cpus_allowed t, sched_class t).

Record seq_view (s s' : sys) : Prop := {
  sv_rt c : req (rt_of s c) (rt_of s' c);
  sv_task p : tview (tasks s p) = tview (tasks s' p);
  sv_online c : online (rqs s c) = online (rqs s' c);
  sv_mask : rto_mask (rd s) = rto_mask (rd s');
}.

Infix "≃" := seq_view (at level 70).

#[export] Instance req_equiv : Equivalence req.
Proof. unfold req. split; [done|by intros ?? ->|by intros ??? -> ->]. Qed.

#[export] Instance seq_view_equiv : Equivalence seq_view.
Proof.
  split.
  - intros s. by split.
  - intros s s' [H1 H2 H3 H4]. split; intros; [symmetry; apply H1|symmetry; apply H2|symmetry; apply H3|done].
  - intros s1 s2 s3 [H1 H2 H3 H4] [G1 G2 G3 G4].
    split; intros; (etransitivity; [first [apply H1|apply H2|apply H3|apply H4]|first [apply G1|apply G2|apply G3|apply G4]]).
Qed.

(** ** Updates *)

Lemma rt_of_upd_rt c f s c' : rt_of (upd_rt c f s) c' = if decide (c' = c) then f (rt_of s c) else rt_of s c'.
Proof.
  unfold rt_of, upd_rt, upd_rq; cbn. case_decide; subst; [by rewrite fn_lookup_insert|by rewrite fn_lookup_insert_ne].
Qed.

Lemma rt_of_upd_rt_eq c f s : rt_of (upd_rt c f s) c = f (rt_of s c).
Proof. by rewrite rt_of_upd_rt, decide_True. Qed.

Lemma online_upd_rt c f s c' : online (rqs (upd_rt c f s) c') = online (rqs s c').
Proof.
  unfold upd_rt, upd_rq; cbn. destruct (decide (c = c')) as [<-|];
    [by rewrite fn_lookup_insert|by rewrite fn_lookup_insert_ne].
Qed.

Lemma tasks_upd_task p f s p' : tasks (upd_task p f s) p' = if decide (p' = p) then f (tasks s p) else tasks s p'.
Proof.
  unfold upd_task; cbn. case_decide; subst; [by rewrite fn_lookup_insert|by rewrite fn_lookup_insert_ne].
Qed.

#[export] Instance upd_rt_proper c f : Proper (req ==> req) f → Proper (seq_view ==> seq_view) (upd_rt c f).
Proof.
  intros Hf s s' [H1 H2 H3 H4]. split; [|done| |done].
  - intros c'. rewrite !rt_of_upd_rt. case_decide; [by apply Hf|done].
  - intros c'. by rewrite !online_upd_rt.
Qed.

Lemma sv_upd_rt c f s : (∀ r, req (f r) r) → upd_rt c f s ≃ s.
Proof.
  intros Hf. split; [|done| |done].
  - intros c'. rewrite rt_of_upd_rt. case_decide; subst; [apply Hf|done].
  - intros c'. apply online_upd_rt.
Qed.

Lemma sv_upd_rt_here c f s : req (f (rt_of s c)) (rt_of s c) → upd_rt c f s ≃ s.
Proof.
  intros Hf. split; [|done| |done].
  - intros c'. rewrite rt_of_upd_rt. case_decide; subst; [apply Hf|done].
  - intros c'. apply online_upd_rt.
Qed.

Lemma sv_upd_rq c f s : (∀ q, req (rt (f q)) (rt q) ∧ online (f q) = online q) → upd_rq c f s ≃ s.
Proof.
  intros Hf. unfold upd_rq. split; [|done| |done]; intros c'; unfold rt_of; cbn;
    (destruct (decide (c = c')) as [<-|]; [rewrite fn_lookup_insert; apply Hf|by rewrite fn_lookup_insert_ne]).
Qed.

Lemma sv_upd_task p f s : (∀ t, tview (f t) = tview t) → upd_task p f s ≃ s.
Proof.
  intros Hf. split; [done| |done|done]. intros p'. rewrite tasks_upd_task. case_decide; subst; [apply Hf|done].
Qed.

Lemma sv_upd_rd f s : (∀ d, rto_mask (f d) = rto_mask d) → upd_rd f s ≃ s.
Proof. intros Hf. split; [done|done|done|apply Hf]. Qed.

Lemma sv_upd_bw f s : upd_bw f s ≃ s.
Proof. by split. Qed.

(** The updates that cannot be seen. *)
Lemma sv_highest_next c n s : upd_rt c (set_highest_next n) s ≃ s.
Proof. by apply sv_upd_rt. Qed.

Lemma sv_pushable c f s : upd_rt c (λ r, set_pushable (f r) r) s ≃ s.
Proof. by apply sv_upd_rt. Qed.

Lemma sv_runtime c n s : upd_rt c (set_rt_runtime n) s ≃ s.
Proof. by apply sv_upd_rt. Qed.

Lemma sv_throttle c f g s : upd_rt c (λ r, set_throttle (f r) (g r) r) s ≃ s.
Proof. by apply sv_upd_rt. Qed.

Lemma sv_cpupri c pr s : cpupri_set c pr s ≃ s.
Proof. by apply sv_upd_rd. Qed.

Lemma sv_start s : start_rt_bandwidth s ≃ s.
Proof. unfold start_rt_bandwidth. case_match; [done|apply sv_upd_bw]. Qed.

Lemma sv_resched p s : resched_task p s ≃ s.
Proof. unfold resched_task. case_match; [done|by apply sv_upd_task]. Qed.

Lemma sv_post c b s : upd_rq c (set_post_schedule b) s ≃ s.
Proof. by apply sv_upd_rq. Qed.

Lemma sv_skip c z s : upd_rq c (set_skip_clock_update z) s ≃ s.
Proof. by apply sv_upd_rq. Qed.

Lemma sv_exec p f g s : upd_task p (λ t, set_exec (f t) (g t) t) s ≃ s.
Proof. by apply sv_upd_task. Qed.

Lemma sv_timeout p f g s : upd_task p (λ t, set_timeout (f t) (g t) t) s ≃ s.
Proof. by apply sv_upd_task. Qed.

Lemma sv_slice p n s : upd_task p (set_time_slice n) s ≃ s.
Proof. by apply sv_upd_task. Qed.

Lemma sv_need p b s : upd_task p (set_need_resched b) s ≃ s.
Proof. by apply sv_upd_task. Qed.

End view.

Infix "≃" := seq_view (at level 70).

(** Removes the outermost invisible update on the left. *)
Ltac view_step :=
  lazymatch goal with
  | |- ?s ≃ ?s => reflexivity
  | |- (if ?b then _ else _) ≃ _ => destruct b
  | |- resched_task _ _ ≃ _ => etransitivity; [apply sv_resched|]
  | |- start_rt_bandwidth _ ≃ _ => etransitivity; [apply sv_start|]
  | |- cpupri_set _ _ _ ≃ _ => etransitivity; [apply sv_cpupri|]
  | |- upd_rt _ _ _ ≃ _ => etransitivity; [apply sv_upd_rt; reflexivity|]
  | |- upd_rq _ _ _ ≃ _ => etransitivity; [apply sv_upd_rq; by intros|]
  | |- upd_task _ _ _ ≃ _ => etransitivity; [apply sv_upd_task; reflexivity|]
  | |- upd_rd _ _ ≃ _ => etransitivity; [apply sv_upd_rd; reflexivity|]
  end.

Ltac view_solve := repeat view_step; try reflexivity.

Section handlers.
Context `{RtEnv}.

(** ** Bandwidth is invisible *)

Lemma balance_loop_view c w cpus more s : snd (balance_loop c w cpus more s) ≃ s.
Proof.
  revert more s. induction cpus as [|i cpus IH]; intros more s; cbn -[s64 u64]; [done|].
  repeat (case_decide; try apply IH); cbn -[s64 u64]; try (etransitivity; [apply IH|]); view_solve.
Qed.

Lemma balance_runtime_view c s : snd (balance_runtime c s) ≃ s.
Proof. unfold balance_runtime. case_decide; [apply balance_loop_view|done]. Qed.

Lemma reclaim_loop_view c cpus want s : snd (reclaim_loop c cpus want s) ≃ s.
Proof.
  revert want s. induction cpus as [|i cpus IH]; intros want s; cbn -[s64 u64]; [done|].
  repeat (case_decide; try apply IH); cbn -[s64 u64]; try (etransitivity; [apply IH|]); view_solve.
Qed.

Lemma disable_runtime_view c s s' : __disable_runtime c s = Some s' → s' ≃ s.
Proof.
  unfold __disable_runtime. case_match; [|by intros [= <-]].
  case_decide; [intros [= <-]; view_solve|].
  pose proof (reclaim_loop_view c (span (rd s)) (s64 (bw_runtime (bw s) - sched_rt_runtime s c)) s) as Hv.
  destruct (reclaim_loop _ _ _ _) as [want s1]. case_decide; [done|]. intros [= <-]. view_solve. exact Hv.
Qed.

Lemma enable_runtime_view c s : __enable_runtime c s ≃ s.
Proof. unfold __enable_runtime. view_solve. Qed.

Lemma runtime_exceeded_view c s : snd (sched_rt_runtime_exceeded c s) ≃ s.
Proof.
  unfold sched_rt_runtime_exceeded, sched_rt_rq_dequeue.
  repeat case_match; cbn; try done; view_solve; apply balance_runtime_view.
Qed.

Lemma update_curr_view c s : update_curr_rt c s ≃ s.
Proof.
  unfold update_curr_rt. case_match; [|done]. cbv zeta.
  set (delta := if decide (s64 _ < 0) then _ else _).
  set (s1 := upd_task _ _ _). assert (s1 ≃ s) as Hv1 by (unfold s1; view_solve). clearbody s1 delta.
  case_match; [|done]. case_decide; [done|].
  set (s2 := upd_rt _ _ _). assert (s2 ≃ s) as Hv2 by (unfold s2; view_solve; exact Hv1).
  pose proof (runtime_exceeded_view (task_cpu (tasks s1 (curr (rqs s c)))) s2) as Hv3.
  destruct (sched_rt_runtime_exceeded _ _) as [ex s3]. cbn in Hv3.
  etransitivity; [|exact Hv2]. etransitivity; [|exact Hv3]. view_solve.
Qed.

(** ** Counts and priorities *)

Lemma upd_rt_ext c f g s : req (f (rt_of s c)) (g (rt_of s c)) → upd_rt c f s ≃ upd_rt c g s.
Proof.
  intros Hf. split; [|done| |done].
  - intros c'. rewrite !rt_of_upd_rt. by case_decide.
  - intros c'. by rewrite !online_upd_rt.
Qed.

Lemma upd_rt_compose c f g s : upd_rt c f (upd_rt c g s) ≃ upd_rt c (f ∘ g) s.
Proof.
  split; [|done| |done].
  - intros c'. rewrite !rt_of_upd_rt. destruct (decide (c' = c)) as [->|]; [by rewrite decide_True|done].
  - intros c'. by rewrite !online_upd_rt.
Qed.

Lemma inc_rt_prio_smp_view c pr prev s : inc_rt_prio_smp c pr prev s ≃ s.
Proof. unfold inc_rt_prio_smp. view_solve. Qed.

Lemma dec_rt_prio_smp_view c pr prev s : dec_rt_prio_smp c pr prev s ≃ s.
Proof. unfold dec_rt_prio_smp. view_solve. Qed.

Lemma inc_rt_prio_view c pr s :
  inc_rt_prio c pr s ≃ upd_rt c (λ r, set_highest_curr (Z.min pr (highest_curr r)) r) s.
Proof.
  unfold inc_rt_prio. etransitivity; [apply inc_rt_prio_smp_view|]. case_decide.
  - apply upd_rt_ext. unfold req. do 2 f_equal. lia.
  - symmetry. apply sv_upd_rt_here. rewrite Z.min_r by lia. by destruct (rt_of s c).
Qed.

(** The highest priority after a task of priority [pr] left. *)
Definition highest_after (pr : Z) (r : rt_rq) : Z :=
  if decide (rt_nr_running r = 0) then Z.of_nat MAX_RT_PRIO
  else if decide (pr = highest_curr r) then Z.of_nat (sched_find_first_bit (bits r)) else highest_curr r.

Lemma dec_rt_prio_view c pr s :
  dec_rt_prio c pr s ≃ upd_rt c (λ r, set_highest_curr (highest_after pr r) r) s.
Proof.
  unfold dec_rt_prio. etransitivity; [apply dec_rt_prio_smp_view|].
  repeat case_decide; try (symmetry; apply sv_upd_rt_here; unfold highest_after);
    try (apply upd_rt_ext; unfold highest_after); repeat case_decide; (done || by destruct (rt_of s c)).
Qed.

(** Whether a queue has to be overloaded. *)
Definition migration_bit (r : rt_rq) : bool :=
  negb (bool_decide (rt_nr_migratory r = 0)) && bool_decide (1 < rt_nr_total r).

Definition set_ovl (c : nat) (b : bool) (s : sys) : sys :=
  upd_rt c (set_overloaded b)
    (if eqb b (overloaded (rt_of s c)) then s else if b then rt_set_overload c s else rt_clear_overload c s).

Lemma update_rt_migration_view c s : update_rt_migration c s ≃ set_ovl c (migration_bit (rt_of s c)) s.
Proof.
  unfold update_rt_migration, set_ovl, migration_bit.
  case_match; destruct (overloaded (rt_of s c)) eqn:E; cbn; try done; symmetry; apply sv_upd_rt_here;
    by destruct (rt_of s c); cbn in *; subst.
Qed.

#[export] Instance set_ovl_proper c b : Proper (seq_view ==> seq_view) (set_ovl c b).
Proof.
  intros s s' Hs. unfold set_ovl. apply upd_rt_proper.
  { unfold req, rview. intros r r' [=]. cbn. congruence. }
  replace (overloaded (rt_of s c)) with (overloaded (rt_of s' c)) by by injection (sv_rt _ _ Hs c).
  destruct (eqb _ _); [done|].
  unfold rt_set_overload, rt_clear_overload. rewrite (sv_online _ _ Hs).
  destruct Hs as [H1 H2 H3 H4]. repeat case_match; split; cbn; (done || by rewrite H4).
Qed.

End handlers.
