(* ===== verification/RtInv.v ===== *)
(** * The invariant of the real-time run queues (sched_rt.c,
      src/indwriterups/project1)

    What every run queue satisfies between two operations: the bitmap says which
    lists hold tasks, every task is in the list of its priority on the queue of
    its processor, once, and the counts, the highest priority, the overloaded flag
    and the mask of overloaded processors are those of the lists. *)

From S2P Require Import Prelude RtState RtBandwidth RtQueue RtView.

Local Open Scope Z_scope.

(** Tasks are numbered below this bound, so that no count of tasks wraps. *)
Definition task_limit : Z := 2 ^ 32.

Section invariant.
Context `{RtEnv}.

Definition can_migrate (ts : nat → task) (p : nat) : Prop := 1 < nr_cpus_allowed (ts p).

#[export] Instance can_migrate_dec ts p : Decision (can_migrate ts p).
Proof. unfold can_migrate. apply _. Defined.

(** A task that may be put in list [k] of queue [c]. *)
Definition task_fits (t : task) (p k c : nat) : Prop :=
  prio t = Z.of_nat k ∧ task_cpu t = c ∧ sched_class t = rt_sched_class ∧ Z.of_nat p < task_limit.

Record rt_rq_ok (ts : nat → task) (c : nat) (r : rt_rq) : Prop := {
  ok_length : length (queue r) = MAX_RT_PRIO;
  ok_delimiter : test_bit MAX_RT_PRIO (bits r) = true;
  ok_bits k : (k < MAX_RT_PRIO)%nat → test_bit k (bits r) = negb (bool_decide (queue_at r k = []));
  ok_tasks k p : p ∈ queue_at r k → task_fits (ts p) p k c;
  ok_nodup : NoDup (queued r);
  ok_running : rt_nr_running r = Z.of_nat (length (queued r));
  ok_total : rt_nr_total r = Z.of_nat (length (queued r));
  ok_migratory : rt_nr_migratory r = Z.of_nat (length (filter (can_migrate ts) (queued r)));
  ok_highest : highest_curr r = Z.of_nat (sched_find_first_bit (bits r));
  ok_overloaded : overloaded r = migration_bit r;
}.

(** The mask of the root domain names the overloaded processors online. *)
Definition mask_ok (s : sys) : Prop :=
  ∀ c, c ∈ rto_mask (rd s) ↔ online (rqs s c) = true ∧ overloaded (rt_of s c) = true.

Definition sys_ok (s : sys) : Prop := (∀ c, rt_rq_ok (tasks s) c (rt_of s c)) ∧ mask_ok s.

(** ** The invariant reads the visible fields only *)

Lemma rt_rq_ok_req ts ts' c r r' :
  req r r' → (∀ p, tview (ts p) = tview (ts' p)) → rt_rq_ok ts c r → rt_rq_ok ts' c r'.
Proof.
  unfold req, rview, tview. intros Hr Ht [? ? Hb Hk ? ? ? Hm ? Ho]. injection Hr as E1 E2 E3 E4 E5 E6 E7.
  assert (∀ p, can_migrate ts p ↔ can_migrate ts' p) as Hmig.
  { intros p. unfold can_migrate. by injection (Ht p) as ?? -> ?. }
  assert (queued r = queued r') as Eq by (unfold queued; congruence).
  assert (∀ k, queue_at r k = queue_at r' k) as Ek by (unfold queue_at; congruence).
  split; unfold migration_bit in *; try congruence.
  - intros k. rewrite <- E2, <- Ek. apply Hb.
  - intros k p Hp. rewrite <- Ek in Hp. destruct (Hk k p Hp) as (?&?&?&?).
    injection (Ht p). intros. unfold task_fits. conjs; congruence.
  - rewrite <- E5, <- Eq, Hm. do 2 f_equal. by apply list_filter_iff.
  - by rewrite <- E7, Ho, E5, E6.
Qed.

#[export] Instance sys_ok_proper : Proper (seq_view ==> iff) sys_ok.
Proof.
  assert (∀ s s', s ≃ s' → sys_ok s → sys_ok s') as Himp.
  { intros s s' Hv [Hrq Hmask]. split.
    - intros c. eapply rt_rq_ok_req; [apply Hv|apply Hv|apply Hrq].
    - intros c. destruct Hv as [Hr _ Ho Hm]. rewrite <- Hm, <- Ho.
      injection (Hr c) as _ _ _ _ _ _ <-. apply Hmask. }
  intros s s' Hv. split; apply Himp; [done|by symmetry].
Qed.

End invariant.

(** ** Lists by priority *)

Section by_prio.
Implicit Types qs : list (list nat).

Lemma concat_alter (f : list nat → list nat) k qs l :
  qs !! k = Some l → concat (alter f k qs) = concat (take k qs) ++ f l ++ concat (drop (S k) qs).
Proof.
  revert k. induction qs as [|l' qs IH]; intros [|k] Hk; simplify_eq/=; [done|].
  change (alter f (S k) (l' :: qs)) with (l' :: alter f k qs). cbn. by rewrite (IH k), app_assoc.
Qed.

Lemma concat_split k qs l :
  qs !! k = Some l → concat qs = concat (take k qs) ++ l ++ concat (drop (S k) qs).
Proof. intros Hk. rewrite <- (take_drop_middle qs k l Hk) at 1. by rewrite concat_app. Qed.

Lemma elem_of_concat p qs : p ∈ concat qs ↔ ∃ k l, qs !! k = Some l ∧ p ∈ l.
Proof.
  rewrite list_elem_of_In, in_concat. split.
  - intros (l & Hl & Hp). apply list_elem_of_In in Hl, Hp. apply list_elem_of_lookup_1 in Hl as [k ?]. eauto.
  - intros (k & l & Hl & Hp). exists l. rewrite <- !list_elem_of_In. split; [by eapply list_elem_of_lookup_2|done].
Qed.

(** The head of the whole is the head of the first list that is not empty. *)
Lemma head_concat k qs l :
  qs !! k = Some l → l ≠ [] → (∀ j l', (j < k)%nat → qs !! j = Some l' → l' = []) → head (concat qs) = head l.
Proof.
  intros Hk Hl Hlt. rewrite (concat_split k qs l Hk).
  assert (concat (take k qs) = []) as ->; [|by destruct l].
  destruct (concat (take k qs)) as [|x l'] eqn:E; [done|].
  assert (x ∈ concat (take k qs)) as Hx by (rewrite E; set_solver).
  apply elem_of_concat in Hx as (j & l0 & Hj & Hx). apply lookup_take_Some in Hj as [Hj ?].
  apply Hlt in Hj; [|done]. set_solver.
Qed.

End by_prio.

Section library.
Context `{RtEnv} `{!KernelLibSpec}.

Lemma queue_at_lookup r k : queue_at r k = default [] ((list_items <$> queue r) !! k).
Proof. unfold queue_at. rewrite list_lookup_fmap. destruct (queue r !! k); cbn; [done|apply items_init]. Qed.

Lemma lookup_queue_at r k : (k < length (queue r))%nat → (list_items <$> queue r) !! k = Some (queue_at r k).
Proof.
  intros Hk. rewrite queue_at_lookup. destruct ((list_items <$> queue r) !! k) eqn:E; [done|].
  apply lookup_ge_None in E. rewrite length_fmap in E. lia.
Qed.

Lemma queue_at_long r k : (length (queue r) <= k)%nat → queue_at r k = [].
Proof. intros Hk. rewrite queue_at_lookup, lookup_ge_None_2; [done|by rewrite length_fmap]. Qed.

Lemma elem_of_queued r p : p ∈ queued r ↔ ∃ k, p ∈ queue_at r k.
Proof.
  unfold queued. rewrite elem_of_concat. split.
  - intros (k & l & Hk & Hp). exists k. by rewrite queue_at_lookup, Hk.
  - intros (k & Hp). exists k, (queue_at r k). split; [|done]. apply lookup_queue_at.
    destruct (decide (k < length (queue r))%nat); [done|]. rewrite queue_at_long in Hp by lia. set_solver.
Qed.

(** *** The first bit *)

Lemma first_bit_delimited b :
  test_bit MAX_RT_PRIO b = true →
  (sched_find_first_bit b <= MAX_RT_PRIO)%nat ∧ test_bit (sched_find_first_bit b) b = true ∧
  (∀ j, (j < sched_find_first_bit b)%nat → test_bit j b = false).
Proof.
  intros Hd. unfold sched_find_first_bit.
  pose proof (find_next_ge b (S MAX_RT_PRIO) 0 ltac:(lia)) as Hge.
  pose proof (find_next_least b (S MAX_RT_PRIO) 0) as Hleast.
  assert (find_next_bit b (S MAX_RT_PRIO) 0 ≠ S MAX_RT_PRIO) as Hne.
  { intros E. specialize (Hleast MAX_RT_PRIO ltac:(lia) ltac:(rewrite E; lia)). congruence. }
  split; [lia|]. split; [apply find_next_set; lia|]. intros j Hj. apply Hleast; lia.
Qed.

Lemma first_bit_unique b k :
  (k <= MAX_RT_PRIO)%nat → test_bit k b = true → (∀ j, (j < k)%nat → test_bit j b = false) →
  test_bit MAX_RT_PRIO b = true → sched_find_first_bit b = k.
Proof.
  intros Hk Hb Hlt Hd. destruct (first_bit_delimited b Hd) as (_ & Hs & Hl).
  destruct (decide (k < sched_find_first_bit b)%nat) as [Hc|]; [by apply Hl in Hc; congruence|].
  destruct (decide (sched_find_first_bit b < k)%nat) as [Hc|]; [by apply Hlt in Hc; congruence|]. lia.
Qed.

Lemma first_bit_set b k :
  (k < MAX_RT_PRIO)%nat → test_bit MAX_RT_PRIO b = true →
  sched_find_first_bit (__set_bit k b) = Nat.min k (sched_find_first_bit b).
Proof.
  intros Hk Hd. destruct (first_bit_delimited b Hd) as (? & Hs & Hl).
  apply first_bit_unique; [lia| | |by rewrite test_set; case_decide].
  - rewrite test_set. case_decide; [done|]. by replace (Nat.min _ _) with (sched_find_first_bit b) by lia.
  - intros j Hj. rewrite test_set, decide_False by lia. apply Hl. lia.
Qed.

Lemma first_bit_clear_above b k :
  (sched_find_first_bit b < k)%nat → (k < MAX_RT_PRIO)%nat → test_bit MAX_RT_PRIO b = true →
  sched_find_first_bit (__clear_bit k b) = sched_find_first_bit b.
Proof.
  intros Hk ? Hd. destruct (first_bit_delimited b Hd) as (? & Hs & Hl).
  apply first_bit_unique; [done| | |].
  - by rewrite test_clear, decide_False by lia.
  - intros j Hj. rewrite test_clear. case_decide; [done|by apply Hl].
  - by rewrite test_clear, decide_False by lia.
Qed.

End library.

Section updates.
Context `{RtEnv} `{!KernelLibSpec}.

(** ** One queue of a state *)

Lemma online_set_ovl c b s c' : online (rqs (set_ovl c b s) c') = online (rqs s c').
Proof. unfold set_ovl. rewrite online_upd_rt. unfold rt_set_overload, rt_clear_overload. by repeat case_match. Qed.

Lemma rt_of_set_ovl c b s c' :
  rt_of (set_ovl c b s) c' = if decide (c' = c) then set_overloaded b (rt_of s c) else rt_of s c'.
Proof.
  unfold set_ovl. rewrite rt_of_upd_rt. unfold rt_set_overload, rt_clear_overload.
  repeat case_match; subst; reflexivity.
Qed.

Lemma tasks_set_ovl c b s : tasks (set_ovl c b s) = tasks s.
Proof. unfold set_ovl, rt_set_overload, rt_clear_overload. by repeat case_match. Qed.

Lemma mask_ok_set_ovl c b s : mask_ok s → mask_ok (set_ovl c b s).
Proof.
  intros Hm c'. rewrite online_set_ovl, rt_of_set_ovl. specialize (Hm c').
  unfold set_ovl, upd_rt, upd_rq; cbn -[rt_of].
  destruct (eqb b (overloaded (rt_of s c))) eqn:E.
  - apply eqb_prop in E as ->. rewrite Hm. by case_decide; subst.
  - apply eqb_false_iff in E. unfold rt_set_overload, rt_clear_overload.
    destruct b, (overloaded (rt_of s c)) eqn:?; try done; destruct (online (rqs s c)) eqn:?; cbn -[rt_of];
      case_decide; subst; cbn; set_solver.
Qed.

Lemma mask_ok_upd_rt c f s : overloaded (f (rt_of s c)) = overloaded (rt_of s c) → mask_ok s → mask_ok (upd_rt c f s).
Proof.
  intros Hf Hm c'. rewrite online_upd_rt, rt_of_upd_rt, (Hm c'). case_decide; subst; [by rewrite Hf|done].
Qed.

Lemma sys_ok_update c f b s s' :
  sys_ok s → s' ≃ set_ovl c b (upd_rt c f s) → overloaded (f (rt_of s c)) = overloaded (rt_of s c) →
  rt_rq_ok (tasks s) c (set_overloaded b (f (rt_of s c))) → sys_ok s'.
Proof.
  intros [Hrq Hm] -> Hf Hok. split; [|by apply mask_ok_set_ovl, mask_ok_upd_rt].
  intros c'. rewrite tasks_set_ovl, rt_of_set_ovl, !rt_of_upd_rt.
  case_decide; subst; [by rewrite decide_True|]. apply Hrq.
Qed.

Lemma sys_ok_upd_rt c f s :
  sys_ok s → overloaded (f (rt_of s c)) = overloaded (rt_of s c) →
  rt_rq_ok (tasks s) c (f (rt_of s c)) → sys_ok (upd_rt c f s).
Proof.
  intros [Hrq Hm] Hf Hok. split; [|by apply mask_ok_upd_rt].
  intros c'. rewrite rt_of_upd_rt. case_decide; subst; [done|apply Hrq].
Qed.

(** Changing a task that is in no queue. *)
Lemma rt_rq_ok_other ts c r p t : p ∉ queued r → rt_rq_ok ts c r → rt_rq_ok (<[p:=t]> ts) c r.
Proof.
  intros Hp [? ? ? Hk ? ? ? Hmig ? ?]. split; try done.
  - intros k q Hq. rewrite fn_lookup_insert_ne; [by apply Hk|]. intros ->. apply Hp, elem_of_queued. eauto.
  - rewrite Hmig. do 2 f_equal. apply filter_iff_in. intros q Hq. unfold can_migrate.
    rewrite fn_lookup_insert_ne; [done|]. by intros ->.
Qed.

Lemma sys_ok_upd_task p f s : (∀ c, p ∉ queued (rt_of s c)) → sys_ok s → sys_ok (upd_task p f s).
Proof. intros Hp [Hrq Hm]. split; [|done]. intros c. apply rt_rq_ok_other; [apply Hp|apply Hrq]. Qed.

End updates.
