(* ===== verification/RtEnqueue.v ===== *)
(** * Putting tasks on a real-time run queue and taking them off (sched_rt.c,
      src/indwriterups/project1)

    The effect of the entity operations on one queue as an assignment, and that
    they keep the invariant. *)

From S2P Require Import Prelude RtState RtBandwidth RtQueue RtView RtInv.

Local Open Scope Z_scope.

Section enqueue.
Context `{RtEnv} `{!KernelLibSpec}.

Definition mig (t : task) : Z := if decide (1 < nr_cpus_allowed t) then 1 else 0.

(** A queue after a task of priority [k] was put on it. *)
Definition enq_rq (p : nat) (head : bool) (k : nat) (m : Z) (r : rt_rq) : rt_rq :=
  set_migration (u64 (rt_nr_migratory r + m)) (u64 (rt_nr_total r + 1))
    (set_highest_curr (Z.min (Z.of_nat k) (highest_curr r))
      (set_rt_nr_running (u64 (rt_nr_running r + 1))
        (set_active (alter (if head then list_add p else list_add_tail p) k (queue r)) (__set_bit k (bits r)) r))).

(** A queue after its task [p] of priority [k] was taken off. *)
Definition deq_rq (p k : nat) (m : Z) (r : rt_rq) : rt_rq :=
  let q := array_del p (queue r) in
  let r' := set_rt_nr_running (u64 (rt_nr_running r - 1))
              (set_active q (if decide (queue_at (set_active q (bits r) r) k = []) then __clear_bit k (bits r) else bits r) r) in
  set_migration (u64 (rt_nr_migratory r - m)) (u64 (rt_nr_total r - 1))
    (set_highest_curr (highest_after (Z.of_nat k) r') r').

(** ** The helpers respect the equivalence *)

Lemma mig_view t t' : tview t = tview t' → mig t = mig t'.
Proof. unfold tview, mig. by intros [= _ _ -> _]. Qed.

Lemma migration_bit_req r r' : req r r' → migration_bit r = migration_bit r'.
Proof. unfold req, rview, migration_bit. by intros [= _ _ _ _ -> -> _]. Qed.

(** A helper that ends by deciding the overloaded flag. *)
Lemma set_ovl_upd_view c f g s s' :
  upd_rt c f s ≃ upd_rt c g s' →
  set_ovl c (migration_bit (f (rt_of s c))) (upd_rt c f s) ≃
  set_ovl c (migration_bit (g (rt_of s' c))) (upd_rt c g s').
Proof.
  intros Hu. pose proof (sv_rt _ _ Hu c) as Hr. rewrite !rt_of_upd_rt_eq in Hr.
  rewrite (migration_bit_req _ _ Hr). by apply set_ovl_proper.
Qed.

Definition add_migration (m t : Z) (r : rt_rq) : rt_rq :=
  set_migration (u64 (rt_nr_migratory r + m)) (u64 (rt_nr_total r + t)) r.

#[export] Instance add_migration_proper m t : Proper (req ==> req) (add_migration m t).
Proof. unfold req, rview. intros r r' [=]. cbn. congruence. Qed.

Lemma update_migration_view c f s :
  update_rt_migration c (upd_rt c f s) ≃ set_ovl c (migration_bit (f (rt_of s c))) (upd_rt c f s).
Proof. rewrite update_rt_migration_view. by rewrite rt_of_upd_rt_eq. Qed.

Lemma inc_rt_migration_view p c s s' :
  s ≃ s' → inc_rt_migration p c s ≃
  set_ovl c (migration_bit (add_migration (mig (tasks s' p)) 1 (rt_of s' c))) (upd_rt c (add_migration (mig (tasks s' p)) 1) s').
Proof.
  intros Hs. unfold inc_rt_migration. fold (mig (tasks s p)). rewrite (mig_view _ _ (sv_task _ _ Hs p)).
  rewrite update_migration_view. apply (set_ovl_upd_view c (add_migration _ _) (add_migration _ _)).
  by apply upd_rt_proper; [apply _|].
Qed.

Lemma dec_rt_migration_view p c s s' :
  s ≃ s' → dec_rt_migration p c s ≃
  set_ovl c (migration_bit (add_migration (- mig (tasks s' p)) (-1) (rt_of s' c)))
    (upd_rt c (add_migration (- mig (tasks s' p)) (-1)) s').
Proof.
  intros Hs. unfold dec_rt_migration. fold (mig (tasks s p)). rewrite (mig_view _ _ (sv_task _ _ Hs p)).
  rewrite update_migration_view. apply (set_ovl_upd_view c (add_migration _ _) (add_migration _ _)).
  by apply upd_rt_proper; [apply _|].
Qed.

(** ** The entity operations as assignments *)

Lemma enqueue_entity_view p head s k :
  prio (tasks s p) = Z.of_nat k →
  let c := task_cpu (tasks s p) in
  let f := enq_rq p head k (mig (tasks s p)) in
  __enqueue_rt_entity p head s ≃ set_ovl c (migration_bit (f (rt_of s c))) (upd_rt c f s).
Proof.
  intros Hk c f. unfold __enqueue_rt_entity. assert (prio_index s p = k) as -> by (unfold prio_index; lia).
  fold c. unfold inc_rt_tasks. rewrite sv_start.
  rewrite inc_rt_migration_view by apply inc_rt_prio_view. cbn [tasks upd_rt upd_rq]. rewrite Hk.
  apply (set_ovl_upd_view c (add_migration _ _) f). rewrite !upd_rt_compose. by apply upd_rt_ext.
Qed.

Lemma dequeue_entity_view p s k :
  prio (tasks s p) = Z.of_nat k →
  let c := task_cpu (tasks s p) in
  let f := deq_rq p k (mig (tasks s p)) in
  __dequeue_rt_entity p s ≃ set_ovl c (migration_bit (f (rt_of s c))) (upd_rt c f s).
Proof.
  intros Hk c f. unfold __dequeue_rt_entity. assert (prio_index s p = k) as -> by (unfold prio_index; lia).
  fold c. unfold dec_rt_tasks.
  set (g := λ r, set_active (array_del p (queue r)) (bits r) r).
  set (clear := λ r, if decide (queue_at (g (rt_of s c)) k = []) then set_active (queue r) (__clear_bit k (bits r)) r else r).
  set (s1 := if decide _ then _ else _).
  assert (s1 ≃ upd_rt c (clear ∘ g) s) as Hv1.
  { unfold s1, clear. change (upd_rt c (λ r, set_active (array_del p (queue r)) (bits r) r) s) with (upd_rt c g s).
    rewrite rt_of_upd_rt_eq. case_decide; [apply upd_rt_compose|by apply upd_rt_ext]. }
  assert (prio (tasks s1 p) = Z.of_nat k) as Hp.
  { pose proof (sv_task _ _ Hv1 p) as Ht. unfold tview in Ht. injection Ht as -> _ _ _. exact Hk. }
  clearbody s1. change (tasks (upd_rt c _ s1) p) with (tasks s1 p). rewrite Hp.
  rewrite dec_rt_migration_view; [|etransitivity; [apply dec_rt_prio_view|]; apply upd_rt_proper; [|apply upd_rt_proper; [|exact Hv1]]].
  - cbn [tasks upd_rt upd_rq]. apply (set_ovl_upd_view c (add_migration _ _) f). rewrite !upd_rt_compose.
    apply upd_rt_ext. unfold f, deq_rq, clear, g, add_migration, compose, req. case_decide; reflexivity.
  - intros [] [] [=]; subst. reflexivity.
  - unfold req, rview. intros r r' [=]. cbn. congruence.
Qed.

(** ** Keeping the invariant *)

Lemma items_enqueue p (head : bool) (k : nat) (q : list rlist) :
  list_items <$> alter (if head then list_add p else list_add_tail p) k q =
  alter (λ l, if head then p :: l else l ++ [p]) k (list_items <$> q).
Proof.
  apply list_fmap_alter, Forall_forall. intros l _. destruct head; [apply items_add|apply items_add_tail].
Qed.

Lemma queue_at_alter f (k j : nat) (q : list (list nat)) r :
  list_items <$> queue r = alter f k q →
  queue_at r j = if decide (j = k ∧ (k < length q)%nat) then f (default [] (q !! j)) else default [] (q !! j).
Proof.
  intros Hr. rewrite queue_at_lookup, Hr. destruct (decide (k < length q)%nat) as [Hlt|].
  - destruct (decide (j = k)) as [->|].
    + rewrite list_lookup_alter_eq, decide_True by done.
      apply lookup_lt_is_Some in Hlt as [l ->]. done.
    + by rewrite list_lookup_alter_ne, decide_False by naive_solver.
  - rewrite decide_False by naive_solver. destruct (decide (j = k)) as [->|].
    + by rewrite list_lookup_alter_eq, lookup_ge_None_2 by lia.
    + by rewrite list_lookup_alter_ne by done.
Qed.

Lemma queued_enqueue p (head : bool) (k : nat) (q : list (list nat)) r :
  list_items <$> queue r = alter (λ l, if head then p :: l else l ++ [p]) k q → (k < length q)%nat →
  queued r ≡ₚ p :: concat q.
Proof.
  intros Hr [l Hl]%lookup_lt_is_Some. unfold queued. rewrite Hr, (concat_alter _ _ _ _ Hl), (concat_split _ _ _ Hl).
  destruct head; [|rewrite <- app_assoc]; solve_Permutation.
Qed.

Lemma mig_filter (ts : nat → task) p l :
  Z.of_nat (length (filter (can_migrate ts) (p :: l))) = mig (ts p) + Z.of_nat (length (filter (can_migrate ts) l)).
Proof.
  rewrite filter_cons. destruct (decide (can_migrate ts p)) as [Hc|Hc]; unfold can_migrate in Hc; unfold mig;
    [rewrite decide_True by done; cbn|rewrite decide_False by done]; lia.
Qed.

Lemma mig_range t : 0 <= mig t <= 1.
Proof. unfold mig. case_decide; lia. Qed.

Lemma rq_bound ts c r l :
  rt_rq_ok ts c r → queued r ≡ₚ l → Z.of_nat (length l) <= task_limit ∧
  Z.of_nat (length (filter (can_migrate ts) l)) <= task_limit.
Proof.
  intros Hok Hl. assert (Z.of_nat (length l) <= task_limit) as Hb.
  { rewrite <- Hl. apply NoDup_bounded; [done|apply Hok|].
    intros q [k Hq]%elem_of_queued. by apply (ok_tasks _ _ _ Hok) in Hq as (_&_&_&?). }
  split; [done|]. pose proof (length_filter (can_migrate ts) l). lia.
Qed.

Lemma queued_empty_at ts c r k : rt_rq_ok ts c r → queued r = [] → queue_at r k = [].
Proof.
  intros Hok Hq. destruct (queue_at r k) as [|p l] eqn:E; [done|].
  assert (p ∈ queued r) as Hp by (apply elem_of_queued; exists k; rewrite E; set_solver).
  rewrite Hq in Hp. set_solver.
Qed.

(** Filtering one element out. *)
Lemma filter_out_id (p : nat) (l : list nat) : p ∉ l → filter (λ x, x ≠ p) l = l.
Proof.
  intros Hp. induction l as [|x l IH]; [done|]. rewrite filter_cons, decide_True by set_solver.
  f_equal. apply IH. set_solver.
Qed.

Lemma filter_out_cons (p : nat) (l : list nat) : NoDup l → p ∈ l → p :: filter (λ x, x ≠ p) l ≡ₚ l.
Proof.
  intros Hd Hp. apply list_elem_of_split in Hp as (l1 & l2 & ->).
  apply list.NoDup_app in Hd as (_ & Hd1 & Hd2). apply list.NoDup_cons in Hd2 as [Hn _].
  rewrite list.filter_app, filter_cons, decide_False by naive_solver.
  rewrite !filter_out_id; [solve_Permutation|done|]. intros Hp%Hd1. set_solver.
Qed.

Section one_queue.
Context (ts : nat → task) (c : nat) (r : rt_rq) (p k : nat).
Hypothesis Hok : rt_rq_ok ts c r.
Hypothesis Hfits : task_fits (ts p) p k c.
Hypothesis Hk : (k < MAX_RT_PRIO)%nat.

Lemma task_index j : p ∈ queue_at r j → j = k.
Proof. intros (Hj & _)%(ok_tasks _ _ _ Hok). destruct Hfits as (Hk' & _). lia. Qed.

Lemma enq_ok head :
  p ∉ queued r →
  let r' := enq_rq p head k (mig (ts p)) r in rt_rq_ok ts c (set_overloaded (migration_bit r') r').
Proof.
  intros Hp r'. destruct Hok as [Hlen Hd Hb Ht Hnd Hrun Htot Hmig Hhi _].
  pose proof (items_enqueue p head k (queue r)) as Hitems.
  assert (k < length (list_items <$> queue r))%nat as Hk' by (rewrite length_fmap; lia).
  pose proof (queued_enqueue p head k _ r' Hitems Hk') as Hperm.
  change (concat (list_items <$> queue r)) with (queued r) in Hperm.
  assert (∀ j, queue_at r' j = if decide (j = k) then (if head then p :: queue_at r j else queue_at r j ++ [p])
                               else queue_at r j) as Hat.
  { intros j. rewrite (queue_at_alter _ k j _ r' Hitems), <- queue_at_lookup.
    by repeat case_decide; try tauto. }
  assert (Z.of_nat (S (length (queued r))) <= task_limit) as Hbound.
  { change (S (length (queued r))) with (length (p :: queued r)). apply NoDup_bounded; [done|by constructor|].
    intros q [->|Hq]%elem_of_cons; [apply Hfits|]. apply elem_of_queued in Hq as [j Hq]. by apply Ht in Hq as (_&_&_&?). }
  pose proof (mig_range (ts p)). pose proof (length_filter (can_migrate ts) (queued r)).
  assert (task_limit < 2 ^ 64) as Hlim by done.
  split.
  - cbn. by rewrite length_alter.
  - cbn. rewrite test_set. by case_decide.
  - intros j Hj. change (queue_at (set_overloaded _ r') j) with (queue_at r' j). cbn. rewrite test_set, Hat.
    case_decide; [|by apply Hb]. by destruct head, (queue_at r j).
  - intros j q. change (queue_at (set_overloaded _ r') j) with (queue_at r' j). rewrite Hat.
    case_decide; [subst j|apply Ht]. intros Hq. assert (q = p ∨ q ∈ queue_at r k) as [->|] by (destruct head; set_solver);
      [done|by apply Ht].
  - change (NoDup (queued r')). rewrite Hperm. by constructor.
  - change (u64 (rt_nr_running r + 1) = Z.of_nat (length (queued r'))). rewrite Hperm, Hrun. cbn. wrap_small; lia.
  - change (u64 (rt_nr_total r + 1) = Z.of_nat (length (queued r'))). rewrite Hperm, Htot. cbn. wrap_small; lia.
  - change (u64 (rt_nr_migratory r + mig (ts p)) = Z.of_nat (length (filter (can_migrate ts) (queued r')))).
    rewrite Hperm, mig_filter, Hmig. wrap_small; lia.
  - cbn. rewrite first_bit_set, Hhi by done. lia.
  - done.
Qed.

(** *** Taking off *)

Lemma items_del_array q : list_items <$> array_del p q = filter (λ x, x ≠ p) <$> (list_items <$> q).
Proof. unfold array_del. rewrite <- !list_fmap_compose. apply list_fmap_ext. intros. apply items_del. Qed.

Lemma queued_del r' : queue r' = array_del p (queue r) → queued r' = filter (λ x, x ≠ p) (queued r).
Proof. intros Hq. unfold queued. by rewrite Hq, items_del_array, concat_filter. Qed.

Lemma queue_at_del r' j : queue r' = array_del p (queue r) → queue_at r' j = filter (λ x, x ≠ p) (queue_at r j).
Proof.
  intros Hq. rewrite !queue_at_lookup, Hq, items_del_array, list_lookup_fmap.
  by destruct ((list_items <$> queue r) !! j).
Qed.

Lemma queue_at_other j : j ≠ k → filter (λ x, x ≠ p) (queue_at r j) = queue_at r j.
Proof. intros Hj. apply filter_out_id. by intros ?%task_index. Qed.

Lemma queued_not_empty j : queue_at r j ≠ [] → queued r ≠ [].
Proof. intros Hj Hq. by apply Hj, (queued_empty_at ts c). Qed.

End one_queue.

(** With all bits clear but the delimiter, the first bit is the delimiter. *)
Lemma first_bit_empty b :
  test_bit MAX_RT_PRIO b = true → (∀ j, (j < MAX_RT_PRIO)%nat → test_bit j b = false) →
  sched_find_first_bit b = MAX_RT_PRIO.
Proof. intros Hd Hb. by apply first_bit_unique. Qed.

Section taking_off.
Context (ts : nat → task) (c : nat) (r : rt_rq) (p k : nat).
Hypothesis Hok : rt_rq_ok ts c r.
Hypothesis Hp : p ∈ queue_at r k.

Let r' := deq_rq p k (mig (ts p)) r.

Lemma deq_fits : task_fits (ts p) p k c.
Proof. by apply (ok_tasks _ _ _ Hok). Qed.

Lemma deq_index : (k < MAX_RT_PRIO)%nat.
Proof.
  rewrite <- (ok_length _ _ _ Hok). destruct (decide (k < length (queue r))%nat); [done|].
  pose proof Hp as Hq. rewrite queue_at_long in Hq by lia. set_solver.
Qed.

Lemma deq_perm : p :: queued r' ≡ₚ queued r.
Proof.
  rewrite (queued_del r p r') by done. apply filter_out_cons; [apply Hok|]. apply elem_of_queued. eauto.
Qed.

Lemma deq_at j : queue_at r' j = if decide (j = k) then filter (λ x, x ≠ p) (queue_at r j) else queue_at r j.
Proof.
  rewrite (queue_at_del r p r') by done. case_decide; [done|].
  eapply queue_at_other; eauto using deq_fits, deq_index.
Qed.

(** The bitmap says again which lists hold tasks. *)
Lemma deq_bits j : (j < MAX_RT_PRIO)%nat → test_bit j (bits r') = negb (bool_decide (queue_at r' j = [])).
Proof.
  intros Hj. assert (bits r' = if decide (queue_at r' k = []) then __clear_bit k (bits r) else bits r) as -> by done.
  pose proof (deq_at k) as Hat. rewrite decide_True in Hat by done. rewrite Hat, (deq_at j).
  destruct (decide (j = k)) as [->|Hjk].
  - case_decide as Hc; [by rewrite test_clear, decide_True, bool_decide_true by done|].
    rewrite (ok_bits _ _ _ Hok), !bool_decide_false by (done || intros Hq; rewrite Hq in Hp; set_solver). done.
  - assert (test_bit j (bits r) = negb (bool_decide (queue_at r j = []))) by by apply Hok.
    case_decide; [by rewrite test_clear, decide_False|done].
Qed.

Lemma deq_delimiter : test_bit MAX_RT_PRIO (bits r') = true.
Proof.
  pose proof deq_index. change (bits r') with (if decide (queue_at r' k = []) then __clear_bit k (bits r) else bits r).
  case_decide; [rewrite test_clear, decide_False by lia|]; apply Hok.
Qed.

Lemma deq_running : u64 (rt_nr_running r - 1) = Z.of_nat (length (queued r')).
Proof.
  destruct (rq_bound _ _ _ _ Hok (symmetry deq_perm)) as [Hb _]. cbn in Hb.
  rewrite (ok_running _ _ _ Hok), <- deq_perm. cbn [length].
  assert (task_limit < 2 ^ 64) by done. wrap_small; lia.
Qed.

(** The highest priority is again the first bit. *)
Lemma deq_highest : highest_curr r' = Z.of_nat (sched_find_first_bit (bits r')).
Proof.
  change (highest_curr r') with (highest_after (Z.of_nat k)
    (set_rt_nr_running (u64 (rt_nr_running r - 1)) (set_active (queue r') (bits r') r))).
  unfold highest_after. cbn [rt_nr_running set_rt_nr_running set_active highest_curr bits].
  rewrite deq_running. case_decide as Hn.
  - f_equal. symmetry. apply first_bit_empty; [apply deq_delimiter|]. intros j Hj. rewrite deq_bits by done.
    assert (queued r' = []) as Hq by (destruct (queued r'); [done|cbn in Hn; lia]).
    rewrite bool_decide_true; [done|]. destruct (queue_at r' j) as [|x l] eqn:E; [done|].
    assert (x ∈ queued r') as Hx by (apply elem_of_queued; exists j; rewrite E; set_solver).
    rewrite Hq in Hx. set_solver.
  - case_decide as Hc; [done|]. rewrite (ok_highest _ _ _ Hok) in Hc |- *. f_equal.
    change (bits r') with (if decide (queue_at r' k = []) then __clear_bit k (bits r) else bits r).
    case_decide; [|done]. symmetry. pose proof (ok_delimiter _ _ _ Hok) as Hd.
    apply first_bit_clear_above; [|apply deq_index|done].
    destruct (first_bit_delimited _ Hd) as (_ & _ & Hl).
    destruct (decide (k < sched_find_first_bit (bits r))%nat) as [Hlt|]; [|lia].
    apply Hl in Hlt. rewrite (ok_bits _ _ _ Hok) in Hlt by apply deq_index.
    case_bool_decide as Hq; [rewrite Hq in Hp; set_solver|done].
Qed.

Lemma deq_ok : rt_rq_ok ts c (set_overloaded (migration_bit r') r').
Proof.
  destruct (rq_bound _ _ _ _ Hok (symmetry deq_perm)) as [Hb1 Hb2]. rewrite mig_filter in Hb2.
  pose proof (mig_range (ts p)). assert (task_limit < 2 ^ 64) by done. split.
  - cbn. unfold array_del. rewrite length_fmap. apply Hok.
  - apply deq_delimiter.
  - apply deq_bits.
  - intros j q Hq. change (q ∈ queue_at r' j) in Hq. rewrite deq_at in Hq. apply (ok_tasks _ _ _ Hok).
    case_decide; [by apply list_elem_of_filter in Hq as [_ ?]|done].
  - change (NoDup (queued r')). eapply NoDup_cons_1_2. rewrite deq_perm. apply Hok.
  - apply deq_running.
  - change (u64 (rt_nr_total r - 1) = Z.of_nat (length (queued r'))). rewrite <- deq_running.
    by rewrite (ok_total _ _ _ Hok), (ok_running _ _ _ Hok).
  - change (u64 (rt_nr_migratory r - mig (ts p)) = Z.of_nat (length (filter (can_migrate ts) (queued r')))).
    rewrite (ok_migratory _ _ _ Hok), <- deq_perm, mig_filter. rewrite wrap_u_small by lia. lia.
  - apply deq_highest.
  - done.
Qed.

End taking_off.

End enqueue.
