(* ===== verification/RtOps.v ===== *)
(** * The handlers keep the run queues well formed (sched_rt.c,
      src/indwriterups/project1)

    The invariant for the handlers of the class that work on one queue, the
    queues as abstract priority queues, and what each handler does to them. *)

From S2P Require Import Prelude RtState RtBandwidth RtQueue RtView RtInv RtEnqueue.

Local Open Scope Z_scope.

(** ** Abstract priority queues

    A queue is the list of its tasks with their priorities, most urgent first. *)

Abbreviation pqueue := (list (nat * Z)).

(** In front of the tasks that are not more urgent. *)
Fixpoint insert_first (p : nat) (pr : Z) (l : pqueue) : pqueue :=
  match l with
  | [] => [(p, pr)]
  | (q, qr) :: l' => if decide (qr < pr) then (q, qr) :: insert_first p pr l' else (p, pr) :: l
  end.

Definition remove_task (p : nat) (l : pqueue) : pqueue := filter (λ e, e.1 ≠ p) l.

Definition put_task (head : bool) (p : nat) (pr : Z) (l : pqueue) : pqueue :=
  if head then insert_first p pr (remove_task p l) else plist_insert p pr (remove_task p l).

Lemma plist_insert_app p pr l1 l2 :
  Forall (λ e, e.2 <= pr) l1 → Forall (λ e, pr < e.2) l2 →
  plist_insert p pr (l1 ++ l2) = l1 ++ (p, pr) :: l2.
Proof.
  intros H1 H2. induction H1 as [|[q qr] l1 Hq _ IH]; cbn.
  - destruct H2 as [|[q qr] l2 Hq _]; cbn; [done|]. cbn in Hq. by rewrite decide_False by lia.
  - by rewrite decide_True, IH.
Qed.

Lemma insert_first_app p pr l1 l2 :
  Forall (λ e, e.2 < pr) l1 → Forall (λ e, pr <= e.2) l2 →
  insert_first p pr (l1 ++ l2) = l1 ++ (p, pr) :: l2.
Proof.
  intros H1 H2. induction H1 as [|[q qr] l1 Hq _ IH]; cbn.
  - destruct H2 as [|[q qr] l2 Hq _]; cbn; [done|]. cbn in Hq. by rewrite decide_False by lia.
  - by rewrite decide_True, IH.
Qed.

Section ops.
Context `{RtEnv} `{!KernelLibSpec}.

(** The queue of a processor, seen abstractly. *)
Definition with_prio (ts : nat → task) (p : nat) : nat * Z := (p, prio (ts p)).

Definition abs (s : sys) (c : nat) : pqueue := with_prio (tasks s) <$> queued (rt_of s c).

#[export] Instance abs_proper : Proper (seq_view ==> eq ==> eq) abs.
Proof.
  intros s s' Hv c _ <-. unfold abs, queued. injection (sv_rt _ _ Hv c) as -> _ _ _ _ _ _.
  apply list_fmap_ext. intros i p _. unfold with_prio. f_equal. by injection (sv_task _ _ Hv p).
Qed.

Lemma abs_filter ts p l : remove_task p (with_prio ts <$> l) = with_prio ts <$> filter (λ x, x ≠ p) l.
Proof.
  unfold remove_task. induction l as [|x l IH]; [done|]. rewrite fmap_cons, !filter_cons, IH.
  change ((with_prio ts x).1) with x. repeat case_decide; done.
Qed.

(** Every task is in the list of its priority. *)
Definition sorted_by_prio (ts : nat → task) (r : rt_rq) : Prop :=
  length (queue r) = MAX_RT_PRIO ∧ ∀ k p, p ∈ queue_at r k → prio (ts p) = Z.of_nat k.

Lemma rt_rq_ok_sorted ts c r : rt_rq_ok ts c r → sorted_by_prio ts r.
Proof. intros Hok. split; [apply Hok|]. by intros k p (-> & _)%(ok_tasks _ _ _ Hok). Qed.

(** The lists before and after that of a priority. *)
Lemma prios_before ts r k (R : Z → Prop) :
  sorted_by_prio ts r → (∀ j, (j < k)%nat → R (Z.of_nat j)) →
  Forall (λ e, R e.2) (with_prio ts <$> concat (take k (list_items <$> queue r))).
Proof.
  intros [Hlen Hok] HR. apply Forall_fmap, list.Forall_forall. intros q (j & l & Hj & Hq)%elem_of_concat.
  apply lookup_take_Some in Hj as [Hj ?]. cbn. rewrite (Hok j q); [by apply HR|].
  by rewrite queue_at_lookup, Hj.
Qed.

Lemma prios_after ts r k (R : Z → Prop) :
  sorted_by_prio ts r → (∀ j, (k <= j)%nat → R (Z.of_nat j)) →
  Forall (λ e, R e.2) (with_prio ts <$> concat (drop k (list_items <$> queue r))).
Proof.
  intros [Hlen Hok] HR. apply Forall_fmap, list.Forall_forall. intros q (j & l & Hj & Hq)%elem_of_concat.
  rewrite lookup_drop in Hj. cbn. rewrite (Hok (k + j)%nat q); [apply HR; lia|].
  by rewrite queue_at_lookup, Hj.
Qed.

Lemma prios_at ts r k (R : Z → Prop) :
  sorted_by_prio ts r → R (Z.of_nat k) → Forall (λ e, R e.2) (with_prio ts <$> queue_at r k).
Proof.
  intros [Hlen Hok] HR. apply Forall_fmap, list.Forall_forall. intros q Hq. cbn. by rewrite (Hok k q Hq).
Qed.

(** Linking a task in the list of its priority inserts it in the queue. *)
Lemma abs_link ts r r' p (head : bool) k :
  sorted_by_prio ts r → (k < MAX_RT_PRIO)%nat → prio (ts p) = Z.of_nat k →
  queue r' = alter (if head then list_add p else list_add_tail p) k (queue r) →
  with_prio ts <$> queued r' =
  (if head then insert_first else plist_insert) p (prio (ts p)) (with_prio ts <$> queued r).
Proof.
  intros Hok Hk Hp Hq. unfold queued. rewrite Hq, items_enqueue.
  assert ((list_items <$> queue r) !! k = Some (queue_at r k)) as Hl.
  { apply lookup_queue_at. by rewrite (proj1 Hok). }
  assert (with_prio ts p = (p, Z.of_nat k)) as Hw by (unfold with_prio; by rewrite Hp).
  rewrite (concat_alter _ _ _ _ Hl), (concat_split _ _ _ Hl), Hp. destruct head.
  - rewrite !fmap_app, fmap_cons, insert_first_app; [by rewrite Hw| |].
    + apply (prios_before ts r k (λ z, z < Z.of_nat k)); [done|lia].
    + apply Forall_app_2; [apply (prios_at ts r k (λ z, Z.of_nat k <= z)); [done|lia]|].
      apply (prios_after ts r (S k) (λ z, Z.of_nat k <= z)); [done|lia].
  - rewrite !fmap_app, <- !app_assoc.
    rewrite (app_assoc _ (with_prio ts <$> queue_at r k) (with_prio ts <$> concat (drop _ _))), plist_insert_app.
    + by rewrite <- app_assoc; cbn [fmap list_fmap app]; rewrite Hw.
    + apply Forall_app_2; [apply (prios_before ts r k (λ z, z <= Z.of_nat k)); [done|lia]|].
      apply (prios_at ts r k (λ z, z <= Z.of_nat k)); [done|lia].
    + apply (prios_after ts r (S k) (λ z, Z.of_nat k < z)); [done|lia].
Qed.

(** ** Entities *)

Lemma queued_cpu s c p : sys_ok s → p ∈ queued (rt_of s c) → task_cpu (tasks s p) = c.
Proof. intros [Hrq _] [k Hp]%elem_of_queued. by apply (ok_tasks _ _ _ (Hrq c)) in Hp as (_&?&_&_). Qed.

Lemma queued_index s c p :
  sys_ok s → p ∈ queued (rt_of s c) →
  ∃ k, p ∈ queue_at (rt_of s c) k ∧ (k < MAX_RT_PRIO)%nat ∧ task_fits (tasks s p) p k c.
Proof.
  intros [Hrq _] [k Hp]%elem_of_queued. exists k.
  split; [done|]. split; [by eapply deq_index|by apply (ok_tasks _ _ _ (Hrq c))].
Qed.

Lemma abs_set_ovl c b f s c' :
  abs (set_ovl c b (upd_rt c f s)) c' =
  if decide (c' = c) then with_prio (tasks s) <$> queued (f (rt_of s c)) else abs s c'.
Proof.
  unfold abs. rewrite tasks_set_ovl, rt_of_set_ovl, rt_of_upd_rt_eq. case_decide; subst; [done|].
  by rewrite rt_of_upd_rt, decide_False.
Qed.

Lemma remove_absent s c p : p ∉ queued (rt_of s c) → remove_task p (abs s c) = abs s c.
Proof. intros Hp. unfold abs. rewrite abs_filter. by rewrite filter_out_id. Qed.

(** *** Handlers as functions on the abstract queues *)

(** From [s] to [s'] the invariant is kept, the queue of each processor is changed
    by [F], and tasks keep their priorities, processors and affinities. *)
Record moves (F : nat → pqueue → pqueue) (s s' : sys) : Prop := {
  mv_ok : sys_ok s';
  mv_abs c : abs s' c = F c (abs s c);
  mv_task p : tview (tasks s' p) = tview (tasks s p);
}.

Definition same (c : nat) (l : pqueue) : pqueue := l.

Lemma moves_view s s' : sys_ok s → s' ≃ s → moves same s s'.
Proof. intros Hok Hv. split; [by rewrite Hv|intros c; by rewrite Hv|intros p; apply Hv]. Qed.

Lemma moves_refl s : sys_ok s → moves same s s.
Proof. intros. by apply moves_view. Qed.

Lemma moves_trans F G s1 s2 s3 : moves F s1 s2 → moves G s2 s3 → moves (λ c l, G c (F c l)) s1 s3.
Proof.
  intros [? Ha Ht] [? Hb Hu]. split; [done|intros c; by rewrite Hb, Ha|intros p; by rewrite Hu, Ht].
Qed.

Lemma moves_then_view F s1 s2 s3 : moves F s1 s2 → s3 ≃ s2 → moves F s1 s3.
Proof. intros Hm Hv. apply (moves_trans F same s1 s2 s3 Hm). apply moves_view; [apply Hm|done]. Qed.

Lemma view_then_moves F s1 s2 s3 : sys_ok s1 → s2 ≃ s1 → moves F s2 s3 → moves F s1 s3.
Proof. intros Hok Hv Hm. apply (moves_trans same F s1 s2 s3); [by apply moves_view|done]. Qed.

Lemma moves_ext F G s s' : (∀ c, F c (abs s c) = G c (abs s c)) → moves F s s' → moves G s s'.
Proof. intros HF [? Ha ?]. split; [done|intros c; by rewrite Ha|done]. Qed.

(** An operation that changes one queue and decides its overloaded flag. *)
Lemma moves_update c f b F s s' :
  sys_ok s → s' ≃ set_ovl c b (upd_rt c f s) → overloaded (f (rt_of s c)) = overloaded (rt_of s c) →
  rt_rq_ok (tasks s) c (set_overloaded b (f (rt_of s c))) →
  with_prio (tasks s) <$> queued (f (rt_of s c)) = F c (abs s c) → (∀ c', c' ≠ c → F c' (abs s c') = abs s c') →
  moves F s s'.
Proof.
  intros Hok Hv Hf Hrq Hc Hne. split.
  - by eapply sys_ok_update.
  - intros c'. rewrite Hv, abs_set_ovl. case_decide; subst; [done|by rewrite Hne].
  - intros p. rewrite (sv_task _ _ Hv p), tasks_set_ovl. done.
Qed.

Definition remove_all (p : nat) (c : nat) (l : pqueue) : pqueue := remove_task p l.

Definition put_on (c0 : nat) (head : bool) (p : nat) (pr : Z) (c : nat) (l : pqueue) : pqueue :=
  if decide (c = c0) then put_task head p pr l else l.

Lemma dequeue_entity_moves s p :
  sys_ok s → p ∈ queued (rt_of s (task_cpu (tasks s p))) → moves (remove_all p) s (__dequeue_rt_entity p s).
Proof.
  intros Hok Hp. destruct (queued_index _ _ _ Hok Hp) as (k & Hk & Hlt & Hf).
  eapply (moves_update _ _ _ _ _ _ Hok (dequeue_entity_view p s k (proj1 Hf))); [done| | |].
  - apply deq_ok; [apply Hok|done].
  - unfold remove_all, abs. rewrite abs_filter. f_equal. by apply queued_del.
  - intros c Hc. apply remove_absent. by intros <-%(queued_cpu _ _ _ Hok).
Qed.

Lemma dequeue_stack_moves s p : sys_ok s → moves (remove_all p) s (dequeue_rt_stack p s).
Proof.
  intros Hok. unfold dequeue_rt_stack, on_rt_rq. case_bool_decide as Hp; [by apply dequeue_entity_moves|].
  apply (moves_ext same); [|by apply moves_refl]. intros c. symmetry. apply remove_absent.
  intros Hq. apply Hp. by rewrite (queued_cpu _ _ _ Hok Hq).
Qed.

(** A task of the class with a priority of the class. *)
Definition rt_fits (s : sys) (p : nat) : Prop :=
  0 <= prio (tasks s p) < Z.of_nat MAX_RT_PRIO ∧ sched_class (tasks s p) = rt_sched_class ∧ Z.of_nat p < task_limit.

Lemma rt_fits_tview s s' p : tview (tasks s' p) = tview (tasks s p) → rt_fits s p → rt_fits s' p.
Proof. unfold tview, rt_fits. by intros [= -> _ _ ->]. Qed.

Lemma queued_abs s c : queued (rt_of s c) = fst <$> abs s c.
Proof. unfold abs. rewrite <- list_fmap_compose. symmetry. apply list_fmap_id. Qed.

Lemma link_entity_moves s p head :
  sys_ok s → rt_fits s p → p ∉ queued (rt_of s (task_cpu (tasks s p))) →
  moves (put_on (task_cpu (tasks s p)) head p (prio (tasks s p))) s (__enqueue_rt_entity p head s).
Proof.
  intros Hok (Hpr & Hcl & Hsm) Hp. set (c := task_cpu (tasks s p)) in *.
  assert (prio (tasks s p) = Z.of_nat (Z.to_nat (prio (tasks s p)))) as Hk by lia.
  assert (Z.to_nat (prio (tasks s p)) < MAX_RT_PRIO)%nat as Hlt by lia.
  eapply (moves_update _ _ _ _ _ _ Hok (enqueue_entity_view p head s _ Hk)); [done| | |]; fold c.
  - by apply enq_ok; [apply Hok|..].
  - rewrite (abs_link _ (rt_of s c) _ p head (Z.to_nat (prio (tasks s p)))); try done.
    + unfold put_on, put_task. rewrite decide_True, remove_absent by done. by destruct head.
    + eapply rt_rq_ok_sorted, Hok.
  - intros c' Hc. unfold put_on. by rewrite decide_False.
Qed.

Lemma put_removed head p pr l : put_task head p pr (remove_task p l) = put_task head p pr l.
Proof.
  unfold put_task, remove_task. by rewrite list_filter_filter_l.
Qed.

Lemma enqueue_entity_moves s p head :
  sys_ok s → rt_fits s p →
  moves (put_on (task_cpu (tasks s p)) head p (prio (tasks s p))) s (enqueue_rt_entity p head s).
Proof.
  intros Hok Hf. unfold enqueue_rt_entity. pose proof (dequeue_stack_moves s p Hok) as Hm.
  set (s1 := dequeue_rt_stack p s) in *. clearbody s1.
  pose proof (mv_task _ _ _ Hm p) as Ht. pose proof (rt_fits_tview _ _ _ Ht Hf) as Hf1.
  assert (p ∉ queued (rt_of s1 (task_cpu (tasks s1 p)))) as Hp.
  { rewrite queued_abs, (mv_abs _ _ _ Hm). unfold remove_all, remove_task.
    intros (e & -> & [He _]%list_elem_of_filter)%list_elem_of_fmap. by apply He. }
  pose proof (link_entity_moves s1 p head (mv_ok _ _ _ Hm) Hf1 Hp) as Hl.
  injection Ht as Hpr Hcpu _ _. rewrite Hpr, Hcpu in Hl.
  eapply moves_ext; [|by apply (moves_trans _ _ _ _ _ Hm Hl)].
  intros c. unfold put_on, remove_all. cbn beta. case_decide; subst; [apply put_removed|].
  apply remove_absent. intros Hq. by apply (queued_cpu _ _ _ Hok) in Hq.
Qed.

(** *** Moving within a list *)

Definition requeue_on (c0 : nat) (head : bool) (p : nat) (pr : Z) (c : nat) (l : pqueue) : pqueue :=
  if decide (c = c0 ∧ p ∈ fst <$> l) then put_task head p pr l else l.

(** The array with a task moved to an end of its list. *)
Definition moved_rq (p : nat) (head : bool) (k : nat) (r : rt_rq) : rt_rq :=
  set_active (alter (if head then list_add p else list_add_tail p) k (array_del p (queue r))) (bits r) r.

Section moved.
Context (ts : nat → task) (c : nat) (r : rt_rq) (p k : nat) (head : bool).
Hypothesis Hok : rt_rq_ok ts c r.
Hypothesis Hp : p ∈ queue_at r k.

Let mid : rt_rq := set_active (array_del p (queue r)) (bits r) r.

Lemma moved_mid_sorted : sorted_by_prio ts mid.
Proof.
  split; [cbn; unfold array_del; rewrite length_fmap; apply Hok|].
  intros j q. rewrite (queue_at_del r p mid) by done. intros [_ Hq]%list_elem_of_filter.
  by destruct (ok_tasks _ _ _ Hok j q Hq).
Qed.

Lemma moved_at j : queue_at (moved_rq p head k r) j ≡ₚ queue_at r j.
Proof.
  pose proof (deq_index ts c r p k Hok Hp) as Hk.
  rewrite (queue_at_alter (λ l, if head then p :: l else l ++ [p]) k j (list_items <$> array_del p (queue r)))
    by apply items_enqueue.
  rewrite <- (queue_at_lookup mid). rewrite (queue_at_del r p mid) by done.
  assert (k < length (list_items <$> array_del p (queue r)))%nat as Hlen.
  { rewrite length_fmap. unfold array_del. rewrite length_fmap, (ok_length _ _ _ Hok). done. }
  case_decide as Hj; [destruct Hj as [-> _]|].
  - assert (NoDup (queue_at r k)) as Hnd.
    { pose proof (ok_nodup _ _ _ Hok) as Hnd. unfold queued in Hnd.
      rewrite (concat_split k _ (queue_at r k)) in Hnd by (apply lookup_queue_at; by rewrite (ok_length _ _ _ Hok)).
      by apply list.NoDup_app in Hnd as (_ & _ & [Hnd _]%list.NoDup_app). }
    etransitivity; [|by apply (filter_out_cons p (queue_at r k))]. destruct head; [done|].
    by rewrite Permutation_app_comm.
  - rewrite filter_out_id; [done|]. intros Hq. apply Hj. split; [|done].
    apply (task_index ts c r p k Hok (deq_fits ts c r p k Hok Hp)); done.
Qed.

Lemma moved_abs :
  with_prio ts <$> queued (moved_rq p head k r) = put_task head p (prio (ts p)) (with_prio ts <$> queued r).
Proof.
  pose proof (deq_fits ts c r p k Hok Hp) as (Hpr & _).
  rewrite (abs_link ts mid (moved_rq p head k r) p head k); [|apply moved_mid_sorted|by eapply deq_index|done..].
  unfold put_task. rewrite abs_filter, (queued_del r p mid) by done. by destruct head.
Qed.

Lemma moved_perm : queued (moved_rq p head k r) ≡ₚ queued r.
Proof.
  pose proof (deq_index ts c r p k Hok Hp) as Hk.
  assert (k < length (list_items <$> array_del p (queue r)))%nat as Hlen.
  { rewrite length_fmap. unfold array_del. rewrite length_fmap, (ok_length _ _ _ Hok). done. }
  rewrite (queued_enqueue p head k (list_items <$> array_del p (queue r)) _) by (done || apply items_enqueue).
  change (concat (list_items <$> array_del p (queue r))) with (queued mid).
  rewrite (queued_del r p mid) by done. apply filter_out_cons; [apply Hok|]. apply elem_of_queued. eauto.
Qed.

Lemma moved_ok : rt_rq_ok ts c (moved_rq p head k r).
Proof.
  destruct Hok as [Hlen Hd Hb Ht Hnd Hrun Htot Hmig Hhi Ho].
  split; try done.
  - cbn. unfold array_del. by rewrite length_alter, length_fmap.
  - intros j Hj. change (bits (moved_rq p head k r)) with (bits r). rewrite Hb by done. f_equal.
    apply bool_decide_ext. pose proof (moved_at j) as Hm.
    split; intros E; rewrite E in Hm; [by apply Permutation_nil_r in Hm|by symmetry in Hm; apply Permutation_nil_r in Hm].
  - intros j q. rewrite (moved_at j). apply Ht.
  - by rewrite moved_perm.
  - by rewrite moved_perm.
  - by rewrite moved_perm.
  - by rewrite moved_perm.
Qed.

End moved.

Lemma requeue_entity_moves s p head :
  sys_ok s → moves (requeue_on (task_cpu (tasks s p)) head p (prio (tasks s p))) s (requeue_rt_entity p head s).
Proof.
  intros Hok. unfold requeue_rt_entity, on_rt_rq. set (c := task_cpu (tasks s p)).
  case_bool_decide as Hp.
  - destruct (queued_index _ _ _ Hok Hp) as (k & Hk & _ & Hf).
    assert (prio_index s p = k) as -> by (unfold prio_index; destruct Hf; lia).
    change (upd_rt c _ s) with (upd_rt c (moved_rq p head k) s).
    assert (rt_rq_ok (tasks s) c (moved_rq p head k (rt_of s c))) as Hmv by (by apply moved_ok; [apply Hok|]).
    split; [by apply sys_ok_upd_rt| |done].
    intros c'. unfold abs at 1. change (tasks (upd_rt _ _ _)) with (tasks s). rewrite rt_of_upd_rt.
    unfold requeue_on. destruct (decide (c' = c)) as [->|Hne].
    + rewrite decide_True; [eapply moved_abs; [apply Hok|done]|]. by rewrite <- queued_abs.
    + rewrite decide_False; [done|naive_solver].
  - apply (moves_ext same); [|by apply moves_refl]. intros c'. unfold requeue_on, same.
    rewrite <- queued_abs, decide_False; [done|]. by intros [-> ?].
Qed.

(** *** Who is in the queues *)

Lemma insert_members p pr q (l : pqueue) :
  (q ∈ fst <$> plist_insert p pr l ↔ q = p ∨ q ∈ fst <$> l) ∧ (q ∈ fst <$> insert_first p pr l ↔ q = p ∨ q ∈ fst <$> l).
Proof. induction l as [|[r rr] l [IH1 IH2]]; cbn; [set_solver|]. repeat case_decide; cbn; set_solver. Qed.

Lemma remove_members p q (l : pqueue) : q ∈ fst <$> remove_task p l ↔ q ≠ p ∧ q ∈ fst <$> l.
Proof.
  unfold remove_task. rewrite !list_elem_of_fmap. setoid_rewrite list_elem_of_filter. naive_solver.
Qed.

Lemma put_members head p pr q (l : pqueue) : q ∈ fst <$> put_task head p pr l ↔ q = p ∨ q ∈ fst <$> l.
Proof.
  unfold put_task. destruct (insert_members p pr q (remove_task p l)) as [H1' H2'].
  destruct head; rewrite ?H1', ?H2', remove_members; destruct (decide (q = p)); naive_solver.
Qed.

(** An operation that leaves every task in its queue. *)
Record rearranges (s s' : sys) : Prop := {
  ra_ok : sys_ok s';
  ra_members c q : q ∈ queued (rt_of s' c) ↔ q ∈ queued (rt_of s c);
  ra_task p : tview (tasks s' p) = tview (tasks s p);
}.

Lemma rearranges_view s s' : sys_ok s → s' ≃ s → rearranges s s'.
Proof.
  intros Hok Hv. split; [by rewrite Hv| |intros p; apply Hv].
  intros c q. by rewrite !queued_abs, Hv.
Qed.

Lemma rearranges_trans s1 s2 s3 : rearranges s1 s2 → rearranges s2 s3 → rearranges s1 s3.
Proof. intros [? E1 E2] [? F1 F2]. split; [done|intros c q; by rewrite F1|intros p; by rewrite F2]. Qed.

Lemma requeue_rearranges s p head : sys_ok s → rearranges s (requeue_rt_entity p head s).
Proof.
  intros Hok. destruct (requeue_entity_moves s p head Hok) as [Hok' Ha Ht]. split; [done| |done].
  intros c q. rewrite !queued_abs, Ha. unfold requeue_on. case_decide as Hc; [|done]. destruct Hc as [_ Hp].
  rewrite put_members. naive_solver.
Qed.

End ops.
