(* ===== verification/RtHandlers.v ===== *)
(** * The handlers of the class on one queue (sched_rt.c,
      src/indwriterups/project1)

    What enqueueing, dequeueing, yielding, choosing, the tick and changing the
    affinity of a task do to the queues. *)

From S2P Require Import Prelude RtState RtBandwidth RtQueue RtView RtInv RtEnqueue RtOps.

Local Open Scope Z_scope.

Section handlers.
Context `{RtEnv} `{!KernelLibSpec}.

(** ** Handlers that change no queue *)

Lemma enqueue_pushable_view c p s : enqueue_pushable_task c p s ≃ s.
Proof. unfold enqueue_pushable_task. view_solve. Qed.

Lemma dequeue_pushable_view c p s : dequeue_pushable_task c p s ≃ s.
Proof. unfold dequeue_pushable_task. view_solve. Qed.

Lemma put_prev_view c p s : put_prev_task_rt c p s ≃ s.
Proof.
  unfold put_prev_task_rt. set (s1 := upd_task p _ _).
  assert (s1 ≃ s) as Hv by (unfold s1; view_solve; apply update_curr_view).
  clearbody s1. case_match; [etransitivity; [apply enqueue_pushable_view|]|]; done.
Qed.

Lemma set_curr_view c s : set_curr_task_rt c s ≃ s.
Proof. unfold set_curr_task_rt. etransitivity; [apply dequeue_pushable_view|]. view_solve. Qed.

Lemma watchdog_view p s : watchdog p s ≃ s.
Proof. unfold watchdog. case_decide; [done|]. view_solve. Qed.

Lemma rq_enqueue_view c s : sched_rt_rq_enqueue c s ≃ s.
Proof. unfold sched_rt_rq_enqueue. case_decide; [apply sv_resched|done]. Qed.

Lemma period_cpu_view overrun i s : snd (period_cpu overrun i s) ≃ s.
Proof.
  unfold period_cpu. cbv zeta. case_decide.
  - set (s1 := if rt_throttled _ then _ else _).
    assert (s1 ≃ s) as Hv by (unfold s1; case_match; [apply balance_runtime_view|done]). clearbody s1.
    cbn [snd]. set (s2 := upd_rt i _ s1). assert (s2 ≃ s) as Hv2 by (unfold s2; view_solve; done). clearbody s2.
    set (s3 := if _ && _ && _ then _ else _).
    assert (s3 ≃ s) as Hv3 by (unfold s3; case_match; [view_solve; exact Hv2|done]). clearbody s3.
    case_match; [etransitivity; [apply rq_enqueue_view|]|]; done.
  - case_decide; cbn; [|done]. case_match; [done|apply rq_enqueue_view].
Qed.

Lemma period_loop_view overrun cpus idle s : snd (period_loop overrun cpus idle s) ≃ s.
Proof.
  revert idle s. induction cpus as [|i cpus IH]; intros idle s; cbn; [done|].
  pose proof (period_cpu_view overrun i s) as Hv. destruct (period_cpu overrun i s) as [b s1].
  etransitivity; [apply IH|exact Hv].
Qed.

Lemma period_timer_view overrun s : snd (do_sched_rt_period_timer overrun s) ≃ s.
Proof. unfold do_sched_rt_period_timer. case_match; [done|apply period_loop_view]. Qed.

(** ** Tasks *)

Lemma enqueue_task_moves c p wakeup head s :
  sys_ok s → rt_fits s p →
  moves (put_on (task_cpu (tasks s p)) head p (prio (tasks s p))) s (enqueue_task_rt c p wakeup head s).
Proof.
  intros Hok Hf. unfold enqueue_task_rt.
  set (s1 := if wakeup then _ else s). assert (s1 ≃ s) as Hv by (unfold s1; view_solve). clearbody s1.
  assert (sys_ok s1) as Hok1 by by rewrite Hv.
  pose proof (sv_task _ _ Hv p) as Ht. pose proof (enqueue_entity_moves s1 p head Hok1 (rt_fits_tview _ _ _ Ht Hf)) as Hm.
  injection Ht as Hpr Hcpu _ _. rewrite Hpr, Hcpu in Hm.
  eapply moves_then_view; [by eapply view_then_moves|].
  case_match; [apply enqueue_pushable_view|done].
Qed.

Lemma dequeue_task_moves c p s : sys_ok s → moves (remove_all p) s (dequeue_task_rt c p s).
Proof.
  intros Hok. unfold dequeue_task_rt, dequeue_rt_entity.
  pose proof (update_curr_view c s) as Hv. eapply moves_then_view; [|apply dequeue_pushable_view].
  eapply view_then_moves; [done|exact Hv|]. apply dequeue_stack_moves. by rewrite Hv.
Qed.

Lemma yield_moves c s :
  sys_ok s → let p := curr (rqs s c) in
  moves (requeue_on (task_cpu (tasks s p)) false p (prio (tasks s p))) s (yield_task_rt c s).
Proof. intros Hok p. by apply requeue_entity_moves. Qed.

Lemma check_preempt_rearranges c p s : sys_ok s → rearranges s (check_preempt_curr_rt c p s).
Proof.
  intros Hok. unfold check_preempt_curr_rt, check_preempt_equal_prio.
  repeat (case_decide || case_match); try (apply rearranges_view; [done|]; (reflexivity || apply sv_resched)).
  pose proof (requeue_rearranges s p true Hok) as Hr. eapply rearranges_trans; [exact Hr|].
  apply rearranges_view; [apply Hr|apply sv_resched].
Qed.

(** ** Choosing *)

(** The first bit leads to the head of the queue, and nowhere when it is empty. *)
Lemma pick_entity_head s c : sys_ok s → pick_next_rt_entity s c = head (queued (rt_of s c)).
Proof.
  intros [Hrq _]. specialize (Hrq c). unfold pick_next_rt_entity. set (r := rt_of s c) in *.
  destruct (first_bit_delimited (bits r) (ok_delimiter _ _ _ Hrq)) as (Hle & Hset & Hlow).
  assert (∀ j, (j < sched_find_first_bit (bits r))%nat → queue_at r j = []) as Hempty.
  { intros j Hj. pose proof (Hlow j Hj) as Hb. rewrite (ok_bits _ _ _ Hrq) in Hb by lia.
    by apply negb_false_iff, bool_decide_eq_true_1 in Hb. }
  case_decide as Hidx.
  - assert (queued r = []) as ->; [|done]. destruct (queued r) as [|p l] eqn:E; [done|].
    assert (p ∈ queued r) as Hp by (rewrite E; set_solver). apply elem_of_queued in Hp as [j Hj].
    pose proof (deq_index _ _ _ _ _ Hrq Hj). rewrite Hempty in Hj by lia. set_solver.
  - assert (sched_find_first_bit (bits r) < MAX_RT_PRIO)%nat as Hlt by lia.
    rewrite (ok_bits _ _ _ Hrq) in Hset by done. apply negb_true_iff, bool_decide_eq_false_1 in Hset.
    symmetry. unfold queued. eapply head_concat; [|exact Hset|].
    + apply lookup_queue_at. by rewrite (ok_length _ _ _ Hrq).
    + intros j l Hj Hl. rewrite <- (Hempty j) by lia. by rewrite queue_at_lookup, Hl.
Qed.

Lemma running_zero s c : sys_ok s → rt_nr_running (rt_of s c) = 0 ↔ queued (rt_of s c) = [].
Proof.
  intros [Hrq _]. rewrite (ok_running _ _ _ (Hrq c)). destruct (queued (rt_of s c)); cbn; split; (done || lia).
Qed.

(** What the class chooses. *)
Definition chosen (s : sys) (c : nat) : option nat :=
  if rt_throttled (rt_of s c) then None else head (queued (rt_of s c)).

Lemma pick_task_spec s c :
  sys_ok s → ∃ s', pick_next_task_rt c s = Some (chosen s c, s') ∧ s' ≃ s.
Proof.
  intros Hok. unfold pick_next_task_rt, _pick_next_task_rt, rt_rq_throttled, chosen.
  rewrite pick_entity_head by done. pose proof (running_zero s c Hok) as Hz.
  assert (∀ s1, s1 ≃ s → upd_rq c (set_post_schedule (has_pushable_tasks s1 c)) s1 ≃ s) as Hpost.
  { intros s1 Hv. by rewrite sv_post. }
  case_decide as Hn.
  - apply Hz in Hn as ->. cbn. eexists. split; [|by apply Hpost]. by case_match.
  - destruct (rt_throttled (rt_of s c)); [eexists; split; [reflexivity|by apply Hpost]|].
    destruct (queued (rt_of s c)) as [|p l] eqn:E; [by destruct Hn; apply Hz|]. cbn [head].
    eexists. split; [reflexivity|]. apply Hpost. etransitivity; [apply dequeue_pushable_view|apply sv_exec].
Qed.

(** ** The tick *)

Lemma update_curr_task_view c s p : tview (tasks (update_curr_rt c s) p) = tview (tasks s p).
Proof. apply sv_task, update_curr_view. Qed.

Lemma tick_rearranges c p s : sys_ok s → rearranges s (task_tick_rt c p s).
Proof.
  intros Hok. unfold task_tick_rt. set (s1 := watchdog p _).
  assert (s1 ≃ s) as Hv1 by (unfold s1; by rewrite watchdog_view, update_curr_view). clearbody s1. cbv zeta.
  case_decide; [by apply rearranges_view|]. set (s2 := upd_task p (set_time_slice _) s1).
  assert (s2 ≃ s) as Hv2 by (unfold s2; by rewrite sv_slice). clearbody s2.
  case_decide; [by apply rearranges_view|]. set (s3 := upd_task p _ s2).
  assert (s3 ≃ s) as Hv3 by (unfold s3; by rewrite sv_slice). clearbody s3.
  case_match; [|by apply rearranges_view]. pose proof (rearranges_view _ _ Hok Hv3) as H3'.
  pose proof (requeue_rearranges s3 p false (ra_ok _ _ H3')) as Hr. eapply rearranges_trans; [exact H3'|].
  eapply rearranges_trans; [exact Hr|]. apply rearranges_view; [apply Hr|apply sv_need].
Qed.

(** ** Affinity *)

Definition mig_of (weight : Z) : Z := if decide (1 < weight) then 1 else 0.

Lemma mig_affinity w m t : mig (set_affinity w m t) = mig_of w.
Proof. done. Qed.

Lemma mig_filter_upd ts p t l :
  NoDup l → p ∈ l →
  Z.of_nat (length (filter (can_migrate (<[p:=t]> ts)) l)) =
  Z.of_nat (length (filter (can_migrate ts) l)) + mig t - mig (ts p).
Proof.
  intros Hnd Hp. pose proof (filter_out_cons p l Hnd Hp) as Hperm. rewrite <- Hperm, !mig_filter.
  rewrite fn_lookup_insert.
  rewrite (filter_iff_in (can_migrate (<[p:=t]> ts)) (can_migrate ts) (filter (λ x, x ≠ p) l)); [lia|].
  intros q [Hq _]%list_elem_of_filter. unfold can_migrate. by rewrite fn_lookup_insert_ne.
Qed.

Lemma affinity_rq_ok ts c r p w m :
  rt_rq_ok ts c r → p ∈ queued r →
  let r' := add_migration (mig_of w - mig (ts p)) 0 r in
  rt_rq_ok (<[p:=set_affinity w m (ts p)]> ts) c (set_overloaded (migration_bit r') r').
Proof.
  intros Hok Hp r'. destruct (rq_bound _ _ _ _ Hok (reflexivity _)) as [Hb _].
  pose proof (mig_filter_upd ts p (set_affinity w m (ts p)) (queued r) (ok_nodup _ _ _ Hok) Hp) as Hm.
  rewrite mig_affinity in Hm.
  pose proof (length_filter (can_migrate (<[p:=set_affinity w m (ts p)]> ts)) (queued r)).
  assert (task_limit < 2 ^ 64) by done. destruct Hok as [Hlen Hd Hbits Ht Hnd Hrun Htot Hmig Hhi _].
  split; try done.
  - intros k q Hq. specialize (Ht k q Hq). destruct (decide (q = p)) as [->|];
      [by rewrite fn_lookup_insert|by rewrite fn_lookup_insert_ne].
  - change (u64 (rt_nr_total r + 0) = Z.of_nat (length (queued r))). rewrite Htot, wrap_u_small; lia.
  - change (u64 (rt_nr_migratory r + (mig_of w - mig (ts p))) =
      Z.of_nat (length (filter (can_migrate (<[p:=set_affinity w m (ts p)]> ts)) (queued r)))).
    rewrite Hmig, wrap_u_small; lia.
Qed.

(** The queue of the task after its migratory count was adjusted. *)
Lemma affinity_view p w m s :
  sys_ok s → p ∈ queued (rt_of s (task_cpu (tasks s p))) →
  let c := task_cpu (tasks s p) in
  let f := add_migration (mig_of w - mig (tasks s p)) 0 in
  ∀ s', s' ≃ set_ovl c (migration_bit (f (rt_of s c))) (upd_rt c f s) →
  sys_ok (upd_task p (set_affinity w m) s') ∧ ∀ c', queued (rt_of s' c') = queued (rt_of s c').
Proof.
  intros Hok Hp c f s' Hv. split.
  - assert (upd_task p (set_affinity w m) s' ≃
      upd_task p (set_affinity w m) (set_ovl c (migration_bit (f (rt_of s c))) (upd_rt c f s))) as ->.
    { destruct Hv as [E1 E2 E3 E4]. split; [done| |done|done]. intros q. rewrite !tasks_upd_task.
      case_decide; [|done]. specialize (E2 p). unfold tview, set_affinity in *. cbn [prio task_cpu nr_cpus_allowed sched_class] in *. congruence. }
    split; [|apply mask_ok_set_ovl, mask_ok_upd_rt; [done|apply Hok]].
    intros c'. change (rt_of (upd_task _ _ ?x) c') with (rt_of x c'). cbn [tasks upd_task].
    rewrite tasks_set_ovl, rt_of_set_ovl, rt_of_upd_rt_eq, rt_of_upd_rt. cbn [tasks upd_rt upd_rq].
    case_decide; [subst; by apply affinity_rq_ok; [apply Hok|]|].
    apply rt_rq_ok_other; [|apply Hok]. by intros <-%(queued_cpu _ _ _ Hok).
  - intros c'. assert (queued (rt_of s' c') = queued (rt_of (set_ovl c (migration_bit (f (rt_of s c))) (upd_rt c f s)) c')) as ->.
    { unfold queued. by injection (sv_rt _ _ Hv c') as -> _ _ _ _ _ _. }
    rewrite rt_of_set_ovl, rt_of_upd_rt_eq, rt_of_upd_rt. by case_decide; subst.
Qed.

(** Being on the run queue means being in the list of one's priority. *)
Definition on_rq_queued (s : sys) (p : nat) : Prop :=
  if on_rq (tasks s p) then p ∈ queued (rt_of s (task_cpu (tasks s p))) else ∀ c, p ∉ queued (rt_of s c).

Lemma mig_le t : mig t = if decide (nr_cpus_allowed t <= 1) then 0 else 1.
Proof. unfold mig. repeat case_decide; lia. Qed.

#[export] Instance update_migration_proper c : Proper (seq_view ==> seq_view) (update_rt_migration c).
Proof.
  intros s s' Hv. rewrite !update_rt_migration_view, (migration_bit_req _ _ (sv_rt _ _ Hv c)). by apply set_ovl_proper.
Qed.

Lemma set_ovl_of_update c f s s1 :
  s1 ≃ s → Proper (req ==> req) f →
  update_rt_migration c (upd_rt c f s1) ≃ set_ovl c (migration_bit (f (rt_of s c))) (upd_rt c f s).
Proof.
  intros Hv Hf. rewrite update_migration_view. apply set_ovl_upd_view. by apply upd_rt_proper.
Qed.

(** Changing the affinity of a task of the class succeeds, keeps the invariant
    and leaves every queue as it was. *)
Theorem set_cpus_allowed_keeps p m s :
  sys_ok s → on_rq_queued s p → rt_task (tasks s p) = true →
  ∃ s', set_cpus_allowed_rt p m s = Some s' ∧ sys_ok s' ∧ ∀ c, queued (rt_of s' c) = queued (rt_of s c).
Proof.
  intros Hok Hq Hrt. unfold set_cpus_allowed_rt. rewrite Hrt. cbv zeta. set (w := Z.of_nat (size m)).
  set (c := task_cpu (tasks s p)) in *. unfold on_rq_queued in Hq. fold c in Hq.
  destruct (on_rq (tasks s p)); cbn [andb].
  2: { eexists. split; [reflexivity|]. split; [by apply sys_ok_upd_task|done]. }
  case_bool_decide as Hw; cbn [negb].
  { eexists. split; [reflexivity|]. assert (upd_task p (set_affinity w m) s ≃ s) as Hv.
    { split; [done| |done|done]. intros q. rewrite tasks_upd_task. case_decide as Hqp; [|done].
      subst q. unfold tview, set_affinity; cbn [prio task_cpu nr_cpus_allowed sched_class]. by rewrite <- Hw. }
    split; [by rewrite Hv|done]. }
  set (s1 := if task_current s c p then s else _).
  assert (s1 ≃ s) as Hv.
  { unfold s1. case_match; [done|]. repeat case_decide; rewrite ?enqueue_pushable_view, ?dequeue_pushable_view; done. }
  clearbody s1. pose proof (affinity_view p w m s Hok Hq) as Hfin. cbv zeta in Hfin. fold c in Hfin.
  assert (mig_of w - mig (tasks s p) = (if decide (1 < w) then 1 else 0) - (if decide (nr_cpus_allowed (tasks s p) <= 1) then 0 else 1)) as Hd
    by (by rewrite mig_le).
  assert (∀ x, upd_rt c (λ r, set_migration (u64 (rt_nr_migratory r + x)) (rt_nr_total r) r) s1 ≃
               upd_rt c (add_migration x 0) s1) as Hadd.
  { intros x. apply upd_rt_ext. unfold req, add_migration, rview; cbn. do 3 f_equal.
    pose proof (sv_rt _ _ Hv c) as [= _ _ _ _ _ Htot _]. rewrite Htot, (ok_total _ _ _ (proj1 Hok c)), Z.add_0_r.
    destruct (rq_bound _ _ _ _ (proj1 Hok c) (reflexivity _)) as [Hb _].
    assert (task_limit < 2 ^ 64) by done. rewrite wrap_u_small; lia. }
  assert (∀ s', s' ≃ set_ovl c (migration_bit (add_migration (mig_of w - mig (tasks s p)) 0 (rt_of s c)))
                      (upd_rt c (add_migration (mig_of w - mig (tasks s p)) 0) s) →
    ∃ s2, Some (upd_task p (set_affinity w m) s') = Some s2 ∧ sys_ok s2 ∧
    ∀ c', queued (rt_of s2 c') = queued (rt_of s c')) as Hgo.
  { intros s' [? ?]%Hfin. eexists. by split. }
  clear Hfin. rename Hgo into Hfin.
  destruct (decide (nr_cpus_allowed (tasks s p) <= 1 ∧ 1 < w)) as [Hup|Hup];
    [|destruct (decide (1 < nr_cpus_allowed (tasks s p) ∧ w <= 1)) as [Hdown|Hdown]].
  - apply Hfin.
    replace (mig_of w - mig (tasks s p)) with 1 by (rewrite Hd, !decide_True by tauto; lia). rewrite (Hadd 1).
    by apply set_ovl_of_update; [|apply _].
  - assert (rt_nr_migratory (rt_of s1 c) = rt_nr_migratory (rt_of s c)) as -> by by injection (sv_rt _ _ Hv c).
    rewrite decide_False.
    2: { rewrite (ok_migratory _ _ _ (proj1 Hok c)), <- (filter_out_cons p _ (ok_nodup _ _ _ (proj1 Hok c)) Hq), mig_filter.
         unfold mig. rewrite decide_True by tauto. lia. }
    apply Hfin.
    replace (mig_of w - mig (tasks s p)) with (-1) by (rewrite Hd, !decide_False by lia; lia).
    change (λ r, set_migration (u64 (rt_nr_migratory r - 1)) (rt_nr_total r) r)
      with (λ r, set_migration (u64 (rt_nr_migratory r + -1)) (rt_nr_total r) r).
    rewrite (Hadd (-1)). by apply set_ovl_of_update; [|apply _].
  - apply Hfin.
    assert (s1 ≃ upd_rt c (add_migration 0 0) s1) as Hz.
    { rewrite <- (Hadd 0). symmetry. apply sv_upd_rt_here.
      pose proof (sv_rt _ _ Hv c) as [= _ _ _ _ Hmig _ _]. rewrite Z.add_0_r, Hmig, (ok_migratory _ _ _ (proj1 Hok c)).
      destruct (rq_bound _ _ _ _ (proj1 Hok c) (reflexivity _)) as [_ Hb].
      assert (task_limit < 2 ^ 64) by done. rewrite wrap_u_small by lia.
      rewrite <- (ok_migratory _ _ _ (proj1 Hok c)), <- Hmig. by destruct (rt_of s1 c). }
    replace (mig_of w - mig (tasks s p)) with 0 by (rewrite Hd; repeat case_decide; lia).
    rewrite Hz at 1. by apply set_ovl_of_update; [|apply _].
Qed.

End handlers.
