(* ===== verification/RtSpec.v ===== *)
(** * The run queue as a priority queue (sched_rt.c, src/indwriterups/project1)

    The bitmap search is a linear search for the most urgent task; sequences of
    queue operations are sequences of operations on abstract priority queues;
    enqueueing and dequeueing a task cancel out; the tick shares a processor
    between the round-robin tasks of a priority. *)

From S2P Require Import Prelude RtState RtBandwidth RtQueue RtView RtInv RtEnqueue RtOps RtHandlers.

Local Open Scope Z_scope.

(** The first of the tasks with the least priority value. *)
Fixpoint most_urgent (l : pqueue) : option (nat * Z) :=
  match l with
  | [] => None
  | (p, pr) :: l' =>
      match most_urgent l' with
      | Some (q, qr) => if decide (qr < pr) then Some (q, qr) else Some (p, pr)
      | None => Some (p, pr)
      end
  end.

Lemma most_urgent_elem l e : most_urgent l = Some e → e ∈ l.
Proof.
  revert e. induction l as [|[p pr] l IH]; intros e; cbn; [done|].
  destruct (most_urgent l) as [[q qr]|]; [|by intros [= <-]; constructor].
  case_decide; intros [= <-]; [right; by apply IH|by constructor].
Qed.

Lemma most_urgent_sorted l : StronglySorted (λ a b : nat * Z, a.2 <= b.2) l → most_urgent l = head l.
Proof.
  destruct 1 as [|[p pr] l Hs Hall]; cbn; [done|].
  destruct (most_urgent l) as [[q qr]|] eqn:E; [|done]. apply most_urgent_elem in E.
  rewrite list.Forall_forall in Hall. apply Hall in E. cbn in E. by rewrite decide_False by lia.
Qed.

Lemma remove_cons p q qr l :
  remove_task p ((q, qr) :: l) = if decide (q = p) then remove_task p l else (q, qr) :: remove_task p l.
Proof.
  unfold remove_task. rewrite filter_cons. change ((q, qr).1) with q.
  destruct (decide (q = p)) as [->|]; [by rewrite decide_False by naive_solver|by rewrite decide_True].
Qed.

Lemma remove_put head p pr l : remove_task p (put_task head p pr l) = remove_task p l.
Proof.
  assert (∀ l, remove_task p (insert_first p pr l) = remove_task p l) as H1.
  { clear l. induction l as [|[q qr] l IH]; cbn [insert_first]; [by rewrite remove_cons, decide_True|].
    case_decide; rewrite !remove_cons, ?IH; by rewrite ?decide_True by done. }
  assert (∀ l, remove_task p (plist_insert p pr l) = remove_task p l) as H2.
  { clear l. induction l as [|[q qr] l IH]; cbn [plist_insert]; [by rewrite remove_cons, decide_True|].
    case_decide; rewrite !remove_cons, ?IH; by rewrite ?decide_True by done. }
  assert (remove_task p (remove_task p l) = remove_task p l) as H3 by (unfold remove_task; by rewrite list_filter_filter_l).
  destruct head; cbn [put_task]; [rewrite H1|rewrite H2]; exact H3.
Qed.

(** ** Queue operations *)

Inductive q_op :=
  | q_enqueue (c p : nat) (wakeup head : bool)
  | q_dequeue (c p : nat)
  | q_requeue (p : nat) (head : bool)
  | q_put_prev (c p : nat)
  | q_set_curr (c : nat)
  | q_account (c : nat).

Section spec.
Context `{RtEnv} `{!KernelLibSpec}.

Definition q_exec (o : q_op) (s : sys) : sys :=
  match o with
  | q_enqueue c p w h => enqueue_task_rt c p w h s
  | q_dequeue c p => dequeue_task_rt c p s
  | q_requeue p h => requeue_task_rt p h s
  | q_put_prev c p => put_prev_task_rt c p s
  | q_set_curr c => set_curr_task_rt c s
  | q_account c => update_curr_rt c s
  end.

(** What an operation does to the abstract queue of processor [c], given the
    tasks. *)
Definition q_spec (ts : nat → task) (c : nat) (o : q_op) (l : pqueue) : pqueue :=
  match o with
  | q_enqueue _ p _ h => if decide (task_cpu (ts p) = c) then put_task h p (prio (ts p)) l else l
  | q_dequeue _ p => remove_task p l
  | q_requeue p h =>
      if decide (task_cpu (ts p) = c ∧ p ∈ fst <$> l) then put_task h p (prio (ts p)) l else l
  | _ => l
  end.

Definition op_fits (s : sys) (o : q_op) : Prop :=
  match o with q_enqueue _ p _ _ => rt_fits s p | _ => True end.

Definition exec_all (os : list q_op) (s : sys) : sys := foldl (λ s o, q_exec o s) s os.

Definition spec_all (ts : nat → task) (c : nat) (os : list q_op) (l : pqueue) : pqueue :=
  foldl (λ l o, q_spec ts c o l) l os.

(** One processor after a slice of its first task: the ticks of the slice. *)
Definition rr_turn (c : nat) (s : sys) : sys :=
  match head (queued (rt_of s c)) with
  | Some p => Nat.iter (Z.to_nat (time_slice (tasks s p))) (task_tick_rt c p) s
  | None => s
  end.

(** ** Choosing *)

Lemma queued_sorted ts r :
  sorted_by_prio ts r → StronglySorted (λ a b, a.2 <= b.2) (with_prio ts <$> queued r).
Proof.
  intros [Hlen Hs]. unfold queued.
  assert (∀ k qs, (∀ j p l, qs !! j = Some l → p ∈ l → prio (ts p) = Z.of_nat (k + j)) →
    StronglySorted (λ a b, a.2 <= b.2) (with_prio ts <$> concat qs)) as Hgen.
  { intros k qs. revert k. induction qs as [|l qs IH]; intros k Hq; cbn; [constructor|].
    rewrite fmap_app. apply StronglySorted_app_2.
    - intros a b (q & -> & Hqa)%list_elem_of_fmap (q' & -> & Hqb)%list_elem_of_fmap. cbn.
      apply elem_of_concat in Hqb as (j & l' & Hj & Hqb).
      rewrite (Hq 0%nat q l), (Hq (S j) q' l') by done. lia.
    - assert (∀ q, q ∈ l → prio (ts q) = Z.of_nat (k + 0)) as Hl by (intros; by eapply (Hq 0%nat)).
      clear -Hl. induction l as [|x l IH]; cbn; constructor; [apply IH; set_solver|].
      apply Forall_fmap, list.Forall_forall. intros y Hy. cbn. rewrite !Hl by set_solver. done.
    - apply (IH (S k)). intros j p l' Hj Hp. rewrite (Hq (S j) p l') by done. lia. }
  apply (Hgen 0%nat). intros j p l Hj Hp. cbn. apply Hs. by rewrite queue_at_lookup, Hj.
Qed.

(** C3: choosing through the bitmap is the linear search for the least priority,
    among equals the one that came first; it is never at an end it may not be. *)
Theorem pick_is_most_urgent s c :
  sys_ok s → rt_throttled (rt_of s c) = false →
  fst <$> pick_next_task_rt c s = Some (fst <$> most_urgent (abs s c)).
Proof.
  intros Hok Ht. destruct (pick_task_spec s c Hok) as (s' & -> & _). cbn. f_equal. unfold chosen. rewrite Ht.
  rewrite most_urgent_sorted by (eapply queued_sorted, rt_rq_ok_sorted, Hok).
  unfold abs. by destruct (queued (rt_of s c)).
Qed.

(** ** Refinement *)

Lemma q_exec_moves o s :
  sys_ok s → op_fits s o → moves (λ c, q_spec (tasks s) c o) s (q_exec o s).
Proof.
  intros Hok Hf. destruct o as [c p w h|c p|p h|c p|c|c]; cbn [q_exec].
  - eapply moves_ext; [|by apply enqueue_task_moves]. intros c'. unfold put_on. cbn.
    by repeat case_decide; try congruence.
  - eapply moves_ext; [|by apply dequeue_task_moves]. done.
  - eapply moves_ext; [|by apply requeue_entity_moves]. intros c'. unfold requeue_on. cbn.
    repeat case_decide; try done; naive_solver.
  - apply (moves_ext same); [done|]. apply moves_view; [done|apply put_prev_view].
  - apply (moves_ext same); [done|]. apply moves_view; [done|apply set_curr_view].
  - apply (moves_ext same); [done|]. apply moves_view; [done|apply update_curr_view].
Qed.

Lemma q_spec_tview ts ts' c o l : (∀ p, tview (ts' p) = tview (ts p)) → q_spec ts' c o l = q_spec ts c o l.
Proof. intros Ht. destruct o; cbn; try done; by injection (Ht p) as -> -> _ _. Qed.

(** C2: any sequence of queue operations keeps the run queues well formed and does to
    them what the same operations do to priority queues. *)
Theorem queues_refine os s :
  sys_ok s → Forall (op_fits s) os →
  sys_ok (exec_all os s) ∧ ∀ c, abs (exec_all os s) c = spec_all (tasks s) c os (abs s c).
Proof.
  unfold exec_all, spec_all. revert s. induction os as [|o os IH]; intros s Hok Hf; cbn; [done|].
  apply list.Forall_cons in Hf as [Ho Hf]. pose proof (q_exec_moves o s Hok Ho) as [Hok1 Habs Ht].
  assert (Forall (op_fits (q_exec o s)) os) as Hf1.
  { eapply list.Forall_impl; [exact Hf|]. intros []; cbn; try done. apply rt_fits_tview, Ht. }
  destruct (IH _ Hok1 Hf1) as [Hok2 Hall]. split; [done|]. intros c. rewrite Hall, Habs.
  clear -Ht. generalize (q_spec (tasks s) c o (abs s c)). induction os as [|o' os IH]; intros l; cbn; [done|].
  by rewrite IH, (q_spec_tview _ _ c o' l Ht).
Qed.

(** ** Round trip *)

Lemma at_nonempty ts c r k :
  rt_rq_ok ts c r → queue_at r k ≠ [] ↔ ∃ p, p ∈ queued r ∧ prio (ts p) = Z.of_nat k.
Proof.
  intros Hok. split.
  - destruct (queue_at r k) as [|p l] eqn:E; [done|]. intros _. exists p.
    assert (p ∈ queue_at r k) as Hp by (rewrite E; set_solver).
    split; [apply elem_of_queued; eauto|]. by apply (ok_tasks _ _ _ Hok) in Hp as [].
  - intros (p & [j Hp]%elem_of_queued & Hk). pose proof Hp as [Hj _]%(ok_tasks _ _ _ Hok).
    assert (j = k) as -> by lia. intros E. rewrite E in Hp. set_solver.
Qed.

(** The lists determine the rest of a well-formed queue. *)
Record same_counts (r r' : rt_rq) : Prop := {
  sc_queued : queued r' = queued r;
  sc_bits k : (k <= MAX_RT_PRIO)%nat → test_bit k (bits r') = test_bit k (bits r);
  sc_running : rt_nr_running r' = rt_nr_running r;
  sc_highest : highest_curr r' = highest_curr r;
  sc_total : rt_nr_total r' = rt_nr_total r;
  sc_migratory : rt_nr_migratory r' = rt_nr_migratory r;
  sc_overloaded : overloaded r' = overloaded r;
}.

Lemma determined ts ts' c r r' :
  rt_rq_ok ts c r → rt_rq_ok ts' c r' → (∀ p, tview (ts' p) = tview (ts p)) → queued r' = queued r →
  same_counts r r'.
Proof.
  intros Hok Hok' Ht Hq.
  assert (∀ k, (k <= MAX_RT_PRIO)%nat → test_bit k (bits r') = test_bit k (bits r)) as Hbits.
  { intros k Hk. destruct (decide (k = MAX_RT_PRIO)) as [->|]; [by rewrite (ok_delimiter _ _ _ Hok), (ok_delimiter _ _ _ Hok')|].
    rewrite (ok_bits _ _ _ Hok), (ok_bits _ _ _ Hok') by lia. f_equal. apply bool_decide_ext.
    assert (∀ P Q : Prop, Decision P → Decision Q → (¬ P ↔ ¬ Q) → (P ↔ Q)) as Hnn.
    { intros P Q HP HQ HPQ. destruct HP, HQ; tauto. }
    apply Hnn; [apply _..|]. rewrite (at_nonempty _ _ _ k Hok), (at_nonempty _ _ _ k Hok'), Hq.
    split; intros (p & Hp & Hpr); exists p; split; try done; injection (Ht p); congruence. }
  assert (rt_nr_migratory r' = rt_nr_migratory r) as Hm.
  { rewrite (ok_migratory _ _ _ Hok), (ok_migratory _ _ _ Hok'), Hq. do 2 f_equal. apply list_filter_iff.
    intros p. unfold can_migrate. by injection (Ht p) as _ _ -> _. }
  assert (rt_nr_total r' = rt_nr_total r) as Htot by by rewrite (ok_total _ _ _ Hok), (ok_total _ _ _ Hok'), Hq.
  split; try done.
  - by rewrite (ok_running _ _ _ Hok), (ok_running _ _ _ Hok'), Hq.
  - rewrite (ok_highest _ _ _ Hok), (ok_highest _ _ _ Hok'). f_equal.
    destruct (first_bit_delimited _ (ok_delimiter _ _ _ Hok)) as (Hle & Hset & Hlow).
    apply first_bit_unique; [done|by rewrite Hbits| |apply Hok'].
    intros j Hj. rewrite Hbits by lia. by apply Hlow.
  - rewrite (ok_overloaded _ _ _ Hok), (ok_overloaded _ _ _ Hok'). unfold migration_bit. by rewrite Hm, Htot.
Qed.

(** Putting a task that is on no queue on one and taking it off again leaves
    every queue as it was: lists, bitmap, counts, highest priority and flag. *)
Theorem enqueue_dequeue_id s c p wakeup head c' :
  sys_ok s → rt_fits s p → (∀ c0, p ∉ queued (rt_of s c0)) →
  same_counts (rt_of s c') (rt_of (dequeue_task_rt c p (enqueue_task_rt c p wakeup head s)) c').
Proof.
  intros Hok Hf Hp. pose proof (enqueue_task_moves c p wakeup head s Hok Hf) as H1'.
  pose proof (dequeue_task_moves c p _ (mv_ok _ _ _ H1')) as H2'.
  pose proof (moves_trans _ _ _ _ _ H1' H2') as [[Hrq _] Habs Ht].
  eapply determined; [apply Hok|apply Hrq|exact Ht|]. rewrite !queued_abs, Habs. f_equal.
  unfold remove_all, put_on. case_decide; [|by apply remove_absent].
  by rewrite remove_put, remove_absent.
Qed.

End spec.
