(* ===== verification/RtTick.v ===== *)
(** * Round robin (sched_rt.c, src/indwriterups/project1)

    Every branch of the tick, and that the round-robin tasks of a priority take
    turns at the head of their queue. *)

From S2P Require Import Prelude RtState RtBandwidth RtQueue RtView RtInv RtEnqueue RtOps RtHandlers RtSpec.

Local Open Scope Z_scope.

Section tick.
Context `{RtEnv} `{!KernelLibSpec}.

(** The fields the tick works with. *)
Definition slice_view (t : task) := (policy t, time_slice t).

Definition same_slices (s s' : sys) : Prop := ∀ p, slice_view (tasks s' p) = slice_view (tasks s p).

Lemma same_slices_trans s1 s2 s3 : same_slices s1 s2 → same_slices s2 s3 → same_slices s1 s3.
Proof. intros E1 E2 p. by rewrite E2, E1. Qed.

Lemma same_slices_upd p f s : (∀ t, slice_view (f t) = slice_view t) → same_slices s (upd_task p f s).
Proof. intros Hf q. rewrite tasks_upd_task. case_decide; subst; [apply Hf|done]. Qed.

Lemma balance_loop_tasks c w cpus more s : tasks (snd (balance_loop c w cpus more s)) = tasks s.
Proof.
  revert more s. induction cpus as [|i cpus IH]; intros more s; cbn -[s64 u64]; [done|].
  repeat (case_decide; try apply IH); cbn -[s64 u64]; try rewrite IH; done.
Qed.

Lemma runtime_exceeded_tasks c s : tasks (snd (sched_rt_runtime_exceeded c s)) = tasks s.
Proof.
  unfold sched_rt_runtime_exceeded, sched_rt_rq_dequeue, balance_runtime, do_balance_runtime.
  repeat case_match; cbn; try done; by apply balance_loop_tasks.
Qed.

Lemma resched_slices p s : same_slices s (resched_task p s).
Proof. unfold resched_task. case_match; [done|]. by apply same_slices_upd. Qed.

Lemma update_curr_slices c s : same_slices s (update_curr_rt c s).
Proof.
  unfold update_curr_rt. case_match; [|done]. cbv zeta.
  set (delta := if decide (s64 _ < 0) then _ else _).
  set (s1 := upd_task _ _ _). assert (same_slices s s1) as Hs1 by by apply same_slices_upd.
  clearbody s1 delta. case_match; [|done]. case_decide; [done|].
  set (s2 := upd_rt _ _ _). pose proof (runtime_exceeded_tasks (task_cpu (tasks s1 (curr (rqs s c)))) s2) as Ht.
  destruct (sched_rt_runtime_exceeded _ _) as [ex s3]. cbn in Ht.
  assert (same_slices s s3) as Hs3 by (intros p; rewrite Ht; apply Hs1).
  case_match; [|done]. eapply same_slices_trans; [exact Hs3|apply resched_slices].
Qed.

Lemma watchdog_slices p s : same_slices s (watchdog p s).
Proof. unfold watchdog. case_decide; [done|]. by apply same_slices_upd. Qed.

Lemma requeue_slices p head s : same_slices s (requeue_rt_entity p head s).
Proof. unfold requeue_rt_entity. by case_match. Qed.

(** ** One tick *)

(** The state in which the tick looks at the policy. *)
Definition ticked (c p : nat) (s : sys) : sys := watchdog p (update_curr_rt c s).

Lemma ticked_view c p s : ticked c p s ≃ s.
Proof. unfold ticked. etransitivity; [apply watchdog_view|apply update_curr_view]. Qed.

Lemma ticked_slices c p s : same_slices s (ticked c p s).
Proof. eapply same_slices_trans; [apply update_curr_slices|apply watchdog_slices]. Qed.

Lemma tick_fifo c p s :
  sys_ok s → policy (tasks s p) ≠ SCHED_RR →
  moves same s (task_tick_rt c p s) ∧ same_slices s (task_tick_rt c p s).
Proof.
  intros Hok Hp. unfold task_tick_rt. fold (ticked c p s).
  pose proof (ticked_slices c p s) as Hs. injection (Hs p) as Hpol _. rewrite Hpol.
  rewrite decide_True by done. split; [|done]. apply moves_view; [done|apply ticked_view].
Qed.

(** The neighbours in the list differ exactly when the list has another task. *)
Lemma run_list_shared_spec s p k :
  sys_ok s → p ∈ queue_at (rt_of s (task_cpu (tasks s p))) k →
  run_list_shared s p = bool_decide (1 < length (queue_at (rt_of s (task_cpu (tasks s p))) k))%nat.
Proof.
  intros [Hrq _] Hp. set (c := task_cpu (tasks s p)) in *. unfold run_list_shared. fold c.
  specialize (Hrq c). set (r := rt_of s c) in *.
  pose proof (deq_index _ _ _ _ _ Hrq Hp) as Hk.
  assert (∃ l, queue r !! k = Some l ∧ list_items l = queue_at r k) as (l & Hl & Hi).
  { destruct (queue r !! k) as [l|] eqn:E; [|apply lookup_ge_None in E; rewrite (ok_length _ _ _ Hrq) in E; lia].
    exists l. unfold queue_at. by rewrite E. }
  apply Bool.eq_iff_eq_true. rewrite existsb_exists, bool_decide_eq_true. split.
  - intros (l' & Hin & [Hp' Hlen]%andb_prop). apply bool_decide_eq_true_1 in Hp', Hlen.
    apply list_elem_of_In, list_elem_of_lookup_1 in Hin as [j Hj].
    assert (p ∈ queue_at r j) as Hpj by (unfold queue_at; by rewrite Hj).
    assert (j = k) as ->; [|by rewrite <- Hi; simplify_eq].
    destruct (ok_tasks _ _ _ Hrq j p Hpj) as [Hj' _], (ok_tasks _ _ _ Hrq k p Hp) as [Hk' _]. lia.
  - intros Hlen. exists l. split; [by eapply list_elem_of_In, list_elem_of_lookup_2|].
    rewrite Hi. apply andb_true_intro. by split; apply bool_decide_eq_true_2.
Qed.

(** Moving the only task of a list to its end changes nothing. *)
Lemma requeue_alone s p k :
  sys_ok s → queue_at (rt_of s (task_cpu (tasks s p))) k = [p] →
  moves (requeue_on (task_cpu (tasks s p)) false p (prio (tasks s p))) s s.
Proof.
  intros Hok Hk. set (c := task_cpu (tasks s p)) in *.
  assert (p ∈ queue_at (rt_of s c) k) as Hp by (rewrite Hk; set_solver).
  split; [done| |done]. intros c'. unfold requeue_on. case_decide as Hc; [|done]. destruct Hc as [-> _].
  destruct Hok as [Hrq _]. pose proof (deq_index _ _ _ _ _ (Hrq c) Hp) as Hlt.
  unfold abs. rewrite <- (moved_abs (tasks s) c (rt_of s c) p k false (Hrq c) Hp).
  pose proof (items_enqueue p false k (array_del p (queue (rt_of s c)))) as Hi. rewrite items_del_array in Hi.
  apply (f_equal (λ q, with_prio (tasks s) <$> concat q)).
  change (list_items <$> queue (rt_of s c) = list_items <$> alter (list_add_tail p) k (array_del p (queue (rt_of s c)))).
  rewrite Hi. clear Hi.
  apply list_eq. intros j. set (qs := list_items <$> queue (rt_of s c)).
  assert (qs !! k = Some [p]) as Hqk by (unfold qs; rewrite <- Hk; apply lookup_queue_at; by rewrite (ok_length _ _ _ (Hrq c))).
  destruct (decide (j = k)) as [->|Hj].
  - rewrite list_lookup_alter_eq, list_lookup_fmap, Hqk. cbn. by rewrite decide_False by naive_solver.
  - rewrite list_lookup_alter_ne, list_lookup_fmap by done. destruct (qs !! j) as [l|] eqn:E; [|done]. cbn.
    f_equal. symmetry. apply filter_out_id. intros Hpl. apply Hj.
    assert (p ∈ queue_at (rt_of s c) j) as Hpj by (rewrite queue_at_lookup; fold qs; by rewrite E).
    destruct (ok_tasks _ _ _ (Hrq c) j p Hpj) as [Hj' _], (ok_tasks _ _ _ (Hrq c) k p Hp) as [Hk' _]. lia.
Qed.

(** What is left of a slice after a tick. *)
Definition slice_left (t : task) : Z := u32 (time_slice t - 1).

Definition others_slices (p : nat) (s s' : sys) : Prop :=
  ∀ q, q ≠ p → slice_view (tasks s' q) = slice_view (tasks s q).

Lemma slice_upd p z s :
  slice_view (tasks (upd_task p (set_time_slice z) s) p) = (policy (tasks s p), z) ∧
  others_slices p s (upd_task p (set_time_slice z) s).
Proof. split; [by rewrite tasks_upd_task, decide_True|]. intros q Hq. by rewrite tasks_upd_task, decide_False. Qed.

Lemma tick_slice c p s :
  sys_ok s → policy (tasks s p) = SCHED_RR → slice_left (tasks s p) ≠ 0 →
  let s' := task_tick_rt c p s in
  moves same s s' ∧ slice_view (tasks s' p) = (SCHED_RR, slice_left (tasks s p)) ∧ others_slices p s s'.
Proof.
  intros Hok Hpol Hz s'. unfold s', task_tick_rt. fold (ticked c p s). set (s1 := ticked c p s).
  pose proof (ticked_slices c p s) as Hs. fold s1 in Hs. injection (Hs p) as Hp1 Ht1.
  rewrite Hp1, decide_False by (intros Hc; by apply Hc). cbv zeta. rewrite Ht1. fold (slice_left (tasks s p)).
  rewrite decide_True by done. destruct (slice_upd p (slice_left (tasks s p)) s1) as [E1 E2].
  split_and!; [apply moves_view; [done|rewrite sv_slice; apply ticked_view]|by rewrite E1, Hp1, Hpol|].
  intros q Hq. by rewrite (E2 q Hq).
Qed.

Lemma tick_expired c p k s :
  sys_ok s → policy (tasks s p) = SCHED_RR → slice_left (tasks s p) = 0 →
  p ∈ queue_at (rt_of s (task_cpu (tasks s p))) k →
  let s' := task_tick_rt c p s in
  moves (requeue_on (task_cpu (tasks s p)) false p (prio (tasks s p))) s s' ∧
  slice_view (tasks s' p) = (SCHED_RR, DEF_TIMESLICE) ∧ others_slices p s s' ∧
  ((1 < length (queue_at (rt_of s (task_cpu (tasks s p))) k))%nat → need_resched (tasks s' p) = true).
Proof.
  intros Hok Hpol Hz Hp s'. unfold s', task_tick_rt. fold (ticked c p s). set (s1 := ticked c p s).
  pose proof (ticked_view c p s) as Hv. fold s1 in Hv.
  pose proof (ticked_slices c p s) as Hs. fold s1 in Hs. injection (Hs p) as Hp1 Ht1.
  rewrite Hp1, decide_False by (intros Hc; by apply Hc). cbv zeta. rewrite Ht1. fold (slice_left (tasks s p)).
  rewrite decide_False by (intros Hc; by apply Hc). set (s2 := upd_task p (set_time_slice _) s1).
  set (s3 := upd_task p (set_time_slice DEF_TIMESLICE) s2).
  assert (s3 ≃ s) as Hv3 by (unfold s3, s2; rewrite !sv_slice; exact Hv).
  destruct (slice_upd p (slice_left (tasks s p)) s1) as [E1 E2]. fold s2 in E1, E2.
  destruct (slice_upd p DEF_TIMESLICE s2) as [E3 E4]. fold s3 in E3, E4.
  assert (slice_view (tasks s3 p) = (SCHED_RR, DEF_TIMESLICE)) as Hsl.
  { rewrite E3. assert (policy (tasks s2 p) = policy (tasks s1 p)) as -> by exact (f_equal fst E1). by rewrite Hp1, Hpol. }
  assert (others_slices p s s3) as Hoth by (intros q Hq; by rewrite (E4 q Hq), (E2 q Hq)).
  assert (sys_ok s3) as Hok3 by by rewrite Hv3. clearbody s3. clear dependent s2.
  injection (sv_task _ _ Hv3 p) as Hpr Hcpu _ _.
  assert (∀ j, queue_at (rt_of s3 (task_cpu (tasks s3 p))) j = queue_at (rt_of s (task_cpu (tasks s p))) j) as Hat.
  { intros j. rewrite Hcpu. unfold queue_at. by injection (sv_rt _ _ Hv3 (task_cpu (tasks s p))) as -> _ _ _ _ _ _. }
  rewrite (run_list_shared_spec s3 p k Hok3), Hat by by rewrite Hat. case_bool_decide as Hlen.
  - pose proof (requeue_entity_moves s3 p false Hok3) as Hm. rewrite Hpr, Hcpu in Hm.
    split_and!.
    + eapply moves_then_view; [|apply sv_need]. by eapply view_then_moves.
    + rewrite tasks_upd_task, decide_True by done. change (slice_view (set_need_resched true ?t)) with (slice_view t).
      etransitivity; [apply (requeue_slices p false s3 p)|done].
    + intros q Hq. rewrite tasks_upd_task, decide_False by done. etransitivity; [apply (requeue_slices p false s3 q)|by apply Hoth].
    + intros _. by rewrite tasks_upd_task, decide_True.
  - split_and!; [|done|done|by intros].
    assert (queue_at (rt_of s (task_cpu (tasks s p))) k = [p]) as Hk.
    { destruct (queue_at _ k) as [|x [|y l]]; [set_solver|by apply list_elem_of_singleton in Hp as ->|cbn in Hlen; lia]. }
    eapply moves_then_view; [|exact Hv3]. by eapply requeue_alone.
Qed.

(** ** A whole slice *)

Lemma ticks_of_slice c p n s :
  sys_ok s → policy (tasks s p) = SCHED_RR → time_slice (tasks s p) = Z.of_nat (S n) → Z.of_nat (S n) < 2 ^ 32 →
  p ∈ queued (rt_of s (task_cpu (tasks s p))) →
  let s' := Nat.iter (S n) (task_tick_rt c p) s in
  moves (requeue_on (task_cpu (tasks s p)) false p (prio (tasks s p))) s s' ∧
  slice_view (tasks s' p) = (SCHED_RR, DEF_TIMESLICE) ∧ others_slices p s s'.
Proof.
  revert s. induction n as [|n IH]; intros s Hok Hpol Hts Hlt Hp s'.
  - destruct (queued_index _ _ _ Hok Hp) as (k & Hk & _).
    assert (slice_left (tasks s p) = 0) as Hz by (unfold slice_left; by rewrite Hts).
    by destruct (tick_expired c p k s Hok Hpol Hz Hk) as (?&?&?&_).
  - assert (slice_left (tasks s p) = Z.of_nat (S n)) as Hl.
    { unfold slice_left. rewrite Hts, wrap_u_small; lia. }
    destruct (tick_slice c p s Hok Hpol) as (Hm & Hsl & Ho); [rewrite Hl; lia|].
    unfold s'. rewrite Nat.iter_succ_r. set (s1 := task_tick_rt c p s) in *. clearbody s1.
    injection Hsl as Hpol1 Hts1. injection (mv_task _ _ _ Hm p) as Hpr Hcpu _ _.
    destruct (IH s1) as (Hm2 & Hsl2 & Ho2); try done.
    + apply Hm.
    + by rewrite Hts1, Hl.
    + lia.
    + rewrite Hcpu, queued_abs, (mv_abs _ _ _ Hm). unfold same. by rewrite <- queued_abs.
    + rewrite Hpr, Hcpu in Hm2. split_and!; [by apply (moves_trans _ _ _ _ _ Hm Hm2)|done|].
      intros q Hq. by rewrite (Ho2 q Hq), (Ho q Hq).
Qed.

(** ** Turns *)

Definition at_prio (k : Z) (p : nat) : nat * Z := (p, k).

(** The queue begins with the tasks [l] of priority [k], all of them round robin
    with a slice of their own. *)
Record rr_front (s : sys) (c : nat) (k : Z) (l : list nat) (rest : pqueue) : Prop := {
  rf_ok : sys_ok s;
  rf_abs : abs s c = (at_prio k <$> l) ++ rest;
  rf_rest : Forall (λ e, k < e.2) rest;
  rf_rr p : p ∈ l → policy (tasks s p) = SCHED_RR ∧ 1 <= time_slice (tasks s p) < 2 ^ 32;
}.

Lemma rr_front_queued s c k l rest : rr_front s c k l rest → queued (rt_of s c) = l ++ (fst <$> rest).
Proof.
  intros Hf. rewrite queued_abs, (rf_abs _ _ _ _ _ Hf), fmap_app, <- list_fmap_compose. f_equal. apply list_fmap_id.
Qed.

Lemma remove_not_in p (l : pqueue) : p ∉ fst <$> l → remove_task p l = l.
Proof.
  induction l as [|[q qr] l IH]; intros Hp; [done|].
  rewrite remove_cons, decide_False by (intros ->; apply Hp; cbn; set_solver). f_equal. apply IH.
  intros Hq. apply Hp. cbn. set_solver.
Qed.

Lemma rotate_front k p l rest :
  Forall (λ e, k < e.2) rest → p ∉ l → p ∉ fst <$> rest →
  put_task false p k ((at_prio k <$> p :: l) ++ rest) = (at_prio k <$> l ++ [p]) ++ rest.
Proof.
  intros Hr Hl Hp. unfold put_task.
  assert (remove_task p ((at_prio k <$> p :: l) ++ rest) = (at_prio k <$> l) ++ rest) as ->.
  { rewrite fmap_cons. cbn [app]. unfold at_prio at 1. rewrite remove_cons, decide_True by done.
    apply remove_not_in. rewrite fmap_app, <- list_fmap_compose. intros [Hq|Hq]%elem_of_app; [|done].
    apply list_elem_of_fmap in Hq as (x & -> & Hx). done. }
  rewrite plist_insert_app; [|apply Forall_fmap, list.Forall_forall; intros; cbn; lia|done].
  by rewrite fmap_app, <- app_assoc.
Qed.

Lemma rr_front_turn s c k p l rest :
  rr_front s c k (p :: l) rest → rr_front (rr_turn c s) c k (l ++ [p]) rest.
Proof.
  intros Hf. pose proof (rr_front_queued _ _ _ _ _ Hf) as Hq. destruct Hf as [Hok Habs Hrest Hrr].
  unfold rr_turn. rewrite Hq. cbn [head app].
  assert (p ∈ queued (rt_of s c)) as Hp by (rewrite Hq; set_solver).
  pose proof (queued_cpu _ _ _ Hok Hp) as Hcpu.
  destruct (Hrr p ltac:(set_solver)) as [Hpol Hts].
  assert (prio (tasks s p) = k) as Hpr.
  { unfold abs in Habs. rewrite Hq in Habs. by injection Habs as ->. }
  assert (NoDup (p :: l ++ (fst <$> rest))) as Hnd by (pose proof (ok_nodup _ _ _ (proj1 Hok c)) as Hd; by rewrite Hq in Hd).
  apply list.NoDup_cons in Hnd as [Hnp _].
  destruct (ticks_of_slice c p (Z.to_nat (time_slice (tasks s p)) - 1) s) as (Hm & Hsl & Ho); try done; try lia.
  { by rewrite Hcpu. }
  replace (S (Z.to_nat (time_slice (tasks s p)) - 1)) with (Z.to_nat (time_slice (tasks s p))) in * by lia.
  split; [apply Hm| |done|].
  - rewrite (mv_abs _ _ _ Hm), Habs. unfold requeue_on. rewrite decide_True by (split; [done|cbn; set_solver]).
    rewrite Hpr. apply rotate_front; [done|set_solver..].
  - intros q Hq'. destruct (decide (q = p)) as [->|Hne]; [by injection Hsl as -> ->|].
    injection (Ho q Hne) as -> ->. apply Hrr. set_solver.
Qed.

Lemma rr_front_turns s c k l rest j :
  rr_front s c k l rest → (j <= length l)%nat →
  rr_front (Nat.iter j (rr_turn c) s) c k (drop j l ++ take j l) rest.
Proof.
  intros Hf. induction j as [|j IH]; intros Hj; cbn.
  - by rewrite app_nil_r.
  - destruct (lookup_lt_is_Some_2 l j) as [p Hp]; [lia|]. specialize (IH ltac:(lia)).
    rewrite (drop_S _ _ _ Hp) in IH. apply rr_front_turn in IH.
    by rewrite (take_S_r _ _ _ Hp), app_assoc.
Qed.

(** C16: round robin gives every task of the most urgent list its turn: the task in
    position [j] is the first of the queue after [j] slices. *)
Theorem rr_every_task_has_its_turn s c k j p :
  sys_ok s → highest_curr (rt_of s c) = Z.of_nat k →
  (∀ q, q ∈ queue_at (rt_of s c) k → policy (tasks s q) = SCHED_RR ∧ 1 <= time_slice (tasks s q) < 2 ^ 32) →
  queue_at (rt_of s c) k !! j = Some p →
  head (queued (rt_of (Nat.iter j (rr_turn c) s) c)) = Some p.
Proof.
  intros Hok Hhi Hrr Hj. pose proof (proj1 Hok c) as Hrq. set (r := rt_of s c) in *.
  assert (p ∈ queue_at r k) as Hp by by eapply list_elem_of_lookup_2.
  pose proof (deq_index _ _ _ _ _ Hrq Hp) as Hk. rewrite (ok_highest _ _ _ Hrq) in Hhi.
  destruct (first_bit_delimited _ (ok_delimiter _ _ _ Hrq)) as (_ & _ & Hlow).
  assert ((list_items <$> queue r) !! k = Some (queue_at r k)) as Hl.
  { apply lookup_queue_at. by rewrite (ok_length _ _ _ Hrq). }
  set (rest := with_prio (tasks s) <$> concat (drop (S k) (list_items <$> queue r))).
  assert (rr_front s c (Z.of_nat k) (queue_at r k) rest) as Hf.
  { split; [done| | |done].
    - unfold abs, queued. fold r. rewrite (concat_split _ _ _ Hl), !fmap_app.
      assert (concat (take k (list_items <$> queue r)) = []) as ->.
      { destruct (concat (take k (list_items <$> queue r))) as [|x l'] eqn:E; [done|].
        assert (x ∈ concat (take k (list_items <$> queue r))) as Hx by (rewrite E; set_solver).
        apply elem_of_concat in Hx as (i & l0 & [Hi ?]%lookup_take_Some & Hx).
        specialize (Hlow i ltac:(lia)). rewrite (ok_bits _ _ _ Hrq) in Hlow by lia.
        apply negb_false_iff, bool_decide_eq_true_1 in Hlow. rewrite queue_at_lookup, Hi in Hlow. cbn in Hlow. set_solver. }
      cbn. f_equal. apply list_fmap_ext. intros i q Hq. unfold with_prio, at_prio. f_equal.
      by destruct (ok_tasks _ _ _ Hrq k q) as [-> _]; [eapply list_elem_of_lookup_2|].
    - apply (prios_after (tasks s) r (S k) (λ z, Z.of_nat k < z)); [by eapply rt_rq_ok_sorted|lia]. }
  pose proof (lookup_lt_Some _ _ _ Hj) as Hlen.
  apply (rr_front_turns _ _ _ _ _ j) in Hf; [|lia]. rewrite (rr_front_queued _ _ _ _ _ Hf).
  by rewrite (drop_S _ _ _ Hj).
Qed.

End tick.
