(* ===== verification/RtPreserve.v ===== *)
(** * What pushing and pulling preserve (sched_rt.c, src/indwriterups/project1)

    A property that other processors keep while a lock is dropped, and that moving a
    task keeps when the task is known to be ready to be moved, is preserved by
    pushing and by pulling. *)

From S2P Require Import Prelude RtState RtBandwidth RtQueue SchedCore RtPush RtKeeps RtBalance.

Local Open Scope Z_scope.

Section preserved.
Context `{OtherClasses} `{!KernelLibSpec}.

(** [ready c p] is what is known of a task [p] that is about to be moved from [c]. *)
Record preserved (I : sys → Prop) (ready : nat → nat → sys → Prop) : Prop := {
  pr_others held c d s : I s → I (others held c d s);
  pr_resched p s : I s → I (resched_task p s);
  pr_dequeue c p s : I s → I (dequeue_pushable_task c p s);
  pr_pick c p s : I s → pick_next_pushable_task s c = Ok (Some p) → ready c p s;
  pr_held c d p s : I s → ready c p s → ready c p (others true c d s);
  pr_checked c d p s : I s → task_shifted s p c d = false → ready c p s;
  pr_pull c this p s : I s → pick_next_highest_task_rt s c (Some this) = Some p → ready c p s;
  pr_move c d p s : I s → ready c p s → I (move_task c d p s);
}.

Context (I : sys → Prop) (ready : nat → nat → sys → Prop).
Hypothesis keeps : preserved I ready.

Lemma lock_preserves c d s : I s → I (snd (double_lock_balance c d s)).
Proof.
  intros Hs. unfold double_lock_balance. repeat (case_match || case_decide); cbn; (done || by apply (pr_others _ _ keeps)).
Qed.

(** A task that is ready stays so unless the lock was dropped. *)
Lemma lock_keeps_ready c d p s :
  I s → ready c p s → fst (double_lock_balance c d s) = false → ready c p (snd (double_lock_balance c d s)).
Proof.
  intros Hs Hr. unfold double_lock_balance. repeat (case_match || case_decide); cbn; try done.
  intros _. by apply (pr_held _ _ keeps).
Qed.

Lemma find_lock_preserves tries p c s :
  I s → ready c p s →
  let '(d, s') := find_lock_tries tries p c s in I s' ∧ (is_Some d → ready c p s').
Proof.
  revert s. induction tries as [|tries IH]; intros s Hs Hr; cbn; [by split; [|intros []]|].
  destruct (find_lowest_rq s p) as [d|]; [|by split; [|intros []]]. case_decide; [by split; [|intros []]|].
  pose proof (lock_preserves c d s Hs) as Hl. pose proof (lock_keeps_ready c d p s Hs Hr) as Hk.
  destruct (double_lock_balance c d s) as [dropped s1]. cbn in Hl, Hk.
  destruct (dropped && task_shifted s1 p c d) eqn:Esh; [by split; [|intros []]|].
  assert (ready c p s1) as Hr1.
  { destruct dropped; [|by apply Hk]. by apply (pr_checked _ _ keeps c d). }
  case_decide; [done|by apply IH].
Qed.

Lemma push_retry_preserves fuel c next s b s' :
  I s → ready c next s → push_retry fuel c next s = Ok (b, s') → I s'.
Proof.
  revert next s. induction fuel as [|fuel IH]; intros next s Hs Hr; cbn [push_retry]; [done|].
  case_decide; [by intros [= <- <-]|]. case_decide; [intros [= <- <-]; by apply (pr_resched _ _ keeps)|].
  pose proof (find_lock_preserves RT_MAX_TRIES next c s Hs Hr) as Hl. fold (find_lock_lowest_rq next c s) in Hl.
  destruct (find_lock_lowest_rq next c s) as [[d|] s1]; destruct Hl as [Hs1 Hr1].
  - intros [= <- <-]. apply (pr_resched _ _ keeps). fold (move_task c d next s1). apply (pr_move _ _ keeps); [done|]. by apply Hr1.
  - destruct (pick_next_pushable_task s1 c) as [t| |] eqn:Et; cbn; try done.
    case_decide; [intros [= <- <-]; by apply (pr_dequeue _ _ keeps)|].
    destruct t; [|by intros [= <- <-]]. apply IH; [done|]. by apply (pr_pick _ _ keeps).
Qed.

Lemma push_task_preserves fuel c s b s' : I s → push_rt_task fuel c s = Ok (b, s') → I s'.
Proof.
  intros Hs. unfold push_rt_task. case_match; [by intros [= <- <-]|].
  destruct (pick_next_pushable_task s c) as [[p|]| |] eqn:Et; cbn; try done; [|by intros [= <- <-]].
  apply push_retry_preserves; [done|]. by apply (pr_pick _ _ keeps).
Qed.

Lemma push_tasks_preserves fuel c s s' : I s → push_rt_tasks fuel c s = Ok s' → I s'.
Proof.
  revert s. induction fuel as [|fuel IH]; intros s Hs; cbn [push_rt_tasks]; [done|].
  destruct (push_rt_task (S fuel) c s) as [[b s1]| |] eqn:E; cbn; try done.
  apply push_task_preserves in E; [|done]. destruct b; [by apply IH|by intros [= <-]].
Qed.

Lemma pull_from_preserves this cpu s : I s → I (snd (pull_from this cpu s)).
Proof.
  intros Hs. unfold pull_from. case_decide; [done|]. pose proof (lock_preserves this cpu s Hs) as Hl.
  set (s1 := snd (double_lock_balance this cpu s)) in *. clearbody s1. cbv zeta.
  case_decide; [done|]. destruct (pick_next_highest_task_rt s1 cpu (Some this)) as [p|] eqn:Ep; [|done].
  case_decide; [|done]. case_decide; [done|]. cbn [snd]. fold (move_task cpu this p s1).
  apply (pr_move _ _ keeps); [done|]. by eapply (pr_pull _ _ keeps).
Qed.

Lemma pull_preserves this s : I s → I (snd (pull_rt_task this s)).
Proof.
  intros Hs. unfold pull_rt_task. case_decide as Hz; [done|]. clear Hz. generalize false.
  generalize (seq 0 nr_cpu_ids) as cpus. intros cpus. revert s Hs.
  induction cpus as [|cpu cpus IH]; intros s Hs b; cbn; [done|]. case_decide; [by apply IH|].
  pose proof (pull_from_preserves this cpu s Hs) as Hp. destruct (pull_from this cpu s) as [b' s1]. by apply IH.
Qed.

End preserved.
