(* ===== verification/RtSteps.v ===== *)
(** * The run queues stay well formed (sched_rt.c, src/indwriterups/project1)

    The class as a transition system: each step is a call of one of its handlers,
    or a change of a task that is on no queue.  The invariant holds in every
    reachable state, whatever other processors do while a lock is awaited, as long
    as they keep it too. *)

From S2P Require Import Prelude RtState RtBandwidth RtQueue SchedCore RtPush RtView RtInv RtEnqueue RtOps.
From S2P Require Import RtHandlers RtBalance RtPreserve.

Local Open Scope Z_scope.

Section steps.
Context `{OtherClasses} `{!KernelLibSpec}.

(** Tasks of the class have priorities of the class. *)
Definition class_ok (s : sys) : Prop :=
  ∀ p, sched_class (tasks s p) = rt_sched_class →
  0 <= prio (tasks s p) < Z.of_nat MAX_RT_PRIO ∧ Z.of_nat p < task_limit.

Definition rt_inv (s : sys) : Prop := sys_ok s ∧ class_ok s.

Definition set_online (b : bool) (q : rq) : rq :=
  mk_rq (rt q) (nr_running q) (curr q) (idle q) (clock q) (clock_task q) b (post_schedule q)
    (skip_clock_update q) (stop q) (wake_list q) (prev_mm q) (resched_ipi q).

(** [set_rq_online] and [set_rq_offline] of sched.c, for this class; the mask of
    the processors online is not modelled. *)
Definition set_rq_online (c : nat) (s : sys) : sys :=
  if online (rqs s c) then s else rq_online_rt c (upd_rq c (set_online true) s).

Definition set_rq_offline (c : nat) (s : sys) : res sys :=
  if online (rqs s c) then s ← rq_offline_rt c s; Ok (upd_rq c (set_online false) s) else Ok s.

(** The states the machine starts in: nothing queued anywhere. *)
Definition initial (s : sys) : Prop :=
  (∀ c, rt_of s c = init_rt_rq) ∧ rto_mask (rd s) = ∅ ∧ class_ok s.

(** ** Steps *)

Inductive rt_step : sys → sys → Prop :=
  | step_enqueue c p w h s : sched_class (tasks s p) = rt_sched_class → rt_step s (enqueue_task_rt c p w h s)
  | step_dequeue c p s : rt_step s (dequeue_task_rt c p s)
  | step_yield c s : rt_step s (yield_task_rt c s)
  | step_check_preempt c p s : rt_step s (check_preempt_curr_rt c p s)
  | step_pick c s q s' : pick_next_task_rt c s = Some (q, s') → rt_step s s'
  | step_put_prev c p s : rt_step s (put_prev_task_rt c p s)
  | step_set_curr c s : rt_step s (set_curr_task_rt c s)
  | step_tick c p s : rt_step s (task_tick_rt c p s)
  | step_affinity p m s s' : on_rq_queued s p → set_cpus_allowed_rt p m s = Some s' → rt_step s s'
  | step_period overrun s : rt_step s (snd (do_sched_rt_period_timer overrun s))
  | step_pre_schedule c p s : rt_step s (pre_schedule_rt c p s)
  | step_post_schedule fuel c s s' : post_schedule_rt fuel c s = Ok s' → rt_step s s'
  | step_woken fuel c p s s' : task_woken_rt fuel c p s = Ok s' → rt_step s s'
  | step_switched_from c p s : rt_step s (switched_from_rt c p s)
  | step_switched_to fuel c p s s' : switched_to_rt fuel c p s = Ok s' → rt_step s s'
  | step_prio_changed c p o s : rt_step s (prio_changed_rt c p o s)
  | step_online c s : rt_step s (set_rq_online c s)
  | step_offline c s s' : set_rq_offline c s = Ok s' → rt_step s s'
  | step_disable c s s' : disable_runtime c s = Some s' → rt_step s s'
  | step_enable c s : rt_step s (enable_runtime c s)
  | step_change p f s :
      (∀ c, p ∉ queued (rt_of s c)) → class_ok (upd_task p f s) → rt_step s (upd_task p f s).

(** ** What is relied upon *)

(** Other processors keep the invariant; other classes leave the real-time queues
    and the priorities of tasks alone. *)
Record reliable : Prop := {
  others_keep held c d s : rt_inv s → rt_inv (others held c d s);
  other_enqueue k c p w h s : k ≠ rt_sched_class → c_enqueue_task (other_class k) c p w h s ≃ s;
  other_dequeue k c p s : k ≠ rt_sched_class → c_dequeue_task (other_class k) c p s ≃ s;
}.

Lemma class_ok_tview s s' : (∀ p, tview (tasks s' p) = tview (tasks s p)) → class_ok s → class_ok s'.
Proof. intros Ht Hc p. injection (Ht p) as -> _ _ ->. apply Hc. Qed.

Lemma rt_inv_moves F s s' : moves F s s' → class_ok s → rt_inv s'.
Proof. intros Hm Hc. split; [apply Hm|]. eapply class_ok_tview, Hc. apply Hm. Qed.

Lemma rt_inv_rearranges s s' : rearranges s s' → class_ok s → rt_inv s'.
Proof. intros Hr Hc. split; [apply Hr|]. eapply class_ok_tview, Hc. apply Hr. Qed.

#[export] Instance class_ok_proper : Proper (seq_view ==> iff) class_ok.
Proof. intros s s' Hv. split; apply class_ok_tview; intros p; [symmetry|]; apply Hv. Qed.

#[export] Instance rt_inv_proper : Proper (seq_view ==> iff) rt_inv.
Proof. intros s s' Hv. unfold rt_inv. by rewrite Hv. Qed.

(** ** The initial state *)

Lemma init_rt_rq_ok ts c : rt_rq_ok ts c init_rt_rq.
Proof.
  assert (∀ k, queue_at init_rt_rq k = []) as Hq.
  { intros k. unfold queue_at. cbn [queue init_rt_rq]. destruct (replicate MAX_RT_PRIO rlist_init !! k) as [l|] eqn:E;
      [apply lookup_replicate in E as [-> _]|]; apply items_init. }
  assert (queued init_rt_rq = []) as Hqd.
  { destruct (queued init_rt_rq) as [|p l] eqn:E; [done|]. assert (p ∈ queued init_rt_rq) as Hp by (rewrite E; set_solver).
    apply elem_of_queued in Hp as [k Hp]. rewrite Hq in Hp. set_solver. }
  assert (∀ j l b, test_bit j (foldr __clear_bit b l) = true → test_bit j b = true ∧ j ∉ l) as Hclear.
  { intros j l b. induction l as [|k l IH]; cbn; [set_solver|]. rewrite test_clear. case_decide; [done|set_solver]. }
  assert (test_bit MAX_RT_PRIO (bits init_rt_rq) = true) as Hd by (cbn [bits init_rt_rq]; by rewrite test_set, decide_True).
  assert (∀ j, (j < MAX_RT_PRIO)%nat → test_bit j (bits init_rt_rq) = false) as Hb.
  { intros j Hj. cbn [bits init_rt_rq]. rewrite test_set, decide_False by lia.
    destruct (test_bit j _) eqn:E; [|done]. apply Hclear in E as [_ E]. destruct E. apply elem_of_seq. lia. }
  split; rewrite ?Hqd; try done.
  - intros k Hk. by rewrite Hb, Hq.
  - intros k p. rewrite Hq. set_solver.
  - constructor.
  - by rewrite first_bit_empty.
Qed.

Lemma initial_inv s : initial s → rt_inv s.
Proof.
  intros (Hr & Hm & Hc). split; [|done]. split; intros c; rewrite Hr; [apply init_rt_rq_ok|]. rewrite Hm. cbn. set_solver.
Qed.

(** ** Moving tasks *)

Lemma clock_view c s : update_rq_clock c s ≃ s.
Proof. unfold update_rq_clock, update_rq_clock_task. view_solve. Qed.

Lemma nr_running_view c f s : upd_rq c (λ q, set_nr_running (f q) q) s ≃ s.
Proof. by apply sv_upd_rq. Qed.

Section relying.
Hypothesis rely : reliable.

Lemma deactivate_inv c p s :
  rt_inv s → rt_inv (deactivate_task c p s) ∧ (∀ d, p ∉ queued (rt_of (deactivate_task c p s) d)).
Proof.
  intros [Hok Hc]. unfold deactivate_task, dequeue_task, dec_nr_running.
  pose proof (clock_view c s) as Hk. set (s1 := update_rq_clock c s) in *. clearbody s1.
  assert (rt_inv s1) as [Hok1 Hc1] by by rewrite Hk.
  assert (∀ s2 d, queued (rt_of (upd_rq c (λ q, set_nr_running (u64 (nr_running q - 1)) q) s2) d) = queued (rt_of s2 d)) as Hq.
  { intros s2 d. unfold queued. by injection (sv_rt _ _ (nr_running_view c (λ q, u64 (nr_running q - 1)) s2) d) as -> _ _ _ _ _ _. }
  assert (∀ k, sched_class (tasks s1 p) = k → k ≠ rt_sched_class → ∀ d, p ∉ queued (rt_of s1 d)) as Hno.
  { intros k Hk1 Hne d Hp. apply (queued_index _ _ _ Hok1) in Hp as (?&_&_&_&_&Hcl&_). congruence. }
  assert (∀ k, k ≠ rt_sched_class → ∀ d, queued (rt_of (c_dequeue_task (other_class k) c p s1) d) = queued (rt_of s1 d)) as Ho.
  { intros k Hne d. unfold queued. by injection (sv_rt _ _ (other_dequeue rely k c p s1 Hne) d) as -> _ _ _ _ _ _. }
  destruct (sched_class (tasks s1 p)) eqn:E.
  2: { pose proof (dequeue_task_moves c p s1 Hok1) as Hm. split.
       - rewrite nr_running_view. by eapply rt_inv_moves.
       - intros d. rewrite Hq, queued_abs, (mv_abs _ _ _ Hm). unfold remove_all, remove_task.
         intros (e & -> & [He _]%list_elem_of_filter)%list_elem_of_fmap. by apply He. }
  all: split; [rewrite nr_running_view, (other_dequeue rely) by done; by split|].
  all: intros d; rewrite Hq, Ho by done; eapply Hno; [reflexivity|done].
Qed.

Lemma activate_inv c p w s : rt_inv s → rt_inv (activate_task c p w false s).
Proof.
  intros Hinv. unfold activate_task, enqueue_task, inc_nr_running. rewrite nr_running_view.
  pose proof (clock_view c s) as Hk. set (s1 := update_rq_clock c s) in *. clearbody s1.
  rewrite <- Hk in Hinv. destruct Hinv as [Hok1 Hc1].
  destruct (sched_class (tasks s1 p)) eqn:E; try (rewrite (other_enqueue rely) by done; by split).
  eapply rt_inv_moves; [|done]. apply enqueue_task_moves; [done|]. destruct (Hc1 p E). done.
Qed.

Lemma move_inv c d p s : rt_inv s → rt_inv (move_task c d p s).
Proof.
  intros Hinv. unfold move_task. apply activate_inv. destruct (deactivate_inv c p s Hinv) as [[Hok Hc] Hn].
  split; [by apply sys_ok_upd_task|]. intros q. unfold set_task_cpu. rewrite tasks_upd_task.
  case_decide; subst; apply Hc.
Qed.

(** The invariant is preserved, whatever is known of the tasks that are moved. *)
Lemma rt_inv_preserved : preserved rt_inv (λ _ _ _, True).
Proof.
  split; try done.
  - apply (others_keep rely).
  - intros p s. by rewrite sv_resched.
  - intros c p s. by rewrite dequeue_pushable_view.
  - intros c d p s Hs _. by apply move_inv.
Qed.

(** ** Coming and going of processors *)

Lemma rt_of_set_online c b s c' : rt_of (upd_rq c (set_online b) s) c' = rt_of s c'.
Proof.
  unfold rt_of, upd_rq; cbn. destruct (decide (c = c')) as [<-|]; [by rewrite fn_lookup_insert|by rewrite fn_lookup_insert_ne].
Qed.

Lemma online_set_online c b s c' :
  online (rqs (upd_rq c (set_online b) s) c') = if decide (c' = c) then b else online (rqs s c').
Proof.
  unfold upd_rq; cbn. case_decide; subst; [by rewrite fn_lookup_insert|by rewrite fn_lookup_insert_ne].
Qed.

#[export] Instance set_online_proper c b : Proper (seq_view ==> seq_view) (upd_rq c (set_online b)).
Proof.
  intros s s' [E1 E2 E3 E4]. split; [|done| |done]; intros c'.
  - rewrite !rt_of_set_online. apply E1.
  - rewrite !online_set_online. case_decide; [done|apply E3].
Qed.

Lemma online_inv c s : rt_inv s → rt_inv (set_rq_online c s).
Proof.
  intros [[Hrq Hm] Hc]. unfold set_rq_online. destruct (online (rqs s c)) eqn:Eon; [by split|].
  unfold rq_online_rt. rewrite sv_cpupri, enable_runtime_view. set (s1 := upd_rq c (set_online true) s).
  assert (online (rqs s1 c) = true) as Eon1 by (unfold s1; by rewrite online_set_online, decide_True).
  split; [|unfold rt_set_overload; by repeat case_match]. split.
  - intros c'. assert (rt_of (if overloaded (rt_of s1 c) then rt_set_overload c s1 else s1) c' = rt_of s c') as ->.
    { unfold rt_set_overload. repeat case_match; apply rt_of_set_online. }
    replace (tasks (if overloaded (rt_of s1 c) then rt_set_overload c s1 else s1)) with (tasks s)
      by (unfold rt_set_overload; by repeat case_match). apply Hrq.
  - intros c'. pose proof (Hm c') as Hc'. unfold rt_set_overload. rewrite Eon1.
    assert (overloaded (rt_of s1 c) = overloaded (rt_of s c)) as -> by (unfold s1; by rewrite rt_of_set_online).
    assert (∀ f, rt_of (upd_rd f s1) c' = rt_of s c' ∧ online (rqs (upd_rd f s1) c') = online (rqs s1 c') ∧
      rto_mask (rd (upd_rd f s1)) = rto_mask (f (rd s))) as Hu.
    { intros f. split; [|done]. apply (rt_of_set_online c true s c'). }
    assert (rt_of s1 c' = rt_of s c') as Hs1 by apply rt_of_set_online.
    pose proof (online_set_online c true s c') as Ho. fold s1 in Ho.
    destruct (overloaded (rt_of s c)) eqn:Eov.
    + destruct (Hu (λ d, mk_rd (span d) ({[c]} ∪ rto_mask d) (s32 (rto_count d + 1)) (cpupri d))) as (-> & -> & ->).
      rewrite Ho. cbn [rto_mask]. case_decide; subst; set_solver.
    + rewrite Hs1, Ho. change (rto_mask (rd s1)) with (rto_mask (rd s)). case_decide; subst; set_solver.
Qed.

Lemma offline_inv c s s' : rt_inv s → set_rq_offline c s = Ok s' → rt_inv s'.
Proof.
  intros [[Hrq Hm] Hc]. unfold set_rq_offline. destruct (online (rqs s c)) eqn:Eon; [|by intros [= <-]].
  unfold rq_offline_rt. set (s1 := if overloaded (rt_of s c) then rt_clear_overload c s else s).
  destruct (__disable_runtime c s1) as [s2|] eqn:Ed; cbn; [|done]. intros [= <-]. apply disable_runtime_view in Ed.
  rewrite sv_cpupri, Ed. clear Ed s2.
  assert (∀ c', rt_of s1 c' = rt_of s c') as Hrt by (intros c'; unfold s1, rt_clear_overload; by repeat case_match).
  assert (tasks s1 = tasks s) as Hts by (unfold s1, rt_clear_overload; by repeat case_match).
  split; [|intros p; change (tasks (upd_rq c (set_online false) s1)) with (tasks s1); rewrite Hts; apply Hc]. split.
  - intros c'. rewrite rt_of_set_online, Hrt. change (tasks (upd_rq c (set_online false) s1)) with (tasks s1).
    rewrite Hts. apply Hrq.
  - intros c'. rewrite rt_of_set_online, online_set_online, Hrt. pose proof (Hm c') as Hc'.
    unfold s1, rt_clear_overload. rewrite Eon. destruct (overloaded (rt_of s c)) eqn:Eov; cbn;
      case_decide; subst; set_solver.
Qed.

(** ** The invariant *)

Lemma affinity_class p m s s' q :
  set_cpus_allowed_rt p m s = Some s' →
  prio (tasks s' q) = prio (tasks s q) ∧ sched_class (tasks s' q) = sched_class (tasks s q).
Proof.
  assert (∀ s1, tasks s1 = tasks s → prio (tasks (upd_task p (set_affinity (Z.of_nat (size m)) m) s1) q) = prio (tasks s q) ∧
    sched_class (tasks (upd_task p (set_affinity (Z.of_nat (size m)) m) s1) q) = sched_class (tasks s q)) as Hfin.
  { intros s1 Hs1. rewrite tasks_upd_task, Hs1. by case_decide; subst. }
  assert (∀ c s1, tasks s1 = tasks s → tasks (update_rt_migration c s1) = tasks s) as Hmig.
  { intros c s1 Hs1. unfold update_rt_migration, rt_set_overload, rt_clear_overload. by repeat case_match. }
  unfold set_cpus_allowed_rt. cbv zeta. case_match; [|done].
  case_match; [|intros [= <-]; by apply Hfin].
  set (s1 := if task_current s _ p then s else _).
  assert (tasks s1 = tasks s) as Hs1 by (unfold s1; by repeat (case_match || case_decide)). clearbody s1.
  repeat case_decide; intros [= <-]; apply Hfin, Hmig; done.
Qed.

Lemma affinity_inv p m s s' :
  rt_inv s → on_rq_queued s p → set_cpus_allowed_rt p m s = Some s' → rt_inv s'.
Proof.
  intros [Hok Hc] Hq Hs. assert (rt_task (tasks s p) = true) as Hrt.
  { unfold set_cpus_allowed_rt in Hs. by destruct (rt_task (tasks s p)). }
  destruct (set_cpus_allowed_keeps p m s Hok Hq Hrt) as (s2 & Hs2 & Hok2 & _). simplify_eq. split; [done|].
  intros q. destruct (affinity_class _ _ _ _ q Hs) as [-> ->]. apply Hc.
Qed.

Lemma switched_to_inv fuel c p s s' : rt_inv s → switched_to_rt fuel c p s = Ok s' → rt_inv s'.
Proof.
  intros Hinv. unfold switched_to_rt. case_match; [|by intros [= <-]].
  assert (∀ b s1, (if overloaded (rt_of s c) then push_rt_task fuel c s else Ok (false, s)) = Ok (b, s1) → rt_inv s1) as Hp.
  { intros b s1. case_match; [by apply (push_task_preserves _ _ rt_inv_preserved)|by intros [= <- <-]]. }
  destruct (if overloaded (rt_of s c) then _ else _) as [[b s1]| |]; cbn; try done. specialize (Hp b s1 eq_refl).
  case_match; intros [= <-]; [by rewrite sv_resched|done].
Qed.

Lemma prio_changed_inv c p o s : rt_inv s → rt_inv (prio_changed_rt c p o s).
Proof.
  intros Hinv. unfold prio_changed_rt. case_match; [done|]. case_decide.
  - set (s1 := if decide _ then _ else s). assert (rt_inv s1) as H1' by (unfold s1; case_decide; [by apply (pull_preserves _ _ rt_inv_preserved)|done]).
    cbv zeta. case_match; [by rewrite sv_resched|done].
  - case_decide; [by rewrite sv_resched|done].
Qed.

Lemma rt_step_inv s s' : rt_inv s → rt_step s s' → rt_inv s'.
Proof.
  intros Hinv Hs. pose proof Hinv as [Hok Hc].
  assert (∀ F s1, moves F s s1 → rt_inv s1) as Hmv by (intros F s1 Hm; by eapply rt_inv_moves).
  assert (∀ s1, s1 ≃ s → rt_inv s1) as Hview by (intros s1 ->; done).
  destruct Hs.
  - eapply Hmv, enqueue_task_moves; [done|]. by destruct (Hc p).
  - by eapply Hmv, dequeue_task_moves.
  - by eapply Hmv, yield_moves.
  - eapply rt_inv_rearranges, Hc. by apply check_preempt_rearranges.
  - destruct (pick_task_spec s c Hok) as (s1 & Hp & Hv). simplify_eq. by apply Hview.
  - apply Hview, put_prev_view.
  - apply Hview, set_curr_view.
  - eapply rt_inv_rearranges, Hc. by apply tick_rearranges.
  - eapply affinity_inv; eauto.
  - apply Hview, period_timer_view.
  - unfold pre_schedule_rt. case_match; [by apply (pull_preserves _ _ rt_inv_preserved)|done].
  - by eapply (push_tasks_preserves _ _ rt_inv_preserved).
  - match goal with E : task_woken_rt _ _ _ _ = _ |- _ => unfold task_woken_rt in E; case_match end;
      [by eapply (push_tasks_preserves _ _ rt_inv_preserved)|by simplify_eq].
  - unfold switched_from_rt. case_match; [by apply (pull_preserves _ _ rt_inv_preserved)|done].
  - by eapply switched_to_inv.
  - by apply prio_changed_inv.
  - by apply online_inv.
  - by eapply offline_inv.
  - eapply Hview, disable_runtime_view. done.
  - apply Hview, enable_runtime_view.
  - split; [by apply sys_ok_upd_task|done].
Qed.

Lemma rt_steps_inv s s' : rtc rt_step s s' → rt_inv s → rt_inv s'.
Proof. induction 1; eauto using rt_step_inv. Qed.

(** C5: in every state the class can reach, the run queues are well formed: bitmap,
    lists, counts, priorities, flags and the mask of overloaded processors agree. *)
Theorem run_queues_well_formed s0 s : initial s0 → rtc rt_step s0 s → rt_inv s.
Proof. intros H0'%initial_inv Hr. by eapply rt_steps_inv. Qed.

End relying.

End steps.
