(* ===== verification/RtRuntime.v ===== *)
(** * Runtime is conserved (sched_rt.c, src/indwriterups/project1)

    Borrowing moves runtime between the queues of a root domain: none is made and
    none is lost, and a queue that lends keeps what it has used.  A queue that
    leaves takes back its share, so that the check at its end never fires. *)

From S2P Require Import Prelude RtState RtBandwidth RtView.

Local Open Scope Z_scope.

Section runtime.
Context `{RtEnv}.

(** The runtime of a queue, nothing for a queue whose runtime is unlimited. *)
Definition finite_runtime (s : sys) (i : nat) : Z :=
  if decide (rt_runtime (rt_of s i) = RUNTIME_INF) then 0 else rt_runtime (rt_of s i).

(** The share a queue has a claim on. *)
Definition claim (s : sys) (i : nat) : Z :=
  if decide (rt_runtime (rt_of s i) = RUNTIME_INF) then 0 else bw_runtime (bw s).

Definition total_runtime (s : sys) : Z := sum_of (finite_runtime s) (span (rd s)).
Definition total_claim (s : sys) : Z := sum_of (claim s) (span (rd s)).

(** The runtimes are sane and add up to what the queues have a claim on; the
    numbers are too small to wrap. *)
Record bw_ok (s : sys) : Prop := {
  bo_span : NoDup (span (rd s));
  bo_small : Z.of_nat (length (span (rd s))) * bw_runtime (bw s) < 2 ^ 62;
  bo_bw : 0 <= bw_runtime (bw s);
  bo_period : 0 <= bw_period (bw s) < 2 ^ 62;
  bo_runtime i : i ∈ span (rd s) → rt_runtime (rt_of s i) ≠ RUNTIME_INF → 0 <= rt_runtime (rt_of s i);
  bo_time i : 0 <= rt_time (rt_of s i) < 2 ^ 62;
  bo_total : total_runtime s = total_claim s;
}.

Lemma finite_nonneg s i : bw_ok s → i ∈ span (rd s) → 0 <= finite_runtime s i.
Proof. intros Hb Hi. unfold finite_runtime. case_decide; [done|]. by apply (bo_runtime _ Hb). Qed.

Lemma bw_small s i : bw_ok s → i ∈ span (rd s) → bw_runtime (bw s) < 2 ^ 62.
Proof.
  intros Hb Hi. pose proof (bo_small _ Hb). pose proof (bo_bw _ Hb).
  destruct (span (rd s)) as [|x l]; [set_solver|]. cbn [length] in *. nia.
Qed.

(** No runtime exceeds the sum of all claims, so nothing wraps. *)
Lemma runtime_small s i :
  bw_ok s → i ∈ span (rd s) → rt_runtime (rt_of s i) ≠ RUNTIME_INF → 0 <= rt_runtime (rt_of s i) < 2 ^ 62.
Proof.
  intros Hb Hi Hn. split; [by apply (bo_runtime _ Hb)|].
  pose proof (sum_of_elem (finite_runtime s) _ i (λ j, finite_nonneg s j Hb) Hi) as He.
  change (sum_of (finite_runtime s) (span (rd s))) with (total_runtime s) in He. rewrite (bo_total _ Hb) in He.
  unfold finite_runtime in He. rewrite decide_False in He by done.
  pose proof (sum_of_bound (claim s) (span (rd s)) (bw_runtime (bw s))) as Hc.
  unfold total_claim in He. pose proof (bo_small _ Hb). pose proof (bo_bw _ Hb).
  assert (∀ j, j ∈ span (rd s) → claim s j <= bw_runtime (bw s)) as Hcl by (intros j _; unfold claim; case_decide; lia).
  specialize (Hc Hcl). lia.
Qed.

Lemma small_not_inf x : x < 2 ^ 62 → x ≠ RUNTIME_INF.
Proof. intros Hx ->. by apply (Z.lt_irrefl RUNTIME_INF), Z.lt_trans with (2 ^ 62). Qed.

(** ** Moving runtime from a queue to another *)

(** Queue [i] gives [d] to queue [c]; nothing else about runtimes changes. *)
Record lends (i c : nat) (d : Z) (s s' : sys) : Prop := {
  le_rd : rd s' = rd s;
  le_bw : bw s' = bw s;
  le_time j : rt_time (rt_of s' j) = rt_time (rt_of s j);
  le_i : rt_runtime (rt_of s' i) = rt_runtime (rt_of s i) - d;
  le_c : rt_runtime (rt_of s' c) = rt_runtime (rt_of s c) + d;
  le_other j : j ≠ i → j ≠ c → rt_runtime (rt_of s' j) = rt_runtime (rt_of s j);
}.

Lemma lends_ok i c d s s' :
  bw_ok s → lends i c d s s' → i ≠ c → i ∈ span (rd s) → c ∈ span (rd s) →
  rt_runtime (rt_of s i) ≠ RUNTIME_INF → rt_runtime (rt_of s c) ≠ RUNTIME_INF →
  0 <= rt_runtime (rt_of s i) - d → 0 <= rt_runtime (rt_of s c) + d → bw_ok s'.
Proof.
  intros Hb Hl Hic Hi Hc Hni Hnc H1 H2.
  pose proof (runtime_small s i Hb Hi Hni). pose proof (runtime_small s c Hb Hc Hnc).
  assert (∀ x, 0 <= x < 2 ^ 63 → x ≠ RUNTIME_INF) as Hfin.
  { intros x Hx ->. unfold RUNTIME_INF in Hx. lia. }
  assert (rt_runtime (rt_of s' i) ≠ RUNTIME_INF) as Hni' by (rewrite (le_i _ _ _ _ _ Hl); apply Hfin; lia).
  assert (rt_runtime (rt_of s' c) ≠ RUNTIME_INF) as Hnc' by (rewrite (le_c _ _ _ _ _ Hl); apply Hfin; lia).
  destruct Hb as [? ? ? ? Hrt ? Htot].
  assert (total_claim s' = total_claim s) as Hcl.
  { unfold total_claim. rewrite (le_rd _ _ _ _ _ Hl). apply sum_of_ext. intros j _. unfold claim.
    rewrite (le_bw _ _ _ _ _ Hl). destruct (decide (j = i)) as [->|]; [by rewrite !decide_False|].
    destruct (decide (j = c)) as [->|]; [by rewrite !decide_False|]. by rewrite (le_other _ _ _ _ _ Hl). }
  assert (total_runtime s' = total_runtime s) as Hrs.
  { unfold total_runtime. rewrite (le_rd _ _ _ _ _ Hl).
    set (mid := λ j, if decide (j = i) then finite_runtime s i - d else finite_runtime s j).
    rewrite (sum_of_delta mid (finite_runtime s') _ c d); [|done|done| |].
    - rewrite (sum_of_delta (finite_runtime s) mid _ i (- d)); [lia|done|done| |].
      + unfold mid. rewrite decide_True by done. lia.
      + intros j Hj. unfold mid. by rewrite decide_False.
    - unfold mid, finite_runtime. rewrite !decide_False by done. apply (le_c _ _ _ _ _ Hl).
    - intros j Hj. unfold mid, finite_runtime. destruct (decide (j = i)) as [->|].
      + rewrite !decide_False by done. apply (le_i _ _ _ _ _ Hl).
      + by rewrite (le_other _ _ _ _ _ Hl). }
  split; rewrite ?(le_rd _ _ _ _ _ Hl), ?(le_bw _ _ _ _ _ Hl); try done.
  - intros j Hj Hn. destruct (decide (j = i)) as [->|]; [rewrite (le_i _ _ _ _ _ Hl); lia|].
    destruct (decide (j = c)) as [->|]; [rewrite (le_c _ _ _ _ _ Hl); lia|].
    rewrite (le_other _ _ _ _ _ Hl) in Hn |- * by done. by apply Hrt.
  - intros j. by rewrite (le_time _ _ _ _ _ Hl).
  - by rewrite Hrs, Hcl.
Qed.

Lemma rt_time_upd c x s j : rt_time (rt_of (upd_rt c (set_rt_runtime x) s) j) = rt_time (rt_of s j).
Proof. rewrite rt_of_upd_rt. by case_decide; subst. Qed.

Lemma rt_runtime_upd c x s j :
  rt_runtime (rt_of (upd_rt c (set_rt_runtime x) s) j) = if decide (j = c) then x else rt_runtime (rt_of s j).
Proof. rewrite rt_of_upd_rt. by case_decide; subst. Qed.

Lemma upd_lends i c d s x y :
  i ≠ c → x = rt_runtime (rt_of s i) - d → y = rt_runtime (rt_of s c) + d →
  lends i c d s (upd_rt c (set_rt_runtime y) (upd_rt i (set_rt_runtime x) s)).
Proof.
  intros Hic -> ->. split; try done.
  - intros j. by rewrite !rt_time_upd.
  - by rewrite !rt_runtime_upd, decide_False, decide_True.
  - by rewrite !rt_runtime_upd, decide_True.
  - intros j Hi Hc. by rewrite !rt_runtime_upd, !decide_False.
Qed.

(** ** Borrowing *)

(** How queue [c] may have borrowed: the settings and the used times are the same,
    lenders keep what they used, and [c] has gained, up to the period. *)
Record borrowed (c : nat) (s s' : sys) : Prop := {
  bd_rd : rd s' = rd s;
  bd_bw : bw s' = bw s;
  bd_time j : rt_time (rt_of s' j) = rt_time (rt_of s j);
  bd_keeps j : j ≠ c → rt_time (rt_of s j) <= rt_runtime (rt_of s j) → rt_time (rt_of s' j) <= rt_runtime (rt_of s' j);
  bd_limited j : rt_runtime (rt_of s' j) = RUNTIME_INF ↔ rt_runtime (rt_of s j) = RUNTIME_INF;
  bd_gain : rt_runtime (rt_of s c) <= bw_period (bw s) →
    rt_runtime (rt_of s c) <= rt_runtime (rt_of s' c) <= bw_period (bw s);
}.

Lemma borrowed_refl c s : borrowed c s s.
Proof. split; try done; lia. Qed.

Lemma borrowed_trans c s1 s2 s3 : borrowed c s1 s2 → borrowed c s2 s3 → borrowed c s1 s3.
Proof.
  intros [E1 E2 E3 E4 E5 E6] [F1 F2 F3 F4 F5 F6]. split.
  - by rewrite F1.
  - by rewrite F2.
  - intros j. by rewrite F3.
  - intros j Hj Hle. by apply F4, E4.
  - intros j. by rewrite F5.
  - intros Hle. rewrite E2 in F6. specialize (E6 Hle). specialize (F6 ltac:(lia)). lia.
Qed.

(** What a queue takes from another that has runtime to spare. *)
Definition share (c i : nat) (w : Z) (s : sys) : Z :=
  let d := (rt_runtime (rt_of s i) - rt_time (rt_of s i)) / w in
  if decide (bw_period (bw s) < rt_runtime (rt_of s c) + d) then bw_period (bw s) - rt_runtime (rt_of s c) else d.

Lemma div_between x w : 0 <= x → 0 < w → 0 <= x / w <= x.
Proof. intros Hx Hw. split; [by apply Z.div_pos|]. apply Z.div_le_upper_bound; nia. Qed.

Lemma share_range c i w s :
  bw_ok s → 0 < w → rt_time (rt_of s i) < rt_runtime (rt_of s i) →
  share c i w s <= rt_runtime (rt_of s i) - rt_time (rt_of s i) ∧
  (share c i w s < 0 → bw_period (bw s) < rt_runtime (rt_of s c)) ∧
  (rt_runtime (rt_of s c) <= bw_period (bw s) → 0 <= share c i w s ∧ rt_runtime (rt_of s c) + share c i w s <= bw_period (bw s)) ∧
  (share c i w s < 0 → share c i w s = bw_period (bw s) - rt_runtime (rt_of s c)).
Proof.
  intros Hb Hw Hlt. unfold share. set (x := rt_runtime (rt_of s i) - rt_time (rt_of s i)).
  assert (0 <= x / w <= x) as Hx.
  { apply div_between; lia. }
  cbv zeta. case_decide; lia.
Qed.

(** One lender of [do_balance_runtime]. *)
Lemma borrow_step c i w s :
  bw_ok s → 0 < w → i ≠ c → i ∈ span (rd s) → c ∈ span (rd s) →
  rt_runtime (rt_of s i) ≠ RUNTIME_INF → rt_runtime (rt_of s c) ≠ RUNTIME_INF →
  rt_time (rt_of s i) < rt_runtime (rt_of s i) →
  let d := share c i w s in
  let s' := upd_rt c (set_rt_runtime (rt_runtime (rt_of s c) + d)) (upd_rt i (set_rt_runtime (rt_runtime (rt_of s i) - d)) s) in
  bw_ok s' ∧ borrowed c s s'.
Proof.
  intros Hb Hw Hic Hi Hc Hni Hnc Hlt d s'. destruct (share_range c i w s Hb Hw Hlt) as (H1' & _ & H3' & H4').
  fold d in H1', H3', H4'.
  pose proof (runtime_small s i Hb Hi Hni). pose proof (runtime_small s c Hb Hc Hnc).
  pose proof (bo_time _ Hb i). pose proof (bo_period _ Hb).
  pose proof (upd_lends i c d s _ _ Hic eq_refl eq_refl) as Hl. fold s' in Hl.
  assert (0 <= rt_runtime (rt_of s c) + d) as Hpos by lia.
  pose proof (lends_ok i c d s s' Hb Hl Hic Hi Hc Hni Hnc ltac:(lia) Hpos) as Hb'.
  split; [done|]. split; try apply Hl.
  - intros j Hj Hle. rewrite (le_time _ _ _ _ _ Hl). destruct (decide (j = i)) as [->|]; [rewrite (le_i _ _ _ _ _ Hl); lia|].
    by rewrite (le_other _ _ _ _ _ Hl).
  - intros j. destruct (decide (j = i)) as [->|]; [|destruct (decide (j = c)) as [->|]; [|by rewrite (le_other _ _ _ _ _ Hl)]].
    + rewrite (le_i _ _ _ _ _ Hl). split; [|done]. unfold RUNTIME_INF. lia.
    + rewrite (le_c _ _ _ _ _ Hl). split; [|done]. unfold RUNTIME_INF. lia.
  - rewrite (le_c _ _ _ _ _ Hl). lia.
Qed.

Lemma balance_loop_ok c w cpus more s :
  bw_ok s → 0 < w < 2 ^ 32 → c ∈ span (rd s) → cpus ⊆ span (rd s) → rt_runtime (rt_of s c) ≠ RUNTIME_INF →
  bw_ok (snd (balance_loop c w cpus more s)) ∧ borrowed c s (snd (balance_loop c w cpus more s)).
Proof.
  revert more s. induction cpus as [|i cpus IH]; intros more s Hb Hw Hc Hsub Hnc; cbn -[s64 u64].
  { split; [done|apply borrowed_refl]. }
  assert (cpus ⊆ span (rd s)) as Hsub' by set_solver. assert (i ∈ span (rd s)) as Hi by set_solver.
  case_decide as Hic; [by apply IH|]. case_decide as Hni; [by apply IH|].
  pose proof (runtime_small s i Hb Hi Hni). pose proof (runtime_small s c Hb Hc Hnc).
  pose proof (bo_time _ Hb i). pose proof (bo_period _ Hb).
  rewrite (wrap_s_small 64 (rt_runtime (rt_of s i) - _)) by lia.
  case_decide as Hd; [|by apply IH].
  rewrite (wrap_u_small 64 (rt_runtime (rt_of s i) - _)) by lia. unfold sched_rt_runtime, sched_rt_period.
  destruct (share_range c i w s Hb ltac:(lia) ltac:(lia)) as (Hs1 & _ & Hs3 & Hs4).
  set (d0 := (rt_runtime (rt_of s i) - rt_time (rt_of s i)) / w) in *.
  assert (0 <= d0 <= rt_runtime (rt_of s i) - rt_time (rt_of s i)) as Hd0.
  { apply div_between; lia. }
  rewrite (wrap_u_small 64 (rt_runtime (rt_of s c) + d0)) by lia.
  rewrite (wrap_s_small 64 (bw_period (bw s) - _)) by lia.
  change (if decide (bw_period (bw s) < rt_runtime (rt_of s c) + d0) then bw_period (bw s) - rt_runtime (rt_of s c) else d0)
    with (share c i w s).
  set (d := share c i w s) in *. rewrite !wrap_u_small by lia.
  destruct (borrow_step c i w s Hb ltac:(lia) Hic Hi Hc Hni Hnc ltac:(lia)) as [Hb' Hbd]. fold d in Hb', Hbd.
  cbv zeta in Hb', Hbd. set (s' := upd_rt c _ (upd_rt i _ s)) in *.
  case_decide; cbn [snd]; [done|].
  destruct (IH true s') as [? ?]; try done; [by rewrite (bd_rd _ _ _ Hbd)..|by rewrite (bd_limited _ _ _ Hbd)|].
  split; [done|]. by eapply borrowed_trans.
Qed.

(** C12: borrowing conserves the runtime of the root domain; whoever lends keeps what
    it has used, and the borrower ends with no more than the period. *)
Theorem balance_conserves c s :
  bw_ok s → c ∈ span (rd s) → rt_runtime (rt_of s c) ≠ RUNTIME_INF → Z.of_nat (length (span (rd s))) < 2 ^ 32 →
  let s' := snd (do_balance_runtime c s) in
  bw_ok s' ∧ total_runtime s' = total_runtime s ∧ borrowed c s s'.
Proof.
  intros Hb Hc Hnc Hlen s'. unfold s', do_balance_runtime.
  destruct (balance_loop_ok c (Z.of_nat (length (span (rd s)))) (span (rd s)) false s Hb) as [Hb' Hbd]; try done.
  { destruct (span (rd s)); [set_solver|cbn in *; lia]. }
  split; [done|]. split; [|done]. rewrite (bo_total _ Hb'), (bo_total _ Hb). unfold total_claim.
  rewrite (bd_rd _ _ _ Hbd). apply sum_of_ext. intros i _. unfold claim. rewrite (bd_bw _ _ _ Hbd).
  destruct (decide (rt_runtime (rt_of s i) = RUNTIME_INF)) as [E|E].
  - rewrite decide_True; [done|]. by apply (bd_limited _ _ _ Hbd).
  - rewrite decide_False; [done|]. by rewrite (bd_limited _ _ _ Hbd).
Qed.

End runtime.
