(* ===== verification/RtLeave.v ===== *)
(** * A queue that leaves takes back its runtime (sched_rt.c,
      src/indwriterups/project1) *)

From S2P Require Import Prelude RtState RtBandwidth RtView RtRuntime.

Local Open Scope Z_scope.

Section leaving.
Context `{RtEnv} (c : nat).

(** The runtime of the other queues. *)
Definition other_runtime (s : sys) (i : nat) : Z := if decide (i = c) then 0 else finite_runtime s i.

Definition sum_others (s : sys) : Z := sum_of (other_runtime s) (span (rd s)).

Lemma sum_others_total s : NoDup (span (rd s)) → c ∈ span (rd s) → total_runtime s = sum_others s + finite_runtime s c.
Proof.
  intros Hnd Hc. unfold total_runtime, sum_others.
  apply (sum_of_delta (other_runtime s) (finite_runtime s) _ c); [done|done| |].
  - unfold other_runtime. by rewrite decide_True.
  - intros j Hj. unfold other_runtime. by rewrite decide_False.
Qed.

(** From [s] to [s'], [d] was taken from the other queues. *)
Record taken (d : Z) (s s' : sys) : Prop := {
  tk_rd : rd s' = rd s;
  tk_bw : bw s' = bw s;
  tk_time j : rt_time (rt_of s' j) = rt_time (rt_of s j);
  tk_c : rt_runtime (rt_of s' c) = rt_runtime (rt_of s c);
  tk_limited j : rt_runtime (rt_of s' j) = RUNTIME_INF ↔ rt_runtime (rt_of s j) = RUNTIME_INF;
  tk_sum : sum_others s' = sum_others s - d;
}.

Lemma taken_refl s : taken 0 s s.
Proof. split; try done. lia. Qed.

Lemma taken_trans d e s1 s2 s3 : taken d s1 s2 → taken e s2 s3 → taken (d + e) s1 s3.
Proof.
  intros [E1 E2 E3 E4 E5 E6] [F1 F2 F3 F4 F5 F6].
  split; [by rewrite F1|by rewrite F2|intros j; by rewrite F3|by rewrite F4|intros j; by rewrite F5|lia].
Qed.

(** The other queues with a limit have a runtime that does not wrap. *)
Definition others_small (s : sys) : Prop :=
  ∀ i, i ∈ span (rd s) → i ≠ c → rt_runtime (rt_of s i) ≠ RUNTIME_INF → 0 <= rt_runtime (rt_of s i) < 2 ^ 62.

Lemma take_step i d s :
  NoDup (span (rd s)) → i ∈ span (rd s) → i ≠ c → rt_runtime (rt_of s i) ≠ RUNTIME_INF →
  0 <= rt_runtime (rt_of s i) - d < 2 ^ 63 →
  taken d s (upd_rt i (set_rt_runtime (rt_runtime (rt_of s i) - d)) s).
Proof.
  intros Hnd Hi Hic Hn Hd. set (s' := upd_rt i _ s).
  assert (∀ j, rt_runtime (rt_of s' j) = if decide (j = i) then rt_runtime (rt_of s i) - d else rt_runtime (rt_of s j)) as Hr
    by (intros j; apply rt_runtime_upd).
  assert (rt_runtime (rt_of s i) - d ≠ RUNTIME_INF) as Hfin by (unfold RUNTIME_INF; lia).
  split; try done.
  - intros j. apply rt_time_upd.
  - rewrite Hr, decide_False; [done|]. by intros ->.
  - intros j. rewrite Hr. by case_decide; subst.
  - unfold sum_others. change (rd s') with (rd s).
    rewrite (sum_of_delta (other_runtime s) (other_runtime s') _ i (- d)); [lia|done|done| |].
    + unfold other_runtime, finite_runtime. rewrite !Hr, !(decide_False (P := i = c)), (decide_True (P := i = i)) by done.
      rewrite !decide_False by done. lia.
    + intros j Hj. unfold other_runtime, finite_runtime. by rewrite !Hr, (decide_False (P := j = i)).
Qed.

(** Taking back: the runtimes of others only shrink, and when something is still
    missing at the end they are all used up. *)
Lemma reclaim_pos cpus want s :
  NoDup (span (rd s)) → cpus ⊆ span (rd s) → others_small s → 0 < want < 2 ^ 63 →
  let r := reclaim_loop c cpus want s in
  taken (want - r.1) s r.2 ∧ 0 <= r.1 ∧
  (∀ i, i ∈ span (rd s) → i ≠ c → rt_runtime (rt_of s i) ≠ RUNTIME_INF →
    0 <= rt_runtime (rt_of r.2 i) <= rt_runtime (rt_of s i)) ∧
  (r.1 ≠ 0 → ∀ i, i ∈ cpus → i ≠ c → rt_runtime (rt_of s i) ≠ RUNTIME_INF → rt_runtime (rt_of r.2 i) = 0).
Proof.
  intros Hnd. revert want s Hnd. induction cpus as [|i cpus IH]; intros want s Hnd Hsub Hsm Hw; cbn -[s64 u64].
  { replace (want - want) with 0 by lia. split; [apply taken_refl|]. split; [lia|]. split; [|set_solver].
    intros i Hi Hic Hn. specialize (Hsm i Hi Hic Hn). lia. }
  assert (cpus ⊆ span (rd s)) as Hsub' by set_solver. assert (i ∈ span (rd s)) as Hi by set_solver.
  case_decide as Hskip.
  { destruct (IH want s Hnd Hsub' Hsm Hw) as (H1' & H2' & H3' & H4'). split_and!; try done.
    intros Hn j [->|Hj]%elem_of_cons Hjc Hjn; [by destruct Hskip|by apply H4']. }
  apply Decidable.not_or in Hskip as [Hic Hn]. pose proof (Hsm i Hi Hic Hn) as Hri.
  rewrite (decide_True (P := 0 < want)) by lia. rewrite (wrap_s_small 64 (rt_runtime _)) by lia.
  assert (∃ d, d = Z.min (rt_runtime (rt_of s i)) want) as [d Heq] by eauto. rewrite <- Heq.
  assert (0 <= d <= want ∧ d <= rt_runtime (rt_of s i)) as Hd by lia.
  rewrite (wrap_u_small 64 (rt_runtime _ - d)) by lia. rewrite (wrap_s_small 64 (want - d)) by lia.
  pose proof (take_step i d s Hnd Hi Hic Hn ltac:(lia)) as Ht. set (s1 := upd_rt i _ s) in *.
  assert (∀ j, rt_runtime (rt_of s1 j) = if decide (j = i) then rt_runtime (rt_of s i) - d else rt_runtime (rt_of s j)) as Hr
    by (intros j; apply rt_runtime_upd).
  assert (∀ j, j ∈ span (rd s) → j ≠ c → rt_runtime (rt_of s j) ≠ RUNTIME_INF →
    0 <= rt_runtime (rt_of s1 j) <= rt_runtime (rt_of s j)) as Hshrink.
  { intros j Hj Hjc Hjn. rewrite Hr. specialize (Hsm j Hj Hjc Hjn). case_decide; subst; lia. }
  case_decide as Hz; cbn [fst snd].
  { rewrite Hz. replace (want - 0) with d by lia. split_and!; [done|done|done|done]. }
  assert (others_small s1) as Hsm1.
  { intros j Hj Hjc Hjn. rewrite (tk_limited _ _ _ Ht) in Hjn. specialize (Hsm j Hj Hjc Hjn).
    specialize (Hshrink j Hj Hjc Hjn). lia. }
  destruct (IH (want - d) s1 Hnd Hsub' Hsm1 ltac:(lia)) as (H1' & H2' & H3' & H4').
  split_and!; [|done| |].
  - replace (want - _) with (d + (want - d - (reclaim_loop c cpus (want - d) s1).1)) by lia. by eapply taken_trans.
  - intros j Hj Hjc Hjn. specialize (Hshrink j Hj Hjc Hjn).
    specialize (H3' j Hj Hjc ltac:(by rewrite (tk_limited _ _ _ Ht))). lia.
  - intros Hne j [->|Hj]%elem_of_cons Hjc Hjn.
    + specialize (H3' i Hi Hic ltac:(by rewrite (tk_limited _ _ _ Ht))). rewrite Hr, decide_True in H3' by done. lia.
    + apply H4'; [done..|]. by rewrite (tk_limited _ _ _ Ht).
Qed.

(** Giving back: the first other queue with a limit gets everything. *)
Lemma reclaim_neg cpus want s :
  NoDup (span (rd s)) → cpus ⊆ span (rd s) → others_small s → - 2 ^ 62 < want < 0 →
  let r := reclaim_loop c cpus want s in
  (r.1 = 0 ∧ taken want s r.2 ∧ (∀ i, i ∈ span (rd s) → i ≠ c → rt_runtime (rt_of s i) ≠ RUNTIME_INF →
      0 <= rt_runtime (rt_of r.2 i))) ∨
  (∀ i, i ∈ cpus → i ≠ c → rt_runtime (rt_of s i) = RUNTIME_INF).
Proof.
  intros Hnd Hsub Hsm Hw. induction cpus as [|i cpus IH]; cbn -[s64 u64].
  { right. set_solver. }
  assert (i ∈ span (rd s)) as Hi by set_solver.
  case_decide as Hskip.
  { destruct IH as [IH|IH]; [set_solver|by left|right].
    intros j [->|Hj]%elem_of_cons Hjc; [by destruct Hskip|by apply IH]. }
  apply Decidable.not_or in Hskip as [Hic Hn]. pose proof (Hsm i Hi Hic Hn) as Hri.
  rewrite (decide_False (P := 0 < want)) by lia. rewrite (wrap_u_small 64 (rt_runtime _ - want)) by lia.
  rewrite (wrap_s_small 64 (want - want)) by lia. rewrite decide_True by lia. left. cbn [fst snd].
  split; [lia|]. split; [by apply take_step; [..|lia]|].
  intros j Hj Hjc Hjn. rewrite rt_runtime_upd. specialize (Hsm j Hj Hjc Hjn). case_decide; lia.
Qed.

(** ** Leaving *)

(** The queue has no limit any more and no claim. *)
Lemma leave_ok d s s1 :
  bw_ok s → c ∈ span (rd s) → rt_runtime (rt_of s c) ≠ RUNTIME_INF →
  d = bw_runtime (bw s) - rt_runtime (rt_of s c) → taken d s s1 →
  (∀ i, i ∈ span (rd s) → i ≠ c → rt_runtime (rt_of s i) ≠ RUNTIME_INF → 0 <= rt_runtime (rt_of s1 i)) →
  bw_ok (upd_rt c (set_rt_runtime RUNTIME_INF) s1).
Proof.
  intros Hb Hc Hn Hd Ht Hpos. set (s2 := upd_rt c _ s1).
  assert (∀ j, rt_runtime (rt_of s2 j) = if decide (j = c) then RUNTIME_INF else rt_runtime (rt_of s1 j)) as Hr
    by (intros j; apply rt_runtime_upd).
  assert (rd s2 = rd s) as Hrd by apply Ht. assert (bw s2 = bw s) as Hbw by apply Ht.
  destruct Hb as [? ? ? ? Hrt Htime Htot]. split; rewrite ?Hrd, ?Hbw; try done.
  - intros i Hi Hni. rewrite Hr in Hni |- *. case_decide; [done|]. apply Hpos; [done..|].
    by rewrite <- (tk_limited _ _ _ Ht).
  - intros i. unfold s2. rewrite rt_time_upd, (tk_time _ _ _ Ht). apply Htime.
  - assert (total_runtime s2 = sum_others s1) as ->.
    { unfold total_runtime, sum_others. change (rd s2) with (rd s1). apply sum_of_ext. intros i _.
      unfold other_runtime, finite_runtime. rewrite Hr. destruct (decide (i = c)); [by rewrite decide_True|done]. }
    assert (total_claim s2 = total_claim s - bw_runtime (bw s)) as ->.
    { unfold total_claim. rewrite Hrd, (sum_of_delta (claim s) (claim s2) _ c (- bw_runtime (bw s))); [lia|done|done| |].
      - unfold claim. rewrite Hr, (decide_True (P := c = c)), decide_True, decide_False by done. lia.
      - intros j Hj. unfold claim. rewrite Hr, (decide_False (P := j = c)) by done. rewrite Hbw.
        destruct (decide (rt_runtime (rt_of s j) = RUNTIME_INF)) as [E|E].
        + rewrite decide_True; [done|]. by apply (tk_limited _ _ _ Ht).
        + rewrite decide_False; [done|]. by rewrite (tk_limited _ _ _ Ht). }
    rewrite (tk_sum _ _ _ Ht). pose proof (sum_others_total s ltac:(done) Hc) as Hs.
    unfold finite_runtime in Hs. rewrite decide_False in Hs by done. lia.
Qed.

Lemma disable_unlimited s :
  bw_ok s → c ∈ span (rd s) → rt_runtime (rt_of s c) = RUNTIME_INF → bw_ok (upd_rt c (set_rt_runtime RUNTIME_INF) s).
Proof.
  intros Hb Hc Hn.
  assert (∀ j, rt_runtime (rt_of (upd_rt c (set_rt_runtime RUNTIME_INF) s) j) = rt_runtime (rt_of s j)) as Hr
    by (intros j; rewrite rt_runtime_upd; by case_decide; subst).
  destruct Hb as [? ? ? ? Hrt Htime Htot]. split; try done.
  - intros i. rewrite Hr. apply Hrt.
  - intros i. by rewrite rt_time_upd.
  - unfold total_runtime, total_claim, finite_runtime, claim in *. cbn [rd upd_rt upd_rq bw].
    etransitivity; [|etransitivity; [exact Htot|]]; apply sum_of_ext; intros i _; by rewrite Hr.
Qed.

(** What the others have covers what the queue misses, and they exist when it has
    too much. *)
Lemma others_cover s :
  bw_ok s → c ∈ span (rd s) → rt_runtime (rt_of s c) ≠ RUNTIME_INF →
  bw_runtime (bw s) - rt_runtime (rt_of s c) <= sum_others s ∧
  ((∀ i, i ∈ span (rd s) → i ≠ c → rt_runtime (rt_of s i) = RUNTIME_INF) →
   rt_runtime (rt_of s c) = bw_runtime (bw s)).
Proof.
  intros Hb Hc Hn. pose proof (sum_others_total s (bo_span _ Hb) Hc) as Hs.
  rewrite (bo_total _ Hb) in Hs. unfold finite_runtime in Hs. rewrite decide_False in Hs by done.
  set (oc := λ i, if decide (i = c) then 0 else claim s i).
  assert (total_claim s = sum_of oc (span (rd s)) + bw_runtime (bw s)) as Hcl.
  { unfold total_claim. apply (sum_of_delta oc (claim s) _ c); [apply Hb|done| |].
    - unfold oc, claim. rewrite (decide_True (P := c = c)), decide_False by done. lia.
    - intros j Hj. unfold oc. by rewrite decide_False. }
  assert (0 <= sum_of oc (span (rd s))) as Hpos.
  { apply sum_of_nonneg. intros i _. unfold oc, claim. pose proof (bo_bw _ Hb). repeat case_decide; lia. }
  split; [lia|]. intros Hall.
  assert (sum_of oc (span (rd s)) = 0) as E1.
  { apply sum_of_zero. intros i Hi. unfold oc, claim. case_decide as Hic; [done|]. by rewrite decide_True by by apply Hall. }
  assert (sum_others s = 0) as E2.
  { apply sum_of_zero. intros i Hi. unfold other_runtime, finite_runtime. case_decide as Hic; [done|].
    by rewrite decide_True by by apply Hall. }
  lia.
Qed.

(** Reclaiming finds everything that is missing. *)
Lemma reclaim_all s :
  bw_ok s → c ∈ span (rd s) → rt_runtime (rt_of s c) ≠ RUNTIME_INF → rt_runtime (rt_of s c) ≠ bw_runtime (bw s) →
  let want := bw_runtime (bw s) - rt_runtime (rt_of s c) in
  let r := reclaim_loop c (span (rd s)) want s in
  r.1 = 0 ∧ taken want s r.2 ∧ ∀ i, i ∈ span (rd s) → i ≠ c → rt_runtime (rt_of s i) ≠ RUNTIME_INF → 0 <= rt_runtime (rt_of r.2 i).
Proof.
  intros Hb Hc Hn Hne want r. destruct (others_cover s Hb Hc Hn) as [Hcov Hex].
  pose proof (runtime_small s c Hb Hc Hn) as Hsm.
  assert (others_small s) as Hos by (intros i Hi _ Hni; by apply runtime_small).
  pose proof (bo_bw _ Hb). pose proof (bw_small s c Hb Hc) as Hbw.
  destruct (decide (0 < want)) as [Hw|Hw].
  - destruct (reclaim_pos (span (rd s)) want s (bo_span _ Hb) ltac:(done) Hos ltac:(lia)) as (Ht & Hr & Hsh & Hz).
    fold r in Ht, Hr, Hsh, Hz. assert (r.1 = 0) as E.
    { destruct (decide (r.1 = 0)) as [|Hr0]; [done|]. exfalso. specialize (Hz Hr0).
      pose proof (tk_sum _ _ _ Ht) as Hsum. assert (sum_others r.2 = 0) as E0.
      { unfold sum_others. rewrite (tk_rd _ _ _ Ht). apply sum_of_zero. intros i Hi. unfold other_runtime, finite_runtime. case_decide as Hic; [done|].
        case_decide as Hinf; [done|]. apply Hz; [done..|]. by rewrite <- (tk_limited _ _ _ Ht). }
      unfold want in *. lia. }
    split; [done|]. rewrite E in Ht. replace (want - 0) with want in Ht by lia. split; [done|].
    intros i Hi Hic Hni. by apply Hsh.
  - destruct (reclaim_neg (span (rd s)) want s (bo_span _ Hb) ltac:(done) Hos ltac:(unfold want in *; lia)) as [Hr|Hr];
      [exact Hr|]. by apply Hex in Hr.
Qed.


End leaving.
