(* ===== verification/RtHotplug.v ===== *)
(** * Bandwidth and processors that come and go (sched_rt.c and sched.c,
      src/indwriterups/project1)

    What [update_runtime] does to the runtime all queues of a root domain have
    together. *)

From S2P Require Import Prelude RtState RtBandwidth RtRuntime.

Local Open Scope Z_scope.

Section hotplug.
Context `{RtEnv}.

(** What is there beyond what the enabled queues may claim. *)
Definition surplus (s : sys) : Z := total_runtime s - total_claim s.

Lemma enabled_rt c s i : scheduler_running (bw s) = true →
  rt_of (enable_runtime c s) i =
  (if decide (i = c) then set_throttle false 0 (set_rt_runtime (bw_runtime (bw s)) (rt_of s c)) else rt_of s i).
Proof.
  intros Hr. unfold enable_runtime, __enable_runtime. rewrite Hr. unfold rt_of, upd_rt, upd_rq; cbn.
  case_decide; subst; [by rewrite fn_lookup_insert|by rewrite fn_lookup_insert_ne].
Qed.

Lemma enabled_bw c s : bw (enable_runtime c s) = bw s ∧ span (rd (enable_runtime c s)) = span (rd s).
Proof. unfold enable_runtime, __enable_runtime. by case_match. Qed.

Lemma enabled_surplus c s :
  bw_ok s → scheduler_running (bw s) = true → c ∈ span (rd s) →
  surplus (enable_runtime c s) =
  (if decide (rt_runtime (rt_of s c) = RUNTIME_INF) then 0 else bw_runtime (bw s) - rt_runtime (rt_of s c)).
Proof.
  intros Hok Hr Hc. pose proof (bw_small _ _ Hok Hc) as Hs. pose proof (bo_total _ Hok) as Ht.
  destruct (enabled_bw c s) as [Hbw Hspan].
  unfold surplus, total_runtime, total_claim in *. rewrite Hspan.
  assert (bw_runtime (bw s) ≠ RUNTIME_INF) as Hinf by by apply small_not_inf.
  rewrite (sum_of_delta (finite_runtime s) (finite_runtime (enable_runtime c s)) _ c (bw_runtime (bw s) - finite_runtime s c));
    [|apply Hok|done|unfold finite_runtime at 1|intros j Hj; unfold finite_runtime].
  - rewrite (sum_of_delta (claim s) (claim (enable_runtime c s)) _ c (bw_runtime (bw s) - claim s c));
      [|apply Hok|done|unfold claim at 1|intros j Hj; unfold claim].
    + unfold finite_runtime, claim in *. case_decide; lia.
    + rewrite enabled_rt, Hbw, (decide_True (P := c = c)) by done. cbn. rewrite decide_False by done. lia.
    + by rewrite enabled_rt, Hbw, (decide_False (P := j = c)).
  - rewrite enabled_rt, (decide_True (P := c = c)) by done. cbn. rewrite decide_False by done. lia.
  - by rewrite enabled_rt, (decide_False (P := j = c)).
Qed.

(** A processor is enabled twice when it comes up: by [rq_online_rt] and by this
    notifier.  The second time the books stay balanced exactly when the queue has
    its own share, neither lent nor borrowed. *)
Theorem second_enable_settles_iff c s :
  bw_ok s → scheduler_running (bw s) = true → c ∈ span (rd s) → rt_runtime (rt_of s c) ≠ RUNTIME_INF →
  ∃ s', update_runtime CPU_ONLINE c s = Some (true, s') ∧ (bw_ok s' ↔ rt_runtime (rt_of s c) = bw_runtime (bw s)).
Proof.
  intros Hok Hr Hc Hfin. eexists. split; [done|]. pose proof (enabled_surplus _ _ Hok Hr Hc) as Hs.
  rewrite decide_False in Hs by done. split.
  - intros Hok'. pose proof (bo_total _ Hok'). unfold surplus in Hs. lia.
  - intros Heq. destruct (enabled_bw c s) as [Hbw Hspan]. split; rewrite ?Hbw, ?Hspan; try apply Hok.
    + intros i Hi. rewrite enabled_rt by done. case_decide as Hd; cbn; [intros _|by apply (bo_runtime _ Hok)].
      rewrite <- Heq. subst i. by apply (bo_runtime _ Hok).
    + intros i. rewrite enabled_rt by done. case_decide; cbn; [lia|apply Hok].
    + unfold surplus in Hs. lia.
Qed.

(** The first time nothing is lost. *)
Theorem first_enable_settles c s :
  bw_ok s → scheduler_running (bw s) = true → c ∈ span (rd s) → rt_runtime (rt_of s c) = RUNTIME_INF →
  bw_ok (enable_runtime c s) ∧ rt_runtime (rt_of (enable_runtime c s) c) = bw_runtime (bw s).
Proof.
  intros Hok Hr Hc Hinf. pose proof (enabled_surplus _ _ Hok Hr Hc) as Hs. rewrite decide_True in Hs by done.
  destruct (enabled_bw c s) as [Hbw Hspan]. split; [split; rewrite ?Hbw, ?Hspan; try apply Hok|].
  - intros i Hi. rewrite enabled_rt by done. case_decide; cbn; [intros _; apply Hok|by apply (bo_runtime _ Hok)].
  - intros i. rewrite enabled_rt by done. case_decide; cbn; [lia|apply Hok].
  - unfold surplus in Hs. lia.
  - by rewrite enabled_rt, (decide_True (P := c = c)).
Qed.

End hotplug.
