(* ===== verification/RtDemo.v ===== *)
(** * A machine to try the scheduler on (sched_rt.c and sched.c,
      src/indwriterups/project1)

    The kernel library on lists and finite sets, an environment of two processors,
    other classes that do nothing, and small states: the theorems about the
    real-time class applied to them. *)

From S2P Require Import Prelude RtState RtBandwidth RtQueue SchedCore RtPush RtKeeps RtBalance SchedPolicy.
From S2P Require Import SchedTypes RtView RtInv RtEnqueue RtOps RtHandlers RtSpec RtTick RtSteps RtRuntime RtLeave RtHotplug.

Local Open Scope Z_scope.

(** ** The library *)

#[export] Instance list_lib : KernelLib := {|
  rlist := list nat;
  rlist_init := [];
  list_add p l := p :: l;
  list_add_tail p l := l ++ [p];
  list_del p l := filter (λ q, q ≠ p) l;
  list_items l := l;
  bitmap := gset nat;
  bitmap_zero := ∅;
  __set_bit i b := {[i]} ∪ b;
  __clear_bit i b := b ∖ {[i]};
  test_bit i b := bool_decide (i ∈ b);
  find_next_bit b n k := default n (find (λ i, bool_decide (i ∈ b)) (seq k (n - k)));
  plist := list (nat * Z);
  plist_init := [];
  plist_add p pr l := plist_insert p pr l;
  plist_del p l := filter (λ e, e.1 ≠ p) l;
  plist_items l := l;
|}.

Lemma find_seq (f : nat → bool) a n :
  match find f (seq a n) with
  | Some i => (a <= i < a + n)%nat ∧ f i = true ∧ ∀ j, (a <= j)%nat → (j < i)%nat → f j = false
  | None => ∀ j, (a <= j)%nat → (j < a + n)%nat → f j = false
  end.
Proof.
  revert a. induction n as [|n IH]; intros a; cbn; [lia|]. destruct (f a) eqn:E; [split; [lia|split; [done|lia]]|].
  specialize (IH (S a)). destruct (find f (seq (S a) n)).
  - destruct IH as (? & ? & Hl). split; [lia|]. split; [done|]. intros j Hj ?.
    destruct (decide (j = a)) as [->|]; [done|apply Hl; lia].
  - intros j Hj ?. destruct (decide (j = a)) as [->|]; [done|apply IH; lia].
Qed.

#[export] Instance list_lib_spec : KernelLibSpec.
Proof.
  split; try done.
  - intros i j b. cbn. case_decide; [apply bool_decide_eq_true_2|apply bool_decide_ext]; set_solver.
  - intros i j b. cbn. case_decide; [apply bool_decide_eq_false_2|apply bool_decide_ext]; set_solver.
  - intros b n k Hk. cbn. pose proof (find_seq (λ i, bool_decide (i ∈ b)) k (n - k)) as Hf.
    destruct (find _ _); cbn; lia.
  - intros b n k. cbn. pose proof (find_seq (λ i, bool_decide (i ∈ b)) k (n - k)) as Hf.
    destruct (find _ _); cbn; [intros _; apply Hf|lia].
  - intros b n k j Hk. cbn. pose proof (find_seq (λ i, bool_decide (i ∈ b)) k (n - k)) as Hf.
    destruct (find _ _); cbn; intros Hj; apply Hf; lia.
Qed.

(** ** The environment *)

#[export] Instance demo_rt_env : RtEnv := {|
  cpupri_find s p := if decide (1%nat ∈ cpus_allowed (tasks s p)) then Some {[1%nat]} else None;
  config_preempt := false;
  raw_spin_trylock s c := true;
  others held c d s := s;
  nr_cpu_ids := 2;
  cpu_online_mask := [0; 1]%nat;
  sched_clock_cpu s c := 1000;
  domains c := [];
  cpumask_any m := head (elements m);
  cpumask_first m := head (elements m);
|}.

Definition no_ops : class_ops :=
  mk_class_ops (λ _ _ _ _ s, s) (λ _ _ s, s) (λ _ s, s) (λ _ _ s, s) (λ _ s, Ok (None, s)) (λ _ _ s, s)
    (λ _ _ _, 0%nat) None None None None None None None (λ _ s, s) (λ _ _ s, s) (λ _ _, 0)
    (λ _ _ _ s, Ok s) (λ _ _ s, Ok s) None.

(** The idle class always has its task to offer. *)
Definition idle_ops : class_ops :=
  mk_class_ops (λ _ _ _ _ s, s) (λ _ _ s, s) (λ _ s, s) (λ _ _ s, s) (λ c s, Ok (Some (idle (rqs s c)), s)) (λ _ _ s, s)
    (λ _ _ _, 0%nat) None None None None None None None (λ _ s, s) (λ _ _ s, s) (λ _ _, 0)
    (λ _ _ _ s, Ok s) (λ _ _ s, Ok s) None.

#[export] Instance demo_classes : OtherClasses := {|
  other_class k := match k with idle_sched_class => idle_ops | _ => no_ops end;
|}.

#[export] Instance demo_policy : PolicyEnv := {|
  policy_name := 0;
  capable_sys_nice := true;
  rlimit_nice _ := 0;
  rlimit_rtprio _ := 0;
  same_user_ns _ := true;
  current_euid := 0;
  task_euid _ := 0;
  task_uid _ := 0;
  security_task_setscheduler _ := 0;
  security_task_setnice _ _ := 0;
  rt_mutex_getprio s p := normal_prio (tasks s p);
  rt_mutex_adjust_pi _ s := s;
  before_lock _ s := s;
  cpu_active _ := true;
  node_mask _ := [0; 1]%nat;
  cpuset_cpus_allowed_fallback _ s := (0%nat, s);
|}.

#[export] Instance demo_masks : MaskSpec.
Proof.
  split.
  - intros s p m. cbn. case_decide; [|done]. intros [= <-]. set_solver.
  - intros m c. cbn. destruct (elements m) as [|x l] eqn:E; [done|]. intros [= <-].
    apply elem_of_elements. rewrite E. set_solver.
  - intros m c. cbn. destruct (elements m) as [|x l] eqn:E; [done|]. intros [= <-].
    apply elem_of_elements. rewrite E. set_solver.
Qed.

(** ** Tasks 1, 2 and 3 are real-time tasks of processor 0, 5 is one that runs *)

Definition rt_demo_task (pr : Z) : task :=
  mk_task pr SCHED_RR rt_sched_class 2 {[0%nat; 1%nat]} 3 0 0 0 0 true false 0 false RLIM_INFINITY RLIM_INFINITY
    120 pr (99 - pr) true None None 0 false.

Definition fair_demo_task : task :=
  mk_task 120 SCHED_NORMAL fair_sched_class 2 {[0%nat; 1%nat]} 0 0 0 0 0 false false 0 false RLIM_INFINITY RLIM_INFINITY
    120 120 0 false None None 0 false.

Definition demo_tasks (p : nat) : task :=
  match p with
  | 1%nat | 3%nat => rt_demo_task 30
  | 2%nat => rt_demo_task 40
  | 5%nat => set_policy SCHED_FIFO (rt_demo_task 10)
  | _ => fair_demo_task
  end.

Definition demo_rq : rq := mk_rq init_rt_rq 0 5 0 0 0 true false 0 None [] None false.

Definition demo_bw : bandwidth := mk_bw 1000 950 false 950 true.

Definition machine : sys := mk_sys demo_tasks (λ _, demo_rq) (mk_rd [0; 1]%nat ∅ 0 (λ _, 100)) demo_bw (λ _, 0) 0.

(** Two of the tasks queued, and all three. *)
Definition two_queued : sys := enqueue_task_rt 0 3 false false (enqueue_task_rt 0 1 false false machine).

Definition three_queued : sys := enqueue_task_rt 0 2 true false two_queued.

Lemma machine_initial : initial machine.
Proof.
  split_and!; [done|done|]. intros p Hp. cbn [tasks machine] in *. unfold demo_tasks in *.
  do 6 (destruct p as [|p]; [done|]). done.
Qed.

Lemma demo_reliable : reliable.
Proof. split; [done|..]; intros; destruct k; done. Qed.

Lemma two_reached : rtc rt_step machine two_queued.
Proof.
  eapply rtc_l; [by apply (step_enqueue 0 1 false false machine)|]. apply rtc_once.
  apply (step_enqueue 0 3). vm_compute. reflexivity.
Qed.

Lemma three_reached : rtc rt_step machine three_queued.
Proof. eapply rtc_r; [apply two_reached|]. apply (step_enqueue 0 2). vm_compute. reflexivity. Qed.

Lemma reached_ok s : rtc rt_step machine s → rt_inv s.
Proof. intros Hr. exact (rt_steps_inv demo_reliable _ _ Hr (initial_inv machine machine_initial)). Qed.

Lemma machine_ok : sys_ok machine.
Proof. apply (initial_inv machine machine_initial). Qed.

Lemma two_ok : sys_ok two_queued.
Proof. apply (reached_ok _ two_reached). Qed.

Lemma three_ok : sys_ok three_queued.
Proof. apply (reached_ok _ three_reached). Qed.

Lemma run_queues_well_formed_witness : rt_inv three_queued ∧ abs three_queued 0 = [(1%nat, 30); (3%nat, 30); (2%nat, 40)].
Proof.
  split; [|vm_compute; reflexivity].
  exact (run_queues_well_formed demo_reliable machine three_queued machine_initial three_reached).
Defined.

Lemma pick_is_most_urgent_witness :
  fst <$> pick_next_task_rt 0 three_queued = Some (fst <$> most_urgent (abs three_queued 0)) ∧
  fst <$> pick_next_task_rt 0 three_queued = Some (Some 1%nat).
Proof.
  split; [|vm_compute; reflexivity]. apply (pick_is_most_urgent three_queued 0 three_ok). vm_compute. reflexivity.
Defined.

Definition demo_ops : list q_op :=
  [q_enqueue 0 2 true false; q_requeue 1 false; q_account 0; q_dequeue 0 3; q_put_prev 0 1; q_set_curr 0].

Lemma queues_refine_witness :
  (sys_ok (exec_all demo_ops two_queued) ∧
   ∀ c, abs (exec_all demo_ops two_queued) c = spec_all (tasks two_queued) c demo_ops (abs two_queued c)) ∧
  spec_all (tasks two_queued) 0 demo_ops (abs two_queued 0) = [(1%nat, 30); (2%nat, 40)].
Proof.
  split; [|vm_compute; reflexivity]. apply (queues_refine demo_ops two_queued two_ok).
  assert (rt_fits two_queued 2) as Hf by (split_and!; vm_compute; (discriminate || reflexivity)).
  repeat (apply List.Forall_cons; [first [exact I|exact Hf]|]). apply List.Forall_nil.
Defined.

Lemma absent_from_two c : 2%nat ∉ queued (rt_of two_queued c).
Proof.
  intros Hp. pose proof (queued_cpu _ _ _ two_ok Hp) as Hc. vm_compute in Hc. subst c.
  revert Hp. apply (bool_decide_unpack (2%nat ∉ queued (rt_of two_queued 0))). vm_compute. exact I.
Qed.

Lemma enqueue_dequeue_id_witness :
  same_counts (rt_of two_queued 0) (rt_of (dequeue_task_rt 0 2 (enqueue_task_rt 0 2 true true two_queued)) 0).
Proof.
  apply (enqueue_dequeue_id two_queued 0 2 true true 0 two_ok).
  - split_and!; vm_compute; (discriminate || reflexivity).
  - exact absent_from_two.
Defined.

Lemma rr_every_task_has_its_turn_witness :
  head (queued (rt_of (Nat.iter 1 (rr_turn 0) three_queued) 0)) = Some 3%nat ∧
  head (queued (rt_of three_queued 0)) = Some 1%nat.
Proof.
  split; [|vm_compute; reflexivity].
  apply (rr_every_task_has_its_turn three_queued 0 30 1 3 three_ok).
  - vm_compute. reflexivity.
  - assert (queue_at (rt_of three_queued 0) 30 = [1; 3]%nat) as -> by (vm_compute; reflexivity).
    intros q [->|[->|[]%not_elem_of_nil]%elem_of_cons]%elem_of_cons;
      split_and!; vm_compute; (discriminate || reflexivity).
  - vm_compute. reflexivity.
Defined.

(** ** Bandwidth: processor 0 has used more than it has, processor 1 little *)

Definition bw_rq (time runtime : Z) : rq := set_rt (set_throttle false time (set_rt_runtime runtime init_rt_rq)) demo_rq.

Definition bw_machine (t0 r0 t1 r1 : Z) : sys :=
  mk_sys demo_tasks (λ c, match c with 0%nat => bw_rq t0 r0 | 1%nat => bw_rq t1 r1 | _ => demo_rq end)
    (mk_rd [0; 1]%nat ∅ 0 (λ _, 100)) demo_bw (λ _, 0) 0.

Lemma bw_machine_ok t0 r0 t1 r1 :
  0 <= t0 < 2 ^ 62 → 0 <= t1 < 2 ^ 62 → 0 <= r0 → 0 <= r1 → r0 + r1 = 1900 → bw_ok (bw_machine t0 r0 t1 r1).
Proof.
  intros H1' H2' H3' H4' Hsum. set (s := bw_machine t0 r0 t1 r1).
  assert (span (rd s) = [0; 1]%nat) as Hspan by reflexivity. assert (bw s = demo_bw) as Hbw by reflexivity.
  assert (rt_runtime (rt_of s 0) = r0 ∧ rt_runtime (rt_of s 1) = r1) as [Hr0 Hr1] by (split; reflexivity).
  assert (rt_time (rt_of s 0) = t0 ∧ rt_time (rt_of s 1) = t1) as [Ht0 Ht1] by (split; reflexivity).
  assert (∀ i, (2 <= i)%nat → rt_time (rt_of s i) = 0) as Ht by (intros [|[|i]] Hi; [lia|lia|reflexivity]).
  clearbody s. split; rewrite ?Hspan, ?Hbw.
  - apply (bool_decide_unpack _). vm_compute. exact I.
  - reflexivity.
  - discriminate.
  - by split.
  - intros i [->|[->|[]%not_elem_of_nil]%elem_of_cons]%elem_of_cons _; [by rewrite Hr0|by rewrite Hr1].
  - intros i. destruct (decide (i = 0%nat)) as [->|]; [by rewrite Ht0|].
    destruct (decide (i = 1%nat)) as [->|]; [by rewrite Ht1|]. rewrite Ht by lia. by split.
  - unfold total_runtime, total_claim, finite_runtime, claim. rewrite Hspan, !sum_of_cons, Hr0, Hr1, Hbw.
    rewrite !decide_False by (unfold RUNTIME_INF; lia). cbn [sum_of foldr bw_runtime demo_bw]. lia.
Qed.

Lemma balance_conserves_witness :
  let s' := snd (do_balance_runtime 0 (bw_machine 990 950 100 950)) in
  (bw_ok s' ∧ total_runtime s' = total_runtime (bw_machine 990 950 100 950) ∧ borrowed 0 (bw_machine 990 950 100 950) s') ∧
  rt_runtime (rt_of s' 0) = 1000 ∧ rt_runtime (rt_of s' 1) = 900.
Proof.
  split; [|vm_compute; by split].
  apply (balance_conserves 0 (bw_machine 990 950 100 950)).
  - by apply bw_machine_ok.
  - apply (bool_decide_unpack _). vm_compute. exact I.
  - vm_compute. discriminate.
  - vm_compute. reflexivity.
Defined.


(** Processor 0 has borrowed and is enabled again: 50 are lost, and when first 1 and
    then 0 leave, the second finds nobody to take them from. *)
Definition goes_online_twice : option sys :=
  snd <$> update_runtime CPU_ONLINE 0 (bw_machine 990 1000 100 900).

Definition goes_down (c : nat) (s : option sys) : option sys :=
  match s with Some s => snd <$> update_runtime CPU_DOWN_PREPARE c s | None => None end.

Lemma second_enable_settles_iff_witness :
  (∃ s', update_runtime CPU_ONLINE 0 (bw_machine 990 1000 100 900) = Some (true, s') ∧
    (bw_ok s' ↔ rt_runtime (rt_of (bw_machine 990 1000 100 900) 0) = bw_runtime (bw (bw_machine 990 1000 100 900)))) ∧
  bool_decide (is_Some (goes_down 1 goes_online_twice)) = true ∧
  bool_decide (is_Some (goes_down 0 (goes_down 1 goes_online_twice))) = false.
Proof.
  split; [|split; vm_compute; reflexivity].
  apply (second_enable_settles_iff 0 (bw_machine 990 1000 100 900)); [by apply bw_machine_ok|vm_compute; reflexivity| |].
  - apply (bool_decide_unpack _). vm_compute. exact I.
  - vm_compute. discriminate.
Defined.

(** ** Pushing *)

Lemma demo_pushable_ok : pushable_ok three_queued 0.
Proof.
  intros e He. assert (pushables three_queued 0 = [(1%nat, 30); (3%nat, 30); (2%nat, 40)]) as Hp by (vm_compute; reflexivity).
  rewrite Hp in He. clear Hp.
  do 3 (apply elem_of_cons in He as [->|He];
    [unfold pushable_task; cbv zeta; cbn [fst]; conjs; vm_compute; (discriminate || reflexivity)|]).
  by apply not_elem_of_nil in He.
Qed.


Lemma pushed_to : fst (find_lock_lowest_rq 1 0 three_queued) = Some 1%nat.
Proof. vm_compute. reflexivity. Qed.

Lemma demo_lock_protects : lock_protects.
Proof. intros c d s p Hp. split; [exact Hp|reflexivity]. Qed.

Lemma push_target_fits_witness :
  let s' := snd (find_lock_lowest_rq 1 0 three_queued) in
  find_lock_lowest_rq 1 0 three_queued = (Some 1%nat, s') ∧
  1%nat ≠ 0%nat ∧ task_cpu (tasks s' 1%nat) = 0%nat ∧ 1%nat ∈ cpus_allowed (tasks s' 1%nat) ∧
  prio (tasks s' 1%nat) < highest_curr (rt_of s' 1).
Proof.
  pose proof pushed_to as E0. cbv zeta. pose proof (surjective_pairing (find_lock_lowest_rq 1 0 three_queued)) as E.
  rewrite E0 in E. split; [exact E|].
  assert (task_cpu (tasks three_queued 1%nat) = 0%nat) as Hc by (vm_compute; reflexivity).
  exact (push_target_fits 1 0 three_queued 1 _ demo_lock_protects Hc E).
Defined.

(** ** Policies *)


(** Task 6 is forked by task 5. *)
Definition forking : sys := upd_task 6 (λ _, tasks machine 5%nat) machine.

Lemma reset_child_stays_urgent_witness :
  let t := tasks (sched_fork 100 6 forking) 6%nat in
  policy t = SCHED_NORMAL ∧ sched_class t = rt_sched_class ∧ prio t = normal_prio (tasks forking (current forking)) ∧ rt_prio (prio t) = true.
Proof. apply (reset_child_stays_urgent 100 6 forking); (done || (vm_compute; reflexivity)). Defined.

Lemma forking_typed : task_typed (tasks forking 6%nat).
Proof.
  split; try (split; vm_compute; (discriminate || reflexivity)).
  - right. vm_compute. reflexivity.
  - left. vm_compute. reflexivity.
Qed.

