(* ===== verification/SchedQuiet.v ===== *)
(** * What the run queues do not touch (sched.c and sched_rt.c,
      src/indwriterups/project1)

    Reading a state after an update, and the operations that are quiet: those that
    leave alone who runs, who is on a run queue, the states of the tasks, the wake
    lists and the address spaces. *)

From S2P Require Import Prelude RtState RtBandwidth RtQueue SchedCore RtPush RtView RtKeeps.

Local Open Scope Z_scope.

(** ** Reading after an update *)

Section reading.
Context `{RtEnv}.

Lemma rqs_upd_rq c f s d : rqs (upd_rq c f s) d = if decide (d = c) then f (rqs s c) else rqs s d.
Proof.
  unfold upd_rq; cbn. case_decide; subst; [by rewrite fn_lookup_insert|by rewrite fn_lookup_insert_ne].
Qed.

Lemma tasks_upd_rq c f s : tasks (upd_rq c f s) = tasks s.
Proof. done. Qed.

Lemma tasks_upd_mm_count m f s : tasks (upd_mm_count m f s) = tasks s.
Proof. done. Qed.

Lemma rqs_upd_task p f s : rqs (upd_task p f s) = rqs s.
Proof. done. Qed.

Lemma rqs_upd_mm_count m f s : rqs (upd_mm_count m f s) = rqs s.
Proof. done. Qed.

Lemma mm_count_upd_task p f s : mm_count (upd_task p f s) = mm_count s.
Proof. done. Qed.

Lemma mm_count_upd_rq c f s : mm_count (upd_rq c f s) = mm_count s.
Proof. done. Qed.

Lemma mm_count_upd_mm_count m f s n :
  mm_count (upd_mm_count m f s) n = if decide (n = m) then f (mm_count s m) else mm_count s n.
Proof.
  unfold upd_mm_count; cbn. case_decide; subst; [by rewrite fn_lookup_insert|by rewrite fn_lookup_insert_ne].
Qed.

End reading.

Create Rewrite HintDb upd.
#[export] Hint Rewrite @tasks_upd_task @tasks_upd_rq @tasks_upd_mm_count @rqs_upd_rq @rqs_upd_task @rqs_upd_mm_count
  @mm_count_upd_task @mm_count_upd_rq @mm_count_upd_mm_count : upd.

Ltac upd_reads := autorewrite with upd.

(** ** Quiet operations *)

Section quiet.
Context `{OtherClasses}.

Definition qview (t : task) := (on_rq t, on_cpu t, state t, mm t, active_mm t).

Record quiet (s s' : sys) : Prop := {
  q_task p : qview (tasks s p) = qview (tasks s' p);
  q_rq c : rqview (rqs s c) = rqview (rqs s' c);
  q_mm : mm_count s = mm_count s';
  q_cpu : this_cpu s = this_cpu s';
}.

#[export] Instance quiet_equiv : Equivalence quiet.
Proof.
  split.
  - intros s. by split.
  - intros s s' [? ? ? ?]. by split.
  - intros s1 s2 s3 [E1 E2 E3 E4] [F1 F2 F3 F4].
    split; intros; [by rewrite E1|by rewrite E2|by rewrite E3|by rewrite E4].
Qed.

Lemma close_quiet s s' : s ≈ s' → quiet s s'.
Proof. intros [_ E1 E2 E3 E4]. split; try done. intros p. unfold qview. by injection (E2 p) as _ _ _ _ _ -> -> -> -> -> _. Qed.

Lemma quiet_upd_rq c f s : (∀ q, rqview (f q) = rqview q) → quiet (upd_rq c f s) s.
Proof.
  intros Hf. split; try done. intros d. rewrite rqs_upd_rq. case_decide; subst; [apply Hf|done].
Qed.

Lemma quiet_upd_rt c f s : quiet (upd_rt c f s) s.
Proof. by apply quiet_upd_rq. Qed.

Lemma quiet_upd_task p f s : (∀ t, qview (f t) = qview t) → quiet (upd_task p f s) s.
Proof. intros Hf. split; try done. intros q. rewrite tasks_upd_task. case_decide; subst; [apply Hf|done]. Qed.

Lemma quiet_upd_rd f s : quiet (upd_rd f s) s.
Proof. by split. Qed.

Lemma quiet_upd_bw f s : quiet (upd_bw f s) s.
Proof. by split. Qed.

Lemma quiet_resched p s : quiet (resched_task p s) s.
Proof. apply close_quiet, close_resched. Qed.

Lemma quiet_curr s s' c : quiet s s' → curr (rqs s c) = curr (rqs s' c).
Proof. intros Hq. by injection (q_rq _ _ Hq c). Qed.

Lemma quiet_on_rq s s' p : quiet s s' → on_rq (tasks s p) = on_rq (tasks s' p).
Proof. intros Hq. by injection (q_task _ _ Hq p). Qed.

Lemma quiet_state s s' p : quiet s s' → state (tasks s p) = state (tasks s' p).
Proof. intros Hq. by injection (q_task _ _ Hq p). Qed.

Lemma quiet_list s s' c : quiet s s' → wake_list (rqs s c) = wake_list (rqs s' c).
Proof. intros Hq. by injection (q_rq _ _ Hq c). Qed.

End quiet.

(** Removes the outermost quiet update on the left. *)
Ltac quiet_step :=
  lazymatch goal with
  | |- quiet ?s ?s => reflexivity
  | |- quiet (if ?b then _ else _) _ => destruct b
  | |- quiet (resched_task _ _) _ => etransitivity; [apply quiet_resched|]
  | |- quiet (upd_rt _ _ _) _ => etransitivity; [apply quiet_upd_rt|]
  | |- quiet (upd_rq _ _ _) _ => etransitivity; [apply quiet_upd_rq; by intros|]
  | |- quiet (upd_task _ _ _) _ => etransitivity; [apply quiet_upd_task; reflexivity|]
  | |- quiet (upd_rd _ _) _ => etransitivity; [apply quiet_upd_rd|]
  | |- quiet (upd_bw _ _) _ => etransitivity; [apply quiet_upd_bw|]
  end.

Ltac quiet_solve := repeat quiet_step; try reflexivity.

Section handlers.
Context `{OtherClasses}.

Lemma quiet_clock c s : quiet (update_rq_clock c s) s.
Proof. apply close_quiet, close_clock. Qed.

Lemma quiet_update_curr c s : quiet (update_curr_rt c s) s.
Proof. apply close_quiet, close_update_curr. Qed.

Lemma quiet_enqueue_task c p w h s : quiet (enqueue_task_rt c p w h s) s.
Proof.
  unfold enqueue_task_rt, enqueue_pushable_task. quiet_step; quiet_solve;
    (etransitivity; [apply close_quiet, close_enqueue_entity|]); quiet_solve.
Qed.

Lemma quiet_dequeue_task c p s : quiet (dequeue_task_rt c p s) s.
Proof.
  unfold dequeue_task_rt, dequeue_pushable_task. quiet_step.
  etransitivity; [apply close_quiet, close_dequeue_stack|]. apply quiet_update_curr.
Qed.

Lemma quiet_requeue p h s : quiet (requeue_rt_entity p h s) s.
Proof. unfold requeue_rt_entity. quiet_solve. Qed.

Lemma quiet_check_preempt c p s : quiet (check_preempt_curr_rt c p s) s.
Proof.
  unfold check_preempt_curr_rt, check_preempt_equal_prio, requeue_task_rt.
  quiet_solve; repeat case_match; quiet_solve; apply quiet_requeue.
Qed.

Lemma quiet_put_prev c p s : quiet (put_prev_task_rt c p s) s.
Proof.
  unfold put_prev_task_rt, enqueue_pushable_task. cbv zeta.
  quiet_solve; etransitivity; try apply quiet_update_curr; quiet_solve.
Qed.

Lemma quiet_pick c s q s' : pick_next_task_rt c s = Some (q, s') → quiet s' s.
Proof.
  unfold pick_next_task_rt, _pick_next_task_rt, dequeue_pushable_task. intros E.
  repeat case_match; simplify_eq; quiet_solve.
Qed.

Lemma quiet_set_curr c s : quiet (set_curr_task_rt c s) s.
Proof. unfold set_curr_task_rt, dequeue_pushable_task. quiet_solve. Qed.

Lemma quiet_yield c s : quiet (yield_task_rt c s) s.
Proof. apply quiet_requeue. Qed.

Lemma quiet_tick c p s : quiet (task_tick_rt c p s) s.
Proof.
  unfold task_tick_rt, watchdog. cbv zeta.
  assert (quiet (update_curr_rt c s) s) as Hq by apply quiet_update_curr. set (s1 := update_curr_rt c s) in *. clearbody s1.
  quiet_solve; try done. etransitivity; [apply quiet_requeue|]. quiet_solve; done.
Qed.

End handlers.
