(* ===== verification/SchedWake.v ===== *)
(** * Waking tasks and switching between them (sched.c, src/indwriterups/project1)

    A task that is woken up is put on a run queue at once or, when the queue is
    another processor's, left in that processor's list of tasks to wake, with an
    interrupt sent.  [schedule] takes a task that sleeps off its queue, chooses the
    next and switches to it.  The functions are what the processor [this_cpu] does;
    what others do while a lock is awaited is in the environment. *)

From S2P Require Import Prelude RtState RtBandwidth RtQueue SchedCore RtPush SchedPolicy.

Local Open Scope Z_scope.

(** What the code relies on outside its file: a feature bit, handlers of other
    classes, signals, workers, block plugs and address spaces, and what other
    processors do before the lock of a task (its [pi_lock]) or of a queue is
    obtained, before the exchange of the head of a wake list, and while one waits
    for a task to leave its processor. *)
Class WakeEnv `{PolicyEnv} := {
  ttwu_queue_feature : bool;
  other_task_waking : sclass → option (nat → sys → sys);
  before_pi_lock : nat → sys → sys;
  before_rq_lock : nat → sys → sys;
  before_cmpxchg : nat → sys → sys;
  cpu_relax : nat → sys → sys;
  pi_trylock : sys → nat → bool;
  signal_pending_state : sys → nat → Z → bool;
  wq_worker : nat → bool;
  wq_worker_sleeping : nat → nat → sys → option nat;
  blk_needs_flush_plug : sys → nat → bool;
  blk_schedule_flush_plug : nat → sys → sys;
  idle_balance : nat → sys → sys;
  cfs_nr_running : sys → nat → Z;
  mmdrop : nat → sys → sys;
}.

Section wake.
Context `{WakeEnv}.

(** Bounds: the passes of pushing, the turns of waiting for a task to leave its
    processor, and the tries of the exchange. *)
Variables (fuel turns tries : nat).

(** ** Waking up *)

(** The averages of idle times are not modelled. *)
Definition ttwu_do_wakeup (c p : nat) (s : sys) : res sys :=
  let s := check_preempt_curr fuel c p s in
  let s := upd_task p (set_state TASK_RUNNING) s in
  match c_task_woken (class_of fuel s p) with Some f => f c p s | None => Ok s end.

(** The counts of uninterruptible tasks are not modelled, nor is the flag
    ENQUEUE_WAKING, which another class reads. *)
Definition ttwu_do_activate (c p : nat) (s : sys) : res sys :=
  let s := ttwu_activate c p true s in
  ttwu_do_wakeup c p s.

(** The boolean is the value returned. *)
Definition ttwu_remote (p : nat) (s : sys) : res (bool * sys) :=
  let s := before_lock p s in
  if on_rq (tasks s p) then
    s ← ttwu_do_wakeup (task_cpu (tasks s p)) p s;
    Ok (true, s)
  else Ok (false, s).

Fixpoint ttwu_pending_loop (c : nat) (l : list nat) (s : sys) : res sys :=
  match l with
  | [] => Ok s
  | p :: l' => s ← ttwu_do_activate c p s; ttwu_pending_loop c l' s
  end.

Definition sched_ttwu_do_pending (l : list nat) (s : sys) : res sys :=
  let c := this_cpu s in
  let s := before_rq_lock c s in
  ttwu_pending_loop c l s.

Definition sched_ttwu_pending (s : sys) : res sys :=
  let c := this_cpu s in
  let l := wake_list (rqs s c) in
  let s := upd_rq c (set_wake_list []) s in
  match l with [] => Ok s | _ => sched_ttwu_do_pending l s end.

(** The interrupt has arrived. *)
Definition scheduler_ipi (s : sys) : res sys :=
  let c := this_cpu s in
  let s := upd_rq c (set_resched_ipi false) s in
  let l := wake_list (rqs s c) in
  let s := upd_rq c (set_wake_list []) s in
  match l with [] => Ok s | _ => sched_ttwu_do_pending l s end.

(** [next] is the list whose head was read last; the exchange compares heads. *)
Fixpoint ttwu_push (tries : nat) (p c : nat) (next : list nat) (s : sys) : res (list nat * sys) :=
  match tries with
  | O => Out
  | S tries' =>
      let old := next in
      let s := before_cmpxchg c s in
      let next := wake_list (rqs s c) in
      if decide (head next = head old) then Ok (next, upd_rq c (set_wake_list (p :: next)) s)
      else ttwu_push tries' p c next s
  end.

Definition ttwu_queue_remote (p c : nat) (s : sys) : res sys :=
  '(next, s) ← ttwu_push tries p c (wake_list (rqs s c)) s;
  Ok (match next with [] => upd_rq c (set_resched_ipi true) s | _ => s end).

Definition ttwu_queue (p c : nat) (s : sys) : res sys :=
  if ttwu_queue_feature && negb (bool_decide (c = this_cpu s)) then ttwu_queue_remote p c s
  else
    let s := before_rq_lock c s in
    ttwu_do_activate c p s.

(** The loop that waits for the processor of [p] to be done with it. *)
Fixpoint wait_on_cpu (turns : nat) (p : nat) (s : sys) : res sys :=
  if on_cpu (tasks s p) then
    match turns with O => Out | S turns' => wait_on_cpu turns' p (cpu_relax p s) end
  else Ok s.

Definition task_waking (p : nat) (s : sys) : sys :=
  match sched_class (tasks s p) with
  | rt_sched_class => s
  | k => match other_task_waking k with Some f => f p s | None => s end
  end.

(** From the point where the task is known to be asleep and off its processor. *)
Definition ttwu_place (p : nat) (s : sys) : res sys :=
  let s := upd_task p (set_state TASK_WAKING) s in
  let s := task_waking p s in
  let '(c, s) := select_task_rq fuel p true s in
  let s := if decide (task_cpu (tasks s p) ≠ c) then set_task_cpu p c s else s in
  ttwu_queue p c s.

(** Statistics and load contributions are not modelled. *)
Definition try_to_wake_up (p : nat) (mask : Z) (s : sys) : res (bool * sys) :=
  let s := before_pi_lock p s in
  if decide (Z.land (state (tasks s p)) mask = 0) then Ok (false, s)
  else
    '((remote, s) : bool * sys) ← (if on_rq (tasks s p) then ttwu_remote p s else Ok (false, s));
    if remote then Ok (true, s)
    else
      s ← wait_on_cpu turns p s;
      s ← ttwu_place p s;
      Ok (true, s).

Definition try_to_wake_up_local (p : nat) (s : sys) : res sys :=
  let c := task_cpu (tasks s p) in
  if decide (c ≠ this_cpu s) then Bug
  else if decide (p = current s) then Bug
  else
    let s := if pi_trylock s p then s else before_rq_lock c (before_pi_lock p s) in
    if decide (Z.land (state (tasks s p)) TASK_NORMAL = 0) then Ok s
    else
      let s := if on_rq (tasks s p) then s else ttwu_activate c p true s in
      ttwu_do_wakeup c p s.

Definition wake_up_process (p : nat) (s : sys) : res (bool * sys) := try_to_wake_up p TASK_ALL s.

Definition wake_up_state (p : nat) (mask : Z) (s : sys) : res (bool * sys) := try_to_wake_up p mask s.

(** ** Switching *)

Definition prepare_lock_switch (next : nat) (s : sys) : sys := upd_task next (set_on_cpu true) s.

Definition finish_lock_switch (prev : nat) (s : sys) : sys := upd_task prev (set_on_cpu false) s.

(** Notifiers and events are not modelled. *)
Definition prepare_task_switch (c prev next : nat) (s : sys) : sys := prepare_lock_switch next s.

(** The end of a dead task is not modelled. *)
Definition finish_task_switch (c prev : nat) (s : sys) : sys :=
  let mm := prev_mm (rqs s c) in
  let s := upd_rq c (set_prev_mm None) s in
  let s := finish_lock_switch prev s in
  match mm with Some m => mmdrop m s | None => s end.

(** The address spaces; [Bug] is a null pointer that is dereferenced. *)
Definition switch_address_space (c prev next : nat) (s : sys) : res sys :=
  let oldmm := active_mm (tasks s prev) in
  s ← match mm (tasks s next) with
      | None =>
          match oldmm with
          | Some m => Ok (upd_mm_count m (λ n, s32 (n + 1)) (upd_task next (set_active_mm oldmm) s))
          | None => Bug
          end
      | Some _ => Ok s
      end;
  Ok (match mm (tasks s prev) with
      | None => upd_rq c (set_prev_mm oldmm) (upd_task prev (set_active_mm None) s)
      | Some _ => s
      end).

(** What the processor does from the switch on, it does as [next]. *)
Definition context_switch (c prev next : nat) (s : sys) : res sys :=
  let s := prepare_task_switch c prev next s in
  s ← switch_address_space c prev next s;
  Ok (finish_task_switch c prev s).

Definition schedule_tail (prev : nat) (s : sys) : res sys :=
  let c := this_cpu s in
  let s := finish_task_switch c prev s in
  post_schedule_core fuel c s.

(** ** The scheduler *)

(** [prev] leaves its queue when it is going to sleep. *)
Definition schedule_sleep (c prev : nat) (s : sys) : res sys :=
  if negb (bool_decide (state (tasks s prev) = 0)) && negb (preempt_active (tasks s prev)) then
    if signal_pending_state s prev (state (tasks s prev)) then Ok (upd_task prev (set_state TASK_RUNNING) s)
    else
      let s := deactivate_task c prev s in
      let s := upd_task prev (set_on_rq false) s in
      s ← (if wq_worker prev then
             match wq_worker_sleeping prev c s with Some q => try_to_wake_up_local q s | None => Ok s end
           else Ok s);
      Ok (if blk_needs_flush_plug s prev then blk_schedule_flush_plug prev s else s)
  else Ok s.

(** The next task is chosen and, unless it is [prev], switched to. *)
Definition schedule_switch (c prev : nat) (s : sys) : res sys :=
  s ← pre_schedule fuel c prev s;
  let s := if decide (nr_running (rqs s c) = 0) then idle_balance c s else s in
  let s := put_prev_task fuel c prev s in
  '(next, s) ← pick_next_task fuel (bool_decide (nr_running (rqs s c) = cfs_nr_running s c)) c s;
  let s := upd_task prev (set_need_resched false) s in
  let s := upd_rq c (set_skip_clock_update 0) s in
  if decide (prev ≠ next) then
    let s := upd_rq c (set_curr next) s in
    context_switch c prev next s
  else Ok s.

(** Once from the label [need_resched]; checks, timers and statistics are not
    modelled.  The switch has released the lock of the queue. *)
Definition schedule_pass (s : sys) : res sys :=
  let c := this_cpu s in
  let prev := curr (rqs s c) in
  let s := before_rq_lock c s in
  s ← schedule_sleep c prev s;
  s ← schedule_switch c prev s;
  let s := before_rq_lock c s in
  post_schedule_core fuel c s.

(** The processor goes round as long as the task it runs is to be rescheduled. *)
Fixpoint schedule (passes : nat) (s : sys) : res sys :=
  match passes with
  | O => Out
  | S passes' =>
      s ← schedule_pass s;
      if need_resched (tasks s (current s)) then schedule passes' s else Ok s
  end.

Definition sys_sched_yield (passes : nat) (s : sys) : res sys :=
  let c := this_cpu s in
  let s := before_rq_lock c s in
  let s := c_yield_task (class_of fuel s (current s)) c s in
  schedule passes s.

Definition yield (passes : nat) (s : sys) : res sys :=
  sys_sched_yield passes (upd_task (current s) (set_state TASK_RUNNING) s).

Definition should_resched (s : sys) : bool :=
  need_resched (tasks s (current s)) && negb (preempt_active (tasks s (current s))).

(** Up to the point where another task runs: PREEMPT_ACTIVE is set until the task
    runs again. *)
Definition __cond_resched (passes : nat) (s : sys) : res sys :=
  schedule passes (upd_task (current s) (set_preempt_active true) s).

Definition _cond_resched (passes : nat) (s : sys) : res (bool * sys) :=
  if should_resched s then s ← __cond_resched passes s; Ok (true, s) else Ok (false, s).

End wake.
