(* ===== verification/SchedMm.v ===== *)
(** * Borrowed address spaces (sched.c, src/indwriterups/project1)

    A kernel thread has no address space of its own and borrows that of the task
    that ran before it on its processor.  What is borrowed is counted, and the
    count is given back after the next switch. *)

From S2P Require Import Prelude RtState RtBandwidth RtQueue SchedCore RtPush SchedPolicy RtView SchedQuiet SchedWake.

Local Open Scope Z_scope.

Section mm.
Context `{WakeEnv}.

Definition cpus : list nat := seq 0 nr_cpu_ids.

(** The processor runs a task that borrows [m]. *)
Definition borrows (s : sys) (m c : nat) : bool :=
  bool_decide (mm (tasks s (curr (rqs s c))) = None) && bool_decide (active_mm (tasks s (curr (rqs s c))) = Some m).

Definition borrowed_mm (s : sys) (m : nat) : Z := sum_of (λ c, b2z (borrows s m c)) cpus.

(** Every processor runs another task, which has an address space to work in; the
    references are those of the users and of the tasks that borrow. *)
Record mm_ok (users : nat → Z) (s : sys) : Prop := {
  mo_inj c d : c ∈ cpus → d ∈ cpus → curr (rqs s c) = curr (rqs s d) → c = d;
  mo_own p m : mm (tasks s p) = Some m → active_mm (tasks s p) = Some m;
  mo_some c : c ∈ cpus → active_mm (tasks s (curr (rqs s c))) ≠ None;
  mo_idle p : mm (tasks s p) = None → (∀ c, c ∈ cpus → curr (rqs s c) ≠ p) → active_mm (tasks s p) = None;
  mo_prev c : c ∈ cpus → prev_mm (rqs s c) = None;
  mo_users m : 0 <= users m < 2 ^ 31 - 1 - Z.of_nat nr_cpu_ids;
  mo_count m : mm_count s m = users m + borrowed_mm s m;
}.

(** [mmdrop] gives a reference back. *)
Definition mmdrop_gives_back : Prop := ∀ m s, mmdrop m s = upd_mm_count m (λ n, s32 (n - 1)) s.

Lemma borrowed_range s m : 0 <= borrowed_mm s m <= Z.of_nat nr_cpu_ids.
Proof.
  unfold borrowed_mm. split.
  - apply sum_of_nonneg. intros c _. by destruct (borrows s m c).
  - pose proof (sum_of_bound (λ c, b2z (borrows s m c)) cpus 1) as Hb. unfold cpus in *. rewrite length_seq in Hb.
    rewrite Z.mul_1_r in Hb. apply Hb. intros c _. by destruct (borrows s m c).
Qed.

Lemma borrows_count users s m c : mm_ok users s → c ∈ cpus → borrows s m c = true → 0 < mm_count s m.
Proof.
  intros Hok Hc Hb. rewrite (mo_count _ _ Hok). pose proof (mo_users _ _ Hok m).
  pose proof (sum_of_elem (λ c, b2z (borrows s m c)) cpus c) as He. cbn beta in He. rewrite Hb in He.
  unfold borrowed_mm. cbn in He. specialize (He (λ j _, ltac:(destruct (borrows s m j); cbn; lia)) Hc). lia.
Qed.

(** What a switch on [c] from [prev] to [next] comes to. *)
Record switched (c prev next : nat) (s s' : sys) : Prop := {
  sw_curr d : curr (rqs s' d) = if decide (d = c) then next else curr (rqs s d);
  sw_prev d : prev_mm (rqs s' d) = if decide (d = c) then None else prev_mm (rqs s d);
  sw_mm p : mm (tasks s' p) = mm (tasks s p);
  sw_active p : active_mm (tasks s' p) =
    if decide (p = next) then match mm (tasks s next) with None => active_mm (tasks s prev) | Some _ => active_mm (tasks s next) end
    else if decide (p = prev) then match mm (tasks s prev) with None => None | Some _ => active_mm (tasks s prev) end
    else active_mm (tasks s p);
  sw_count m : mm_count s' m = mm_count s m
    + b2z (bool_decide (mm (tasks s next) = None) && bool_decide (active_mm (tasks s prev) = Some m))
    - b2z (bool_decide (mm (tasks s prev) = None) && bool_decide (active_mm (tasks s prev) = Some m));
}.

Lemma switched_ok users c prev next s s' :
  mm_ok users s → c ∈ cpus → curr (rqs s c) = prev → (∀ d, d ∈ cpus → curr (rqs s d) ≠ next) →
  switched c prev next s s' → mm_ok users s'.
Proof.
  intros Hok Hc Hprev Hnext [Ecurr Eprev Emm Eact Ecount].
  assert (next ≠ prev) as Hne by (intros ->; by apply (Hnext c)).
  assert (∀ d, d ∈ cpus → d ≠ c → curr (rqs s d) ≠ prev) as Helse
    by (intros d Hd Hdc E; apply Hdc; apply (mo_inj _ _ Hok); congruence).
  split.
  - intros d e Hd He. rewrite !Ecurr.
    destruct (decide (d = c)) as [->|], (decide (e = c)) as [->|]; intros E; try done.
    + by destruct (Hnext e).
    + by destruct (Hnext d).
    + by apply (mo_inj _ _ Hok).
  - intros p m. rewrite Emm, Eact. intros Hm. pose proof (mo_own _ _ Hok p m Hm).
    repeat case_decide; subst; by rewrite ?Hm.
  - intros d Hd. rewrite Ecurr, Eact. pose proof (mo_some _ _ Hok d Hd) as Hs.
    destruct (decide (d = c)) as [->|Hdc].
    + rewrite decide_True by done. destruct (mm (tasks s next)) as [m|] eqn:E; [|by rewrite <- Hprev].
      by rewrite (mo_own _ _ Hok next m E).
    + rewrite !decide_False; [done|by apply Helse|by apply Hnext].
  - intros p. rewrite Emm, Eact. intros Hm Hno.
    assert (p ≠ next) by (intros ->; apply (Hno c Hc); by rewrite Ecurr, decide_True).
    rewrite decide_False by done. destruct (decide (p = prev)) as [->|]; [by rewrite Hm|].
    apply (mo_idle _ _ Hok); [done|]. intros d Hd. specialize (Hno d Hd). rewrite Ecurr in Hno.
    destruct (decide (d = c)) as [->|]; [congruence|done].
  - intros d Hd. rewrite Eprev. case_decide; [done|by apply (mo_prev _ _ Hok)].
  - apply Hok.
  - intros m. rewrite Ecount, (mo_count _ _ Hok). unfold borrowed_mm.
    rewrite (sum_of_delta_in (λ d, b2z (borrows s m d)) (λ d, b2z (borrows s' m d)) cpus c
      (b2z (borrows s' m c) - b2z (borrows s m c))); [|apply NoDup_seq|done|lia|].
    + assert (borrows s m c = bool_decide (mm (tasks s prev) = None) && bool_decide (active_mm (tasks s prev) = Some m)) as ->
        by (unfold borrows; by rewrite Hprev).
      assert (borrows s' m c = bool_decide (mm (tasks s next) = None) && bool_decide (active_mm (tasks s prev) = Some m)) as ->.
      { unfold borrows. rewrite Ecurr, decide_True, Emm, Eact, decide_True by done.
        by destruct (mm (tasks s next)) eqn:E; rewrite ?E. }
      lia.
    + intros d Hd Hdc. unfold borrows. rewrite Ecurr, decide_False, Emm, Eact, !decide_False; [done| | |done];
        [by apply Helse|by apply Hnext].
Qed.

(** The switch is made whenever [prev] has an address space to lend. *)
Lemma context_switch_switched c prev next s old :
  mmdrop_gives_back → prev ≠ next → active_mm (tasks s prev) = Some old → prev_mm (rqs s c) = None →
  (mm (tasks s prev) = None → 0 < mm_count s old) → 0 <= mm_count s old < 2 ^ 31 - 1 →
  ∃ s', context_switch c prev next (upd_rq c (set_curr next) s) = Ok s' ∧ switched c prev next s s'.
Proof.
  intros Hdrop Hne Hold Hpm Hpos Hsmall.
  unfold context_switch, switch_address_space, finish_task_switch, finish_lock_switch, prepare_task_switch, prepare_lock_switch.
  cbv zeta. upd_reads. rewrite !(decide_False (P := prev = next)), decide_True by done. cbn [mm set_on_cpu]. rewrite Hold.
  destruct (mm (tasks s next)) as [m|] eqn:En, (mm (tasks s prev)) as [m'|] eqn:Ep; cbn [mbind res_bind]; upd_reads;
    rewrite !decide_False by done; rewrite Ep; upd_reads; rewrite decide_True by done; cbn [prev_mm set_curr set_prev_mm];
    rewrite ?decide_True, ?Hpm, ?Hdrop by done.
  all: eexists; (split; [reflexivity|]); split; intros x; upd_reads; rewrite ?En, ?Ep, ?Hold.
  all: try (repeat case_decide; subst; cbn; congruence).
  all: rewrite ?(bool_decide_false (Some _ = None)), ?(bool_decide_true (None = None)) by done; cbn [andb].
  all: assert (∀ y, bool_decide (Some old = Some y) = bool_decide (y = old)) as Hy by (intros y; apply bool_decide_ext; naive_solver).
  all: rewrite ?Hy; destruct (decide (x = old)) as [->|Hx]; rewrite ?(bool_decide_true (old = old)), ?(bool_decide_false (x = old)) by done.
  all: rewrite ?decide_True by done; cbn [b2z]; rewrite ?(wrap_s_small 32 (mm_count s old + 1)) by lia.
  all: rewrite ?wrap_s_small by lia; lia.
Qed.

(** C10: switching never meets a null pointer, keeps the counts exact, and whatever a
    running task borrows is counted. *)
Theorem lazy_mm_counted users c next s :
  mmdrop_gives_back → mm_ok users s → c ∈ cpus → (∀ d, d ∈ cpus → curr (rqs s d) ≠ next) →
  ∃ s', context_switch c (curr (rqs s c)) next (upd_rq c (set_curr next) s) = Ok s' ∧ mm_ok users s' ∧
    curr (rqs s' c) = next ∧
    ∀ d m, d ∈ cpus → active_mm (tasks s' (curr (rqs s' d))) = Some m →
      mm (tasks s' (curr (rqs s' d))) = Some m ∨ 0 < mm_count s' m.
Proof.
  intros Hdrop Hok Hc Hnext. pose proof (mo_some _ _ Hok c Hc) as Hs.
  destruct (active_mm (tasks s (curr (rqs s c)))) as [old|] eqn:Hold; [|done].
  pose proof (mo_users _ _ Hok old) as Hu. pose proof (borrowed_range s old) as Hb.
  destruct (context_switch_switched c (curr (rqs s c)) next s old) as (s' & Hs' & Hsw); try done.
  - by intros E; apply (Hnext c).
  - by apply (mo_prev _ _ Hok).
  - intros Hm. apply (borrows_count users s old c Hok Hc). unfold borrows. by rewrite !bool_decide_true.
  - rewrite (mo_count _ _ Hok). lia.
  - pose proof (switched_ok users c _ next s s' Hok Hc eq_refl Hnext Hsw) as Hok'.
    exists s'. split; [done|]. split; [done|]. split; [by rewrite (sw_curr _ _ _ _ _ Hsw), decide_True|].
    intros d m Hd Hm. destruct (mm (tasks s' (curr (rqs s' d)))) as [m'|] eqn:E.
    + left. apply (mo_own _ _ Hok') in E. congruence.
    + right. apply (borrows_count users s' m d Hok' Hd). unfold borrows. by rewrite !bool_decide_true.
Qed.

End mm.
