(* ===== verification/SchedInv.v ===== *)
(** * The invariant of the machine (sched.c and sched_rt.c,
      src/indwriterups/project1)

    A task is waking exactly when it waits in one place, a task that is on no run
    queue is asleep, and the real-time queues hold the tasks that are on a run
    queue.  What is relied upon, and the operations on queues that keep this. *)

From S2P Require Import Prelude RtState RtBandwidth RtQueue SchedCore RtPush RtKeeps RtBalance SchedPolicy.
From S2P Require Import RtView RtInv RtEnqueue RtOps RtHandlers RtPreserve RtSteps SchedQuiet SchedWake SchedMm.

Local Open Scope Z_scope.

Section machine.
Context `{WakeEnv} `{!KernelLibSpec}.

(** ** The invariant *)

(** [pend c] are the tasks of processor [c] that are being woken up by the code that
    executes: their own lock is held, or they were taken off the list of [c]. *)
Definition waiting (pend : nat → list nat) (s : sys) (c : nat) : list nat := pend c ++ wake_list (rqs s c).

Definition idle_one (s : sys) (p : nat) : Prop := ∃ c, idle (rqs s c) = p.

(** [busy] is the processor that is choosing its next task, and the task it still
    runs; the others run their idle task or one that is on their queue, and no task
    runs twice. *)
Record curr_ok (busy : option (nat * nat)) (s : sys) : Prop := {
  co_runs c : fst <$> busy ≠ Some c → let p := curr (rqs s c) in
    p = idle (rqs s c) ∨ (on_rq (tasks s p) = true ∧ task_cpu (tasks s p) = c);
  co_once c d : curr (rqs s c) = curr (rqs s d) → c = d;
  co_idles c d : idle (rqs s c) = idle (rqs s d) → c = d;
  co_on_cpu c : on_cpu (tasks s (curr (rqs s c))) = true;
  co_busy c p : busy = Some (c, p) → curr (rqs s c) = p;
}.

Lemma curr_ok_keep busy s s' :
  curr_ok busy s → (∀ c, curr (rqs s' c) = curr (rqs s c) ∧ idle (rqs s' c) = idle (rqs s c)) →
  (∀ c, on_cpu (tasks s' (curr (rqs s c))) = on_cpu (tasks s (curr (rqs s c)))) →
  (∀ c, let p := curr (rqs s c) in fst <$> busy ≠ Some c → on_rq (tasks s p) = true → task_cpu (tasks s p) = c →
    on_rq (tasks s' p) = true ∧ task_cpu (tasks s' p) = c) →
  curr_ok busy s'.
Proof.
  intros [H1' H2' H3' H4' H5'] Hr Hc Ho.
  assert (∀ c, curr (rqs s' c) = curr (rqs s c)) as Ec by apply Hr.
  assert (∀ c, idle (rqs s' c) = idle (rqs s c)) as Ei by apply Hr.
  split.
  - intros c Hb. rewrite Ec, Ei. destruct (H1' c Hb) as [?|[? ?]]; [by left|right]. by apply Ho.
  - intros c d. rewrite !Ec. apply H2'.
  - intros c d. rewrite !Ei. apply H3'.
  - intros c. rewrite Ec, Hc. apply H4'.
  - intros c p. rewrite Ec. apply H5'.
Qed.

(** [fresh] are the tasks not started yet. *)
Record minv (fresh : gset nat) (pend : nat → list nat) (busy : option (nat * nat)) (s : sys) : Prop := {
  mi_rt : rt_inv s;
  mi_queued p : sched_class (tasks s p) = rt_sched_class → on_rq_queued s p;
  mi_waking p : state (tasks s p) = TASK_WAKING ↔ ∃ c, p ∈ waiting pend s c;
  mi_placed c p : p ∈ waiting pend s c → on_rq (tasks s p) = false ∧ task_cpu (tasks s p) = c;
  mi_once c : NoDup (waiting pend s c);
  mi_ipi c : wake_list (rqs s c) ≠ [] → resched_ipi (rqs s c) = true;
  mi_asleep p : p ∉ fresh → ¬ idle_one s p → on_rq (tasks s p) = false → state (tasks s p) ≠ TASK_RUNNING;
  mi_idle p : idle_one s p → on_rq (tasks s p) = false ∧ state (tasks s p) = TASK_RUNNING;
  mi_curr : curr_ok busy s;
}.

Definition no_one : nat → list nat := λ _, [].

(** ** Queues and flags after an operation *)

Definition same_members (s s' : sys) : Prop := ∀ c q, q ∈ queued (rt_of s' c) ↔ q ∈ queued (rt_of s c).

(** What the invariant reads of tasks and processors, the running task apart. *)
Record same_flags (s s' : sys) : Prop := {
  sf_task p : on_rq (tasks s' p) = on_rq (tasks s p) ∧ state (tasks s' p) = state (tasks s p);
  sf_tview p : tview (tasks s' p) = tview (tasks s p);
  sf_rq c : idle (rqs s' c) = idle (rqs s c) ∧ wake_list (rqs s' c) = wake_list (rqs s c) ∧
    resched_ipi (rqs s' c) = resched_ipi (rqs s c);
}.

Lemma quiet_flags s s' : quiet s' s → (∀ p, tview (tasks s' p) = tview (tasks s p)) → same_flags s s'.
Proof.
  intros Hq Ht. split; [|done|].
  - intros p. by injection (q_task _ _ Hq p).
  - intros c. by injection (q_rq _ _ Hq c).
Qed.

Lemma members_queued s s' p :
  same_members s s' → on_rq (tasks s' p) = on_rq (tasks s p) → tview (tasks s' p) = tview (tasks s p) →
  on_rq_queued s p → on_rq_queued s' p.
Proof.
  unfold same_members, on_rq_queued. intros Hm -> [= _ -> _ _].
  case_match; [by rewrite Hm|]. intros Hn c. by rewrite Hm.
Qed.

Lemma minv_frame fresh pend busy busy' s s' :
  minv fresh pend busy s → rt_inv s' → same_members s s' → same_flags s s' →
  curr_ok busy' s' →
  minv fresh pend busy' s'.
Proof.
  intros Hi Hrt Hm Hf Hc.
  assert (∀ c, waiting pend s' c = waiting pend s c) as Hw.
  { intros c. unfold waiting. by destruct (sf_rq _ _ Hf c) as (_ & -> & _). }
  assert (∀ p, idle_one s' p ↔ idle_one s p) as Hidle.
  { intros p. unfold idle_one. split; intros [c Hp]; exists c; destruct (sf_rq _ _ Hf c) as (E & _); congruence. }
  pose proof (λ p, proj1 (sf_task _ _ Hf p)) as Hon. pose proof (λ p, proj2 (sf_task _ _ Hf p)) as Hst.
  assert (∀ p, task_cpu (tasks s' p) = task_cpu (tasks s p) ∧ sched_class (tasks s' p) = sched_class (tasks s p)) as Ht.
  { intros p. by injection (sf_tview _ _ Hf p). }
  split; [done|..]; intros.
  - apply (members_queued s); [done|apply Hon|apply Hf|]. apply (mi_queued _ _ _ _ Hi). by rewrite <- (proj2 (Ht p)).
  - rewrite Hst, (mi_waking _ _ _ _ Hi). by setoid_rewrite Hw.
  - rewrite Hon, (proj1 (Ht p)). apply (mi_placed _ _ _ _ Hi). by rewrite <- Hw.
  - rewrite Hw. apply Hi.
  - destruct (sf_rq _ _ Hf c) as (_ & E1 & ->). apply (mi_ipi _ _ _ _ Hi). by rewrite <- E1.
  - rewrite Hst. apply (mi_asleep _ _ _ _ Hi); [done|by rewrite <- Hidle|by rewrite <- Hon].
  - rewrite Hon, Hst. apply (mi_idle _ _ _ _ Hi). by rewrite <- Hidle.
  - done.
Qed.

(** An operation that rearranges the queues and is quiet. *)
Record steady (s s' : sys) : Prop := {
  st_rt : rt_inv s → rt_inv s' ∧ same_members s s' ∧ ∀ p, tview (tasks s' p) = tview (tasks s p);
  st_quiet : quiet s' s;
}.

Lemma steady_trans s1 s2 s3 : steady s1 s2 → steady s2 s3 → steady s1 s3.
Proof.
  intros [E1 E2] [F1 F2]. split; [|by etransitivity]. intros (Hi & Hm & Ht)%E1. destruct (F1 Hi) as (? & Hm' & Ht').
  split; [done|]. split; [intros c q; by rewrite (Hm' c q), (Hm c q)|intros p; by rewrite Ht', Ht].
Qed.

Lemma steady_refl s : steady s s.
Proof. split; [|reflexivity]. intros. by split. Qed.

Lemma steady_view s s' : s' ≃ s → quiet s' s → steady s s'.
Proof.
  intros Hv Hq. split; [|done]. intros Hi. split; [by rewrite Hv|]. split; [|intros p; apply Hv].
  intros c q. unfold queued. by injection (sv_rt _ _ Hv c) as -> _ _ _ _ _ _.
Qed.

Lemma steady_rearranges s s' : (rt_inv s → rearranges s s') → quiet s' s → steady s s'.
Proof.
  intros Hr Hq. split; [|done]. intros Hi. specialize (Hr Hi).
  split; [eapply rt_inv_rearranges, Hi; done|]. split; [intros c q; apply Hr|apply Hr].
Qed.

Lemma curr_ok_quiet busy s s' :
  quiet s' s → (∀ p, tview (tasks s' p) = tview (tasks s p)) → curr_ok busy s → curr_ok busy s'.
Proof.
  intros Hq Ht Hc. apply (curr_ok_keep busy s s' Hc).
  - intros c. by injection (q_rq _ _ Hq c).
  - intros c. by injection (q_task _ _ Hq (curr (rqs s c))).
  - intros c p _ Hon Hcpu. injection (q_task _ _ Hq p) as -> _ _ _ _. split; [done|]. by injection (Ht p) as _ -> _ _.
Qed.

Lemma steady_minv fresh pend busy s s' : steady s s' → minv fresh pend busy s → minv fresh pend busy s'.
Proof.
  intros [Hs Hq] Hi. destruct (Hs (mi_rt _ _ _ _ Hi)) as (Hrt & Hm & Ht).
  eapply minv_frame; [done..|by apply quiet_flags|]. apply (curr_ok_quiet busy s s'); [done|done|apply Hi].
Qed.

(** ** What is relied upon *)

(** Other processors keep the invariant, whatever this one is doing. *)
Definition env_step (s s' : sys) : Prop := ∀ fresh pend busy, minv fresh pend busy s → minv fresh pend busy s'.

(** While the lock of a task is held nobody else wakes it up. *)
Record env_pi (p : nat) (s s' : sys) : Prop := {
  ep_step : env_step s s';
  ep_state : state (tasks s p) ≠ TASK_WAKING → state (tasks s' p) ≠ TASK_WAKING;
  ep_on_rq : on_rq (tasks s p) = false → on_rq (tasks s' p) = false;
  ep_idle : ¬ idle_one s p → ¬ idle_one s' p;
}.

(** The handlers of another class leave the real-time queues and the flags alone,
    and choose a task that is on a run queue or the idle one. *)
Record class_steady (o : class_ops) : Prop := {
  cs_enqueue c p w h s : quiet (c_enqueue_task o c p w h s) s;
  cs_dequeue c p s : quiet (c_dequeue_task o c p s) s;
  cs_yield c s : steady s (c_yield_task o c s);
  cs_check_preempt c p s : steady s (c_check_preempt_curr o c p s);
  cs_put_prev c p s : steady s (c_put_prev_task o c p s);
  cs_tick c p s : steady s (c_task_tick o c p s);
  cs_pick c s q s' : c_pick_next_task o c s = Ok (q, s') →
    steady s s' ∧ ∀ p, q = Some p → idle (rqs s' c) = p ∨ (on_rq (tasks s' p) = true ∧ task_cpu (tasks s' p) = c);
  cs_woken f c p s s' : c_task_woken o = Some f → f c p s = Ok s' → steady s s';
  cs_pre f c p s s' : c_pre_schedule o = Some f → f c p s = Ok s' → steady s s';
  cs_post f c s s' : c_post_schedule o = Some f → f c s = Ok s' → steady s s';
}.

Class MachineReliable : Prop := {
  mr_rely : reliable;
  mr_class k : k ≠ rt_sched_class → class_steady (other_class k);
  mr_waking k f p s : other_task_waking k = Some f → steady s (f p s);
  mr_others held c d s : env_step s (others held c d s);
  mr_held c d p s : on_rq (tasks s p) = true → task_cpu (tasks s p) = c →
    on_rq (tasks (others true c d s) p) = true ∧ task_cpu (tasks (others true c d s) p) = c ∧
    curr (rqs (others true c d s) c) = curr (rqs s c);
  mr_lock p s : env_pi p s (before_lock p s);
  mr_relax p s : env_pi p s (cpu_relax p s);
  mr_pi_lock p s : env_step s (before_pi_lock p s);
  mr_rq_lock c s : env_step s (before_rq_lock c s);
  mr_cmpxchg c s : env_step s (before_cmpxchg c s);
  mr_flush p s : env_step s (blk_schedule_flush_plug p s);
  mr_balance c s : env_step s (idle_balance c s);
  mr_fallback p s : env_step s (snd (cpuset_cpus_allowed_fallback p s)) ∧ quiet (snd (cpuset_cpus_allowed_fallback p s)) s;
  mr_mmdrop : mmdrop_gives_back;
}.

Section relying.
Context `{!MachineReliable}.

(** ** Moving tasks on and off the queues *)

Definition put_members_of (p : nat) (s s' : sys) : Prop := ∀ d q,
  q ∈ queued (rt_of s' d) ↔ q ∈ queued (rt_of s d) ∨ (q = p ∧ d = task_cpu (tasks s p) ∧ sched_class (tasks s p) = rt_sched_class).

Lemma view_members s s' : s' ≃ s → same_members s s'.
Proof. intros Hv c q. unfold queued. by injection (sv_rt _ _ Hv c) as -> _ _ _ _ _ _. Qed.

Lemma quiet_other_enqueue k c p w h s : k ≠ rt_sched_class → quiet (c_enqueue_task (other_class k) c p w h s) s.
Proof. intros Hk. apply cs_enqueue. by apply (mr_class). Qed.

Lemma quiet_other_dequeue k c p s : k ≠ rt_sched_class → quiet (c_dequeue_task (other_class k) c p s) s.
Proof. intros Hk. apply cs_dequeue. by apply (mr_class). Qed.

Lemma activate_frame c p w s :
  rt_inv s → let s' := activate_task c p w false s in
  rt_inv s' ∧ quiet s' s ∧ (∀ q, tview (tasks s' q) = tview (tasks s q)) ∧ put_members_of p s s'.
Proof.
  intros Hi s'. split; [by apply (activate_inv (mr_rely))|].
  unfold s', activate_task, enqueue_task, inc_nr_running.
  pose proof (clock_view c s) as Hk. pose proof (quiet_clock c s) as Hkq.
  set (s1 := update_rq_clock c s) in *. clearbody s1. assert (rt_inv s1) as [Hok1 Hc1] by by rewrite Hk.
  pose proof (sv_task _ _ Hk) as Ht1. pose proof (view_members _ _ Hk) as Hm1.
  assert (∀ s2, quiet s2 s → (∀ q, tview (tasks s2 q) = tview (tasks s q)) → put_members_of p s s2 →
    let s3 := upd_rq c (λ q, set_nr_running (u64 (nr_running q + 1)) q) s2 in
    quiet s3 s ∧ (∀ q, tview (tasks s3 q) = tview (tasks s q)) ∧ put_members_of p s s3) as Hend.
  { intros s2 Hq Ht Hm s3. split; [unfold s3; by quiet_step|]. split; [done|]. intros d q.
    rewrite (view_members s2 s3 (nr_running_view c _ s2) d q). apply Hm. }
  assert (tview (tasks s1 p) = tview (tasks s p)) as Htp by apply Ht1. injection Htp as Hpr Hcpu _ Hcl.
  assert (∀ k, k ≠ rt_sched_class → sched_class (tasks s1 p) = k →
    let s2 := c_enqueue_task (other_class k) c p w false s1 in
    quiet s2 s ∧ (∀ q, tview (tasks s2 q) = tview (tasks s q)) ∧ put_members_of p s s2) as Hother.
  { intros k Hne Ek s2. pose proof (other_enqueue (mr_rely) k c p w false s1 Hne) as Hv. fold s2 in Hv.
    split; [etransitivity; [by apply quiet_other_enqueue|done]|].
    split; [intros q; etransitivity; [apply (sv_task _ _ Hv)|apply Ht1]|].
    intros d q. rewrite (view_members _ _ Hv d q), (Hm1 d q). split; [by left|]. intros [?|(_ & _ & ?)]; [done|congruence]. }
  destruct (sched_class (tasks s1 p)) eqn:E;
    try (edestruct Hother as (? & ? & ?); [|reflexivity|by apply Hend]; done).
  pose proof (enqueue_task_moves c p w false s1 Hok1 ltac:(destruct (Hc1 p E); done)) as Hm.
  apply Hend.
  - etransitivity; [apply quiet_enqueue_task|done].
  - intros q. etransitivity; [apply Hm|apply Ht1].
  - intros d q. rewrite queued_abs, (mv_abs _ _ _ Hm). unfold put_on. rewrite Hcpu.
    case_decide as Hd.
    + subst d. rewrite put_members, <- queued_abs, (Hm1 _ q). naive_solver.
    + rewrite <- queued_abs, (Hm1 d q). naive_solver.
Qed.

Definition take_members_of (p : nat) (s s' : sys) : Prop := ∀ d q,
  q ∈ queued (rt_of s' d) ↔ q ≠ p ∧ q ∈ queued (rt_of s d).

Lemma deactivate_frame c p s :
  rt_inv s → let s' := deactivate_task c p s in
  rt_inv s' ∧ quiet s' s ∧ (∀ q, tview (tasks s' q) = tview (tasks s q)) ∧ take_members_of p s s'.
Proof.
  intros Hi s'. split; [by apply (deactivate_inv (mr_rely))|].
  unfold s', deactivate_task, dequeue_task, dec_nr_running.
  pose proof (clock_view c s) as Hk. pose proof (quiet_clock c s) as Hkq.
  set (s1 := update_rq_clock c s) in *. clearbody s1. assert (rt_inv s1) as [Hok1 Hc1] by by rewrite Hk.
  pose proof (sv_task _ _ Hk) as Ht1. pose proof (view_members _ _ Hk) as Hm1.
  assert (∀ s2, quiet s2 s → (∀ q, tview (tasks s2 q) = tview (tasks s q)) → take_members_of p s s2 →
    let s3 := upd_rq c (λ q, set_nr_running (u64 (nr_running q - 1)) q) s2 in
    quiet s3 s ∧ (∀ q, tview (tasks s3 q) = tview (tasks s q)) ∧ take_members_of p s s3) as Hend.
  { intros s2 Hq Ht Hm s3. split; [unfold s3; by quiet_step|]. split; [done|]. intros d q.
    rewrite (view_members s2 s3 (nr_running_view c _ s2) d q). apply Hm. }
  assert (∀ k, k ≠ rt_sched_class → sched_class (tasks s1 p) = k →
    let s2 := c_dequeue_task (other_class k) c p s1 in
    quiet s2 s ∧ (∀ q, tview (tasks s2 q) = tview (tasks s q)) ∧ take_members_of p s s2) as Hother.
  { intros k Hne Ek s2. pose proof (other_dequeue (mr_rely) k c p s1 Hne) as Hv. fold s2 in Hv.
    split; [etransitivity; [by apply quiet_other_dequeue|done]|].
    split; [intros q; etransitivity; [apply (sv_task _ _ Hv)|apply Ht1]|].
    intros d q. rewrite (view_members _ _ Hv d q), <- (Hm1 d q). split; [|by intros []]. intros Hq. split; [|done].
    intros ->. apply (queued_index _ _ _ Hok1) in Hq as (? & _ & _ & _ & _ & Hcl & _). congruence. }
  destruct (sched_class (tasks s1 p)) eqn:E;
    try (edestruct Hother as (? & ? & ?); [|reflexivity|by apply Hend]; done).
  pose proof (dequeue_task_moves c p s1 Hok1) as Hm.
  apply Hend.
  - etransitivity; [apply quiet_dequeue_task|done].
  - intros q. etransitivity; [apply Hm|apply Ht1].
  - intros d q. rewrite queued_abs, (mv_abs _ _ _ Hm). unfold remove_all.
    by rewrite remove_members, <- queued_abs, (Hm1 d q).
Qed.

(** ** Waking up *)

(** A task that was off its queue, or was on it already, comes to run. *)
Lemma minv_awaken fresh pend pend' busy p s s' :
  minv fresh pend busy s → rt_inv s' → (∀ q, tview (tasks s' q) = tview (tasks s q)) →
  (∀ q, q ≠ p → on_rq (tasks s' q) = on_rq (tasks s q) ∧ state (tasks s' q) = state (tasks s q)) →
  on_rq (tasks s' p) = true → state (tasks s' p) = TASK_RUNNING → (∀ c, rqview (rqs s' c) = rqview (rqs s c)) →
  (∀ q, on_cpu (tasks s' q) = on_cpu (tasks s q)) →
  put_members_of p s s' ∨ (on_rq (tasks s p) = true ∧ same_members s s') → ¬ idle_one s p →
  (∀ c, NoDup (waiting pend' s c) ∧ ∀ q, q ∈ waiting pend' s c ↔ q ≠ p ∧ q ∈ waiting pend s c) →
  minv fresh pend' busy s'.
Proof.
  intros Hi Hrt Ht Hne Hon Hrun Hv Hcpu Hmem Hidle Hpend.
  assert (∀ c, idle (rqs s' c) = idle (rqs s c) ∧ wake_list (rqs s' c) = wake_list (rqs s c) ∧
    curr (rqs s' c) = curr (rqs s c) ∧ resched_ipi (rqs s' c) = resched_ipi (rqs s c)) as Hr by (intros c; by injection (Hv c)).
  assert (∀ q, task_cpu (tasks s' q) = task_cpu (tasks s q) ∧ sched_class (tasks s' q) = sched_class (tasks s q)) as Htv
    by (intros q; by injection (Ht q)).
  assert (∀ c, waiting pend' s' c = waiting pend' s c) as Hw.
  { intros c. unfold waiting. by destruct (Hr c) as (_ & -> & _). }
  assert (∀ q, idle_one s' q ↔ idle_one s q) as Hid.
  { intros q. unfold idle_one. split; intros [c Hq]; exists c; destruct (Hr c) as (E & _); congruence. }
  split; [done|..]; intros.
  - destruct (Htv p0) as [Ec Ek]. rewrite Ek in *. pose proof (mi_queued _ _ _ _ Hi p0 ltac:(done)) as Hq.
    unfold on_rq_queued in *. rewrite Ec. destruct (decide (p0 = p)) as [->|Hp].
    + rewrite Hon. destruct Hmem as [Hm|[Hon0 Hm]]; [apply Hm; by right|]. apply Hm. by rewrite Hon0 in Hq.
    + destruct (Hne p0 Hp) as [-> _]. destruct Hmem as [Hm|[_ Hm]].
      * case_match; [apply Hm; by left|]. intros c [Hc|(? & _)]%Hm; [by apply (Hq c)|done].
      * case_match; [by apply Hm|]. intros c Hc%Hm. by apply (Hq c).
  - destruct (decide (p0 = p)) as [->|Hp].
    + rewrite Hrun. split; [done|]. intros [c Hc]. rewrite Hw in Hc. apply Hpend in Hc. tauto.
    + destruct (Hne p0 Hp) as [_ ->]. rewrite (mi_waking _ _ _ _ Hi).
      split; intros [c Hc]; exists c; [rewrite Hw; by apply Hpend|rewrite Hw in Hc; by apply Hpend in Hc as [_ ?]].
  - rewrite Hw in *. destruct (proj1 (proj2 (Hpend c) p0) ltac:(done)) as [Hp Hp0].
    destruct (Hne p0 Hp) as [-> _]. rewrite (proj1 (Htv p0)). by apply (mi_placed _ _ _ _ Hi).
  - rewrite Hw. apply Hpend.
  - destruct (Hr c) as (_ & E & _ & ->). rewrite E in *. by apply (mi_ipi _ _ _ _ Hi).
  - destruct (decide (p0 = p)) as [->|Hp]; [congruence|]. destruct (Hne p0 Hp) as [E1 ->]. rewrite E1, Hid in *.
    by apply (mi_asleep _ _ _ _ Hi).
  - rewrite Hid in *. assert (p0 ≠ p) as Hp by by intros ->. destruct (Hne p0 Hp) as [-> ->]. by apply (mi_idle _ _ _ _ Hi).
  - apply (curr_ok_keep busy s s' (mi_curr _ _ _ _ Hi)).
    + intros c. destruct (Hr c) as (? & _ & ? & _). by split.
    + intros c. apply Hcpu.
    + intros c q _ Hq Hc. split; [|by rewrite (proj1 (Htv q))].
      destruct (decide (q = p)) as [->|Hp]; [done|]. by rewrite (proj1 (Hne q Hp)).
Qed.

Lemma check_preempt_steady fuel c p s : steady s (check_preempt_curr fuel c p s).
Proof.
  unfold check_preempt_curr. cbv zeta. set (s1 := if decide _ then _ else _).
  assert (steady s s1) as H1'.
  { unfold s1. case_decide as Hc.
    - unfold class_of. destruct (sched_class (tasks s (curr (rqs s c)))) eqn:E; cbn [ops_of c_check_preempt_curr rt_class_ops];
        try (apply cs_check_preempt; by apply (mr_class)).
      apply steady_rearranges; [|apply quiet_check_preempt]. intros [Hok _]. by apply check_preempt_rearranges.
    - case_match; [|apply steady_refl]. apply steady_view; [apply sv_resched|apply quiet_resched]. }
  clearbody s1. case_match; [|done]. eapply steady_trans; [exact H1'|].
  apply steady_view; [apply sv_skip|]. by quiet_step.
Qed.

(** A task with a place in a real-time queue may be pushed or pulled. *)
Definition may_move (c p : nat) (s : sys) : Prop :=
  on_rq (tasks s p) = true ∧ task_cpu (tasks s p) = c ∧ curr (rqs s c) ≠ p.

Lemma set_cpu_off_queue p c s :
  rt_inv s → (∀ d, p ∉ queued (rt_of s d)) → rt_inv (set_task_cpu p c s).
Proof.
  intros [Hok Hc] Hp. split; [by apply sys_ok_upd_task|]. intros q. unfold set_task_cpu. rewrite tasks_upd_task.
  case_decide; subst; apply Hc.
Qed.

Lemma move_frame c d p s :
  rt_inv s → let s' := move_task c d p s in
  rt_inv s' ∧ quiet s' s ∧
  (∀ q, q ≠ p → tview (tasks s' q) = tview (tasks s q)) ∧
  task_cpu (tasks s' p) = d ∧ sched_class (tasks s' p) = sched_class (tasks s p) ∧
  ∀ e q, q ∈ queued (rt_of s' e) ↔
    (q ≠ p ∧ q ∈ queued (rt_of s e)) ∨ (q = p ∧ e = d ∧ sched_class (tasks s p) = rt_sched_class).
Proof.
  intros Hi s'. unfold s', move_task.
  destruct (deactivate_frame c p s Hi) as (Hi1 & Hq1 & Ht1 & Hm1). set (s1 := deactivate_task c p s) in *. clearbody s1.
  assert (rt_inv (set_task_cpu p d s1)) as Hi2.
  { apply set_cpu_off_queue; [done|]. intros e He%Hm1. tauto. }
  assert (quiet (set_task_cpu p d s1) s1) as Hq2 by by apply quiet_upd_task.
  assert (∀ q, tasks (set_task_cpu p d s1) q = if decide (q = p) then set_cpu d (tasks s1 p) else tasks s1 q) as Ht2
    by (intros q; apply tasks_upd_task).
  assert (same_members s1 (set_task_cpu p d s1)) as Hm2 by done.
  set (s2 := set_task_cpu p d s1) in *. clearbody s2.
  destruct (activate_frame d p false s2 Hi2) as (Hi3 & Hq3 & Ht3 & Hm3).
  set (s3 := activate_task d p false false s2) in *. clearbody s3.
  split; [done|]. split; [etransitivity; [exact Hq3|]; etransitivity; [exact Hq2|exact Hq1]|].
  assert (sched_class (tasks s1 p) = sched_class (tasks s p)) as Hcl1 by by injection (Ht1 p).
  assert (sched_class (tasks s2 p) = sched_class (tasks s p) ∧ task_cpu (tasks s2 p) = d) as [Hcl2 Hcpu2]
    by (rewrite Ht2, decide_True by done; by split).
  split; [|split; [|split]].
  - intros q Hq. rewrite Ht3, Ht2, decide_False by done. apply Ht1.
  - injection (Ht3 p) as _ -> _ _. done.
  - injection (Ht3 p) as _ _ _ ->. done.
  - intros e q. rewrite (Hm3 e q), (Hm2 e q), (Hm1 e q), Hcl2, Hcpu2. naive_solver.
Qed.

(** ** Pushing and pulling *)

Lemma pick_highest_queued fuel s c cpu idx p :
  pick_highest_loop fuel s c cpu idx = Some p → p ∈ queued (rt_of s c) ∧ task_running s p = false.
Proof.
  revert idx. induction fuel as [|fuel IH]; intros idx; cbn [pick_highest_loop]; [done|].
  case_decide; [done|]. destruct (find _ _) as [q|] eqn:E; [|apply IH]. intros [= ->].
  apply find_some in E as [Hin Hp]. unfold pick_rt_task in Hp. rewrite !andb_true_iff, negb_true_iff in Hp.
  split; [|tauto]. apply elem_of_queued. exists idx. by apply list_elem_of_In.
Qed.

Lemma queued_on_rq fresh pend busy s c p :
  minv fresh pend busy s → p ∈ queued (rt_of s c) → on_rq (tasks s p) = true ∧ task_cpu (tasks s p) = c.
Proof.
  intros Hi Hp. pose proof (mi_rt _ _ _ _ Hi) as [Hok _].
  pose proof (queued_cpu _ _ _ Hok Hp) as Hc. pose proof Hp as (k & _ & _ & _ & _ & Hcl & _)%(queued_index _ _ _ Hok).
  pose proof (mi_queued _ _ _ _ Hi p Hcl) as Hq. unfold on_rq_queued in Hq. split; [|done].
  destruct (on_rq (tasks s p)); [done|]. by destruct (Hq c).
Qed.

Lemma move_minv fresh pend busy c d p s :
  minv fresh pend busy s → may_move c p s → minv fresh pend busy (move_task c d p s).
Proof.
  intros Hi (Hon & Hcpu & Hnc). destruct (move_frame c d p s (mi_rt _ _ _ _ Hi)) as (Hrt & Hq & Ht & Hd & Hcl & Hm).
  set (s' := move_task c d p s) in *. clearbody s'.
  pose proof (λ q, quiet_on_rq _ _ q Hq) as Eon. pose proof (λ q, quiet_state _ _ q Hq) as Est.
  pose proof (λ c, quiet_curr _ _ c Hq) as Ecurr.
  assert (∀ c, waiting pend s' c = waiting pend s c) as Hw by (intros e; unfold waiting; by rewrite (quiet_list _ _ e Hq)).
  assert (∀ q, idle_one s' q ↔ idle_one s q) as Hid.
  { intros q. unfold idle_one. split; intros [e He]; exists e; injection (q_rq _ _ Hq e); congruence. }
  split; [done|..]; intros.
  - unfold on_rq_queued. rewrite Eon. destruct (decide (p0 = p)) as [->|Hp].
    + rewrite Hon, Hd. apply Hm. right. by rewrite <- Hcl.
    + injection (Ht p0 Hp) as _ Ec _ Ek. rewrite Ek in *. pose proof (mi_queued _ _ _ _ Hi p0 ltac:(done)) as Hqp.
      unfold on_rq_queued in Hqp. rewrite Ec. case_match; [apply Hm; by left|].
      intros e [[_ He]|(? & _)]%Hm; [by apply (Hqp e)|done].
  - rewrite Est, (mi_waking _ _ _ _ Hi). by setoid_rewrite Hw.
  - rewrite Hw in *. rewrite Eon. destruct (mi_placed _ _ _ _ Hi c0 p0 ltac:(done)) as [Hoff Hc0]. split; [done|].
    assert (p0 ≠ p) as Hp by (intros ->; congruence). by injection (Ht p0 Hp) as _ -> _ _.
  - rewrite Hw. apply Hi.
  - injection (q_rq _ _ Hq c0) as _ _ E _ ->. rewrite E in *. by apply (mi_ipi _ _ _ _ Hi).
  - rewrite Est. rewrite Eon, Hid in *. by apply (mi_asleep _ _ _ _ Hi).
  - rewrite Eon, Est. rewrite Hid in *. by apply (mi_idle _ _ _ _ Hi).
  - apply (curr_ok_keep busy s s' (mi_curr _ _ _ _ Hi)).
    + intros e. by injection (q_rq _ _ Hq e).
    + intros e. by injection (q_task _ _ Hq (curr (rqs s e))).
    + intros e q _ Hqo Hqc. rewrite Eon. split; [done|].
      assert (q ≠ p) as Hqp by (intros E; apply Hnc; rewrite <- E; unfold q; congruence). by injection (Ht q Hqp) as _ -> _ _.
Qed.

(** The invariant is preserved by pushing and pulling. *)
Lemma minv_preserved fresh pend busy : preserved (minv fresh pend busy) may_move.
Proof.
  split.
  - intros held c d s. by apply (mr_others).
  - intros p s. apply steady_minv, steady_view; [apply sv_resched|apply quiet_resched].
  - intros c p s. apply steady_minv, steady_view; [apply dequeue_pushable_view|]. unfold dequeue_pushable_task. apply quiet_upd_rt.
  - intros c p s _. unfold pick_next_pushable_task. destruct (plist_items _) as [|[q qr] l]; [done|]. cbv zeta.
    destruct (decide (c ≠ task_cpu (tasks s q))) as [|Hc]; [done|]. destruct (task_current s c q) eqn:Ecur; [done|].
    destruct (decide _); [done|]. destruct (on_rq (tasks s q)) eqn:Eon; cbn [negb]; [|done].
    destruct (negb (rt_task (tasks s q))); [done|]. intros [= <-]. unfold task_current in Ecur.
    apply bool_decide_eq_false_1 in Ecur. split; [done|]. split; [|done]. symmetry. by apply dec_stable.
  - intros c d p s _ (Hon & Hc & Hn). destruct (mr_held c d p s Hon Hc) as (? & ? & Hcur). split; [done|]. split; [done|congruence].
  - intros c d p s Hi. unfold task_shifted. rewrite !orb_false_iff, !negb_false_iff.
    intros [[[Hc%bool_decide_eq_true_1 _] Hrun] Hon]. split; [done|]. split; [done|]. intros <-.
    unfold task_running in Hrun. by rewrite (co_on_cpu _ _ (mi_curr _ _ _ _ Hi)) in Hrun.
  - intros c this p s Hi Hp. destruct (pick_highest_queued _ _ _ _ _ _ Hp) as [Hq Hrun].
    destruct (queued_on_rq _ _ _ _ _ _ Hi Hq) as [? ?]. split; [done|]. split; [done|]. intros <-.
    unfold task_running in Hrun. by rewrite (co_on_cpu _ _ (mi_curr _ _ _ _ Hi)) in Hrun.
  - intros c d p s. apply move_minv.
Qed.

Lemma task_woken_minv fresh pend busy fuel c p s s' :
  minv fresh pend busy s →
  match c_task_woken (class_of fuel s p) with Some f => f c p s | None => Ok s end = Ok s' → minv fresh pend busy s'.
Proof.
  intros Hi. unfold class_of. destruct (sched_class (tasks s p)) eqn:E; cbn [ops_of].
  2: { cbn [c_task_woken rt_class_ops]. unfold task_woken_rt. case_match; [|by intros [= <-]].
       by apply (push_tasks_preserves _ _ (minv_preserved fresh pend busy)). }
  all: match goal with |- context [other_class ?k] => pose proof (cs_woken _ (mr_class k ltac:(done))) as Hs end.
  all: destruct (c_task_woken _) as [f|] eqn:Ef; [|by intros [= <-]].
  all: intros Hf; eapply steady_minv; [by eapply Hs|done].
Qed.

End relying.

End machine.
