(* ===== verification/SchedWakeup.v ===== *)
(** * Waking up keeps the invariant (sched.c, src/indwriterups/project1)

    Every way a task is woken up: on its queue, put on a queue, left in the list of
    another processor and taken from it. *)

From S2P Require Import Prelude RtState RtBandwidth RtQueue SchedCore RtPush RtKeeps RtBalance SchedPolicy.
From S2P Require Import RtView RtInv RtEnqueue RtOps RtHandlers RtPreserve RtSteps SchedQuiet SchedWake SchedInv.

Local Open Scope Z_scope.

Section wakeup.
Context `{WakeEnv} `{!KernelLibSpec}.
Context `{!MachineReliable}.

(** ** The wake-up of one task *)

Lemma rt_inv_flags p f s : (∀ t, tview (f t) = tview t) → rt_inv s → rt_inv (upd_task p f s).
Proof. intros Hf Hi. by rewrite (sv_upd_task p f s Hf). Qed.

(** [s] is the state before the task was put on its queue, [s1] that before it is
    made to run. *)
Lemma do_wakeup_minv fresh pend pend' busy fuel c p s s1 s' :
  minv fresh pend busy s → rt_inv s1 → (∀ q, tview (tasks s1 q) = tview (tasks s q)) →
  (∀ q, q ≠ p → on_rq (tasks s1 q) = on_rq (tasks s q) ∧ state (tasks s1 q) = state (tasks s q)) →
  on_rq (tasks s1 p) = true → (∀ c, rqview (rqs s1 c) = rqview (rqs s c)) →
  (∀ q, on_cpu (tasks s1 q) = on_cpu (tasks s q)) →
  put_members_of p s s1 ∨ (on_rq (tasks s p) = true ∧ same_members s s1) → ¬ idle_one s p →
  (∀ c, NoDup (waiting pend' s c) ∧ ∀ q, q ∈ waiting pend' s c ↔ q ≠ p ∧ q ∈ waiting pend s c) →
  ttwu_do_wakeup fuel c p s1 = Ok s' → minv fresh pend' busy s'.
Proof.
  intros Hi Hrt Ht Hne Hon Hv Hcpu Hmem Hidle Hpend. unfold ttwu_do_wakeup. cbv zeta.
  pose proof (check_preempt_steady fuel c p s1) as [Hs2 Hq2]. set (s2 := check_preempt_curr fuel c p s1) in *. clearbody s2.
  destruct (Hs2 Hrt) as (Hrt2 & Hm2 & Ht2). set (s3 := upd_task p (set_state TASK_RUNNING) s2).
  apply task_woken_minv.
  assert (∀ q, tasks s3 q = if decide (q = p) then set_state TASK_RUNNING (tasks s2 p) else tasks s2 q) as H3'
    by (intros q; apply tasks_upd_task).
  apply (minv_awaken fresh pend pend' busy p s s3 Hi).
  - by apply rt_inv_flags.
  - intros q. rewrite <- Ht, <- Ht2, H3'. by case_decide; subst.
  - intros q Hq. rewrite H3', decide_False by done. rewrite (quiet_on_rq _ _ q Hq2), (quiet_state _ _ q Hq2). by apply Hne.
  - rewrite H3', decide_True by done. cbn [on_rq set_state]. by rewrite (quiet_on_rq _ _ p Hq2).
  - by rewrite H3', decide_True.
  - intros d. rewrite <- Hv. apply (q_rq _ _ Hq2 d).
  - intros q. rewrite <- Hcpu, H3'. assert (on_cpu (tasks s2 q) = on_cpu (tasks s1 q)) as Eq by by injection (q_task _ _ Hq2 q).
    by case_decide; subst.
  - destruct Hmem as [Hm|[Hon0 Hm]]; [left|right; split; [done|]].
    + intros d q. rewrite (Hm2 d q : _ ∈ queued (rt_of s3 d) ↔ _). apply Hm.
    + intros d q. rewrite (Hm2 d q : _ ∈ queued (rt_of s3 d) ↔ _). apply Hm.
  - done.
  - done.
Qed.

(** A task on a queue is not waiting, nor idle. *)
Lemma on_rq_not_waiting fresh pend busy s p :
  minv fresh pend busy s → on_rq (tasks s p) = true → (∀ c, p ∉ waiting pend s c) ∧ ¬ idle_one s p.
Proof.
  intros Hi Hon. split; [intros c [Hoff _]%(mi_placed _ _ _ _ Hi)|intros [Hoff _]%(mi_idle _ _ _ _ Hi)]; congruence.
Qed.

Lemma not_waiting_same fresh pend busy s p :
  minv fresh pend busy s → (∀ c, p ∉ waiting pend s c) →
  ∀ c, NoDup (waiting pend s c) ∧ ∀ q, q ∈ waiting pend s c ↔ q ≠ p ∧ q ∈ waiting pend s c.
Proof. intros Hi Hp c. split; [apply Hi|]. intros q. split; [|by intros []]. intros Hq. split; [|done]. intros ->. by apply (Hp c). Qed.

Lemma do_wakeup_on_rq fresh pend busy fuel c p s s' :
  minv fresh pend busy s → on_rq (tasks s p) = true → ttwu_do_wakeup fuel c p s = Ok s' → minv fresh pend busy s'.
Proof.
  intros Hi Hon. destruct (on_rq_not_waiting _ _ _ _ _ Hi Hon) as [Hw Hidle].
  apply (do_wakeup_minv fresh pend pend busy fuel c p s s s' Hi); try done; [apply Hi|by right|].
  by eapply not_waiting_same.
Qed.

Lemma activate_wakeup fresh pend pend' busy fuel c p w s s' :
  minv fresh pend busy s → on_rq (tasks s p) = false → ¬ idle_one s p →
  (∀ c, NoDup (waiting pend' s c) ∧ ∀ q, q ∈ waiting pend' s c ↔ q ≠ p ∧ q ∈ waiting pend s c) →
  ttwu_do_wakeup fuel c p (ttwu_activate c p w s) = Ok s' → minv fresh pend' busy s'.
Proof.
  intros Hi Hoff Hidle Hpend. unfold ttwu_activate.
  destruct (activate_frame c p w s (mi_rt _ _ _ _ Hi)) as (Hrt & Hq & Ht & Hm).
  set (s1 := activate_task c p w false s) in *. clearbody s1.
  assert (∀ q, tasks (upd_task p (set_on_rq true) s1) q = if decide (q = p) then set_on_rq true (tasks s1 p) else tasks s1 q) as H2'
    by (intros q; apply tasks_upd_task).
  apply (do_wakeup_minv fresh pend pend' busy fuel c p s _ s' Hi); try done.
  - by apply rt_inv_flags.
  - intros q. rewrite H2', <- Ht. by case_decide; subst.
  - intros q Hne. rewrite H2', decide_False by done. by rewrite (quiet_on_rq _ _ q Hq), (quiet_state _ _ q Hq).
  - by rewrite H2', decide_True.
  - intros d. apply (q_rq _ _ Hq d).
  - intros q. rewrite H2'. assert (on_cpu (tasks s1 q) = on_cpu (tasks s q)) as Eq by by injection (q_task _ _ Hq q).
    by case_decide; subst.
  - by left.
Qed.

(** ** The tasks taken off a list *)

(** The head of those that are pending on [c] is woken up. *)
Lemma pending_head pend c p l s :
  pend c = p :: l → (∀ d, NoDup (waiting pend s d)) → (∀ d q, q ∈ waiting pend s d → task_cpu (tasks s q) = d) →
  ∀ d, NoDup (waiting (<[c := l]> pend) s d) ∧ ∀ q, q ∈ waiting (<[c := l]> pend) s d ↔ q ≠ p ∧ q ∈ waiting pend s d.
Proof.
  intros Hp Hnd Hcpu d. pose proof (Hnd d) as Hn. unfold waiting in *.
  destruct (decide (d = c)) as [->|Hd].
  - rewrite fn_lookup_insert. rewrite Hp in *. cbn [app] in *. apply list.NoDup_cons in Hn as [Hx Hn].
    split; [done|]. intros q. rewrite elem_of_cons. split; [|tauto]. intros Hq. split; [by intros ->|by right].
  - rewrite fn_lookup_insert_ne by done. split; [done|]. intros q. split; [|by intros []]. intros Hq. split; [|done].
    intros ->. apply Hd. rewrite <- (Hcpu d p Hq). apply Hcpu. rewrite Hp. by left.
Qed.

Lemma minv_pend fresh pend pend' busy s :
  (∀ c, waiting pend' s c ≡ₚ waiting pend s c) → minv fresh pend busy s → minv fresh pend' busy s.
Proof.
  intros Hp Hi. destruct Hi as [? ? Hw Hpl Ho ? ? ? ?]. split; try done.
  - intros p. rewrite Hw. by setoid_rewrite Hp.
  - intros c p. rewrite Hp. apply Hpl.
  - intros c. rewrite Hp. apply Ho.
Qed.

Lemma waiting_not_idle fresh pend busy s c p : minv fresh pend busy s → p ∈ waiting pend s c → ¬ idle_one s p.
Proof.
  intros Hi Hp Hid. pose proof (proj2 (mi_waking _ _ _ _ Hi p) (ex_intro _ c Hp)) as Hw.
  destruct (mi_idle _ _ _ _ Hi p Hid) as [_ E]. by rewrite E in Hw.
Qed.

Lemma pending_loop_minv fresh pend busy fuel c l s s' :
  minv fresh pend busy s → pend c = l → ttwu_pending_loop fuel c l s = Ok s' → minv fresh (<[c := []]> pend) busy s'.
Proof.
  revert pend s. induction l as [|p l IH]; intros pend s Hi Hl; cbn [ttwu_pending_loop].
  { intros [= <-]. eapply minv_pend, Hi. intros d. unfold waiting.
    destruct (decide (d = c)) as [->|]; [by rewrite fn_lookup_insert, Hl|by rewrite fn_lookup_insert_ne]. }
  destruct (ttwu_do_activate fuel c p s) as [s1| |] eqn:E; cbn [mbind res_bind]; try done. intros Hs'.
  assert (p ∈ waiting pend s c) as Hp by (unfold waiting; rewrite Hl; by left).
  assert (minv fresh (<[c := l]> pend) busy s1) as Hi1.
  { eapply (activate_wakeup fresh pend _ busy fuel c p true s s1 Hi); [by destruct (mi_placed _ _ _ _ Hi c p Hp)| | |exact E].
    - by eapply waiting_not_idle.
    - apply pending_head; [done|apply Hi|]. intros d q Hq. by destruct (mi_placed _ _ _ _ Hi d q Hq). }
  eapply minv_pend; [|apply (IH (<[c := l]> pend) s1 Hi1 ltac:(by rewrite fn_lookup_insert) Hs')]. intros d. unfold waiting.
  destruct (decide (d = c)) as [->|]; [by rewrite !fn_lookup_insert|by rewrite !fn_lookup_insert_ne].
Qed.

(** A list is taken: its tasks are pending. *)
Lemma take_list_minv fresh pend busy c s s' :
  minv fresh pend busy s → pend c = [] → s' ≃ s → tasks s' = tasks s →
  (∀ d, idle (rqs s' d) = idle (rqs s d) ∧ curr (rqs s' d) = curr (rqs s d)) →
  (∀ d, wake_list (rqs s' d) = if decide (d = c) then [] else wake_list (rqs s d)) →
  (∀ d, d ≠ c → resched_ipi (rqs s' d) = resched_ipi (rqs s d)) →
  minv fresh (<[c := wake_list (rqs s c)]> pend) busy s'.
Proof.
  intros Hi Hp Hv Hts Hid Hl Hipi.
  assert (∀ q, idle_one s' q ↔ idle_one s q) as Hidle.
  { intros q. unfold idle_one. by setoid_rewrite (λ d, proj1 (Hid d)). }
  assert (∀ d, waiting (<[c := wake_list (rqs s c)]> pend) s' d = waiting pend s d) as Hw.
  { intros d. unfold waiting. rewrite Hl. destruct (decide (d = c)) as [->|];
      [by rewrite fn_lookup_insert, Hp, app_nil_r|by rewrite fn_lookup_insert_ne]. }
  split; intros; rewrite ?Hts in *.
  - rewrite Hv. apply Hi.
  - apply (members_queued s); [by apply view_members|by rewrite Hts..|by apply (mi_queued _ _ _ _ Hi)].
  - rewrite (mi_waking _ _ _ _ Hi). by setoid_rewrite Hw.
  - rewrite Hw in *. by apply (mi_placed _ _ _ _ Hi).
  - rewrite Hw. apply Hi.
  - rewrite Hl in *. destruct (decide (c0 = c)); [done|]. rewrite Hipi by done. by apply (mi_ipi _ _ _ _ Hi).
  - rewrite Hidle in *. by apply (mi_asleep _ _ _ _ Hi).
  - rewrite Hidle in *. by apply (mi_idle _ _ _ _ Hi).
  - apply (curr_ok_keep busy s s' (mi_curr _ _ _ _ Hi)); [|by rewrite Hts..]. intros d. destruct (Hid d). by split.
Qed.

(** Nothing is pending, or the task [p] of [c] alone. *)
Definition only (c p : nat) : nat → list nat := <[c := [p]]> no_one.

Lemma waiting_none c s d : waiting (<[c := []]> no_one) s d = waiting no_one s d.
Proof.
  unfold waiting, no_one. destruct (decide (d = c)) as [->|]; [by rewrite fn_lookup_insert|by rewrite fn_lookup_insert_ne].
Qed.

Lemma minv_none fresh busy c s : minv fresh (<[c := []]> no_one) busy s → minv fresh no_one busy s.
Proof. apply minv_pend. intros d. by rewrite waiting_none. Qed.

Lemma elem_waiting_only c p s d q : q ∈ waiting (only c p) s d ↔ (q = p ∧ d = c) ∨ q ∈ waiting no_one s d.
Proof.
  unfold waiting, only, no_one. destruct (decide (d = c)) as [->|];
    [rewrite fn_lookup_insert; set_solver|rewrite fn_lookup_insert_ne by done; set_solver].
Qed.

Lemma nodup_only c p s d : NoDup (waiting no_one s d) → p ∉ waiting no_one s c → NoDup (waiting (only c p) s d).
Proof.
  unfold waiting, only, no_one. destruct (decide (d = c)) as [->|];
    [rewrite fn_lookup_insert; cbn; by constructor|by rewrite fn_lookup_insert_ne].
Qed.

Lemma do_pending_minv fresh busy fuel s l s' :
  minv fresh (<[this_cpu s := l]> no_one) busy s → sched_ttwu_do_pending fuel l s = Ok s' → minv fresh no_one busy s'.
Proof.
  unfold sched_ttwu_do_pending. intros Hi Hs'.
  pose proof (mr_rq_lock (this_cpu s) s _ _ _ Hi) as Hi1.
  pose proof (pending_loop_minv _ _ _ _ _ l _ _ Hi1 ltac:(by rewrite fn_lookup_insert) Hs') as Hi2.
  apply (minv_none _ _ (this_cpu s)). eapply minv_pend, Hi2. intros d. rewrite waiting_none. unfold waiting, no_one.
  destruct (decide (d = this_cpu s)) as [->|]; [by rewrite fn_lookup_insert|by rewrite !fn_lookup_insert_ne].
Qed.

Lemma ipi_minv fresh busy fuel s s' : minv fresh no_one busy s → scheduler_ipi fuel s = Ok s' → minv fresh no_one busy s'.
Proof.
  intros Hi. unfold scheduler_ipi. cbv zeta. set (c := this_cpu s).
  set (s0 := upd_rq c (set_resched_ipi false) s). set (s1 := upd_rq c (set_wake_list []) s0).
  assert (∀ d, rqs s0 d = if decide (d = c) then set_resched_ipi false (rqs s c) else rqs s d) as Hr0 by (intros d; apply rqs_upd_rq).
  assert (∀ d, rqs s1 d = if decide (d = c) then set_wake_list [] (rqs s0 c) else rqs s0 d) as Hr1 by (intros d; apply rqs_upd_rq).
  assert (minv fresh (<[c := wake_list (rqs s c)]> no_one) busy s1) as Hi1.
  { apply (take_list_minv fresh no_one busy c s s1 Hi); try done.
    - unfold s1, s0. etransitivity; by apply sv_upd_rq.
    - intros d. rewrite Hr1, !Hr0. by repeat case_decide; subst.
    - intros d. rewrite Hr1, !Hr0. by repeat case_decide; subst.
    - intros d Hd. by rewrite Hr1, decide_False, Hr0, decide_False. }
  assert (wake_list (rqs s0 c) = wake_list (rqs s c)) as -> by by rewrite Hr0, decide_True.
  destruct (wake_list (rqs s c)) as [|p l] eqn:El.
  - intros [= <-]. by eapply minv_none.
  - by apply do_pending_minv.
Qed.

Lemma pending_minv fresh busy fuel s s' : minv fresh no_one busy s → sched_ttwu_pending fuel s = Ok s' → minv fresh no_one busy s'.
Proof.
  intros Hi. unfold sched_ttwu_pending. cbv zeta. set (c := this_cpu s). set (s1 := upd_rq c (set_wake_list []) s).
  assert (∀ d, rqs s1 d = if decide (d = c) then set_wake_list [] (rqs s c) else rqs s d) as Hr1 by (intros d; apply rqs_upd_rq).
  assert (minv fresh (<[c := wake_list (rqs s c)]> no_one) busy s1) as Hi1.
  { apply (take_list_minv fresh no_one busy c s s1 Hi); try done.
    - by apply sv_upd_rq.
    - intros d. rewrite Hr1. by case_decide; subst.
    - intros d. rewrite Hr1. by case_decide; subst.
    - intros d Hd. by rewrite Hr1, decide_False. }
  destruct (wake_list (rqs s c)) as [|p l] eqn:El.
  - intros [= <-]. by eapply minv_none.
  - by apply do_pending_minv.
Qed.

(** ** A task is woken up *)

(** It is marked as waking, and is pending on its processor. *)
Lemma mark_waking fresh busy p s :
  minv fresh no_one busy s → on_rq (tasks s p) = false → state (tasks s p) ≠ TASK_WAKING → ¬ idle_one s p →
  minv fresh (only (task_cpu (tasks s p)) p) busy (upd_task p (set_state TASK_WAKING) s).
Proof.
  intros Hi Hoff Hnw Hnid. set (s' := upd_task p _ s).
  assert (∀ q, tasks s' q = if decide (q = p) then set_state TASK_WAKING (tasks s p) else tasks s q) as Hts
    by (intros q; apply tasks_upd_task).
  assert (∀ q, q ≠ p → tasks s' q = tasks s q) as Hne by (intros q Hq; by rewrite Hts, decide_False).
  assert (tasks s' p = set_state TASK_WAKING (tasks s p)) as Hp by by rewrite Hts, decide_True.
  assert (∀ q, tview (tasks s' q) = tview (tasks s q) ∧ on_rq (tasks s' q) = on_rq (tasks s q)) as Hsame.
  { intros q. rewrite Hts. by case_decide; subst. }
  assert (∀ c, p ∉ waiting no_one s c) as Hout.
  { intros c Hc. apply Hnw, (mi_waking _ _ _ _ Hi). by exists c. }
  assert (s' ≃ s) as Hv by by apply sv_upd_task.
  split; intros; change (waiting ?a s') with (waiting a s) in *; change (idle_one s') with (idle_one s) in *;
    change (rqs s') with (rqs s) in *.
  - rewrite Hv. apply Hi.
  - apply (members_queued s); [by apply view_members|apply Hsame|apply Hsame|]. apply (mi_queued _ _ _ _ Hi).
    by injection (proj1 (Hsame p0)) as _ _ _ <-.
  - setoid_rewrite elem_waiting_only. destruct (decide (p0 = p)) as [->|Hq].
    + rewrite Hp. split; [intros _; eexists; by left|done].
    + rewrite (Hne p0 Hq), (mi_waking _ _ _ _ Hi). split; intros [c Hc]; exists c; naive_solver.
  - rewrite elem_waiting_only in *. destruct (Hsame p0) as [Ht ->].
    assert (task_cpu (tasks s' p0) = task_cpu (tasks s p0)) as -> by by injection Ht.
    match goal with E : _ ∨ _ |- _ => destruct E as [[-> ->]|Hq]; [done|by apply (mi_placed _ _ _ _ Hi)] end.
  - by apply nodup_only; [apply Hi|].
  - by apply (mi_ipi _ _ _ _ Hi).
  - destruct (decide (p0 = p)) as [->|Hq]; [by rewrite Hp|]. rewrite (Hne p0 Hq) in *. by apply (mi_asleep _ _ _ _ Hi).
  - assert (p0 ≠ p) as Hq by by intros ->. rewrite (Hne p0 Hq). by apply (mi_idle _ _ _ _ Hi).
  - apply (curr_ok_keep busy s s' (mi_curr _ _ _ _ Hi)); [done|by intros c; rewrite Hts; case_decide; subst|].
    intros c q _ Hqo Hqc. rewrite (proj2 (Hsame q)). split; [done|]. rewrite <- Hqc. by injection (proj1 (Hsame q)).
Qed.

(** The processor of a task that is on no queue is chosen. *)
Lemma set_cpu_minv fresh pend pend' busy p d s :
  minv fresh pend busy s → on_rq (tasks s p) = false →
  (∀ e q, q ∈ waiting pend' s e ↔ (q ≠ p ∧ q ∈ waiting pend s e) ∨ (q = p ∧ e = d ∧ ∃ c, p ∈ waiting pend s c)) →
  (∀ e, NoDup (waiting pend' s e)) → minv fresh pend' busy (set_task_cpu p d s).
Proof.
  intros Hi Hoff Hw Hnd.
  assert (∀ e, p ∉ queued (rt_of s e)) as Hnq.
  { intros e He. destruct (queued_on_rq _ _ _ _ _ _ Hi He) as [Hon _]. congruence. }
  set (s' := set_task_cpu p d s).
  assert (∀ q, tasks s' q = if decide (q = p) then set_cpu d (tasks s p) else tasks s q) as Hts by (intros q; apply tasks_upd_task).
  assert (∀ q, q ≠ p → tasks s' q = tasks s q) as Hne by (intros q Hq; by rewrite Hts, decide_False).
  assert (tasks s' p = set_cpu d (tasks s p)) as Hp by by rewrite Hts, decide_True.
  assert (∀ q, on_rq (tasks s' q) = on_rq (tasks s q) ∧ state (tasks s' q) = state (tasks s q)) as Hsame.
  { intros q. rewrite Hts. by case_decide; subst. }
  split; intros; change (waiting ?a s') with (waiting a s) in *; change (idle_one s') with (idle_one s) in *;
    change (rqs s') with (rqs s) in *; rewrite ?(proj1 (Hsame _)), ?(proj2 (Hsame _)) in *.
  - apply set_cpu_off_queue; [apply Hi|done].
  - unfold on_rq_queued. change (rt_of s') with (rt_of s). destruct (decide (p0 = p)) as [->|Hq].
    + by rewrite (proj1 (Hsame p)), Hoff.
    + rewrite (Hne p0 Hq) in *. by apply (mi_queued _ _ _ _ Hi).
  - rewrite (mi_waking _ _ _ _ Hi). setoid_rewrite Hw. destruct (decide (p0 = p)); naive_solver.
  - rewrite Hw in *. match goal with E : _ ∨ _ |- _ => destruct E as [[Hq Hin]|(-> & -> & Hin)] end.
    + rewrite (Hne p0 Hq). by apply (mi_placed _ _ _ _ Hi).
    + by rewrite Hp.
  - apply Hnd.
  - by apply (mi_ipi _ _ _ _ Hi).
  - by apply (mi_asleep _ _ _ _ Hi).
  - by apply (mi_idle _ _ _ _ Hi).
  - apply (curr_ok_keep busy s s' (mi_curr _ _ _ _ Hi)); [done|by intros e; rewrite Hts; case_decide; subst|].
    intros e q _ Hqo Hqc. rewrite (proj1 (Hsame q)). split; [done|].
    assert (q ≠ p) as Hqp by (intros E; rewrite E in Hqo; congruence). by rewrite (Hne q Hqp).
Qed.

Lemma place_pending fresh busy c d p s :
  minv fresh (only c p) busy s → minv fresh (only d p) busy (set_task_cpu p d s).
Proof.
  intros Hi. assert (p ∈ waiting (only c p) s c) as Hpc by (apply elem_waiting_only; by left).
  destruct (mi_placed _ _ _ _ Hi c p Hpc) as [Hoff Hcpu].
  assert (∀ e, p ∉ waiting no_one s e) as Hout.
  { intros e He. pose proof (mi_once _ _ _ _ Hi c) as Hn.
    assert (e = c) as -> by (destruct (mi_placed _ _ _ _ Hi e p); [apply elem_waiting_only; by right|congruence]).
    revert Hn He. unfold waiting, only, no_one. rewrite fn_lookup_insert. by intros [Hn _]%list.NoDup_cons. }
  apply (set_cpu_minv fresh (only c p)); [done|done| |].
  - intros e q. rewrite !elem_waiting_only. split; [|naive_solver].
    intros [[-> ->]|Hq]; [right; by eauto|left; split; [|by right]]. intros ->. by apply (Hout e).
  - intros e. apply nodup_only; [|done]. pose proof (mi_once _ _ _ _ Hi e) as Hn. revert Hn. unfold waiting, only, no_one.
    destruct (decide (e = c)) as [->|]; [rewrite fn_lookup_insert; by intros [_ Hn]%list.NoDup_cons|by rewrite fn_lookup_insert_ne].
Qed.

(** The exchange succeeds in a state in which the task is still pending. *)
Lemma push_state fresh pend busy tries p c next s l s' :
  minv fresh pend busy s → ttwu_push tries p c next s = Ok (l, s') →
  ∃ s1, minv fresh pend busy s1 ∧ l = wake_list (rqs s1 c) ∧ s' = upd_rq c (set_wake_list (p :: l)) s1.
Proof.
  revert next s. induction tries as [|tries IH]; intros next s Hi; cbn [ttwu_push]; [done|].
  pose proof (mr_cmpxchg c s _ _ _ Hi) as Hi1. case_decide; [|by apply IH].
  intros [= <- <-]. by exists (before_cmpxchg c s).
Qed.

(** It goes from pending to the list, and an interrupt is on its way. *)
Lemma listed_minv fresh busy c p s s' :
  minv fresh (only c p) busy s → s' ≃ s → tasks s' = tasks s →
  (∀ d, idle (rqs s' d) = idle (rqs s d) ∧ curr (rqs s' d) = curr (rqs s d)) →
  (∀ d, wake_list (rqs s' d) = if decide (d = c) then p :: wake_list (rqs s c) else wake_list (rqs s d)) →
  (∀ d, d ≠ c → resched_ipi (rqs s' d) = resched_ipi (rqs s d)) → resched_ipi (rqs s' c) = true →
  minv fresh no_one busy s'.
Proof.
  intros Hi Hv Hts Hid Hl Hipi Hc.
  assert (∀ q, idle_one s' q ↔ idle_one s q) as Hidle.
  { intros q. unfold idle_one. by setoid_rewrite (λ d, proj1 (Hid d)). }
  assert (∀ d, waiting no_one s' d = waiting (only c p) s d) as Hw.
  { intros d. unfold waiting, only, no_one. rewrite Hl. destruct (decide (d = c)) as [->|];
      [by rewrite fn_lookup_insert|by rewrite fn_lookup_insert_ne]. }
  split; intros; rewrite ?Hts in *.
  - rewrite Hv. apply Hi.
  - apply (members_queued s); [by apply view_members|by rewrite Hts..|by apply (mi_queued _ _ _ _ Hi)].
  - rewrite (mi_waking _ _ _ _ Hi). by setoid_rewrite Hw.
  - rewrite Hw in *. by apply (mi_placed _ _ _ _ Hi).
  - rewrite Hw. apply Hi.
  - destruct (decide (c0 = c)) as [->|Hd]; [done|]. rewrite Hl, decide_False in * by done. rewrite Hipi by done.
    by apply (mi_ipi _ _ _ _ Hi).
  - rewrite Hidle in *. by apply (mi_asleep _ _ _ _ Hi).
  - rewrite Hidle in *. by apply (mi_idle _ _ _ _ Hi).
  - apply (curr_ok_keep busy s s' (mi_curr _ _ _ _ Hi)); [|by rewrite Hts..]. intros d. destruct (Hid d). by split.
Qed.

Lemma queue_remote_minv fresh busy tries p c s s' :
  minv fresh (only c p) busy s → ttwu_queue_remote tries p c s = Ok s' → minv fresh no_one busy s'.
Proof.
  intros Hi. unfold ttwu_queue_remote. destruct (ttwu_push _ _ _ _ _) as [[l s2]| |] eqn:E; cbn [mbind res_bind]; try done.
  destruct (push_state _ _ _ _ _ _ _ _ _ _ Hi E) as (s1 & Hi1 & -> & ->). intros [= <-].
  set (s2 := upd_rq c _ s1).
  assert (∀ d, rqs s2 d = if decide (d = c) then set_wake_list (p :: wake_list (rqs s1 c)) (rqs s1 c) else rqs s1 d) as Hr
    by (intros d; exact (rqs_upd_rq c (set_wake_list (p :: wake_list (rqs s1 c))) s1 d)).
  assert (s2 ≃ s1) as Hv by by apply sv_upd_rq.
  destruct (wake_list (rqs s1 c)) as [|q l] eqn:El.
  - assert (∀ d, rqs (upd_rq c (set_resched_ipi true) s2) d = if decide (d = c) then set_resched_ipi true (rqs s2 c) else rqs s2 d) as Hr3
      by (intros d; apply rqs_upd_rq).
    apply (listed_minv fresh busy c p s1 _ Hi1); try done.
    + etransitivity; [by apply sv_upd_rq|done].
    + intros d. rewrite Hr3, !Hr. by repeat case_decide; subst.
    + intros d. rewrite Hr3, !Hr, El. by repeat case_decide; subst.
    + intros d Hd. by rewrite Hr3, decide_False, Hr, decide_False.
    + by rewrite Hr3, decide_True.
  - apply (listed_minv fresh busy c p s1 _ Hi1); try done.
    + intros d. rewrite Hr. by repeat case_decide; subst.
    + intros d. rewrite Hr, El. by repeat case_decide; subst.
    + intros d Hd. by rewrite Hr, decide_False.
    + rewrite Hr, decide_True by done. cbn. apply (mi_ipi _ _ _ _ Hi1). by rewrite El.
Qed.

Lemma queue_minv fresh busy fuel tries p c s s' :
  minv fresh (only c p) busy s → ttwu_queue fuel tries p c s = Ok s' → minv fresh no_one busy s'.
Proof.
  intros Hi. unfold ttwu_queue. case_match; [by apply queue_remote_minv|]. cbv zeta.
  pose proof (mr_rq_lock c s _ _ _ Hi) as Hi1. set (s1 := before_rq_lock c s) in *. clearbody s1.
  assert (p ∈ waiting (only c p) s1 c) as Hp by (apply elem_waiting_only; by left).
  intros Hs'. apply (minv_pend fresh (<[c := []]> (only c p))).
  { intros d. unfold waiting, only, no_one.
    destruct (decide (d = c)) as [->|]; [by rewrite fn_lookup_insert|by rewrite !fn_lookup_insert_ne]. }
  eapply (activate_wakeup fresh (only c p) _ busy fuel c p true s1 s' Hi1);
    [by destruct (mi_placed _ _ _ _ Hi1 c p Hp)|by eapply waiting_not_idle| |exact Hs'].
  apply pending_head; [unfold only; by rewrite fn_lookup_insert|apply Hi1|].
  intros d q Hq. by destruct (mi_placed _ _ _ _ Hi1 d q Hq).
Qed.

Lemma task_waking_steady p s : steady s (task_waking p s).
Proof.
  unfold task_waking. destruct (sched_class (tasks s p)); try apply steady_refl;
    (destruct (other_task_waking _) eqn:E; [by eapply (mr_waking)|apply steady_refl]).
Qed.

Lemma select_minv fresh pend busy fuel p w s c s' :
  minv fresh pend busy s → select_task_rq fuel p w s = (c, s') → minv fresh pend busy s' ∧ quiet s' s.
Proof.
  intros Hi. unfold select_task_rq, select_fallback_rq. cbv zeta.
  destruct (mr_fallback p s) as [He Hq].
  destruct (cpuset_cpus_allowed_fallback p s) as [d s1]. cbn [snd] in *.
  repeat case_match; intros [= <- <-]; (split; [done|reflexivity]) || (split; [by apply He|done]).
Qed.

Lemma place_minv fresh busy fuel tries p s s' :
  minv fresh no_one busy s → on_rq (tasks s p) = false → state (tasks s p) ≠ TASK_WAKING → ¬ idle_one s p →
  ttwu_place fuel tries p s = Ok s' → minv fresh no_one busy s'.
Proof.
  intros Hi Hoff Hnw Hnid. unfold ttwu_place. cbv zeta.
  pose proof (mark_waking fresh busy p s Hi Hoff Hnw Hnid) as Hi1. set (c0 := task_cpu (tasks s p)) in *.
  set (s1 := upd_task p (set_state TASK_WAKING) s) in *. clearbody s1 c0.
  pose proof (steady_minv _ _ _ _ _ (task_waking_steady p s1) Hi1) as Hi2. set (s2 := task_waking p s1) in *. clearbody s2.
  destruct (select_task_rq fuel p true s2) as [c s3] eqn:Es. destruct (select_minv _ _ _ _ _ _ _ _ _ Hi2 Es) as [Hi3 _].
  apply queue_minv. case_decide as Hc; [by eapply place_pending|].
  assert (p ∈ waiting (only c0 p) s3 c0) as Hp by (apply elem_waiting_only; by left).
  destruct (mi_placed _ _ _ _ Hi3 c0 p Hp) as [_ Hc0]. by rewrite <- Hc, Hc0.
Qed.

Lemma wait_on_cpu_minv fresh busy turns p s s' :
  minv fresh no_one busy s → on_rq (tasks s p) = false → state (tasks s p) ≠ TASK_WAKING → ¬ idle_one s p →
  wait_on_cpu turns p s = Ok s' →
  minv fresh no_one busy s' ∧ on_rq (tasks s' p) = false ∧ state (tasks s' p) ≠ TASK_WAKING ∧ ¬ idle_one s' p.
Proof.
  revert s. induction turns as [|turns IH]; intros s Hi Hoff Hnw Hnid; cbn [wait_on_cpu];
    (destruct (on_cpu (tasks s p)); [|by intros [= <-]]); [done|].
  destruct (mr_relax p s) as [He Hs Ho Hd]. apply IH; auto.
Qed.

Lemma masked_not_waking z mask : Z.land z mask ≠ 0 → Z.land TASK_WAKING mask = 0 → z ≠ TASK_WAKING ∧ z ≠ TASK_RUNNING.
Proof. intros Hz Hm. split; intros ->; [done|]. by rewrite Z.land_0_l in Hz. Qed.

(** Waking up keeps the invariant, whichever way it goes. *)
Lemma try_to_wake_up_minv fresh busy fuel turns tries p mask s b s' :
  minv fresh no_one busy s → Z.land TASK_WAKING mask = 0 →
  try_to_wake_up fuel turns tries p mask s = Ok (b, s') → minv fresh no_one busy s'.
Proof.
  intros Hi Hmask. unfold try_to_wake_up. cbv zeta. pose proof (mr_pi_lock p s _ _ _ Hi) as Hi1.
  set (s1 := before_pi_lock p s) in *. clearbody s1. case_decide as Hz; [by intros [= _ <-]|].
  destruct (masked_not_waking _ _ Hz Hmask) as [Hnw Hnr].
  assert (¬ idle_one s1 p) as Hnid by by intros [_ ?]%(mi_idle _ _ _ _ Hi1).
  assert (∀ s2, minv fresh no_one busy s2 → on_rq (tasks s2 p) = false → state (tasks s2 p) ≠ TASK_WAKING → ¬ idle_one s2 p →
    (s ← wait_on_cpu turns p s2; s ← ttwu_place fuel tries p s; Ok (true, s)) = Ok (b, s') → minv fresh no_one busy s') as Hend.
  { intros s2 Hi2 Hoff2 Hnw2 Hnid2. destruct (wait_on_cpu turns p s2) as [s3| |] eqn:E3; cbn [mbind res_bind]; try done.
    destruct (wait_on_cpu_minv _ _ _ _ _ _ Hi2 Hoff2 Hnw2 Hnid2 E3) as (Hi3 & Hoff3 & Hnw3 & Hnid3).
    destruct (ttwu_place fuel tries p s3) as [s4| |] eqn:E4; cbn [mbind res_bind]; try done.
    intros [= _ <-]. by eapply place_minv. }
  destruct (on_rq (tasks s1 p)) eqn:Eon; cbn [mbind res_bind]; [|by apply Hend].
  unfold ttwu_remote. cbv zeta. destruct (mr_lock p s1) as [He Hs _ Hd]. pose proof (He _ _ _ Hi1) as Hi2.
  specialize (Hs Hnw). specialize (Hd Hnid). set (s2 := before_lock p s1) in *. clearbody s2.
  destruct (on_rq (tasks s2 p)) eqn:Eon2; cbn [mbind res_bind]; [|by apply Hend].
  destruct (ttwu_do_wakeup fuel _ p s2) as [s3| |] eqn:E3; cbn [mbind res_bind]; try done. intros [= _ <-].
  by eapply do_wakeup_on_rq.
Qed.

Lemma wake_up_local_minv fresh busy fuel p s s' :
  minv fresh no_one busy s → try_to_wake_up_local fuel p s = Ok s' → minv fresh no_one busy s'.
Proof.
  intros Hi. unfold try_to_wake_up_local. cbv zeta. set (c := task_cpu (tasks s p)). clearbody c.
  case_decide; [done|]. case_decide; [done|]. set (s1 := if pi_trylock s p then s else _).
  assert (minv fresh no_one busy s1) as Hi1.
  { unfold s1. case_match; [done|]. by apply (mr_rq_lock), (mr_pi_lock). }
  clearbody s1. case_decide as Hz; [by intros [= <-]|].
  destruct (masked_not_waking _ TASK_NORMAL Hz eq_refl) as [Hnw Hnr].
  assert (¬ idle_one s1 p) as Hnid by by intros [_ ?]%(mi_idle _ _ _ _ Hi1).
  destruct (on_rq (tasks s1 p)) eqn:Eon; [by apply do_wakeup_on_rq|]. apply (activate_wakeup fresh no_one); [done..|].
  eapply not_waiting_same; [done|]. intros d Hd. apply Hnw, (mi_waking _ _ _ _ Hi1). by exists d.
Qed.

(** ** A new task *)

Lemma minv_started fresh pend busy p s : minv fresh pend busy s → on_rq (tasks s p) = true → minv (fresh ∖ {[p]}) pend busy s.
Proof.
  intros Hi Hon. destruct Hi as [? ? ? ? ? ? Ha ? ?]. split; try done. intros q Hq Hid Hoff. apply Ha; [|done..].
  intros Hin. apply Hq. assert (q ≠ p) by (intros ->; congruence). set_solver.
Qed.

(** It is started, and no longer new. *)
Lemma new_task_minv fresh busy fuel p s s' :
  minv fresh no_one busy s → on_rq (tasks s p) = false → state (tasks s p) = TASK_RUNNING → ¬ idle_one s p →
  wake_up_new_task fuel p s = Ok s' → minv (fresh ∖ {[p]}) no_one busy s'.
Proof.
  intros Hi Hoff Hst Hid. unfold wake_up_new_task. destruct (select_task_rq fuel p false s) as [c s1] eqn:Es.
  destruct (select_minv _ _ _ _ _ _ _ _ _ Hi Es) as [Hi1 Hq1]. cbv zeta.
  assert (on_rq (tasks s1 p) = false ∧ state (tasks s1 p) = TASK_RUNNING) as [Hoff1 Hst1]
    by (by rewrite (quiet_on_rq _ _ p Hq1), (quiet_state _ _ p Hq1)).
  assert (∀ e, p ∉ waiting no_one s1 e) as Hw1.
  { intros e He. pose proof (proj2 (mi_waking _ _ _ _ Hi1 p) (ex_intro _ e He)) as E. by rewrite Hst1 in E. }
  assert (minv fresh no_one busy (set_task_cpu p c s1)) as Hi2.
  { apply (set_cpu_minv fresh no_one); [done..| |apply Hi1]. intros e q. split; [|naive_solver].
    intros He. left. split; [|done]. intros ->. by apply (Hw1 e). }
  assert (idle_one (set_task_cpu p c s1) p → idle_one s p) as Hid2.
  { intros [e He]. exists e. rewrite <- He. symmetry. by injection (q_rq _ _ Hq1 e). }
  assert (tasks (set_task_cpu p c s1) p = set_cpu c (tasks s1 p)) as Hp2 by by (unfold set_task_cpu; rewrite tasks_upd_task, decide_True).
  assert (waiting no_one (set_task_cpu p c s1) = waiting no_one s1) as Ew by done. rewrite <- Ew in Hw1. clear Ew.
  set (s2 := set_task_cpu p c s1) in *. clearbody s2.
  destruct (activate_frame c p false s2 (mi_rt _ _ _ _ Hi2)) as (Hrt3 & Hq3 & Ht3 & Hm3).
  set (s3 := activate_task c p false false s2) in *. clearbody s3. set (s4 := upd_task p (set_on_rq true) s3).
  assert (∀ q, tasks s4 q = if decide (q = p) then set_on_rq true (tasks s3 p) else tasks s3 q) as H4' by (intros q; apply tasks_upd_task).
  assert (minv fresh no_one busy s4) as Hi4.
  { apply (minv_awaken fresh no_one no_one busy p s2 s4 Hi2).
    - by apply rt_inv_flags.
    - intros q. rewrite H4', <- Ht3. by case_decide; subst.
    - intros q Hq. rewrite H4', decide_False by done. by rewrite (quiet_on_rq _ _ q Hq3), (quiet_state _ _ q Hq3).
    - by rewrite H4', decide_True.
    - rewrite H4', decide_True by done. cbn [state set_on_rq]. rewrite (quiet_state _ _ p Hq3). by rewrite Hp2.
    - intros d. apply (q_rq _ _ Hq3 d).
    - intros q. rewrite H4'. assert (on_cpu (tasks s3 q) = on_cpu (tasks s2 q)) as Eq by by injection (q_task _ _ Hq3 q).
      by case_decide; subst.
    - by left.
    - tauto.
    - by eapply not_waiting_same. }
  assert (minv (fresh ∖ {[p]}) no_one busy s4) as Hi5 by (apply minv_started; [done|by rewrite H4', decide_True]).
  apply task_woken_minv. eapply steady_minv, Hi5. apply check_preempt_steady.
Qed.

End wakeup.
