(* ===== verification/SchedMachine.v ===== *)
(** * No wake-up is lost (sched.c and sched_rt.c, src/indwriterups/project1)

    The machine as a transition system: tasks set their states, are woken up and
    started, and processors take the wake-ups sent to them, tick, yield and
    schedule.  The invariant holds in every reachable state. *)

From S2P Require Import Prelude RtState RtBandwidth RtQueue SchedCore RtPush RtKeeps RtBalance SchedPolicy.
From S2P Require Import RtView RtInv RtEnqueue RtOps RtHandlers RtPreserve RtSteps SchedQuiet SchedWake SchedInv SchedWakeup.

Local Open Scope Z_scope.

Section machine.
Context `{WakeEnv} `{!KernelLibSpec} `{!MachineReliable}.

(** ** Scheduling *)

(** The processor that chooses its next task is excused from running one that is on
    a queue. *)
Lemma minv_busy fresh pend c p s :
  minv fresh pend None s → curr (rqs s c) = p → minv fresh pend (Some (c, p)) s.
Proof.
  intros Hi Hc. destruct Hi as [? ? ? ? ? ? ? ? [Hr ? ? ? _]]. split; try done. split; try done.
  - intros d _. by apply Hr.
  - by intros d q [= <- <-].
Qed.

Lemma steady_upd_task p f s : (∀ t, tview (f t) = tview t) → (∀ t, qview (f t) = qview t) → steady s (upd_task p f s).
Proof. intros Ht Hq. apply steady_view; [by apply sv_upd_task|by apply quiet_upd_task]. Qed.

Lemma steady_clock c s : steady s (update_rq_clock c s).
Proof. apply steady_view; [apply clock_view|apply quiet_clock]. Qed.

(** The running task sets its state, to another than waking. *)
Lemma set_state_minv fresh pend busy p z s :
  minv fresh pend busy s → on_rq (tasks s p) = true → z ≠ TASK_WAKING →
  minv fresh pend busy (upd_task p (set_state z) s).
Proof.
  intros Hi Hon Hz. destruct (on_rq_not_waiting _ _ _ _ _ Hi Hon) as [Hw Hid]. set (s' := upd_task p _ s).
  assert (∀ q, tasks s' q = if decide (q = p) then set_state z (tasks s p) else tasks s q) as Hts by (intros q; apply tasks_upd_task).
  assert (∀ q, q ≠ p → tasks s' q = tasks s q) as Hne by (intros q Hq; by rewrite Hts, decide_False).
  assert (tasks s' p = set_state z (tasks s p)) as Hp by by rewrite Hts, decide_True.
  assert (∀ q, tview (tasks s' q) = tview (tasks s q) ∧ on_rq (tasks s' q) = on_rq (tasks s q)) as Hsame.
  { intros q. rewrite Hts. by case_decide; subst. }
  assert (s' ≃ s) as Hv by by apply sv_upd_task.
  split; intros; change (waiting ?a s') with (waiting a s) in *; change (idle_one s') with (idle_one s) in *;
    change (rqs s') with (rqs s) in *; rewrite ?(proj2 (Hsame _)) in *.
  - rewrite Hv. apply Hi.
  - apply (members_queued s); [by apply view_members|apply Hsame|apply Hsame|]. apply (mi_queued _ _ _ _ Hi).
    by injection (proj1 (Hsame p0)) as _ _ _ <-.
  - destruct (decide (p0 = p)) as [->|Hq]; [|rewrite (Hne p0 Hq); by apply (mi_waking _ _ _ _ Hi)].
    rewrite Hp. split; [done|]. intros [c Hc]. by destruct (Hw c).
  - assert (task_cpu (tasks s' p0) = task_cpu (tasks s p0)) as -> by by injection (proj1 (Hsame p0)).
    by apply (mi_placed _ _ _ _ Hi).
  - apply Hi.
  - by apply (mi_ipi _ _ _ _ Hi).
  - assert (p0 ≠ p) as Hq by (intros ->; congruence). rewrite (Hne p0 Hq). by apply (mi_asleep _ _ _ _ Hi).
  - assert (p0 ≠ p) as Hq by by intros ->. rewrite (Hne p0 Hq). by apply (mi_idle _ _ _ _ Hi).
  - apply (curr_ok_keep busy s s' (mi_curr _ _ _ _ Hi)); [done|by intros e; rewrite Hts; case_decide; subst|].
    intros e q _ Hqo Hqc. rewrite (proj2 (Hsame q)). split; [done|]. rewrite <- Hqc. by injection (proj1 (Hsame q)).
Qed.

(** A task that is going to sleep leaves its queue. *)
Lemma leave_minv fresh pend c p s :
  minv fresh pend (Some (c, p)) s → on_rq (tasks s p) = true → state (tasks s p) ≠ TASK_RUNNING →
  minv fresh pend (Some (c, p)) (upd_task p (set_on_rq false) (deactivate_task c p s)).
Proof.
  intros Hi Hon Hst. destruct (on_rq_not_waiting _ _ _ _ _ Hi Hon) as [Hw Hid].
  destruct (deactivate_frame c p s (mi_rt _ _ _ _ Hi)) as (Hrt & Hq & Ht & Hm).
  set (s1 := deactivate_task c p s) in *. clearbody s1. set (s' := upd_task p _ s1).
  assert (∀ q, tasks s' q = if decide (q = p) then set_on_rq false (tasks s1 p) else tasks s1 q) as Hts by (intros q; apply tasks_upd_task).
  assert (∀ q, q ≠ p → on_rq (tasks s' q) = on_rq (tasks s q)) as Hne.
  { intros q Hqp. rewrite Hts, decide_False by done. by apply quiet_on_rq. }
  assert (on_rq (tasks s' p) = false) as Hp by by rewrite Hts, decide_True.
  assert (∀ q, tview (tasks s' q) = tview (tasks s q) ∧ state (tasks s' q) = state (tasks s q) ∧
    on_cpu (tasks s' q) = on_cpu (tasks s q)) as Hsame.
  { intros q. rewrite <- Ht, <- (quiet_state _ _ q Hq).
    assert (on_cpu (tasks s1 q) = on_cpu (tasks s q)) as <- by by injection (q_task _ _ Hq q).
    rewrite Hts. by case_decide; subst. }
  assert (∀ d, curr (rqs s' d) = curr (rqs s d) ∧ idle (rqs s' d) = idle (rqs s d) ∧ wake_list (rqs s' d) = wake_list (rqs s d) ∧
    resched_ipi (rqs s' d) = resched_ipi (rqs s d)) as Hr by (intros d; by injection (q_rq _ _ Hq d)).
  assert (∀ d, waiting pend s' d = waiting pend s d) as Hwt.
  { intros d. unfold waiting. by destruct (Hr d) as (_ & _ & -> & _). }
  assert (∀ q, idle_one s' q ↔ idle_one s q) as Hidle.
  { intros q. unfold idle_one. by setoid_rewrite (λ d, proj1 (proj2 (Hr d))). }
  assert (∀ q, task_cpu (tasks s' q) = task_cpu (tasks s q) ∧ sched_class (tasks s' q) = sched_class (tasks s q)) as Htc
    by (intros q; destruct (Hsame q) as [E _]; by injection E).
  assert (∀ d q, q ∈ queued (rt_of s' d) ↔ q ≠ p ∧ q ∈ queued (rt_of s d)) as Hm' by exact Hm.
  assert (rt_inv s') as Hrt' by by apply rt_inv_flags. clearbody s'. clear Hts.
  split; intros.
  - done.
  - unfold on_rq_queued. destruct (decide (p0 = p)) as [->|Hq0].
    + rewrite Hp. intros d Hd. apply Hm' in Hd. tauto.
    + rewrite (Hne p0 Hq0), (proj1 (Htc p0)). pose proof (mi_queued _ _ _ _ Hi p0 ltac:(by rewrite <- (proj2 (Htc p0)))) as Hqq.
      unfold on_rq_queued in Hqq. case_match; [by apply Hm'|]. intros d Hd. apply Hm' in Hd as [_ Hd]. by apply (Hqq d).
  - rewrite (proj1 (proj2 (Hsame p0))), (mi_waking _ _ _ _ Hi). by setoid_rewrite Hwt.
  - rewrite Hwt in *. assert (p0 ≠ p) as Hq0 by (intros ->; by apply (Hw c0)). rewrite (Hne p0 Hq0), (proj1 (Htc p0)).
    by apply (mi_placed _ _ _ _ Hi).
  - rewrite Hwt. apply Hi.
  - destruct (Hr c0) as (_ & _ & E & ->). rewrite E in *. by apply (mi_ipi _ _ _ _ Hi).
  - rewrite (proj1 (proj2 (Hsame p0))). destruct (decide (p0 = p)) as [->|Hq0]; [done|]. rewrite Hidle, (Hne p0 Hq0) in *.
    by apply (mi_asleep _ _ _ _ Hi).
  - rewrite Hidle in *. assert (p0 ≠ p) as Hq0 by by intros ->. rewrite (Hne p0 Hq0), (proj1 (proj2 (Hsame p0))).
    by apply (mi_idle _ _ _ _ Hi).
  - pose proof (mi_curr _ _ _ _ Hi) as Hc. apply (curr_ok_keep _ s s' Hc).
    + intros d. destruct (Hr d) as (? & ? & _). by split.
    + intros d. apply Hsame.
    + intros d q Hb Hqo Hqc. assert (q ≠ p) as Hqp.
      { intros E. apply Hb. cbn. f_equal. apply (co_once _ _ Hc). rewrite (co_busy _ _ Hc c p eq_refl). symmetry. exact E. }
      by rewrite (Hne q Hqp), (proj1 (Htc q)).
Qed.

Lemma sleep_minv fresh fuel c s s' :
  minv fresh no_one None s → schedule_sleep fuel c (curr (rqs s c)) s = Ok s' →
  minv fresh no_one (Some (c, curr (rqs s c))) s'.
Proof.
  intros Hi. pose proof (minv_busy _ _ c _ _ Hi eq_refl) as Hb. set (p := curr (rqs s c)) in *. unfold schedule_sleep.
  case_match eqn:Est; [|by intros [= <-]].
  apply andb_true_iff in Est as [Hst _]. apply negb_true_iff, bool_decide_eq_false_1 in Hst.
  assert (on_rq (tasks s p) = true) as Hon.
  { destruct (co_runs _ _ (mi_curr _ _ _ _ Hi) c ltac:(done)) as [E|[? _]]; [|done].
    destruct Hst. apply (mi_idle _ _ _ _ Hi p). by exists c. }
  case_match; [intros [= <-]; by apply set_state_minv|]. cbv zeta.
  pose proof (leave_minv _ _ _ _ _ Hb Hon Hst) as Hl. set (s1 := upd_task p (set_on_rq false) _) in *. clearbody s1.
  assert (∀ s2, minv fresh no_one (Some (c, p)) s2 →
    minv fresh no_one (Some (c, p)) (if blk_needs_flush_plug s2 p then blk_schedule_flush_plug p s2 else s2)) as Hend.
  { intros s2 H2'. case_match; [by apply mr_flush|done]. }
  destruct (wq_worker p); cbn [mbind res_bind]; [|intros [= <-]; by apply Hend].
  destruct (wq_worker_sleeping p c s1) as [q|]; cbn [mbind res_bind]; [|intros [= <-]; by apply Hend].
  destruct (try_to_wake_up_local fuel q s1) as [s2| |] eqn:E; cbn [mbind res_bind]; try done. intros [= <-].
  by eapply Hend, wake_up_local_minv.
Qed.

(** ** The next task *)

Lemma pre_schedule_minv fresh pend busy fuel c p s s' :
  minv fresh pend busy s → pre_schedule fuel c p s = Ok s' → minv fresh pend busy s'.
Proof.
  intros Hi. unfold pre_schedule, class_of. destruct (sched_class (tasks s p)) eqn:E; cbn [ops_of].
  2: { cbn [c_pre_schedule rt_class_ops]. intros [= <-]. unfold pre_schedule_rt. case_match; [|done].
       by apply (pull_preserves _ _ (minv_preserved fresh pend busy)). }
  all: match goal with |- context [other_class ?k] => pose proof (cs_pre _ (mr_class k ltac:(done))) as Hs end.
  all: destruct (c_pre_schedule _) as [f|] eqn:Ef; [|by intros [= <-]].
  all: intros Hf; eapply steady_minv; [by eapply Hs|done].
Qed.

Lemma post_schedule_minv fresh pend busy fuel c s s' :
  minv fresh pend busy s → post_schedule_core fuel c s = Ok s' → minv fresh pend busy s'.
Proof.
  intros Hi. unfold post_schedule_core, class_of. case_match; [|by intros [= <-]].
  assert (∀ s1, minv fresh pend busy s1 → minv fresh pend busy (upd_rq c (set_post_schedule false) s1)) as Hend.
  { intros s1. apply steady_minv, steady_view; [apply sv_post|by apply quiet_upd_rq]. }
  destruct (sched_class (tasks s (curr (rqs s c)))) eqn:E; cbn [ops_of].
  2: { cbn [c_post_schedule rt_class_ops]. unfold post_schedule_rt.
       destruct (push_rt_tasks fuel c s) as [s1| |] eqn:Ep; cbn [mbind res_bind]; try done. intros [= <-]. apply Hend.
       by eapply (push_tasks_preserves _ _ (minv_preserved fresh pend busy)). }
  all: match goal with |- context [other_class ?k] => pose proof (cs_post _ (mr_class k ltac:(done))) as Hs end.
  all: destruct (c_post_schedule _) as [f|] eqn:Ef; cbn [mbind res_bind]; [|intros [= <-]; by apply Hend].
  all: destruct (f c s) as [s1| |] eqn:Ep; cbn [mbind res_bind]; try done; intros [= <-]; apply Hend.
  all: eapply steady_minv; [by eapply Hs|done].
Qed.

Lemma put_prev_steady fuel c p s : steady s (put_prev_task fuel c p s).
Proof.
  unfold put_prev_task. cbv zeta. set (s1 := if _ || _ then _ else s).
  assert (steady s s1) as H1' by (unfold s1; case_match; [apply steady_clock|apply steady_refl]). clearbody s1.
  eapply steady_trans; [exact H1'|]. unfold class_of.
  destruct (sched_class (tasks s1 p)) eqn:E; cbn [ops_of]; try (apply cs_put_prev; by apply mr_class).
  cbn [c_put_prev_task rt_class_ops]. apply steady_view; [apply put_prev_view|apply quiet_put_prev].
Qed.

(** What may be chosen for processor [c]. *)
Definition may_run (c : nat) (s : sys) (p : nat) : Prop :=
  idle (rqs s c) = p ∨ (on_rq (tasks s p) = true ∧ task_cpu (tasks s p) = c).

Lemma pick_one_steady fresh pend busy fuel k c s q s' :
  minv fresh pend busy s → c_pick_next_task (ops_of fuel k) c s = Ok (q, s') →
  steady s s' ∧ ∀ p, q = Some p → may_run c s' p.
Proof.
  intros Hi. destruct k; cbn [ops_of]; try (intros (Hst & Hp)%cs_pick; [by split|by apply mr_class]).
  cbn [c_pick_next_task rt_class_ops]. unfold of_option.
  destruct (pick_next_task_rt c s) as [[q1 s1]|] eqn:E; [|done]. intros [= <- <-].
  pose proof (quiet_pick _ _ _ _ E) as Hq. destruct (pick_task_spec s c (proj1 (mi_rt _ _ _ _ Hi))) as (s2 & E2 & Hv).
  rewrite E in E2. injection E2 as -> ->.
  assert (steady s s2) as Hst by by apply steady_view. split; [done|].
  pose proof (steady_minv _ _ _ _ _ Hst Hi) as Hi2. intros p Hp. right. unfold chosen in Hp. case_match; [done|].
  eapply queued_on_rq; [exact Hi2|]. apply (view_members _ _ Hv c p). destruct (queued (rt_of s c)); simplify_eq/=. by left.
Qed.

Lemma pick_from_steady fresh pend busy fuel ks c s p s' :
  minv fresh pend busy s → pick_from fuel ks c s = Ok (p, s') → steady s s' ∧ may_run c s' p.
Proof.
  revert s. induction ks as [|k ks IH]; intros s Hi; cbn [pick_from]; [done|].
  destruct (c_pick_next_task (ops_of fuel k) c s) as [[q s1]| |] eqn:E; cbn [mbind res_bind]; try done.
  destruct (pick_one_steady _ _ _ _ _ _ _ _ _ Hi E) as [Hs Hp]. destruct q as [p1|].
  - intros [= <- <-]. split; [done|by apply Hp].
  - intros Hs'. destruct (IH s1 (steady_minv _ _ _ _ _ Hs Hi) Hs') as [Hs2 Hr]. split; [|done]. by eapply steady_trans.
Qed.

Lemma pick_next_steady fresh pend busy fuel b c s p s' :
  minv fresh pend busy s → pick_next_task fuel b c s = Ok (p, s') → steady s s' ∧ may_run c s' p.
Proof.
  intros Hi. unfold pick_next_task. destruct b; [|by eapply pick_from_steady].
  destruct (c_pick_next_task (ops_of fuel fair_sched_class) c s) as [[q s1]| |] eqn:E; cbn [mbind res_bind]; try done.
  destruct (pick_one_steady _ _ _ _ _ _ _ _ _ Hi E) as [Hs Hp]. destruct q as [p1|].
  - intros [= <- <-]. split; [done|by apply Hp].
  - intros Hs'. destruct (pick_from_steady _ _ _ _ _ _ _ _ _ (steady_minv _ _ _ _ _ Hs Hi) Hs') as [Hs2 Hr]. split; [|done].
    by eapply steady_trans.
Qed.

(** ** The switch *)

(** Only address spaces differ. *)
Record mm_only (s s' : sys) : Prop := {
  mn_view : s' ≃ s;
  mn_rt c : rt (rqs s' c) = rt (rqs s c);
  mn_need p : need_resched (tasks s' p) = need_resched (tasks s p);
  mn_task p : (on_rq (tasks s' p), state (tasks s' p), on_cpu (tasks s' p)) = (on_rq (tasks s p), state (tasks s p), on_cpu (tasks s p));
  mn_rq c : let q' := rqs s' c in let q := rqs s c in
    (curr q', idle q', wake_list q', resched_ipi q') = (curr q, idle q, wake_list q, resched_ipi q);
}.

Lemma mm_only_refl s : mm_only s s.
Proof. by split. Qed.

Lemma mm_only_trans s1 s2 s3 : mm_only s1 s2 → mm_only s2 s3 → mm_only s1 s3.
Proof.
  intros [V1 Q1 N1 T1 R1] [V2 Q2 N2 T2 R2].
  split; [by etransitivity|intros c; by rewrite Q2, Q1|intros p; by rewrite N2, N1|intros p; by rewrite T2, T1|intros c; cbv zeta; by rewrite R2, R1].
Qed.

Lemma mm_only_task p m s : mm_only s (upd_task p (set_active_mm m) s).
Proof.
  split; [by apply sv_upd_task|done| | |done]; intros q; rewrite tasks_upd_task; by case_decide; subst.
Qed.

Lemma mm_only_rq c m s : mm_only s (upd_rq c (set_prev_mm m) s).
Proof.
  split; [by apply sv_upd_rq| |done|done|]; intros d; rewrite rqs_upd_rq; by case_decide; subst.
Qed.

Lemma mm_only_count m f s : mm_only s (upd_mm_count m f s).
Proof. by split. Qed.

Lemma mm_only_drop m s : mm_only s (mmdrop m s).
Proof. rewrite (mr_mmdrop m s). apply mm_only_count. Qed.

Lemma switch_address_only c prev next s s' : switch_address_space c prev next s = Ok s' → mm_only s s'.
Proof.
  unfold switch_address_space. cbv zeta.
  assert (∀ s1, mm_only s1 (match mm (tasks s1 prev) with
    | None => upd_rq c (set_prev_mm (active_mm (tasks s prev))) (upd_task prev (set_active_mm None) s1) | Some _ => s1 end)) as Hend.
  { intros s1. case_match; [apply mm_only_refl|]. eapply mm_only_trans; [apply mm_only_task|apply mm_only_rq]. }
  destruct (mm (tasks s next)) as [m|]; cbn [mbind res_bind]; [intros [= <-]; apply Hend|].
  destruct (active_mm (tasks s prev)) as [m|]; cbn [mbind res_bind]; [|done].
  set (s1 := upd_mm_count _ _ _). assert (mm_only s s1) as H1'.
  { eapply mm_only_trans; [apply (mm_only_task next (Some m))|apply mm_only_count]. }
  clearbody s1. intros [= <-]. eapply mm_only_trans; [exact H1'|apply Hend].
Qed.

(** The tasks before and after run; nothing else the invariant reads changes. *)
Lemma context_switch_frame c prev next s s' :
  context_switch c prev next s = Ok s' →
  mm_only (upd_task prev (set_on_cpu false) (upd_task next (set_on_cpu true) s)) s'.
Proof.
  unfold context_switch, prepare_task_switch, prepare_lock_switch, finish_task_switch, finish_lock_switch. cbv zeta.
  set (s1 := upd_task next (set_on_cpu true) s). destruct (switch_address_space c prev next s1) as [s2| |] eqn:E;
    cbn [mbind res_bind]; try done. intros [= <-]. apply switch_address_only in E.
  assert (∀ s3, mm_only s3 (match prev_mm (rqs s2 c) with Some m => mmdrop m s3 | None => s3 end)) as Hdrop.
  { intros s3. case_match; [apply mm_only_drop|apply mm_only_refl]. }
  specialize (Hdrop (upd_task prev (set_on_cpu false) (upd_rq c (set_prev_mm None) s2))).
  eapply mm_only_trans; [|by case_match]. clear Hdrop.
  pose proof (mm_only_trans _ _ _ E (mm_only_rq c None s2)) as [V Q N T R].
  set (s3 := upd_rq c (set_prev_mm None) s2) in *. clearbody s3. split.
  - rewrite !(sv_upd_task prev) by done. exact V.
  - exact Q.
  - intros p. rewrite !(tasks_upd_task prev). case_decide; [subst; apply (N prev)|apply N].
  - intros p. rewrite !(tasks_upd_task prev). case_decide; [subst; cbn [on_rq state on_cpu set_on_cpu]; by injection (T prev) as -> -> _|apply T].
  - apply R.
Qed.

(** The next task is switched to: the processor is no longer busy. *)
Lemma switch_to_minv fresh pend c prev next s s' :
  minv fresh pend (Some (c, prev)) s → may_run c s next → prev ≠ next →
  context_switch c prev next (upd_rq c (set_curr next) s) = Ok s' → minv fresh pend None s'.
Proof.
  intros Hi Hrun Hne [V _ _ T R]%context_switch_frame.
  pose proof (mi_curr _ _ _ _ Hi) as Hco. pose proof (co_busy _ _ Hco c prev eq_refl) as Hprev.
  set (s1 := upd_rq c (set_curr next) s) in *.
  assert (∀ d, rqs s1 d = if decide (d = c) then set_curr next (rqs s c) else rqs s d) as Hr1 by (intros d; apply rqs_upd_rq).
  set (s2 := upd_task prev _ _) in *.
  assert (s2 ≃ s) as Hv2 by (unfold s2, s1; rewrite !sv_upd_task by done; by apply sv_upd_rq).
  assert (∀ p, on_rq (tasks s' p) = on_rq (tasks s p) ∧ state (tasks s' p) = state (tasks s p) ∧
    on_cpu (tasks s' p) = (if decide (p = prev) then false else if decide (p = next) then true else on_cpu (tasks s p))) as Ht.
  { intros p. pose proof (T p) as E. unfold s2 in E. rewrite !tasks_upd_task in E. change (tasks s1) with (tasks s) in E.
    repeat case_decide; subst; cbn [on_rq state on_cpu set_on_cpu] in E; by injection E as -> -> ->. }
  assert (∀ d, curr (rqs s' d) = (if decide (d = c) then next else curr (rqs s d)) ∧ idle (rqs s' d) = idle (rqs s d) ∧
    wake_list (rqs s' d) = wake_list (rqs s d) ∧ resched_ipi (rqs s' d) = resched_ipi (rqs s d)) as Hr.
  { intros d. pose proof (R d) as E. change (rqs s2) with (rqs s1) in E. cbv zeta in E. rewrite Hr1 in E.
    case_decide; subst; cbn [curr idle wake_list resched_ipi set_curr] in E; by injection E as -> -> -> ->. }
  assert (s' ≃ s) as Hv by by rewrite V. clear V T R Hv2. clearbody s1 s2.
  assert (∀ p, task_cpu (tasks s' p) = task_cpu (tasks s p)) as Hcpu by (intros p; by injection (sv_task _ _ Hv p)).
  assert (∀ d, d ≠ c → curr (rqs s d) ≠ next ∧ curr (rqs s d) ≠ prev) as Hother.
  { intros d Hd. split; [|intros E; apply Hd, (co_once _ _ Hco); congruence]. intros E.
    assert (idle_one s (idle (rqs s d))) as Hid by by exists d.
    destruct (co_runs _ _ Hco d ltac:(cbn; congruence)) as [Ed|[Hon Hd']]; rewrite E in *; destruct Hrun as [Hrun|[Hon' Hc']].
    - apply Hd, (co_idles _ _ Hco). congruence.
    - destruct (mi_idle _ _ _ _ Hi next ltac:(by exists d)). congruence.
    - destruct (mi_idle _ _ _ _ Hi next ltac:(by exists c)). congruence.
    - congruence. }
  eapply minv_frame; [exact Hi|by rewrite Hv; apply Hi|by apply view_members| |].
  - split; [intros p; by destruct (Ht p) as (? & ? & _)|apply Hv|intros d; by destruct (Hr d) as (_ & ? & ? & ?)].
  - split.
    + intros d _. cbv zeta. destruct (Hr d) as (-> & -> & _). destruct (decide (d = c)) as [->|Hd].
      * destruct Hrun as [?|[Hon Hc]]; [by left|right]. by rewrite (proj1 (Ht next)), Hcpu.
      * rewrite (proj1 (Ht _)), Hcpu. apply (co_runs _ _ Hco). cbn. congruence.
    + intros d e. destruct (Hr d) as (-> & _), (Hr e) as (-> & _).
      destruct (decide (d = c)) as [->|Hd], (decide (e = c)) as [->|He]; intros E; try done.
      * by destruct (proj1 (Hother e He)).
      * by destruct (proj1 (Hother d Hd)).
      * by apply (co_once _ _ Hco).
    + intros d e. destruct (Hr d) as (_ & -> & _), (Hr e) as (_ & -> & _). apply Hco.
    + intros d. destruct (Hr d) as (-> & _). rewrite (proj2 (proj2 (Ht _))). destruct (decide (d = c)) as [->|Hd].
      * rewrite decide_False, decide_True by done. done.
      * destruct (Hother d Hd). rewrite !decide_False by done. apply Hco.
    + done.
Qed.

(** The processor keeps its task. *)
Lemma stays_minv fresh pend c p s : minv fresh pend (Some (c, p)) s → may_run c s p → minv fresh pend None s.
Proof.
  intros Hi Hrun. pose proof (mi_curr _ _ _ _ Hi) as [Hr ? ? ? Hb].
  destruct Hi as [? ? ? ? ? ? ? ? _]. split; try done. split; try done.
  intros d _. destruct (decide (d = c)) as [->|Hd]; [|apply Hr; cbn; congruence]. rewrite (Hb c p eq_refl).
  destruct Hrun as [<-|?]; [by left|by right].
Qed.

(** The state in which the choice is made and what follows it. *)
Lemma switch_pieces fresh pend fuel c prev s s' :
  minv fresh pend (Some (c, prev)) s → schedule_switch fuel c prev s = Ok s' →
  ∃ s3 s4 next, minv fresh pend (Some (c, prev)) s3 ∧
    pick_next_task fuel (bool_decide (nr_running (rqs s3 c) = cfs_nr_running s3 c)) c s3 = Ok (next, s4) ∧
    let s5 := upd_rq c (set_skip_clock_update 0) (upd_task prev (set_need_resched false) s4) in
    steady s4 s5 ∧
    (prev ≠ next ∧ context_switch c prev next (upd_rq c (set_curr next) s5) = Ok s' ∨ prev = next ∧ s' = s5).
Proof.
  intros Hi. unfold schedule_switch.
  destruct (pre_schedule fuel c prev s) as [s1| |] eqn:E1; cbn [mbind res_bind]; try done.
  pose proof (pre_schedule_minv _ _ _ _ _ _ _ _ Hi E1) as Hi1. set (s2 := if decide _ then _ else s1).
  assert (minv fresh pend (Some (c, prev)) s2) as Hi2 by (unfold s2; case_decide; [by apply mr_balance|done]). clearbody s2.
  pose proof (steady_minv _ _ _ _ _ (put_prev_steady fuel c prev s2) Hi2) as Hi3. set (s3 := put_prev_task fuel c prev s2) in *. clearbody s3.
  destruct (pick_next_task fuel _ c s3) as [[next s4]| |] eqn:E4; cbn [mbind res_bind]; try done.
  intros Hs'. exists s3, s4, next. split; [done|]. split; [done|]. cbv zeta. split.
  - eapply steady_trans; [by apply (steady_upd_task prev (set_need_resched false))|].
    apply steady_view; [apply sv_skip|by apply quiet_upd_rq].
  - case_decide as Hd; [by left|right]. injection Hs' as <-. by split.
Qed.

Lemma switch_minv fresh pend fuel c prev s s' :
  minv fresh pend (Some (c, prev)) s → schedule_switch fuel c prev s = Ok s' → minv fresh pend None s'.
Proof.
  intros Hi Hs'. destruct (switch_pieces _ _ _ _ _ _ _ Hi Hs') as (s3 & s4 & next & Hi3 & E4 & Hst5 & Hend).
  destruct (pick_next_steady _ _ _ _ _ _ _ _ _ Hi3 E4) as [Hst4 Hrun].
  set (s5 := upd_rq c _ _) in *. clearbody s5. pose proof (steady_minv _ _ _ _ _ Hst4 Hi3) as Hi4.
  pose proof (steady_minv _ _ _ _ _ Hst5 Hi4) as Hi5.
  assert (may_run c s5 next) as Hrun5.
  { unfold may_run. injection (q_rq _ _ (st_quiet _ _ Hst5) c) as _ -> _ _ _. rewrite (quiet_on_rq _ _ next (st_quiet _ _ Hst5)).
    assert (task_cpu (tasks s5 next) = task_cpu (tasks s4 next)) as ->; [|done].
    by injection (proj2 (proj2 (st_rt _ _ Hst5 (mi_rt _ _ _ _ Hi4))) next). }
  destruct Hend as [[Hne Hs5]|[<- ->]]; [by apply (switch_to_minv fresh pend c prev next s5)|].
  by apply (stays_minv fresh pend c prev).
Qed.

(** ** The scheduler *)

Lemma pass_minv fresh fuel s s' : minv fresh no_one None s → schedule_pass fuel s = Ok s' → minv fresh no_one None s'.
Proof.
  intros Hi. unfold schedule_pass. cbv zeta. set (c := this_cpu s).
  pose proof (minv_busy _ _ c _ _ Hi eq_refl) as Hb. set (p := curr (rqs s c)) in *.
  pose proof (mr_rq_lock c s _ _ _ Hi) as Hi1. pose proof (co_busy _ _ (mi_curr _ _ _ _ (mr_rq_lock c s _ _ _ Hb)) c p eq_refl) as Hp.
  set (s1 := before_rq_lock c s) in *. clearbody s1. rewrite <- Hp. clear Hb Hp p.
  destruct (schedule_sleep fuel c (curr (rqs s1 c)) s1) as [s2| |] eqn:E2; cbn [mbind res_bind]; try done.
  pose proof (sleep_minv _ _ _ _ _ Hi1 E2) as Hi2.
  destruct (schedule_switch fuel c (curr (rqs s1 c)) s2) as [s3| |] eqn:E3; cbn [mbind res_bind]; try done.
  pose proof (switch_minv _ _ _ _ _ _ _ Hi2 E3) as Hi3. by apply post_schedule_minv, mr_rq_lock.
Qed.

Lemma schedule_minv fresh fuel passes s s' :
  minv fresh no_one None s → schedule fuel passes s = Ok s' → minv fresh no_one None s'.
Proof.
  revert s. induction passes as [|passes IH]; intros s Hi; cbn [schedule]; [done|].
  destruct (schedule_pass fuel s) as [s1| |] eqn:E; cbn [mbind res_bind]; try done.
  pose proof (pass_minv _ _ _ _ Hi E) as Hi1. case_match; [by apply IH|by intros [= <-]].
Qed.

Lemma yield_minv fresh fuel passes s s' :
  minv fresh no_one None s → sys_sched_yield fuel passes s = Ok s' → minv fresh no_one None s'.
Proof.
  intros Hi. unfold sys_sched_yield. cbv zeta. pose proof (mr_rq_lock (this_cpu s) s _ _ _ Hi) as Hi1.
  set (s1 := before_rq_lock (this_cpu s) s) in *. clearbody s1. apply schedule_minv. eapply steady_minv, Hi1.
  unfold class_of. destruct (sched_class _); cbn [ops_of]; try (apply cs_yield; by apply mr_class).
  cbn [c_yield_task rt_class_ops]. apply steady_rearranges; [|apply quiet_yield]. intros [Hok _]. by apply requeue_rearranges.
Qed.

Lemma cond_resched_minv fresh fuel passes s b s' :
  minv fresh no_one None s → _cond_resched fuel passes s = Ok (b, s') → minv fresh no_one None s'.
Proof.
  intros Hi. unfold _cond_resched, __cond_resched. case_match; [|by intros [= _ <-]].
  destruct (schedule fuel passes _) as [s1| |] eqn:E; cbn [mbind res_bind]; try done. intros [= _ <-].
  eapply schedule_minv, E. eapply steady_minv, Hi. by apply steady_upd_task.
Qed.


Lemma tick_minv fresh pend busy fuel c s : minv fresh pend busy s → minv fresh pend busy (scheduler_tick fuel c s).
Proof.
  intros Hi. unfold scheduler_tick. cbv zeta. pose proof (steady_minv _ _ _ _ _ (steady_clock c s) Hi) as Hi1.
  set (s1 := update_rq_clock c s) in *. clearbody s1. eapply steady_minv, Hi1. unfold class_of.
  destruct (sched_class _); cbn [ops_of]; try (apply cs_tick; by apply mr_class).
  cbn [c_task_tick rt_class_ops]. apply steady_rearranges; [|apply quiet_tick]. intros [Hok _]. by apply tick_rearranges.
Qed.

(** ** Steps *)

Definition set_this_cpu (c : nat) (s : sys) : sys := mk_sys (tasks s) (rqs s) (rd s) (bw s) (mm_count s) c.

Lemma minv_this_cpu fresh pend busy c s : minv fresh pend busy s → minv fresh pend busy (set_this_cpu c s).
Proof.
  intros Hi. eapply (minv_frame fresh pend busy busy s); [done| |done|by split|].
  - assert (set_this_cpu c s ≃ s) as -> by by split. apply Hi.
  - by apply (curr_ok_keep busy s); [apply Hi|..].
Qed.

(** The tasks not started yet, and the state.  A step is something the processor
    [this_cpu] does, or the next step being another processor's. *)
Inductive mstep : gset nat * sys → gset nat * sys → Prop :=
  | m_go c fr s : mstep (fr, s) (fr, set_this_cpu c s)
  | m_set_state z fr s :
      z ≠ TASK_WAKING → current s ≠ idle (rqs s (this_cpu s)) → mstep (fr, s) (fr, upd_task (current s) (set_state z) s)
  | m_wake fuel turns tries p mask b fr s s' :
      Z.land TASK_WAKING mask = 0 → try_to_wake_up fuel turns tries p mask s = Ok (b, s') → mstep (fr, s) (fr, s')
  | m_ipi fuel fr s s' : scheduler_ipi fuel s = Ok s' → mstep (fr, s) (fr, s')
  | m_pending fuel fr s s' : sched_ttwu_pending fuel s = Ok s' → mstep (fr, s) (fr, s')
  | m_new fuel p fr s s' :
      p ∈ fr → ¬ idle_one s p → on_rq (tasks s p) = false → state (tasks s p) = TASK_RUNNING →
      wake_up_new_task fuel p s = Ok s' → mstep (fr, s) (fr ∖ {[p]}, s')
  | m_schedule fuel passes fr s s' : schedule fuel passes s = Ok s' → mstep (fr, s) (fr, s')
  | m_yield fuel passes fr s s' : sys_sched_yield fuel passes s = Ok s' → mstep (fr, s) (fr, s')
  | m_cond_resched fuel passes b fr s s' : _cond_resched fuel passes s = Ok (b, s') → mstep (fr, s) (fr, s')
  | m_resumed fr s : mstep (fr, s) (fr, upd_task (current s) (set_preempt_active false) s)
  | m_tick fuel fr s : mstep (fr, s) (fr, scheduler_tick fuel (this_cpu s) s).

(** Every processor starts with its idle task; nothing is queued, and what is not
    new sleeps. *)
Record booted (fresh : gset nat) (s : sys) : Prop := {
  bt_rt : initial s;
  bt_off p : on_rq (tasks s p) = false;
  bt_idle c : curr (rqs s c) = idle (rqs s c) ∧ on_cpu (tasks s (idle (rqs s c))) = true ∧
    state (tasks s (idle (rqs s c))) = TASK_RUNNING;
  bt_idles c d : idle (rqs s c) = idle (rqs s d) → c = d;
  bt_lists c : wake_list (rqs s c) = [];
  bt_state p : state (tasks s p) ≠ TASK_WAKING;
  bt_asleep p : p ∉ fresh → ¬ idle_one s p → state (tasks s p) ≠ TASK_RUNNING;
}.

Lemma booted_minv fresh s : booted fresh s → minv fresh no_one None s.
Proof.
  intros [Hrt Hoff Hidle Hids Hl Hst Ha].
  assert (∀ c, waiting no_one s c = []) as Hw by (intros c; unfold waiting; by rewrite Hl).
  assert (∀ c, queued (rt_of s c) = []) as Hq.
  { intros c. rewrite (proj1 Hrt c). unfold queued. cbn [queue init_rt_rq]. rewrite fmap_replicate, items_init. by vm_compute. }
  split.
  - by apply initial_inv.
  - intros p _. unfold on_rq_queued. rewrite Hoff. intros c. rewrite Hq. set_solver.
  - intros p. split; [by intros ?%Hst|]. intros [c Hc]. rewrite Hw in Hc. set_solver.
  - intros c p. rewrite Hw. set_solver.
  - intros c. rewrite Hw. constructor.
  - intros c. by rewrite Hl.
  - intros p Hp Hid _. by apply Ha.
  - intros p [c <-]. split; [done|apply Hidle].
  - split.
    + intros c _. left. apply Hidle.
    + intros c d E. apply Hids. rewrite <- !(proj1 (Hidle _)). done.
    + done.
    + intros c. destruct (Hidle c) as (-> & ? & _). done.
    + done.
Qed.

Lemma mstep_minv fr s fr' s' : mstep (fr, s) (fr', s') → minv fr no_one None s → minv fr' no_one None s'.
Proof.
  intros Hs Hi. inversion Hs; subst.
  - by apply minv_this_cpu.
  - apply set_state_minv; [done| |done].
    by destruct (co_runs _ _ (mi_curr _ _ _ _ Hi) (this_cpu s) ltac:(done)) as [|[? _]].
  - by eapply try_to_wake_up_minv.
  - by eapply ipi_minv.
  - by eapply pending_minv.
  - by eapply new_task_minv.
  - by eapply schedule_minv.
  - by eapply yield_minv.
  - by eapply cond_resched_minv.
  - eapply steady_minv, Hi. by apply steady_upd_task.
  - by apply tick_minv.
Qed.

(** C4: in every reachable state a task is waking exactly when it waits in the list of
    one processor, its own, once, with the interrupt on its way; a started task
    that is on no run queue is asleep, not lost; no task runs on two processors;
    and the real-time queues, well formed, hold exactly the real-time tasks that
    are on a run queue. *)
Theorem no_wakeup_lost fr0 s0 fr s :
  booted fr0 s0 → rtc mstep (fr0, s0) (fr, s) → minv fr no_one None s.
Proof.
  intros Hb%booted_minv Hr.
  change (minv (fst (fr0, s0)) no_one None (snd (fr0, s0))) in Hb. change (minv (fst (fr, s)) no_one None (snd (fr, s))).
  induction Hr as [|[fr1 s1] [fr2 s2] [fr3 s3] Hstep _ IH]; [done|]. apply IH. by eapply mstep_minv.
Qed.

End machine.
