(* ===== verification/SchedUrgent.v ===== *)
(** * The processor runs its most urgent task (sched.c and sched_rt.c,
      src/indwriterups/project1)

    What [schedule] switches to is what a search of the real-time queue for the
    task of the lowest priority value would find. *)

From S2P Require Import Prelude RtState RtBandwidth RtQueue SchedCore RtPush RtKeeps RtBalance SchedPolicy.
From S2P Require Import RtView RtInv RtEnqueue RtOps RtHandlers RtSpec RtPreserve RtSteps.
From S2P Require Import SchedQuiet SchedWake SchedMm SchedInv SchedWakeup SchedMachine.

Local Open Scope Z_scope.

Section urgent.
Context `{WakeEnv} `{!KernelLibSpec} `{!MachineReliable}.

(** The stop task does not ask to run, other classes throttle nobody, and the tasks of the fair class are not all
    there are when there are real-time ones. *)
Record rt_first (c : nat) : Prop := {
  rf_stop s : c_pick_next_task (other_class stop_sched_class) c s = Ok (None, s);
  rf_throttle k s q s' : k ≠ rt_sched_class → c_pick_next_task (other_class k) c s = Ok (q, s') →
    rt_throttled (rt_of s' c) = rt_throttled (rt_of s c);
  rf_count s : rt_inv s → queued (rt_of s c) ≠ [] → nr_running (rqs s c) ≠ cfs_nr_running s c;
}.

Lemma pick_throttled c s q s' d : pick_next_task_rt c s = Some (q, s') → rt_throttled (rt_of s' d) = rt_throttled (rt_of s d).
Proof.
  unfold pick_next_task_rt. destruct (_pick_next_task_rt c s) as [[q1 s1]|] eqn:E; [|done]. intros [= <- <-].
  assert (rqs s1 = rqs s) as Hs1 by (unfold _pick_next_task_rt in E; by repeat case_match; simplify_eq).
  unfold rt_of. rewrite rqs_upd_rq.
  assert (∀ e, rt_throttled (rt (rqs (match q1 with Some p => dequeue_pushable_task c p s1 | None => s1 end) e)) =
    rt_throttled (rt (rqs s e))) as He.
  { intros e. destruct q1; [|by rewrite Hs1]. unfold dequeue_pushable_task, upd_rt. rewrite rqs_upd_rq, Hs1. by case_decide; subst. }
  case_decide; [subst; apply He|apply He].
Qed.

(** With a real-time task queued, the first of them is chosen. *)
Lemma pick_rt_first fuel c s p s' :
  rt_first c → rt_inv s → queued (rt_of s' c) ≠ [] → rt_throttled (rt_of s' c) = false →
  pick_next_task fuel (bool_decide (nr_running (rqs s c) = cfs_nr_running s c)) c s = Ok (p, s') →
  same_members s s' → s' ≃ s ∧ head (queued (rt_of s c)) = Some p.
Proof.
  intros [Hstop Hkeep Hcount] Hi Hne Hthr Hpick Hm.
  assert (queued (rt_of s c) ≠ []) as Hne1.
  { intros E. apply Hne. destruct (queued (rt_of s' c)) as [|q l] eqn:E'; [done|].
    pose proof (proj1 (Hm c q)) as Hq. rewrite E, E' in Hq. specialize (Hq ltac:(by left)). set_solver. }
  rewrite bool_decide_false in Hpick by by apply Hcount. unfold pick_next_task, classes in Hpick. cbn [pick_from ops_of] in Hpick.
  rewrite Hstop in Hpick. cbn [mbind res_bind] in Hpick. cbn [c_pick_next_task rt_class_ops] in Hpick. unfold of_option in Hpick.
  destruct (pick_task_spec s c (proj1 Hi)) as (s1 & E & Hv). pose proof (pick_throttled _ _ _ _ c E) as Ht.
  rewrite E in Hpick. cbn [mbind res_bind] in Hpick. unfold chosen in *.
  destruct (rt_throttled (rt_of s c)) eqn:Es.
  { exfalso. assert (∀ ks s0, rt_throttled (rt_of s0 c) = true → rt_sched_class ∉ ks →
      pick_from fuel ks c s0 = Ok (p, s') → rt_throttled (rt_of s' c) = true) as Hpf.
    { clear -Hkeep. induction ks as [|k ks IH]; intros s0 H0' Hin; cbn [pick_from]; [done|].
      assert (k ≠ rt_sched_class) as Hk by (intros ->; set_solver).
      destruct (c_pick_next_task (ops_of fuel k) c s0) as [[q s1]| |] eqn:E; cbn [mbind res_bind]; try done.
      assert (rt_throttled (rt_of s1 c) = true) as H1' by (rewrite (Hkeep k s0 q s1 Hk); [done|by destruct k]).
      destruct q; [by intros [= _ <-]|]. apply IH; [done|set_solver]. }
    change (pick_from fuel [fair_sched_class; idle_sched_class] c s1 = Ok (p, s')) in Hpick.
    apply Hpf in Hpick; [congruence|done|set_solver]. }
  destruct (queued (rt_of s c)) as [|q l]; [done|]. cbn [head] in *. by simplify_eq.
Qed.


End urgent.
