(* ===== verification/SchedStill.v ===== *)
(** * What moving tasks leaves alone (sched.c and sched_rt.c,
      src/indwriterups/project1)

    The operations on queues that keep throttling, the count of the tasks, the
    stopper and the affinity of tasks, and those that change the count only. *)

From S2P Require Import Prelude RtState RtBandwidth RtQueue SchedCore RtPush RtKeeps RtBalance SchedPolicy.
From S2P Require Import RtView RtInv RtSteps SchedQuiet.

Local Open Scope Z_scope.

(** ** What the operations on queues leave alone *)

Section still.
Context `{OtherClasses}.

(** Throttling, the count of the tasks, the stopper, the affinity of tasks. *)
Record still (s s' : sys) : Prop := {
  sl_rq c : (rt_throttled (rt_of s c), nr_running (rqs s c), stop (rqs s c)) =
            (rt_throttled (rt_of s' c), nr_running (rqs s' c), stop (rqs s' c));
  sl_task p : cpus_allowed (tasks s p) = cpus_allowed (tasks s' p);
}.

#[export] Instance still_equiv : Equivalence still.
Proof.
  split.
  - intros s. by split.
  - intros s s' [? ?]. by split.
  - intros s1 s2 s3 [E1 E2] [F1 F2]. split; intros; [by rewrite E1|by rewrite E2].
Qed.

Lemma still_upd_rq c f s :
  (∀ q, (rt_throttled (rt (f q)), nr_running (f q), stop (f q)) = (rt_throttled (rt q), nr_running q, stop q)) →
  still (upd_rq c f s) s.
Proof. intros Hf. split; [|done]. intros d. unfold rt_of. rewrite rqs_upd_rq. case_decide; subst; [apply Hf|done]. Qed.

Lemma still_upd_rt c f s : (∀ r, rt_throttled (f r) = rt_throttled r) → still (upd_rt c f s) s.
Proof. intros Hf. apply still_upd_rq. intros q. cbn. by rewrite Hf. Qed.

Lemma still_upd_task p f s : (∀ t, cpus_allowed (f t) = cpus_allowed t) → still (upd_task p f s) s.
Proof. intros Hf. split; [done|]. intros q. rewrite tasks_upd_task. case_decide; subst; [apply Hf|done]. Qed.

Lemma still_upd_rd f s : still (upd_rd f s) s.
Proof. by split. Qed.

Lemma still_upd_bw f s : still (upd_bw f s) s.
Proof. by split. Qed.

End still.

(** Removes the outermost update on the left that is still. *)
Ltac still_step :=
  lazymatch goal with
  | |- still ?s ?s => reflexivity
  | |- still (if ?b then _ else _) _ => destruct b
  | |- still (upd_rt _ _ _) _ => etransitivity; [apply still_upd_rt; reflexivity|]
  | |- still (upd_rq _ _ _) _ => etransitivity; [apply still_upd_rq; by intros|]
  | |- still (upd_task _ _ _) _ => etransitivity; [apply still_upd_task; reflexivity|]
  | |- still (upd_rd _ _) _ => etransitivity; [apply still_upd_rd|]
  | |- still (upd_bw _ _) _ => etransitivity; [apply still_upd_bw|]
  end.

Ltac still_solve := repeat still_step; try reflexivity.

Section operations.
Context `{OtherClasses}.

Lemma still_resched p s : still (resched_task p s) s.
Proof. unfold resched_task. still_solve. Qed.

Lemma still_clock c s : still (update_rq_clock c s) s.
Proof. unfold update_rq_clock, update_rq_clock_task. still_solve. Qed.

Lemma still_migration c s : still (update_rt_migration c s) s.
Proof. unfold update_rt_migration, rt_set_overload, rt_clear_overload. still_solve. Qed.

Lemma still_inc_tasks p c s : still (inc_rt_tasks p c s) s.
Proof.
  unfold inc_rt_tasks, start_rt_bandwidth, inc_rt_migration, inc_rt_prio, inc_rt_prio_smp, cpupri_set. cbv zeta.
  still_step; [|still_step]; (etransitivity; [apply still_migration|]); still_solve.
Qed.

Lemma still_dec_tasks p c s : still (dec_rt_tasks p c s) s.
Proof.
  unfold dec_rt_tasks, dec_rt_migration, dec_rt_prio, dec_rt_prio_smp, cpupri_set. cbv zeta.
  etransitivity; [apply still_migration|]. still_solve.
Qed.

Lemma still_dequeue_stack p s : still (dequeue_rt_stack p s) s.
Proof.
  unfold dequeue_rt_stack, __dequeue_rt_entity. still_step; [|done]. cbv zeta.
  etransitivity; [apply still_dec_tasks|]. still_solve.
Qed.

Lemma still_enqueue_task c p w h s : still (enqueue_task_rt c p w h s) s.
Proof.
  assert (∀ s1, still (enqueue_rt_entity p h s1) s1) as He.
  { intros s1. unfold enqueue_rt_entity, __enqueue_rt_entity. cbv zeta.
    etransitivity; [apply still_inc_tasks|]. still_step. apply still_dequeue_stack. }
  unfold enqueue_task_rt, enqueue_pushable_task. cbv zeta. still_solve; (etransitivity; [apply He|]); still_solve.
Qed.

(** The accounting of a processor that runs no real-time task. *)
Lemma update_curr_idle c s : rt_class (tasks s (curr (rqs s c))) = false → update_curr_rt c s = s.
Proof. unfold update_curr_rt. by intros ->. Qed.

Lemma still_dequeue_task c p s : rt_class (tasks s (curr (rqs s c))) = false → still (dequeue_task_rt c p s) s.
Proof.
  intros Hc. unfold dequeue_task_rt, dequeue_pushable_task. rewrite update_curr_idle by done.
  still_step. apply still_dequeue_stack.
Qed.

Lemma still_put_prev c p s : rt_class (tasks s (curr (rqs s c))) = false → still (put_prev_task_rt c p s) s.
Proof. intros Hc. unfold put_prev_task_rt, enqueue_pushable_task. rewrite update_curr_idle by done. cbv zeta. still_solve. Qed.

Lemma still_check_preempt c p s : still (check_preempt_curr_rt c p s) s.
Proof.
  assert (∀ h s1, still (requeue_rt_entity p h s1) s1) as Hr by (intros h s1; unfold requeue_rt_entity; still_solve).
  unfold check_preempt_curr_rt, check_preempt_equal_prio, requeue_task_rt. cbv zeta.
  repeat (still_step || (etransitivity; [apply still_resched|])); try reflexivity; apply Hr.
Qed.

Lemma still_pick c s q s' : pick_next_task_rt c s = Some (q, s') → still s' s.
Proof.
  unfold pick_next_task_rt, _pick_next_task_rt, dequeue_pushable_task. intros E. repeat case_match; simplify_eq; still_solve.
Qed.

End operations.

(** The handlers of the other classes are still. *)
Record classes_still `{OtherClasses} : Prop := {
  so_enqueue k c p w h s : k ≠ rt_sched_class → still (c_enqueue_task (other_class k) c p w h s) s;
  so_dequeue k c p s : k ≠ rt_sched_class → still (c_dequeue_task (other_class k) c p s) s;
  so_preempt k c p s : k ≠ rt_sched_class → still (c_check_preempt_curr (other_class k) c p s) s;
  so_put_prev k c p s : k ≠ rt_sched_class → still (c_put_prev_task (other_class k) c p s) s;
}.

Section classes.
Context `{PolicyEnv} (cls : classes_still).

Lemma still_preempt fuel e p s : still (check_preempt_curr fuel e p s) s.
Proof.
  unfold check_preempt_curr. cbv zeta. set (s1 := if decide _ then _ else _).
  assert (still s1 s) as H1'.
  { unfold s1, class_of. case_decide; [|case_match; [apply still_resched|done]].
    destruct (decide (sched_class (tasks s (curr (rqs s e))) = rt_sched_class)) as [E|E].
    - rewrite E. apply still_check_preempt.
    - pose proof (so_preempt cls _ e p s E) as He. by destruct (sched_class (tasks s (curr (rqs s e)))). }
  clearbody s1. etransitivity; [|exact H1']. still_solve.
Qed.

(** ** What counts tasks *)

(** What the operations that count tasks leave alone. *)
Definition counted (e : nat) (n : Z) (s s' : sys) : Prop :=
  (∀ d, (rt_throttled (rt_of s' d), stop (rqs s' d)) = (rt_throttled (rt_of s d), stop (rqs s d))) ∧
  (∀ d, nr_running (rqs s' d) = if decide (d = e) then n else nr_running (rqs s d)) ∧
  (∀ q, cpus_allowed (tasks s' q) = cpus_allowed (tasks s q)).

Lemma counted_upd e n s1 s :
  still s1 s → counted e n s (upd_rq e (set_nr_running n) s1).
Proof.
  intros [Hr Ha]. split; [|split; [|apply Ha]]; intros d; unfold rt_of; rewrite rqs_upd_rq; injection (Hr d) as Et En Est;
    unfold rt_of in *; case_decide; subst; cbn; congruence.
Qed.

Lemma activate_counted e p w s : counted e (u64 (nr_running (rqs s e) + 1)) s (activate_task e p w false s).
Proof.
  assert (still (enqueue_task e p w false s) s) as Hs.
  { unfold enqueue_task. pose proof (still_clock e s) as Hc. set (s1 := update_rq_clock e s) in *. clearbody s1.
    etransitivity; [|exact Hc]. destruct (decide (sched_class (tasks s1 p) = rt_sched_class)) as [E|E].
    - rewrite E. apply still_enqueue_task.
    - pose proof (so_enqueue cls _ e p w false s1 E) as He. by destruct (sched_class (tasks s1 p)). }
  unfold activate_task, inc_nr_running. injection (sl_rq _ _ Hs e) as _ <- _. by apply (counted_upd e _ _ s).
Qed.

Lemma deactivate_counted c p s :
  rt_class (tasks s (curr (rqs s c))) = false → counted c (u64 (nr_running (rqs s c) - 1)) s (deactivate_task c p s).
Proof.
  intros Hcl. assert (still (dequeue_task c p s) s) as Hs.
  { unfold dequeue_task. pose proof (still_clock c s) as Hc. pose proof (clock_view c s) as Hv. pose proof (quiet_clock c s) as Hq.
    set (s1 := update_rq_clock c s) in *. clearbody s1. etransitivity; [|exact Hc].
    assert (rt_class (tasks s1 (curr (rqs s1 c))) = false) as Hcl1.
    { rewrite (quiet_curr _ _ c Hq). unfold rt_class in *. by injection (sv_task _ _ Hv (curr (rqs s c))) as _ _ _ ->. }
    destruct (decide (sched_class (tasks s1 p) = rt_sched_class)) as [E|E].
    - rewrite E. by apply still_dequeue_task.
    - pose proof (so_dequeue cls _ c p s1 E) as He. by destruct (sched_class (tasks s1 p)). }
  unfold deactivate_task, dec_nr_running. injection (sl_rq _ _ Hs c) as _ <- _. by apply (counted_upd c _ _ s).
Qed.

Lemma move_counted c d p s : d ≠ c → rt_class (tasks s (curr (rqs s c))) = false →
  let s' := move_task c d p s in
  (rt_throttled (rt_of s' c), stop (rqs s' c), nr_running (rqs s' c)) =
  (rt_throttled (rt_of s c), stop (rqs s c), u64 (nr_running (rqs s c) - 1)) ∧
  ∀ q, cpus_allowed (tasks s' q) = cpus_allowed (tasks s q).
Proof.
  intros Hd Hcl s'. unfold s', move_task. destruct (deactivate_counted c p s Hcl) as (R1 & N1 & A1).
  set (s1 := deactivate_task c p s) in *. clearbody s1.
  assert (∀ q, cpus_allowed (tasks (set_task_cpu p d s1) q) = cpus_allowed (tasks s1 q)) as A2.
  { intros q. unfold set_task_cpu. rewrite tasks_upd_task. by case_decide; subst. }
  assert (rqs (set_task_cpu p d s1) = rqs s1) as R2 by done. set (s2 := set_task_cpu p d s1) in *. clearbody s2.
  destruct (activate_counted d p false s2) as (R3 & N3 & A3). set (s3 := activate_task d p false false s2) in *. clearbody s3.
  split; [|intros q; by rewrite A3, A2, A1].
  rewrite N3, decide_False, R2, N1, decide_True by done.
  pose proof (R3 c) as E3. unfold rt_of in E3. rewrite R2 in E3. injection E3 as E3 E4. injection (R1 c) as E1 E2.
  unfold rt_of in *. congruence.
Qed.

End classes.
