(* ===== verification/SchedMigrate.v ===== *)
(** * Affinity and processors that go away (sched.c, src/indwriterups/project1)

    Changing the processors a task may run on, moving it there with the help of the
    stopper thread of its processor, and taking all tasks off the queue of a
    processor that is going down. *)

From S2P Require Import Prelude RtState RtBandwidth RtQueue SchedCore RtPush SchedPolicy RtSteps SchedWake.

Local Open Scope Z_scope.

(** Which tasks are bound to their processor by the kernel (PF_THREAD_BOUND), what
    happens until the stopper thread of a processor runs and whether it does, and
    the address space of the kernel. *)
Class MigrateEnv `{WakeEnv} := {
  thread_bound : nat → bool;
  stopper_runs : nat → sys → bool * sys;
  init_mm : nat;
}.

Section migrate.
Context `{MigrateEnv}.

(** The passes of pushing. *)
Variable fuel : nat.

(** ** One task *)

(** The stopper of processor [c] executes this; the value returned is not looked at. *)
Definition migration_cpu_stop (c p dest : nat) (s : sys) : sys := snd (__migrate_task fuel p c dest s).

Definition stop_one_cpu (c p dest : nat) (s : sys) : sys :=
  let '(runs, s) := stopper_runs c s in
  if runs then migration_cpu_stop c p dest s else s.

(** The first component is the value returned. *)
Definition set_cpus_allowed_ptr (p : nat) (new_mask : gset nat) (s : sys) : res (Z * sys) :=
  let s := before_lock p s in
  let c := task_cpu (tasks s p) in
  let active := filter (λ d, cpu_active d = true) new_mask in
  if decide (cpus_allowed (tasks s p) = new_mask) then Ok (0, s)
  else if decide (active = ∅) then Ok (- EINVAL, s)
  else if thread_bound p && negb (bool_decide (p = current s)) then Ok (- EINVAL, s)
  else
    s ← do_set_cpus_allowed fuel p new_mask s;
    if decide (task_cpu (tasks s p) ∈ new_mask) then Ok (0, s)
    else
      let dest := default nr_cpu_ids (cpumask_any active) in
      if on_rq (tasks s p) then Ok (0, stop_one_cpu c p dest s) else Ok (0, s).

(** A task that executes another program is moved to a better processor; the class
    is asked with SD_BALANCE_EXEC. *)
Definition sched_exec (s : sys) : sys :=
  let p := current s in
  let s := before_pi_lock p s in
  let dest := c_select_task_rq (class_of fuel s p) p false s in
  if decide (dest = this_cpu s) then s
  else if cpu_active dest then stop_one_cpu (task_cpu (tasks s p)) p dest s
  else s.

(** ** A processor goes down *)

(** The idle task gives back the address space it borrowed; the switch of the
    hardware is not modelled. *)
Definition idle_task_exit (s : sys) : res sys :=
  match active_mm (tasks s (current s)) with
  | None => Bug
  | Some m => if decide (this_cpu s ∈ cpu_online_mask) then Bug else Ok (mmdrop m s)
  end.

(** One turn of the loop of [migrate_tasks]. *)
Definition migrate_one (dead : nat) (s : sys) : res sys :=
  '(next, s) ← pick_next_task fuel (bool_decide (nr_running (rqs s dead) = cfs_nr_running s dead)) dead s;
  let s := c_put_prev_task (class_of fuel s next) dead next s in
  let '(dest, s) := select_fallback_rq dead next s in
  Ok (snd (__migrate_task fuel next dead dest s)).

Fixpoint migrate_loop (turns dead : nat) (s : sys) : res sys :=
  if decide (nr_running (rqs s dead) = 1) then Ok s
  else
    match turns with
    | O => Out
    | S turns' => s ← migrate_one dead s; migrate_loop turns' dead s
    end.

Definition migrate_tasks (turns dead : nat) (s : sys) : res sys :=
  let stopper := stop (rqs s dead) in
  s ← migrate_loop turns dead (upd_rq dead (set_stop None) s);
  Ok (upd_rq dead (set_stop stopper) s).

(** The handlers of all classes, in their order. *)
Fixpoint each_class (h : class_ops → option (nat → sys → res sys)) (ks : list sclass) (c : nat) (s : sys) : res sys :=
  match ks with
  | [] => Ok s
  | k :: ks' => s ← match h (ops_of fuel k) with Some f => f c s | None => Ok s end; each_class h ks' c s
  end.

(** The mask of the processors online is not modelled. *)
Definition set_rq_online (c : nat) (s : sys) : res sys :=
  if online (rqs s c) then Ok s else each_class c_rq_online classes c (upd_rq c (set_online true) s).

Definition set_rq_offline (c : nat) (s : sys) : res sys :=
  if online (rqs s c) then
    s ← each_class c_rq_offline classes c s;
    Ok (upd_rq c (set_online false) s)
  else Ok s.

(** The notifier, which returns NOTIFY_OK; the counts of the load averages are in
    [LoadAvg].  When the processor [c] is dying it is the one that executes. *)
Definition migration_call (turns : nat) (action : cpu_action) (c : nat) (s : sys) : res sys :=
  match action with
  | CPU_ONLINE =>
      let s := before_rq_lock c s in
      if decide (c ∈ span (rd s)) then set_rq_online c s else Bug
  | CPU_DYING =>
      s ← sched_ttwu_pending fuel s;
      let s := before_rq_lock c s in
      if decide (c ∈ span (rd s)) then
        s ← set_rq_offline c s;
        s ← migrate_tasks turns c s;
        if decide (nr_running (rqs s c) = 1) then Ok s else Bug
      else Bug
  | _ => Ok s
  end.

End migrate.
