(* ===== verification/SchedDying.v ===== *)
(** * A processor that goes down is left empty (sched.c, src/indwriterups/project1)

    The loop of [migrate_tasks] moves every task but the stopper to another
    processor, unless real-time tasks are queued and the queue is throttled: then it
    never ends. *)

From S2P Require Import Prelude RtState RtBandwidth RtQueue SchedCore RtPush RtKeeps RtBalance SchedPolicy.
From S2P Require Import RtView RtInv RtEnqueue RtOps RtHandlers RtPreserve RtSteps SchedQuiet SchedWake SchedMm.
From S2P Require Import SchedInv SchedWakeup SchedMachine SchedUrgent SchedStill SchedMigrate.

Local Open Scope Z_scope.

(** ** What is relied upon *)

Section dying.
Context `{MigrateEnv} `{!KernelLibSpec} `{!MachineReliable} `{!MaskSpec}.

(** [ts] are the tasks there are.  The stopper is chosen when there is one to run,
    the fair class knows its tasks, and there is always the idle task; the fallback
    names an active processor that the task may use from then on. *)
Record hotplug_laws (ts : list nat) : Prop := {
  hl_still : classes_still;
  hl_pick k c s : k ≠ rt_sched_class → ∃ q s', c_pick_next_task (other_class k) c s = Ok (q, s') ∧ still s' s;
  hl_stop c s q s' : stop (rqs s c) = None → c_pick_next_task (other_class stop_sched_class) c s = Ok (q, s') → q = None;
  hl_fair c s q s' : c_pick_next_task (other_class fair_sched_class) c s = Ok (q, s') →
    match q with
    | Some p => on_rq (tasks s p) = true ∧ task_cpu (tasks s p) = c ∧ sched_class (tasks s p) = fair_sched_class
    | None => ∀ p, p ∈ ts → on_rq (tasks s p) = true → task_cpu (tasks s p) = c → sched_class (tasks s p) ≠ fair_sched_class
    end;
  hl_idle c s q s' : c_pick_next_task (other_class idle_sched_class) c s = Ok (q, s') → q = Some (idle (rqs s c));
  hl_fallback p s : let '(d, s') := cpuset_cpus_allowed_fallback p s in
    cpu_active d = true ∧ d ∈ cpus_allowed (tasks s' p) ∧
    (∀ c, (rt_throttled (rt_of s' c), nr_running (rqs s' c), stop (rqs s' c)) = (rt_throttled (rt_of s c), nr_running (rqs s c), stop (rqs s c))) ∧
    (∀ q, (task_cpu (tasks s' q), sched_class (tasks s' q)) = (task_cpu (tasks s q), sched_class (tasks s q))) ∧
    (∀ q, q ≠ p → cpus_allowed (tasks s' q) = cpus_allowed (tasks s q));
}.

(** All other processors are stopped: nobody acts before a lock is obtained. *)
Definition stopped_machine : Prop := ∀ p s, before_lock p s = s.

Context (fuel : nat) (fresh : gset nat) (pend : nat → list nat) (busy : option (nat * nat)).
Context (ts : list nat) (c stopper : nat).
Hypotheses (laws : hotplug_laws ts) (alone : stopped_machine) (inactive : cpu_active c = false).

(** ** The state between two turns *)

Definition on_queue (s : sys) (p : nat) : Prop := on_rq (tasks s p) = true ∧ task_cpu (tasks s p) = c.

#[local] Instance on_queue_dec s p : Decision (on_queue s p).
Proof. unfold on_queue. apply _. Defined.

Record dying (s : sys) : Prop := {
  dy_inv : minv fresh pend busy s;
  dy_curr : curr (rqs s c) = stopper;
  dy_stopper : on_queue s stopper ∧ sched_class (tasks s stopper) = stop_sched_class;
  dy_others p : on_queue s p → p ≠ stopper →
    sched_class (tasks s p) = rt_sched_class ∨ sched_class (tasks s p) = fair_sched_class;
  dy_tasks p : on_queue s p → p ∈ ts;
  dy_idle : task_cpu (tasks s (idle (rqs s c))) = c;
  dy_stop : stop (rqs s c) = None;
  dy_count : nr_running (rqs s c) = Z.of_nat (length (filter (on_queue s) ts));
}.

(** From [s] to [s'] tasks were taken off the queue of [c] and put where they may run. *)
Record emptied (s s' : sys) : Prop := {
  em_task p : (on_rq (tasks s' p), state (tasks s' p), sched_class (tasks s' p)) =
              (on_rq (tasks s p), state (tasks s p), sched_class (tasks s p));
  em_place p : task_cpu (tasks s' p) = task_cpu (tasks s p) ∨
    (task_cpu (tasks s p) = c ∧ cpu_active (task_cpu (tasks s' p)) = true ∧ task_cpu (tasks s' p) ∈ cpus_allowed (tasks s' p));
  em_allowed p : task_cpu (tasks s p) ≠ c → cpus_allowed (tasks s' p) = cpus_allowed (tasks s p);
  em_throttled : rt_throttled (rt_of s' c) = rt_throttled (rt_of s c);
}.

(** What steady and still operations keep. *)
Lemma steady_place s s' p :
  steady s s' → rt_inv s → (on_queue s' p ↔ on_queue s p) ∧ sched_class (tasks s' p) = sched_class (tasks s p) ∧
  task_cpu (tasks s' p) = task_cpu (tasks s p).
Proof.
  intros [Ht Hq] Hi. destruct (Ht Hi) as (_ & _ & Hv). injection (Hv p) as _ Hc _ Hk.
  unfold on_queue. by rewrite (quiet_on_rq _ _ p Hq), Hc.
Qed.

Lemma kept_dying s s' : steady s s' → still s' s → dying s → dying s'.
Proof.
  intros Hs [Hr _] [Hi Hcurr [Hst Hstc] Ho Hts Hid Hstop Hn].
  pose proof (λ p, steady_place s s' p Hs (mi_rt _ _ _ _ Hi)) as Hp.
  injection (Hr c) as _ En Est. injection (q_rq _ _ (st_quiet _ _ Hs) c) as Ecurr Eidle _ _ _.
  split.
  - by eapply steady_minv.
  - congruence.
  - split; [by apply Hp|]. by rewrite (proj1 (proj2 (Hp stopper))).
  - intros p Hq%Hp. rewrite (proj1 (proj2 (Hp p))). by apply Ho.
  - intros p Hq%Hp. by apply Hts.
  - by rewrite Eidle, (proj2 (proj2 (Hp _))).
  - congruence.
  - rewrite En, Hn. do 2 f_equal. apply filter_iff_in. intros p _. symmetry. apply Hp.
Qed.

Lemma kept_emptied s s' : steady s s' → still s' s → rt_inv s → emptied s s'.
Proof.
  intros Hs [Hr Ha] Hi. pose proof (λ p, steady_place s s' p Hs Hi) as Hp. split.
  - intros p. rewrite (quiet_on_rq _ _ p (st_quiet _ _ Hs)), (quiet_state _ _ p (st_quiet _ _ Hs)). by rewrite (proj1 (proj2 (Hp p))).
  - intros p. left. apply Hp.
  - intros p _. apply Ha.
  - by injection (Hr c).
Qed.

Lemma emptied_trans s1 s2 s3 : emptied s1 s2 → emptied s2 s3 → emptied s1 s3.
Proof.
  intros [T1 P1 A1 R1] [T2 P2 A2 R2]. split; [intros p; by rewrite T2| | |by rewrite R2].
  - intros p. destruct (P1 p) as [E1|(E1 & Hact & Hin)].
    + destruct (P2 p) as [E2|(E2 & ? & ?)]; [left|right]; [congruence|]. by rewrite <- E1.
    + right. assert (task_cpu (tasks s2 p) ≠ c) as Hne by (intros E; congruence).
      destruct (P2 p) as [E2|(E2 & _)]; [|congruence]. by rewrite E2, (A2 p Hne).
  - intros p Hp. destruct (P1 p) as [E1|(E1 & _)]; [|congruence]. rewrite A2 by congruence. by apply A1.
Qed.

(** ** Choosing *)

(** What is known when a class names a task, or none. *)
Definition picked (k : sclass) (s : sys) (q : option nat) : Prop :=
  match q with
  | Some p => (k = idle_sched_class ∧ p = idle (rqs s c)) ∨
      (on_queue s p ∧ sched_class (tasks s p) = k ∧ k ≠ stop_sched_class ∧ (k = rt_sched_class → rt_throttled (rt_of s c) = false))
  | None => k ≠ idle_sched_class ∧
      ∀ p, on_queue s p → sched_class (tasks s p) = k → p = stopper ∨ (k = rt_sched_class ∧ rt_throttled (rt_of s c) = true)
  end.

Lemma only_stopper s p : dying s → on_queue s p → sched_class (tasks s p) = stop_sched_class → p = stopper.
Proof. intros Hd Hp Hc. destruct (decide (p = stopper)) as [|Hne]; [done|]. destruct (dy_others _ Hd p Hp Hne); congruence. Qed.

Lemma pick_rt_class s : dying s →
  ∃ q s', pick_next_task_rt c s = Some (q, s') ∧ steady s s' ∧ still s' s ∧ picked rt_sched_class s q.
Proof.
  intros Hd. pose proof (dy_inv _ Hd) as Hi. destruct (pick_task_spec s c (proj1 (mi_rt _ _ _ _ Hi))) as (s' & E & Hv).
  exists (chosen s c), s'. split; [done|]. split; [apply steady_view; [done|by eapply quiet_pick]|]. split; [by eapply still_pick|].
  unfold chosen, picked. destruct (rt_throttled (rt_of s c)) eqn:Et; [split; [done|by right]|].
  destruct (queued (rt_of s c)) as [|p l] eqn:Eq; cbn [head].
  - split; [done|]. intros p [Hon Hc] Hcl. pose proof (mi_queued _ _ _ _ Hi p Hcl) as Hq. unfold on_rq_queued in Hq.
    rewrite Hon, Hc, Eq in Hq. set_solver.
  - assert (p ∈ queued (rt_of s c)) as Hp by (rewrite Eq; by left). right.
    destruct (queued_on_rq _ _ _ _ _ _ Hi Hp). split; [by split|].
    apply (queued_index _ _ _ (proj1 (mi_rt _ _ _ _ Hi))) in Hp as (? & _ & _ & _ & _ & Hcl & _). by split_and!.
Qed.

Lemma pick_class k s : dying s →
  ∃ q s', c_pick_next_task (ops_of fuel k) c s = Ok (q, s') ∧ steady s s' ∧ still s' s ∧ picked k s q.
Proof.
  intros Hd. destruct (decide (k = rt_sched_class)) as [->|Hk].
  { destruct (pick_rt_class s Hd) as (q & s' & E & ?). exists q, s'. cbn. by rewrite E. }
  assert (ops_of fuel k = other_class k) as -> by by destruct k.
  destruct (hl_pick _ laws k c s Hk) as (q & s' & E & Hstill). exists q, s'. split; [done|].
  pose proof (dy_stop _ Hd) as Hstop.
  split; [by eapply (cs_pick _ (mr_class k Hk))|]. split; [done|]. destruct k; try done.
  - rewrite (hl_stop _ laws _ _ _ _ Hstop E). split; [done|]. intros p Hp Hc. left. by apply (only_stopper s).
  - pose proof (hl_fair _ laws _ _ _ _ E) as Hf. destruct q as [p|]; cbn.
    + destruct Hf as (? & ? & ?). right. split; [by split|]. by split_and!.
    + split; [done|]. intros p Hp Hc. exfalso. destruct Hp as [Hon Hcpu]. eapply Hf; [|done..]. apply (dy_tasks _ Hd). by split.
  - rewrite (hl_idle _ laws _ _ _ _ E). by left.
Qed.

(** The choice of a turn: a task to be moved, or the idle task when the classes have
    nothing else to offer. *)
Definition turn_choice (s : sys) (p : nat) : Prop :=
  (on_queue s p ∧ p ≠ stopper ∧ (sched_class (tasks s p) = rt_sched_class → rt_throttled (rt_of s c) = false)) ∨
  (p = idle (rqs s c) ∧
    ∀ q, on_queue s q → q = stopper ∨ (sched_class (tasks s q) = rt_sched_class ∧ rt_throttled (rt_of s c) = true)).

Lemma picked_kept k s s' q : dying s → steady s s' → still s' s → picked k s' q → picked k s q.
Proof.
  intros Hd Hs [Hr _]. pose proof (λ p, steady_place s s' p Hs (mi_rt _ _ _ _ (dy_inv _ Hd))) as Hp.
  injection (Hr c) as Et _ _. injection (q_rq _ _ (st_quiet _ _ Hs) c) as _ Ei _ _ _. unfold picked. rewrite Et, Ei.
  destruct q as [p|].
  - destruct (Hp p) as (E1 & E2 & _). by rewrite E1, E2.
  - intros [Hk Hq]. split; [done|]. intros p Hon Hc. destruct (Hp p) as (E1 & E2 & _). apply Hq; [by apply E1|congruence].
Qed.

Lemma picked_choice k s p : dying s → k ≠ idle_sched_class → picked k s (Some p) → turn_choice s p.
Proof.
  intros Hd Hk [[? _]|(Hon & Hc & Hns & Ht)]; [done|]. left. split; [done|]. split; [|by rewrite Hc].
  intros ->. destruct (dy_stopper _ Hd). congruence.
Qed.

(** A class that is asked in a later, equivalent state. *)
Lemma pick_later k s s0 : dying s → steady s s0 → still s0 s →
  ∃ q s', c_pick_next_task (ops_of fuel k) c s0 = Ok (q, s') ∧ steady s s' ∧ still s' s ∧ picked k s q.
Proof.
  intros Hd Hs Hl. destruct (pick_class k s0 (kept_dying _ _ Hs Hl Hd)) as (q & s' & E & Hs' & Hl' & Hq).
  exists q, s'. split; [done|]. split; [by eapply steady_trans|]. split; [by etransitivity|]. by eapply picked_kept.
Qed.

Lemma pick_classes s s0 : dying s → steady s s0 → still s0 s →
  ∃ p s', pick_from fuel classes c s0 = Ok (p, s') ∧ steady s s' ∧ still s' s ∧ turn_choice s p.
Proof.
  intros Hd Hs0 Hl0. unfold classes. cbn [pick_from].
  destruct (pick_later stop_sched_class s s0 Hd Hs0 Hl0) as (q1 & s1 & -> & Hs1 & Hl1 & Hq1). cbn [mbind res_bind].
  destruct q1 as [p|]; [exists p, s1; split_and!; try done; (eapply picked_choice; [exact Hd| |exact Hq1]; discriminate)|].
  destruct (pick_later rt_sched_class s s1 Hd Hs1 Hl1) as (q2 & s2 & -> & Hs2 & Hl2 & Hq2). cbn [mbind res_bind].
  destruct q2 as [p|]; [exists p, s2; split_and!; try done; (eapply picked_choice; [exact Hd| |exact Hq2]; discriminate)|].
  destruct (pick_later fair_sched_class s s2 Hd Hs2 Hl2) as (q3 & s3 & -> & Hs3 & Hl3 & Hq3). cbn [mbind res_bind].
  destruct q3 as [p|]; [exists p, s3; split_and!; try done; (eapply picked_choice; [exact Hd| |exact Hq3]; discriminate)|].
  destruct (pick_later idle_sched_class s s3 Hd Hs3 Hl3) as (q4 & s4 & -> & Hs4 & Hl4 & Hq4). cbn [mbind res_bind].
  destruct q4 as [p|]; [|by destruct Hq4]. exists p, s4. split_and!; try done.
  assert (p = idle (rqs s c)) as ->.
  { destruct Hq4 as [[_ ->]|(Hon & Hc & _)]; [done|]. destruct (decide (p = stopper)) as [->|Hne].
    - destruct (dy_stopper _ Hd). congruence.
    - destruct (dy_others _ Hd p Hon Hne); congruence. }
  right. split; [done|]. intros q Hon. destruct (decide (q = stopper)) as [|Hne]; [by left|].
  destruct (dy_others _ Hd q Hon Hne) as [Hc|Hc].
  - destruct Hq2 as [_ Hq2]. destruct (Hq2 q Hon Hc) as [|[_ ?]]; [by left|by right].
  - destruct Hq3 as [_ Hq3]. by destruct (Hq3 q Hon Hc) as [|[? _]]; [left|].
Qed.

Lemma pick_turn s b : dying s →
  ∃ p s', pick_next_task fuel b c s = Ok (p, s') ∧ steady s s' ∧ still s' s ∧ turn_choice s p.
Proof.
  intros Hd. unfold pick_next_task. destruct b; [|apply pick_classes; [done|apply steady_refl|done]].
  destruct (pick_class fair_sched_class s Hd) as (q & s1 & -> & Hs1 & Hl1 & Hq). cbn [mbind res_bind].
  destruct q as [p|]; [|by apply pick_classes]. exists p, s1. split_and!; try done. (eapply picked_choice; [exact Hd| |exact Hq]; discriminate).
Qed.

(** ** The rest of a turn *)

Lemma put_prev_kept s p : dying s →
  let s' := c_put_prev_task (class_of fuel s p) c p s in steady s s' ∧ still s' s.
Proof.
  intros Hd. unfold class_of. cbv zeta. destruct (decide (sched_class (tasks s p) = rt_sched_class)) as [Hk|Hk].
  - rewrite Hk. cbn [ops_of c_put_prev_task rt_class_ops]. split.
    + apply steady_view; [apply put_prev_view|apply quiet_put_prev].
    + apply still_put_prev. rewrite (dy_curr _ Hd). unfold rt_class. destruct (dy_stopper _ Hd) as [_ ->]. done.
  - assert (ops_of fuel (sched_class (tasks s p)) = other_class (sched_class (tasks s p))) as -> by by destruct (sched_class (tasks s p)).
    split; [by apply (cs_put_prev _ (mr_class _ Hk))|by apply (so_put_prev (hl_still _ laws))].
Qed.

Lemma idle_not_queued s p : dying s → on_queue s p → p ≠ idle (rqs s c).
Proof. intros Hd [Hon _] ->. destruct (mi_idle _ _ _ _ (dy_inv _ Hd) (idle (rqs s c))) as [? _]; [by exists c|congruence]. Qed.

(** Where the task goes. *)
Lemma fallback_turn s p : dying s → task_cpu (tasks s p) = c →
  let '(d, s') := select_fallback_rq c p s in
  dying s' ∧ emptied s s' ∧ cpu_active d = true ∧ d ∈ cpus_allowed (tasks s' p) ∧
  (∀ q, (on_queue s' q ↔ on_queue s q) ∧ task_cpu (tasks s' q) = task_cpu (tasks s q)) ∧
  curr (rqs s' c) = curr (rqs s c) ∧ idle (rqs s' c) = idle (rqs s c).
Proof.
  intros Hd Hc. unfold select_fallback_rq.
  assert (∀ d, cpu_active d = true → d ∈ cpus_allowed (tasks s p) →
    dying s ∧ emptied s s ∧ cpu_active d = true ∧ d ∈ cpus_allowed (tasks s p) ∧
    (∀ q, (on_queue s q ↔ on_queue s q) ∧ task_cpu (tasks s q) = task_cpu (tasks s q)) ∧
    curr (rqs s c) = curr (rqs s c) ∧ idle (rqs s c) = idle (rqs s c)) as Hsame.
  { intros d ??. split; [done|]. split; [|by split_and!]. split; try done. intros q. by left. }
  destruct (find _ _) as [d|] eqn:Ef.
  { apply find_some in Ef as [_ Hf%andb_true_iff]. destruct Hf as [? ?%bool_decide_eq_true_1]. by apply Hsame. }
  destruct (cpumask_any _) as [d|] eqn:Ea.
  { apply cpumask_any_in in Ea. apply elem_of_filter in Ea as [? ?]. by apply Hsame. }
  pose proof (hl_fallback _ laws p s) as Hf. pose proof (mr_fallback p s) as [Henv Hq].
  destruct (cpuset_cpus_allowed_fallback p s) as [d s']. cbn [snd] in *. destruct Hf as (Hact & Hin & Hr & Ht & Ha).
  assert (∀ q, on_rq (tasks s' q) = on_rq (tasks s q) ∧ state (tasks s' q) = state (tasks s q)) as Hon.
  { intros q. by rewrite (quiet_on_rq _ _ q Hq), (quiet_state _ _ q Hq). }
  assert (∀ q, task_cpu (tasks s' q) = task_cpu (tasks s q) ∧ sched_class (tasks s' q) = sched_class (tasks s q)) as Ht'.
  { intros q. by injection (Ht q). }
  assert (∀ q, on_queue s' q ↔ on_queue s q) as Hoq by (intros q; unfold on_queue; by rewrite (proj1 (Hon q)), (proj1 (Ht' q))).
  injection (q_rq _ _ Hq c) as Ecurr Eidle _ _ _. injection (Hr c) as Et En Est. split; [|split].
  - destruct Hd as [Hi Hcurr [Hst Hstc] Ho Hts Hid Hstop Hn]. split.
    + by apply Henv.
    + congruence.
    + split; [by apply Hoq|]. by rewrite (proj2 (Ht' stopper)).
    + intros q Hq1%Hoq. rewrite (proj2 (Ht' q)). by apply Ho.
    + intros q Hq1%Hoq. by apply Hts.
    + by rewrite Eidle, (proj1 (Ht' _)).
    + congruence.
    + rewrite En, Hn. do 2 f_equal. apply filter_iff_in. intros q _. symmetry. apply Hoq.
  - split; [intros q; by rewrite (proj1 (Hon q)), (proj2 (Hon q)), (proj2 (Ht' q))|intros q; left; apply Ht'| |done].
    intros q Hq1. apply Ha. intros ->. done.
  - split_and!; try done. intros q. by split; [|apply Ht'].
Qed.

Lemma filter_remove (P Q : nat → Prop) `{∀ x, Decision (P x), ∀ x, Decision (Q x)} (l : list nat) p :
  NoDup l → p ∈ l → P p → (∀ q, q ∈ l → Q q ↔ P q ∧ q ≠ p) → length (filter P l) = S (length (filter Q l)).
Proof.
  intros Hnd Hp HP HQ. induction Hnd as [|x l Hx Hnd IH]; [set_solver|]. rewrite !filter_cons.
  pose proof (HQ x ltac:(set_solver)) as HQx. destruct (decide (x = p)) as [->|Hne].
  - rewrite (decide_True (P := P p)), (decide_False (P := Q p)) by naive_solver. cbn. f_equal. f_equal.
    apply filter_iff_in. intros q Hq. rewrite HQ by set_solver. assert (q ≠ p) by by intros ->. naive_solver.
  - assert (p ∈ l) as Hpl by set_solver. specialize (IH Hpl (λ q Hq, HQ q ltac:(set_solver))).
    destruct (decide (P x)), (decide (Q x)); cbn; try (rewrite IH; done); naive_solver.
Qed.

(** ** Moving a task *)

Context (distinct : NoDup ts) (few : Z.of_nat (length ts) < 2 ^ 64).

Lemma move_turn d p s :
  dying s → on_queue s p → p ≠ stopper → cpu_active d = true → d ∈ cpus_allowed (tasks s p) →
  let s' := move_task c d p s in
  dying s' ∧ emptied s s' ∧ nr_running (rqs s' c) = nr_running (rqs s c) - 1 ∧ ∀ q, on_queue s' q ↔ on_queue s q ∧ q ≠ p.
Proof.
  intros Hd Hp Hns Hact Hin s'. assert (d ≠ c) as Hdc by congruence.
  pose proof (dy_inv _ Hd) as Hi. destruct Hp as [Hon Hcpu].
  destruct (move_frame c d p s (mi_rt _ _ _ _ Hi)) as (_ & Hq & Ht & Hdst & Hcl & _). fold s' in Hq, Ht, Hdst, Hcl.
  assert (minv fresh pend busy s') as Hi' by (apply move_minv; [done|split_and!; [done..|rewrite (dy_curr _ Hd); done]]).
  destruct (move_counted (hl_still _ laws) c d p s Hdc) as [Er Ha].
  { rewrite (dy_curr _ Hd). unfold rt_class. by destruct (dy_stopper _ Hd) as [_ ->]. }
  fold s' in Er, Ha. clearbody s'. injection Er as Et Est En.
  assert (∀ q, on_queue s' q ↔ on_queue s q ∧ q ≠ p) as Hoq.
  { intros q. unfold on_queue. rewrite (quiet_on_rq _ _ q Hq). destruct (decide (q = p)) as [->|Hne]; [naive_solver|].
    injection (Ht q Hne) as _ -> _ _. naive_solver. }
  assert (∀ q, sched_class (tasks s' q) = sched_class (tasks s q)) as Hk.
  { intros q. destruct (decide (q = p)) as [->|Hne]; [done|]. by injection (Ht q Hne). }
  assert (p ∈ ts) as Hpts by (apply (dy_tasks _ Hd); by split).
  pose proof (filter_remove (on_queue s) (on_queue s') ts p distinct Hpts (conj Hon Hcpu) (λ q _, Hoq q)) as Hlen.
  pose proof (length_filter (on_queue s) ts) as Hle.
  assert (nr_running (rqs s' c) = nr_running (rqs s c) - 1) as En'.
  { rewrite En, (dy_count _ Hd), Hlen, wrap_u_small; lia. }
  injection (q_rq _ _ Hq c) as Ecurr Eidle _ _ _. split; [|split; [|by split]].
  - destruct Hd as [_ Hcurr [Hst Hstc] Ho Hts Hid Hstop Hn]. split.
    + done.
    + congruence.
    + split; [by apply Hoq|by rewrite Hk].
    + intros q [Hq1 _]%Hoq. rewrite Hk. by apply Ho.
    + intros q [Hq1 _]%Hoq. by apply Hts.
    + rewrite Eidle. assert (idle (rqs s c) ≠ p) as Hne.
      { intros E. destruct (mi_idle _ _ _ _ Hi p) as [? _]; [by exists c|congruence]. }
      by injection (Ht _ Hne) as _ -> _ _.
    + congruence.
    + rewrite En', Hn, Hlen. lia.
  - split; [intros q; by rewrite (quiet_on_rq _ _ q Hq), (quiet_state _ _ q Hq), Hk| |intros q _; apply Ha|done].
    intros q. destruct (decide (q = p)) as [->|Hne]; [right|left; by injection (Ht q Hne)].
    by rewrite Hdst, Ha.
Qed.

(** ** A turn *)

(** What a turn comes to. *)
Definition turned (s s' : sys) : Prop :=
  dying s' ∧ emptied s s' ∧
  ((∃ p, on_queue s p ∧ p ≠ stopper ∧ (sched_class (tasks s p) = rt_sched_class → rt_throttled (rt_of s c) = false) ∧
      nr_running (rqs s' c) = nr_running (rqs s c) - 1 ∧ ∀ q, on_queue s' q ↔ on_queue s q ∧ q ≠ p) ∨
   ((∀ q, on_queue s' q ↔ on_queue s q) ∧
      ∀ q, on_queue s q → q = stopper ∨ (sched_class (tasks s q) = rt_sched_class ∧ rt_throttled (rt_of s c) = true))).

Lemma kept_turned s s1 s' : dying s → steady s s1 → still s1 s → turned s1 s' → turned s s'.
Proof.
  intros Hd Hs Hl (Hd' & He & Hcase). pose proof (λ p, steady_place s s1 p Hs (mi_rt _ _ _ _ (dy_inv _ Hd))) as Hp.
  injection (sl_rq _ _ Hl c) as Et En _. split; [done|]. split.
  { eapply emptied_trans; [|exact He]. apply kept_emptied; [done|done|apply Hd]. }
  rewrite <- En, <- Et. destruct Hcase as [(p & Hon & Hne & Hk & Hn & Hq)|[Hq Hall]]; [left; exists p|right].
  - destruct (Hp p) as (E1 & E2 & _). rewrite <- E2. split_and!; try done; [by apply E1|].
    intros q. rewrite (Hq q). by destruct (Hp q) as [-> _].
  - split; [intros q; rewrite (Hq q); apply Hp|]. intros q Hon. destruct (Hp q) as (E1 & E2 & _). rewrite <- E2. by apply Hall, E1.
Qed.

Lemma turned_kept s s1 s' : turned s s1 → steady s1 s' → still s' s1 → turned s s'.
Proof.
  intros (Hd & He & Hcase) Hs Hl. pose proof (λ p, steady_place s1 s' p Hs (mi_rt _ _ _ _ (dy_inv _ Hd))) as Hp.
  injection (sl_rq _ _ Hl c) as Et En _. split; [by eapply kept_dying|]. split.
  { eapply emptied_trans; [exact He|]. apply kept_emptied; [done|done|apply Hd]. }
  rewrite En. destruct Hcase as [(p & Hon & Hne & Hk & Hn & Hq)|[Hq Hall]]; [left; exists p|right].
  - split_and!; try done. intros q. destruct (Hp q) as [-> _]. apply Hq.
  - split; [|done]. intros q. destruct (Hp q) as [-> _]. apply Hq.
Qed.

(** The task chosen, once it was put back. *)
Lemma move_choice s p : dying s → turn_choice s p →
  let '(d, s') := select_fallback_rq c p s in turned s (snd (__migrate_task fuel p c d s')).
Proof.
  intros Hd Hch. assert (task_cpu (tasks s p) = c) as Hc by (destruct Hch as [[[_ ?] _]|[-> _]]; [done|apply (dy_idle _ Hd)]).
  pose proof (fallback_turn s p Hd Hc) as Hf. destruct (select_fallback_rq c p s) as [d s1].
  destruct Hf as (Hd1 & He1 & Hact & Hin & Hq & Hcurr & Hidle). unfold __migrate_task. rewrite Hact, alone. cbn [negb].
  rewrite decide_False by (rewrite (proj2 (Hq p)); tauto). rewrite decide_False by tauto.
  destruct Hch as [(Hon & Hne & Hk)|[-> Hall]].
  - destruct (proj2 (proj1 (Hq p)) Hon) as [-> _]. cbn [snd].
    destruct (move_turn d p s1 Hd1 (proj2 (proj1 (Hq p)) Hon) Hne Hact Hin) as (Hd2 & He2 & Hn2 & Hq2).
    fold (move_task c d p s1). apply (turned_kept s (move_task c d p s1)); [|apply check_preempt_steady|apply (still_preempt (hl_still _ laws))].
    split; [done|]. split; [by eapply emptied_trans|]. left. exists p. split_and!; try done.
    + rewrite Hn2, (dy_count _ Hd1), (dy_count _ Hd). do 3 f_equal. apply filter_iff_in. intros q _. apply Hq.
    + intros q. rewrite (Hq2 q). by rewrite (proj1 (Hq q)).
  - destruct (mi_idle _ _ _ _ (dy_inv _ Hd1) (idle (rqs s c))) as [-> _]; [exists c; congruence|]. cbn [snd].
    split; [done|]. split; [done|]. right. split; [apply Hq|done].
Qed.

Lemma turn s : dying s → ∃ s', migrate_one fuel c s = Ok s' ∧ turned s s'.
Proof.
  intros Hd. unfold migrate_one. edestruct (pick_turn s) as (p & s1 & -> & Hs1 & Hl1 & Hch); [done|]. cbn [mbind res_bind].
  pose proof (kept_dying _ _ Hs1 Hl1 Hd) as Hd1. destruct (put_prev_kept s1 p Hd1) as [Hs2 Hl2].
  set (s2 := c_put_prev_task _ c p s1) in *. clearbody s2. pose proof (steady_trans _ _ _ Hs1 Hs2) as Hs.
  assert (still s2 s) as Hl by by etransitivity. pose proof (kept_dying _ _ Hs Hl Hd) as Hd2.
  assert (turn_choice s2 p) as Hch2.
  { pose proof (λ p, steady_place s s2 p Hs (mi_rt _ _ _ _ (dy_inv _ Hd))) as Hp. injection (sl_rq _ _ Hl c) as Et _ _.
    injection (q_rq _ _ (st_quiet _ _ Hs) c) as _ Ei _ _ _. unfold turn_choice. rewrite Et, Ei.
    destruct Hch as [(Hon & Hne & Hk)|[-> Hall]]; [left|right].
    - destruct (Hp p) as (E1 & E2 & _). rewrite E2. split; [by apply E1|done].
    - split; [done|]. intros q Hon. destruct (Hp q) as (E1 & E2 & _). rewrite E2. by apply Hall, E1. }
  pose proof (move_choice s2 p Hd2 Hch2) as Hm. destruct (select_fallback_rq c p s2) as [d s3].
  eexists. split; [reflexivity|]. by apply (kept_turned s s2).
Qed.



(** ** The loop *)

(** Nothing keeps a real-time task that is queued from being chosen. *)
Definition can_go (s : sys) : Prop :=
  ∀ p, on_queue s p → sched_class (tasks s p) = rt_sched_class → rt_throttled (rt_of s c) = false.

Lemma can_go_emptied s s' : emptied s s' → (∀ q, on_queue s' q → on_queue s q) → can_go s → can_go s'.
Proof.
  intros He Hq Hgo p Hp Hk. rewrite (em_throttled _ _ He). apply (Hgo p); [by apply Hq|].
  injection (em_task _ _ He p) as _ _ E. congruence.
Qed.

Definition another (s : sys) (q : nat) : Prop := on_queue s q ∧ q ≠ stopper.

#[local] Instance another_dec s q : Decision (another s q).
Proof. unfold another. apply _. Defined.

(** The stopper is the only task when the count says so, and conversely. *)
Lemma count_stopper s : dying s → 1 <= nr_running (rqs s c) ∧ (nr_running (rqs s c) = 1 ↔ ∀ p, on_queue s p ↔ p = stopper).
Proof.
  intros Hd. destruct (dy_stopper _ Hd) as [Hst _].
  pose proof (filter_remove (on_queue s) (another s) ts stopper distinct (dy_tasks _ Hd _ Hst) Hst (λ q _, iff_refl _)) as Hlen.
  rewrite (dy_count _ Hd), Hlen. split; [lia|]. split.
  - intros Hn p. split; [|by intros ->]. intros Hp. apply dec_stable. intros Hne.
    assert (p ∈ filter (another s) ts) as Hin by (apply list_elem_of_filter; split; [done|by apply (dy_tasks _ Hd)]).
    destruct (filter (another s) ts); [set_solver|]. cbn [length] in Hn. lia.
  - intros Hall. destruct (filter (another s) ts) as [|q l] eqn:E; [done|].
    assert (q ∈ filter (another s) ts) as Hin by (rewrite E; by left).
    apply list_elem_of_filter in Hin as [[Hq Hne] _]. by apply Hall in Hq.
Qed.

Lemma loop_empties turns s :
  dying s → can_go s → nr_running (rqs s c) <= Z.of_nat turns + 1 →
  ∃ s', migrate_loop fuel turns c s = Ok s' ∧ dying s' ∧ emptied s s' ∧ nr_running (rqs s' c) = 1.
Proof.
  intros Hd Hgo Hn. induction turns as [|turns IH] in s, Hd, Hgo, Hn |- *; cbn [migrate_loop].
  all: destruct (count_stopper s Hd) as [Hge Hone].
  all: destruct (decide (nr_running (rqs s c) = 1)) as [E1|E1];
    [exists s; split_and!; try done; by apply kept_emptied; [apply steady_refl| |apply Hd]|].
  - lia.
  - destruct (turn s Hd) as (s1 & -> & Hd1 & He1 & Hcase). cbn [mbind res_bind].
    destruct Hcase as [(p & _ & _ & _ & Hn1 & Hq)|[_ Hall]].
    + destruct (IH s1 Hd1 (can_go_emptied _ _ He1 (λ q Hq', proj1 (proj1 (Hq q) Hq')) Hgo)) as (s' & E & Hd' & He' & Hn'); [lia|].
      exists s'. split_and!; try done. by eapply emptied_trans.
    + destruct E1. apply Hone. intros p. split; [|intros ->; apply Hd]. intros Hp.
      destruct (Hall p Hp) as [|[Hk Ht]]; [done|]. specialize (Hgo p Hp Hk). congruence.
Qed.

Lemma loop_stuck turns s p :
  dying s → rt_throttled (rt_of s c) = true → on_queue s p → sched_class (tasks s p) = rt_sched_class →
  migrate_loop fuel turns c s = Out.
Proof.
  intros Hd Ht Hp Hk. induction turns as [|turns IH] in s, Hd, Ht, Hp, Hk |- *; cbn [migrate_loop].
  all: destruct (decide (nr_running (rqs s c) = 1)) as [E1|E1];
    [pose proof (proj1 (proj2 (count_stopper s Hd)) E1 p) as Hst; apply Hst in Hp as ->; destruct (dy_stopper _ Hd); congruence|].
  - done.
  - destruct (turn s Hd) as (s1 & -> & Hd1 & He1 & Hcase). cbn [mbind res_bind].
    injection (em_task _ _ He1 p) as _ _ Ek. apply IH; [done|by rewrite (em_throttled _ _ He1)| |congruence].
    destruct Hcase as [(q & Hq & _ & Hkq & _ & Hon)|[Hon _]]; apply Hon; [|done]. split; [done|]. intros ->.
    specialize (Hkq Hk). congruence.
Qed.

(** Hiding the stopper changes nothing the invariant reads. *)
Lemma set_stop_steady o s : steady s (upd_rq c (set_stop o) s).
Proof. apply steady_view; [by apply sv_upd_rq|by apply quiet_upd_rq]. Qed.

Lemma set_stop_emptied o s s' :
  emptied (upd_rq c (set_stop None) s) s' → emptied s (upd_rq c (set_stop o) s').
Proof.
  intros [E1 E2 E3 E4]. split; [exact E1|exact E2|exact E3|]. unfold rt_of in *. rewrite rqs_upd_rq, decide_True in * by done. exact E4.
Qed.

(** ** The theorems *)

(** C14: with the stopper hidden, a processor goes down that runs it: when no real-time
    task is queued or the queue is not throttled, as many turns as there are other
    tasks leave the stopper alone on the queue.  Every other task of the queue is
    then on an active processor it may run on, and nothing else has changed places. *)
Theorem migrate_tasks_empties turns s :
  dying (upd_rq c (set_stop None) s) → can_go s → nr_running (rqs s c) <= Z.of_nat turns + 1 →
  ∃ s', migrate_tasks fuel turns c s = Ok s' ∧ minv fresh pend busy s' ∧ emptied s s' ∧
    (∀ p, on_queue s' p ↔ p = stopper) ∧ nr_running (rqs s' c) = 1 ∧ stop (rqs s' c) = stop (rqs s c).
Proof.
  intros Hd Hgo Hn. unfold migrate_tasks. set (s0 := upd_rq c (set_stop None) s) in *.
  assert (can_go s0 ∧ nr_running (rqs s0 c) = nr_running (rqs s c)) as [Hgo0 Hn0].
  { unfold can_go, rt_of, s0. rewrite rqs_upd_rq, decide_True by done. split; [exact Hgo|done]. }
  destruct (loop_empties turns s0 Hd Hgo0 ltac:(congruence)) as (s1 & -> & Hd1 & He1 & Hn1). cbn [mbind res_bind].
  eexists. split; [reflexivity|]. split; [eapply steady_minv; [apply set_stop_steady|apply Hd1]|].
  split; [by apply set_stop_emptied|]. split; [|by rewrite rqs_upd_rq, decide_True by done].
  by apply (count_stopper s1 Hd1).
Qed.

(** C13: the loop ends exactly when no real-time task is queued or the queue is not
    throttled; nothing lifts the throttling of a processor that goes down. *)
Theorem migrate_tasks_ends_iff s :
  dying (upd_rq c (set_stop None) s) →
  (∃ turns s', migrate_tasks fuel turns c s = Ok s') ↔ can_go s.
Proof.
  intros Hd. split.
  - intros (turns & s' & E) p Hp Hk. destruct (rt_throttled (rt_of s c)) eqn:Et; [|done]. exfalso.
    unfold migrate_tasks in E. rewrite (loop_stuck turns _ p Hd) in E; [done| |exact Hp|exact Hk].
    unfold rt_of. rewrite rqs_upd_rq, decide_True by done. exact Et.
  - intros Hgo. exists (Z.to_nat (nr_running (rqs s c))).
    destruct (migrate_tasks_empties (Z.to_nat (nr_running (rqs s c))) s Hd Hgo ltac:(lia)) as (s' & E & _). eauto.
Qed.

End dying.
