(* ===== verification/SchedSyscalls.v ===== *)
(** * System calls on policies, affinity and processors (sched.c,
      src/indwriterups/project1)

    What a program asks of the scheduler: the policy and the parameters of a task, the
    processors it may run on, its time slice and the ranges of priorities; and the
    points at which the kernel gives up the processor.  References, memory and the lock
    against hotplug that the calls take are counted in [held]. *)

From S2P Require Import Prelude RtState RtBandwidth RtQueue SchedCore RtPush SchedPolicy RtSteps SchedWake SchedMigrate.

Local Open Scope Z_scope.

Definition ENOMEM : Z := 12.

(** The bytes of a processor mask and of a word. *)
Definition BITS_PER_BYTE : Z := 8.
Definition sizeof_long : Z := 8.

(** Processes by number; capabilities and the security module; the set of processors
    of a task's cpuset when it is asked the [k]th time; the first allocation and the
    second; ticks as seconds and nanoseconds; the handler of another class that yields to a
    task, with its answer; what others do until a lock is obtained. *)
Class SyscallEnv `{MigrateEnv} := {
  find_task_by_vpid : Z → option nat;
  task_ns_capable_sys_nice : nat → bool;
  security_task_getscheduler : nat → Z;
  cpuset_cpus_allowed : nat → nat → gset nat;
  alloc_ok : nat → bool;
  cpumask_size : Z;
  jiffies_to_timespec : Z → Z * Z;
  c_yield_to_task : sclass → option (nat → nat → bool → sys → bool * sys);
  before_spin_lock : sys → sys;
  in_softirq : bool;
}.

(** What the caller holds: [get_online_cpus], references to tasks, masks. *)
Record held := Held { online_cpus : Z; task_refs : nat → Z; masks : Z }.

Section syscalls.
Context `{SyscallEnv}.

(** The passes of pushing, and of the scheduler. *)
Variables (fuel passes : nat).

Definition find_process_by_pid (pid : Z) (s : sys) : option nat :=
  if decide (pid = 0) then Some (current s) else find_task_by_vpid pid.

(** ** Policies *)

Definition sys_sched_getscheduler (pid : Z) (s : sys) : Z :=
  if decide (pid < 0) then - EINVAL
  else match find_process_by_pid pid s with
       | None => - ESRCH
       | Some p =>
           let retval := security_task_getscheduler p in
           if decide (retval ≠ 0) then retval
           else Z.lor (policy (tasks s p)) (if sched_reset_on_fork (tasks s p) then SCHED_RESET_ON_FORK else 0)
       end.

(** The second argument is whether there is a place for the answer and whether it
    can be written; the answer is the second component. *)
Definition sys_sched_getparam (pid : Z) (param : option bool) (s : sys) : Z * option Z :=
  match param with
  | None => (- EINVAL, None)
  | Some writable =>
      if decide (pid < 0) then (- EINVAL, None)
      else match find_process_by_pid pid s with
           | None => (- ESRCH, None)
           | Some p =>
               let retval := security_task_getscheduler p in
               if decide (retval ≠ 0) then (retval, None)
               else if writable then (0, Some (rt_priority (tasks s p))) else (- EFAULT, None)
           end
  end.

Definition sys_sched_get_priority_max (policy : Z) : Z :=
  if decide (policy = SCHED_FIFO ∨ policy = SCHED_RR) then MAX_USER_RT_PRIO - 1
  else if decide (policy = SCHED_NORMAL ∨ policy = SCHED_BATCH ∨ policy = SCHED_IDLE) then 0
  else - EINVAL.

Definition sys_sched_get_priority_min (policy : Z) : Z :=
  if decide (policy = SCHED_FIFO ∨ policy = SCHED_RR) then 1
  else if decide (policy = SCHED_NORMAL ∨ policy = SCHED_BATCH ∨ policy = SCHED_IDLE) then 0
  else - EINVAL.

Definition sys_sched_rr_get_interval (pid : Z) (writable : bool) (s : sys) : Z * option (Z * Z) * sys :=
  if decide (pid < 0) then (- EINVAL, None, s)
  else match find_process_by_pid pid s with
       | None => (- ESRCH, None, s)
       | Some p =>
           let retval := security_task_getscheduler p in
           if decide (retval ≠ 0) then (retval, None, s)
           else
             let s := before_lock p s in
             let t := jiffies_to_timespec (u32 (c_get_rr_interval (class_of fuel s p) p s)) in
             if writable then (0, Some t, s) else (- EFAULT, None, s)
       end.

(** ** Affinity *)

Definition get_online_cpus (h : held) : held := Held (online_cpus h + 1) (task_refs h) (masks h).
Definition put_online_cpus (h : held) : held := Held (online_cpus h - 1) (task_refs h) (masks h).
Definition get_task_struct (p : nat) (h : held) : held := Held (online_cpus h) (<[p := task_refs h p + 1]> (task_refs h)) (masks h).
Definition put_task_struct (p : nat) (h : held) : held := Held (online_cpus h) (<[p := task_refs h p - 1]> (task_refs h)) (masks h).
Definition free_cpumask_var (h : held) : held := Held (online_cpus h) (task_refs h) (masks h - 1).

Definition alloc_cpumask_var (k : nat) (h : held) : option held :=
  if alloc_ok k then Some (Held (online_cpus h) (task_refs h) (masks h + 1)) else None.

(** From the label [again]; [k] counts the questions to the cpuset. *)
Fixpoint affinity_again (tries k p : nat) (new_mask : gset nat) (s : sys) : res (Z * sys) :=
  match tries with
  | O => Out
  | S tries' =>
      '(retval, s) ← set_cpus_allowed_ptr fuel p new_mask s;
      if decide (retval = 0) then
        let cpus_allowed := cpuset_cpus_allowed k p in
        if decide (new_mask ⊆ cpus_allowed) then Ok (retval, s) else affinity_again tries' (S k) p cpus_allowed s
      else Ok (retval, s)
  end.

(** The labels at the end, in their order. *)
Definition out_put_task (p : nat) (h : held) : held := put_online_cpus (put_task_struct p h).
Definition out_free_cpus_allowed (p : nat) (h : held) : held := out_put_task p (free_cpumask_var h).
Definition out_unlock (p : nat) (h : held) : held := out_free_cpus_allowed p (free_cpumask_var h).

Definition sched_setaffinity (tries : nat) (pid : Z) (in_mask : gset nat) (h : held) (s : sys) : res (Z * (held * sys)) :=
  let h := get_online_cpus h in
  match find_process_by_pid pid s with
  | None => Ok (- ESRCH, (put_online_cpus h, s))
  | Some p =>
      let h := get_task_struct p h in
      match alloc_cpumask_var 0 h with
      | None => Ok (- ENOMEM, (out_put_task p h, s))
      | Some h =>
          match alloc_cpumask_var 1 h with
          | None => Ok (- ENOMEM, (out_free_cpus_allowed p h, s))
          | Some h =>
              if negb (check_same_owner p) && negb (task_ns_capable_sys_nice p) then Ok (- EPERM, (out_unlock p h, s))
              else if decide (security_task_setscheduler p ≠ 0) then Ok (security_task_setscheduler p, (out_unlock p h, s))
              else
                let new_mask := in_mask ∩ cpuset_cpus_allowed 0 p in
                '(retval, s) ← affinity_again tries 1 p new_mask s;
                Ok (retval, (out_unlock p h, s))
          end
      end
  end.

(** The mask in user space, or [None] where it cannot be read; the old content of
    the kernel's mask.  Bit [d] is in byte [d / 8]. *)
Definition get_user_cpu_mask (user_mask : option (gset nat)) (len : Z) (new_mask : gset nat) : Z * gset nat :=
  let new_mask := if decide (len < cpumask_size) then ∅ else new_mask in
  let len := if decide (cpumask_size < len) then cpumask_size else len in
  match user_mask with
  | None => (- EFAULT, new_mask)
  | Some m =>
      let copied d := bool_decide (Z.of_nat d < BITS_PER_BYTE * len) in
      (0, filter (λ d, copied d = true) m ∪ filter (λ d, copied d = false) new_mask)
  end.

(** [junk] is what the new mask holds when it is allocated, by the third request. *)
Definition sys_sched_setaffinity (tries : nat) (pid len : Z) (user_mask : option (gset nat)) (junk : gset nat)
    (h : held) (s : sys) : res (Z * (held * sys)) :=
  match alloc_cpumask_var 2 h with
  | None => Ok (- ENOMEM, (h, s))
  | Some h =>
      let '(retval, new_mask) := get_user_cpu_mask user_mask len junk in
      if decide (retval = 0) then
        '(retval, (h, s)) ← sched_setaffinity tries pid new_mask h s;
        Ok (retval, (free_cpumask_var h, s))
      else Ok (retval, (free_cpumask_var h, s))
  end.

Definition sched_getaffinity (pid : Z) (h : held) (s : sys) : Z * gset nat * (held * sys) :=
  let h := get_online_cpus h in
  match find_process_by_pid pid s with
  | None => (- ESRCH, ∅, (put_online_cpus h, s))
  | Some p =>
      let retval := security_task_getscheduler p in
      if decide (retval ≠ 0) then (retval, ∅, (put_online_cpus h, s))
      else
        let s := before_pi_lock p s in
        (0, cpus_allowed (tasks s p) ∩ list_to_set cpu_online_mask, (put_online_cpus h, s))
  end.

(** The second component is what was written to user space; [len] is unsigned and so
    is its product. *)
Definition sys_sched_getaffinity (pid len : Z) (writable : bool) (h : held) (s : sys) : Z * option (gset nat) * (held * sys) :=
  if decide (u32 (len * BITS_PER_BYTE) < Z.of_nat nr_cpu_ids) then (- EINVAL, None, (h, s))
  else if decide (Z.land len (sizeof_long - 1) ≠ 0) then (- EINVAL, None, (h, s))
  else
    match alloc_cpumask_var 0 h with
    | None => (- ENOMEM, None, (h, s))
    | Some h =>
        let '(ret, mask, (h, s)) := sched_getaffinity pid h s in
        if decide (ret = 0) then
          let retlen := Z.min len cpumask_size in
          if writable
          then (retlen, Some (filter (λ d, Z.of_nat d < BITS_PER_BYTE * retlen) mask), (free_cpumask_var h, s))
          else (- EFAULT, None, (free_cpumask_var h, s))
        else (ret, None, (free_cpumask_var h, s))
    end.

(** ** Giving up the processor *)

(** The real-time class has no such handler. *)
Definition yield_to_task (k : sclass) : option (nat → nat → bool → sys → bool * sys) :=
  match k with rt_sched_class => None | k => c_yield_to_task k end.

(** From the label [again]: both queues are locked and the task is still on its own. *)
Fixpoint lock_both (tries p : nat) (s : sys) : res (nat * sys) :=
  match tries with
  | O => Out
  | S tries' =>
      let p_rq := task_cpu (tasks s p) in
      let s := before_rq_lock p_rq s in
      if decide (task_cpu (tasks s p) = p_rq) then Ok (p_rq, s) else lock_both tries' p s
  end.

Definition yield_to (tries p : nat) (preempt : bool) (s : sys) : res (bool * sys) :=
  let this := this_cpu s in
  let cur := current s in
  '(p_rq, s) ← lock_both tries p s;
  match yield_to_task (sched_class (tasks s cur)) with
  | None => Ok (false, s)
  | Some f =>
      if decide (sched_class (tasks s cur) ≠ sched_class (tasks s p)) then Ok (false, s)
      else if task_running s p || negb (bool_decide (state (tasks s p) = 0)) then Ok (false, s)
      else
        let '(yielded, s) := f this p preempt s in
        if yielded then
          let s := if preempt && negb (bool_decide (this = p_rq)) then resched_task (curr (rqs s p_rq)) s else s in
          s ← schedule fuel passes s;
          Ok (true, s)
        else Ok (false, s)
  end.

(** The spin lock that the caller holds is given up and taken again. *)
Definition __cond_resched_lock (spin_needbreak : bool) (s : sys) : res (bool * sys) :=
  let resched := should_resched s in
  if spin_needbreak || resched then
    s ← (if resched then __cond_resched fuel passes s else Ok (cpu_relax (current s) s));
    Ok (true, before_spin_lock s)
  else Ok (false, s).

Definition __cond_resched_softirq (s : sys) : res (bool * sys) :=
  if negb in_softirq then Bug
  else if should_resched s then s ← __cond_resched fuel passes s; Ok (true, s)
  else Ok (false, s).

End syscalls.
