(* ===== verification/SchedAffinity.v ===== *)
(** * Tasks run where they may (sched.c, src/indwriterups/project1)

    Changing the affinity of a task moves it off a processor it may not use any more;
    the system calls give back what they take, and read what was written. *)

From S2P Require Import Prelude RtState RtBandwidth RtQueue SchedCore RtPush RtKeeps RtBalance SchedPolicy.
From S2P Require Import RtView RtInv RtEnqueue RtOps RtHandlers RtPreserve RtSteps SchedQuiet SchedWake SchedMm.
From S2P Require Import SchedInv SchedWakeup SchedMachine SchedStill SchedMigrate SchedSyscalls.

Local Open Scope Z_scope.

Section affinity.
Context `{MigrateEnv} `{!KernelLibSpec} `{!MachineReliable} `{!MaskSpec}.
Variable fuel : nat.

(** ** The mask *)

(** Only the affinity of [p] changes, and the counts that depend on it. *)
Record mask_set (p : nat) (m : gset nat) (s s' : sys) : Prop := {
  ms_tasks : tasks s' = <[p := set_affinity (Z.of_nat (size m)) m (tasks s p)]> (tasks s);
  ms_rq c : rqview (rqs s' c) = rqview (rqs s c);
  ms_queued c : queued (rt_of s' c) = queued (rt_of s c);
  ms_cpu : this_cpu s' = this_cpu s;
  ms_inv : rt_inv s → rt_inv s';
}.

(** No other class has a handler for this. *)
Definition default_affinity : Prop := ∀ k, k ≠ rt_sched_class → c_set_cpus_allowed (other_class k) = None.

Lemma set_cpus_allowed_fields p m s s' : set_cpus_allowed_rt p m s = Some s' →
  tasks s' = <[p := set_affinity (Z.of_nat (size m)) m (tasks s p)]> (tasks s) ∧
  (∀ c, rqview (rqs s' c) = rqview (rqs s c)) ∧ this_cpu s' = this_cpu s.
Proof.
  unfold set_cpus_allowed_rt. destruct (rt_task (tasks s p)); [|done]. cbv zeta.
  set (P := λ s1 : sys, tasks s1 = tasks s ∧ (∀ c, rqview (rqs s1 c) = rqview (rqs s c)) ∧ this_cpu s1 = this_cpu s).
  assert (∀ c f s1, P s1 → P (upd_rt c f s1)) as Hrt.
  { intros c f s1 (Ht & Hr & Hc). split_and!; try done. intros d. unfold upd_rt. rewrite rqs_upd_rq. case_decide; subst; [apply Hr|apply Hr]. }
  assert (∀ c s1, P s1 → P (update_rt_migration c s1)) as Hmig.
  { intros c s1 H1'. unfold update_rt_migration, rt_set_overload, rt_clear_overload.
    repeat case_match; try done; by apply Hrt. }
  assert (P s) as Hs by done.
  assert (∀ s1, P s1 → Some (upd_task p (set_affinity (Z.of_nat (size m)) m) s1) = Some s' →
    tasks s' = <[p := set_affinity (Z.of_nat (size m)) m (tasks s p)]> (tasks s) ∧
    (∀ c, rqview (rqs s' c) = rqview (rqs s c)) ∧ this_cpu s' = this_cpu s) as Hend.
  { intros s1 (Ht & Hr & Hc) [= <-]. unfold upd_task; cbn. by rewrite Ht. }
  destruct (on_rq (tasks s p) && _); [|by apply Hend]. set (s1 := if task_current _ _ _ then s else _).
  assert (P s1) as H1' by (unfold s1, enqueue_pushable_task, dequeue_pushable_task; repeat case_match; auto). clearbody s1.
  case_decide; [apply Hend; by apply Hmig, Hrt|]. case_decide; [|apply Hend; by apply Hmig].
  case_decide; [done|]. apply Hend. by apply Hmig, Hrt.
Qed.

Lemma class_ok_affinity p n m s s' :
  tasks s' = <[p := set_affinity n m (tasks s p)]> (tasks s) → class_ok s → class_ok s'.
Proof.
  intros Ht Hc q. rewrite Ht. destruct (decide (q = p)) as [->|Hne]; [rewrite fn_lookup_insert|rewrite fn_lookup_insert_ne by done]; apply Hc.
Qed.

Lemma do_set_cpus_allowed_sets p m s :
  default_affinity → rt_inv s → (sched_class (tasks s p) = rt_sched_class → on_rq_queued s p) →
  ∃ s', do_set_cpus_allowed fuel p m s = Ok s' ∧ mask_set p m s s'.
Proof.
  intros Hdef [Hok Hc] Hq. unfold do_set_cpus_allowed, class_of.
  destruct (decide (sched_class (tasks s p) = rt_sched_class)) as [E|E].
  - rewrite E. cbn [ops_of c_set_cpus_allowed rt_class_ops]. destruct (Hc p E) as [Hpr _].
    assert (rt_task (tasks s p) = true) as Hrt by (unfold rt_task, rt_prio; apply bool_decide_eq_true_2; lia).
    destruct (set_cpus_allowed_keeps p m s Hok (Hq E) Hrt) as (s' & Es & Hok' & Hqs). exists s'. cbn. rewrite Es. split; [done|].
    destruct (set_cpus_allowed_fields _ _ _ _ Es) as (Ht & Hr & Hcpu). split; try done. intros _. split; [done|].
    by eapply class_ok_affinity.
  - assert (ops_of fuel (sched_class (tasks s p)) = other_class (sched_class (tasks s p))) as -> by by destruct (sched_class (tasks s p)).
    rewrite Hdef by done. eexists. split; [reflexivity|]. split; try done. intros _. split.
    + apply sys_ok_upd_task; [|done]. intros c Hp. by apply (queued_index _ _ _ Hok) in Hp as (? & _ & _ & _ & _ & ? & _).
    + by eapply class_ok_affinity.
Qed.

Lemma mask_set_task p m s s' q : mask_set p m s s' →
  on_rq (tasks s' q) = on_rq (tasks s q) ∧ state (tasks s' q) = state (tasks s q) ∧ on_cpu (tasks s' q) = on_cpu (tasks s q) ∧
  task_cpu (tasks s' q) = task_cpu (tasks s q) ∧ sched_class (tasks s' q) = sched_class (tasks s q).
Proof.
  intros Hm. rewrite (ms_tasks _ _ _ _ Hm). destruct (decide (q = p)) as [->|Hne];
    [by rewrite fn_lookup_insert|by rewrite fn_lookup_insert_ne].
Qed.

Lemma mask_set_minv fresh pend busy p m s s' : mask_set p m s s' → minv fresh pend busy s → minv fresh pend busy s'.
Proof.
  intros Hm Hi. pose proof (λ q, mask_set_task p m s s' q Hm) as Ht. pose proof (ms_rq _ _ _ _ Hm) as Hr.
  assert (∀ c, waiting pend s' c = waiting pend s c) as Hw.
  { intros c. unfold waiting. by injection (Hr c) as _ _ -> _ _. }
  assert (∀ q, idle_one s' q ↔ idle_one s q) as Hid.
  { intros q. unfold idle_one. split; intros [c Hc]; exists c; injection (Hr c); congruence. }
  split; [apply (ms_inv _ _ _ _ Hm), Hi|..]; intros.
  - destruct (Ht p0) as (E1 & _ & _ & E4 & E5). pose proof (mi_queued _ _ _ _ Hi p0 ltac:(congruence)) as Hq.
    unfold on_rq_queued in *. rewrite E1, E4. case_match; [by rewrite (ms_queued _ _ _ _ Hm)|].
    intros c. rewrite (ms_queued _ _ _ _ Hm). apply Hq.
  - destruct (Ht p0) as (_ & -> & _). rewrite (mi_waking _ _ _ _ Hi). by setoid_rewrite Hw.
  - destruct (Ht p0) as (-> & _ & _ & -> & _). apply (mi_placed _ _ _ _ Hi). by rewrite <- Hw.
  - rewrite Hw. apply Hi.
  - injection (Hr c) as _ _ E _ ->. apply (mi_ipi _ _ _ _ Hi). by rewrite <- E.
  - destruct (Ht p0) as (E1 & -> & _). apply (mi_asleep _ _ _ _ Hi); [done|by rewrite <- Hid|congruence].
  - destruct (Ht p0) as (-> & -> & _). apply (mi_idle _ _ _ _ Hi). by apply Hid.
  - apply (curr_ok_keep busy s s' (mi_curr _ _ _ _ Hi)).
    + intros c. by injection (Hr c).
    + intros c. apply (Ht (curr (rqs s c))).
    + intros c q _ Hon Hcpu. by destruct (Ht q) as (-> & _ & _ & -> & _).
Qed.

(** ** Moving the task *)

(** What is relied upon of the stopper: until it runs, others keep the invariant and
    leave the task where it is, and when it runs it is what its processor runs. *)
Definition stopper_ok (p : nat) : Prop := ∀ c s, let '(runs, s') := stopper_runs c s in
  env_step s s' ∧
  (on_rq (tasks s' p), task_cpu (tasks s' p), cpus_allowed (tasks s' p), sched_class (tasks s' p)) =
  (on_rq (tasks s p), task_cpu (tasks s p), cpus_allowed (tasks s p), sched_class (tasks s p)) ∧
  (runs = true → sched_class (tasks s' (curr (rqs s' c))) = stop_sched_class).

(** Nobody interferes with the task while its lock is awaited. *)
Definition left_alone (p : nat) : Prop := ∀ s, before_lock p s = s.

Context (cls : classes_still) (fresh : gset nat) (p : nat).
Hypotheses (cpumask_any_none : ∀ m, cpumask_any m = None → m = ∅) (Hdef : default_affinity) (Hstop : stopper_ok p) (Hcalm : left_alone p).

Lemma stop_one_cpu_moves c dest s :
  minv fresh no_one None s → on_rq (tasks s p) = true → task_cpu (tasks s p) = c → dest ≠ c →
  sched_class (tasks s p) ≠ stop_sched_class → cpu_active dest = true → dest ∈ cpus_allowed (tasks s p) →
  let s' := stop_one_cpu fuel c p dest s in
  minv fresh no_one None s' ∧ cpus_allowed (tasks s' p) = cpus_allowed (tasks s p) ∧
  (fst (stopper_runs c s) = true → task_cpu (tasks s' p) = dest).
Proof.
  intros Hi Hon Hcpu Hne Hcl Hact Hin. unfold stop_one_cpu. pose proof (Hstop c s) as Hs.
  destruct (stopper_runs c s) as [runs s1]. destruct Hs as (Henv & [= E1 E2 E3 E4] & Hrun). cbn [fst].
  pose proof (Henv _ _ _ Hi) as Hi1. destruct runs; [|by split_and!]. specialize (Hrun eq_refl).
  unfold migration_cpu_stop, __migrate_task. rewrite Hact. cbn [negb]. rewrite Hcalm, decide_False by (intros Hx; apply Hx; congruence).
  rewrite decide_False by (rewrite E3; tauto). rewrite E1, Hon. cbn [snd].
  fold (move_task c dest p s1). assert (curr (rqs s1 c) ≠ p) as Hcurr by (intros E; congruence).
  assert (rt_class (tasks s1 (curr (rqs s1 c))) = false) as Hrt by (unfold rt_class; by rewrite Hrun).
  destruct (move_frame c dest p s1 (mi_rt _ _ _ _ Hi1)) as (Hinv & _ & _ & Hd & _).
  destruct (move_counted cls c dest p s1 Hne Hrt) as [_ Ha].
  assert (minv fresh no_one None (move_task c dest p s1)) as Hi2 by (apply move_minv; [done|split_and!; congruence]).
  set (s2 := move_task c dest p s1) in *. clearbody s2. pose proof (check_preempt_steady fuel dest p s2) as Hst.
  split; [by eapply steady_minv|]. split.
  - rewrite (sl_task _ _ (still_preempt cls fuel dest p s2)). congruence.
  - intros _. destruct (st_rt _ _ Hst Hinv) as (_ & _ & Hv). injection (Hv p) as _ -> _ _. done.
Qed.

(** C15: a request for an affinity is refused as invalid, with nothing changed, or
    granted: the task has the new mask, the machine keeps its invariant, and a task
    on a run queue is on that of a processor it may use, if the stopper could run. *)
Theorem affinity_enforced m s :
  minv fresh no_one None s → sched_class (tasks s p) ≠ stop_sched_class → cpus_allowed (tasks s p) ≠ m →
  ∃ r s', set_cpus_allowed_ptr fuel p m s = Ok (r, s') ∧ minv fresh no_one None s' ∧
    if decide (filter (λ d, cpu_active d = true) m = ∅ ∨ (thread_bound p = true ∧ p ≠ current s))
    then r = - EINVAL ∧ s' = s
    else r = 0 ∧ cpus_allowed (tasks s' p) = m ∧
      (on_rq (tasks s p) = true → (∀ c s1, fst (stopper_runs c s1) = true) → task_cpu (tasks s' p) ∈ m).
Proof.
  intros Hi Hcl Hm. unfold set_cpus_allowed_ptr. rewrite Hcalm. cbv zeta. rewrite decide_False by done.
  set (active := filter _ m). destruct (decide (active = ∅)) as [Ha|Ha].
  { exists (- EINVAL), s. by rewrite decide_True by by left. }
  destruct (thread_bound p && negb (bool_decide (p = current s))) eqn:Eb.
  { apply andb_true_iff in Eb as [? Hne%negb_true_iff%bool_decide_eq_false_1]. exists (- EINVAL), s.
    by rewrite decide_True by by right. }
  assert (¬ (active = ∅ ∨ (thread_bound p = true ∧ p ≠ current s))) as Hno.
  { intros [?|[Hb Hne]]; [done|]. by rewrite Hb, bool_decide_false in Eb. }
  destruct (do_set_cpus_allowed_sets p m s Hdef (mi_rt _ _ _ _ Hi) (mi_queued _ _ _ _ Hi p)) as (s1 & -> & Hs1). cbn [mbind res_bind].
  pose proof (mask_set_minv _ _ _ _ _ _ _ Hs1 Hi) as Hi1. destruct (mask_set_task _ _ _ _ p Hs1) as (Eon & _ & _ & Ecpu & Ek).
  assert (cpus_allowed (tasks s1 p) = m) as Em by (by rewrite (ms_tasks _ _ _ _ Hs1), fn_lookup_insert).
  destruct (decide (task_cpu (tasks s1 p) ∈ m)) as [Hin|Hnot]; [exists 0, s1; rewrite decide_False by done; split_and!; try done; congruence|].
  destruct (on_rq (tasks s1 p)) eqn:Eon1; [|exists 0, s1; rewrite decide_False by done; split_and!; try done; congruence].
  assert (∃ dest, cpumask_any active = Some dest ∧ dest ∈ active) as (dest & Ed & Hdest).
  { destruct (cpumask_any active) as [d|] eqn:E; [exists d; split; [done|by apply cpumask_any_in]|]. by apply cpumask_any_none in E. }
  rewrite Ed. cbn [default]. apply elem_of_filter in Hdest as [Hact Hdm].
  destruct (stop_one_cpu_moves (task_cpu (tasks s p)) dest s1) as (Hi2 & Em2 & Hd2); try done; try congruence.
  exists 0, (stop_one_cpu fuel (task_cpu (tasks s p)) p dest s1). rewrite decide_False by done. split_and!; try done; try congruence.
  intros _ Hruns. by rewrite (Hd2 (Hruns _ _)).
Qed.

End affinity.
