(* ===== verification/SchedAsk.v ===== *)
(** * What the system calls promise (sched.c, src/indwriterups/project1)

    The calls on affinity give back every reference they take, what was set is what
    is read, and a request that only asks to reset the policy on fork is forgotten. *)

From S2P Require Import Prelude RtState RtBandwidth RtQueue SchedCore RtPush RtKeeps RtBalance SchedPolicy.
From S2P Require Import RtView RtInv RtSteps SchedQuiet SchedWake SchedMm SchedInv SchedStill SchedMigrate SchedAffinity SchedSyscalls.

Local Open Scope Z_scope.

Section references.
Context `{SyscallEnv} (fuel : nat).

(** ** What is held *)

(** The same locks, references and masks. *)
Record same_held (h h' : held) : Prop := {
  sh_online : online_cpus h' = online_cpus h;
  sh_refs p : task_refs h' p = task_refs h p;
  sh_masks : masks h' = masks h;
}.

Lemma same_held_refl h : same_held h h.
Proof. by split. Qed.

Lemma refs_back p h q : task_refs (put_task_struct p (get_task_struct p h)) q = task_refs h q.
Proof.
  cbn. destruct (decide (q = p)) as [->|]; [rewrite !fn_lookup_insert; lia|by rewrite !fn_lookup_insert_ne].
Qed.

(** [h'] is [h] with the lock, a reference to [p] and [n] masks. *)
Record taken (p : nat) (n : Z) (h h' : held) : Prop := {
  tk_online : online_cpus h' = online_cpus h + 1;
  tk_refs q : task_refs h' q = task_refs h q + (if decide (q = p) then 1 else 0);
  tk_masks : masks h' = masks h + n;
}.

Lemma taken_start p h : taken p 0 h (get_task_struct p (get_online_cpus h)).
Proof.
  split; cbn; [done| |lia]. intros q. case_decide; subst; [by rewrite fn_lookup_insert|rewrite fn_lookup_insert_ne by done; lia].
Qed.

Lemma taken_alloc p n k h h1 h2 : taken p n h h1 → alloc_cpumask_var k h1 = Some h2 → taken p (n + 1) h h2.
Proof. intros [E1 E2 E3]. unfold alloc_cpumask_var. case_match; [|done]. intros [= <-]. split; cbn; [done|done|lia]. Qed.

Lemma taken_free p n h h1 : taken p n h h1 → taken p (n - 1) h (free_cpumask_var h1).
Proof. intros [E1 E2 E3]. split; cbn; [done|done|lia]. Qed.

Lemma taken_put p h h1 : taken p 0 h h1 → same_held h (out_put_task p h1).
Proof.
  intros [E1 E2 E3]. split; cbn; [lia| |lia]. intros q. pose proof (E2 q).
  destruct (decide (q = p)) as [->|]; [rewrite fn_lookup_insert; lia|rewrite fn_lookup_insert_ne by done; lia].
Qed.

Lemma taken_free_put p h h1 : taken p 1 h h1 → same_held h (out_free_cpus_allowed p h1).
Proof. intros Ht. by apply taken_put, (taken_free p 1). Qed.

Lemma taken_unlock p h h1 : taken p 2 h h1 → same_held h (out_unlock p h1).
Proof. intros Ht. by apply taken_free_put, (taken_free p 2). Qed.

Lemma sched_setaffinity_held tries pid m h s r h' s' :
  sched_setaffinity fuel tries pid m h s = Ok (r, (h', s')) → same_held h h'.
Proof.
  unfold sched_setaffinity. destruct (find_process_by_pid pid s) as [p|].
  2: { intros [= <- <- <-]. split; cbn; try done; lia. }
  pose proof (taken_start p h) as H0'. set (h0 := get_task_struct p (get_online_cpus h)) in *.
  destruct (alloc_cpumask_var 0 h0) as [h1|] eqn:E1; [|intros [= <- <- <-]; by apply taken_put].
  pose proof (taken_alloc _ _ _ _ _ _ H0' E1) as H1'.
  destruct (alloc_cpumask_var 1 h1) as [h2|] eqn:E2; [|intros [= <- <- <-]; by apply taken_free_put].
  pose proof (taken_alloc _ _ _ _ _ _ H1' E2) as H2'.
  case_match; [intros [= <- <- <-]; by apply taken_unlock|]. case_decide; [intros [= <- <- <-]; by apply taken_unlock|].
  intros ([r1 s1] & _ & [= <- <- <-])%bind_ok. by apply taken_unlock.
Qed.

Lemma same_held_trans h1 h2 h3 : same_held h1 h2 → same_held h2 h3 → same_held h1 h3.
Proof. intros [E1 E2 E3] [F1 F2 F3]. split; [congruence|intros p; by rewrite F2|congruence]. Qed.

Lemma mask_freed k h h1 h2 : alloc_cpumask_var k h = Some h1 → same_held h1 h2 → same_held h (free_cpumask_var h2).
Proof.
  unfold alloc_cpumask_var. case_match; [|done]. intros [= <-] [E1 E2 E3]. cbn in *. split; cbn; [done|done|lia].
Qed.

(** Whatever way the calls on affinity end, they hold afterwards what they held
    before: no reference, mask or lock is kept or given back twice. *)
Theorem affinity_calls_give_back tries pid len user_mask junk writable h s :
  (∀ r h' s', sys_sched_setaffinity fuel tries pid len user_mask junk h s = Ok (r, (h', s')) → same_held h h') ∧
  same_held h (fst (snd (sys_sched_getaffinity pid len writable h s))).
Proof.
  split.
  - intros r h' s'. unfold sys_sched_setaffinity. destruct (alloc_cpumask_var 2 h) as [h1|] eqn:E1.
    2: { intros [= <- <- <-]. apply same_held_refl. }
    destruct (get_user_cpu_mask user_mask len junk) as [r1 m]. case_decide.
    + intros ([r2 [h2 s2]] & E & [= <- <- <-])%bind_ok. eapply mask_freed; [exact E1|]. by eapply sched_setaffinity_held.
    + intros [= <- <- <-]. eapply mask_freed; [exact E1|apply same_held_refl].
  - unfold sys_sched_getaffinity. case_decide; [apply same_held_refl|]. case_decide; [apply same_held_refl|].
    destruct (alloc_cpumask_var 0 h) as [h1|] eqn:E1; [|apply same_held_refl].
    assert (same_held h1 (fst (snd (sched_getaffinity pid h1 s)))) as Hs.
    { unfold sched_getaffinity. destruct (find_process_by_pid pid s) as [p|]; [case_decide|]; split; cbn; try done; lia. }
    destruct (sched_getaffinity pid h1 s) as [[ret mask] [h2 s2]]. cbn [fst snd] in Hs.
    pose proof (mask_freed _ _ _ _ E1 Hs). case_decide; [case_match|]; done.
Qed.

(** ** Large buffers *)

(** The product wraps: a buffer of 2^29 bytes is refused as too small. *)
Theorem large_buffer_refused pid writable h s :
  (0 < nr_cpu_ids)%nat → sys_sched_getaffinity pid (2 ^ 29) writable h s = (- EINVAL, None, (h, s)).
Proof. intros Hn. unfold sys_sched_getaffinity. rewrite decide_True; [done|]. change (u32 (2 ^ 29 * BITS_PER_BYTE)) with 0. lia. Qed.

(** ** A request that is forgotten *)

(** A task that keeps its policy and asks that its children do not inherit it is told
    that this was done, and nothing was. *)
Theorem reset_request_forgotten tries pid p s :
  find_process_by_pid pid s = Some p → 0 <= pid → left_alone p → security_task_setscheduler p = 0 →
  security_task_getscheduler p = 0 → capable_sys_nice = true → stop (rqs s (task_cpu (tasks s p))) ≠ Some p →
  policy (tasks s p) ∈ [SCHED_NORMAL; SCHED_BATCH; SCHED_IDLE] → sched_reset_on_fork (tasks s p) = false →
  __sched_setscheduler fuel (S tries) p (Z.lor (policy (tasks s p)) SCHED_RESET_ON_FORK) 0 true s = Ok (0, s) ∧
  sys_sched_getscheduler pid s = policy (tasks s p).
Proof.
  intros Hfind Hpid Hcalm Hsec Hget Hcap Hstop Hpol Hreset. split.
  2: { unfold sys_sched_getscheduler. rewrite decide_False, Hfind by lia. rewrite Hget, Hreset. cbn. by rewrite Z.lor_0_r. }
  cbn [__sched_setscheduler]. set (pol := policy (tasks s p)) in *.
  assert (Z.land (Z.lor pol SCHED_RESET_ON_FORK) (Z.lnot SCHED_RESET_ON_FORK) = pol ∧ 0 <= Z.lor pol SCHED_RESET_ON_FORK ∧
    valid_policy pol = true) as (E1 & E2 & E3).
  { clearbody pol. repeat (apply elem_of_cons in Hpol as [->|Hpol]; [split_and!; done|]). set_solver. }
  rewrite (bool_decide_false (Z.lor pol _ < 0)) by lia. rewrite E1, E3. cbn [negb andb].
  assert (valid_priority (tasks s p) 0 = true) as -> by (unfold valid_priority; by destruct (mm (tasks s p))).
  cbn [negb]. rewrite (bool_decide_true (0 = 0)) by done. cbn [negb b2z]. rewrite decide_False by (unfold rt_policy; tauto).
  rewrite Hcap, Hsec. cbn [negb andb]. rewrite (bool_decide_true (0 = 0)) by done. cbn [negb]. rewrite Hcalm, decide_False by done.
  fold pol. rewrite decide_True by (split; [done|by left]). done.
Qed.

End references.

(** ** Reading what was written *)

Section round_trip.
Context `{SyscallEnv} `{!KernelLibSpec} `{!MachineReliable} `{!MaskSpec}.
Context (fuel : nat) (cls : classes_still) (fresh : gset nat) (p : nat).
Hypotheses (any : ∀ m, cpumask_any m = None → m = ∅) (Hdef : default_affinity) (Hstop : stopper_ok p) (Hcalm : left_alone p).

(** The bits of a mask in user space that a call reads or writes. *)
Definition in_mask (len : Z) (m : gset nat) : gset nat := filter (λ d, Z.of_nat d < BITS_PER_BYTE * Z.min len cpumask_size) m.

Lemma get_user_bits m len junk :
  (∀ d, d ∈ junk → Z.of_nat d < BITS_PER_BYTE * cpumask_size) →
  get_user_cpu_mask (Some m) len junk = (0, in_mask len m).
Proof.
  intros Hj. unfold get_user_cpu_mask, in_mask. f_equal. apply set_eq. intros d.
  rewrite elem_of_union, !elem_of_filter, bool_decide_eq_true, bool_decide_eq_false.
  unfold BITS_PER_BYTE in *. destruct (decide (len < cpumask_size)).
  - rewrite Z.min_l, decide_False by lia. set_solver.
  - rewrite Z.min_r by lia. assert ((if decide (cpumask_size < len) then cpumask_size else len) = cpumask_size) as -> by (case_decide; lia).
    split; [|by left]. intros [?|[Hd Hin]]; [done|]. destruct Hd. by apply Hj.
Qed.

Lemma set_mask_result m s s' :
  minv fresh no_one None s → sched_class (tasks s p) ≠ stop_sched_class →
  set_cpus_allowed_ptr fuel p m s = Ok (0, s') → cpus_allowed (tasks s' p) = m.
Proof.
  intros Hi Hcl E. destruct (decide (cpus_allowed (tasks s p) = m)) as [Em|Em].
  { unfold set_cpus_allowed_ptr in E. rewrite Hcalm, decide_True in E by done. by injection E as <-. }
  destruct (affinity_enforced fuel cls fresh p any Hdef Hstop Hcalm m s Hi Hcl Em) as (r & s1 & E1 & _ & Hr).
  rewrite E in E1. injection E1 as <- <-. case_decide; [by destruct Hr|]. by destruct Hr as (_ & ? & _).
Qed.

(** C39: what was asked for with success is what is read afterwards, within the cpuset of
    the task and the processors online, as long as nobody else changes it. *)
Theorem affinity_round_trip tries pid len len' m junk cpuset h s h1 s1 :
  pid ≠ 0 → find_task_by_vpid pid = Some p → (∀ k, cpuset_cpus_allowed k p = cpuset) → (∀ s, before_pi_lock p s = s) →
  (∀ d, d ∈ junk → Z.of_nat d < BITS_PER_BYTE * cpumask_size) → security_task_getscheduler p = 0 → alloc_ok 0 = true →
  Z.of_nat nr_cpu_ids <= len' * BITS_PER_BYTE < 2 ^ 32 → Z.land len' (sizeof_long - 1) = 0 →
  minv fresh no_one None s → sched_class (tasks s p) ≠ stop_sched_class →
  sys_sched_setaffinity fuel tries pid len (Some m) junk h s = Ok (0, (h1, s1)) →
  ∃ h2, sys_sched_getaffinity pid len' true h1 s1 =
    (Z.min len' cpumask_size, Some (in_mask len' (in_mask len m ∩ cpuset ∩ list_to_set cpu_online_mask)), (h2, s1)).
Proof.
  intros Hpid Hfind Hcs Hpi Hj Hsec Halloc Hlen Hal Hi Hcl Hset.
  assert (∀ s, find_process_by_pid pid s = Some p) as Hf by (intros; unfold find_process_by_pid; by rewrite decide_False).
  assert (cpus_allowed (tasks s1 p) = in_mask len m ∩ cpuset) as Hm.
  { unfold sys_sched_setaffinity in Hset. destruct (alloc_cpumask_var 2 h) as [h0|]; [|done].
    rewrite get_user_bits, decide_True in Hset by done. apply bind_ok in Hset as ([r [h3 s3]] & E & [= -> <- <-]).
    unfold sched_setaffinity in E. rewrite Hf in E. destruct (alloc_cpumask_var 0 _) as [h4|]; [|done].
    destruct (alloc_cpumask_var 1 _) as [h5|]; [|done]. case_match; [done|]. case_decide as Hsp; [injection E as E; congruence|].
    apply bind_ok in E as ([r2 s4] & E & [= -> _ <-]). rewrite Hcs in E. destruct tries as [|tries]; [done|].
    cbn [affinity_again] in E. apply bind_ok in E as ([r3 s5] & E & E'). case_decide as Hr; [subst|injection E' as -> _; done].
    rewrite Hcs, decide_True in E' by set_solver. injection E' as <-. by apply (set_mask_result _ s). }
  unfold sys_sched_getaffinity. rewrite decide_False by (rewrite wrap_u_small; unfold BITS_PER_BYTE in *; lia).
  rewrite decide_False by tauto. unfold alloc_cpumask_var. rewrite Halloc. unfold sched_getaffinity. rewrite Hf, decide_False by tauto.
  rewrite Hpi, Hm. eexists. rewrite decide_True by done. reflexivity.
Qed.

End round_trip.
