(* ===== verification/SchedDemo.v ===== *)
(** * A machine to try the scheduler core on (sched.c, src/indwriterups/project1)

    Two processors start with their idle tasks; tasks are woken up, run and sleep.
    The theorems about wake-ups and switches applied to it. *)

From S2P Require Import Prelude RtState RtBandwidth RtQueue SchedCore RtPush RtKeeps RtBalance SchedPolicy.
From S2P Require Import RtView RtInv RtEnqueue RtOps RtHandlers RtSpec RtPreserve RtSteps RtDemo.
From S2P Require Import SchedQuiet SchedWake SchedMm SchedInv SchedWakeup SchedMachine SchedUrgent.

Local Open Scope Z_scope.

(** ** The environment *)

#[export] Instance demo_wake : WakeEnv := {|
  ttwu_queue_feature := true;
  other_task_waking _ := None;
  before_pi_lock _ s := s;
  before_rq_lock _ s := s;
  before_cmpxchg _ s := s;
  cpu_relax _ s := s;
  pi_trylock _ _ := true;
  signal_pending_state _ _ _ := false;
  wq_worker _ := false;
  wq_worker_sleeping _ _ _ := None;
  blk_needs_flush_plug _ _ := false;
  blk_schedule_flush_plug _ s := s;
  idle_balance _ s := s;
  cfs_nr_running s c := nr_running (rqs s c) - rt_nr_running (rt_of s c);
  mmdrop m s := upd_mm_count m (λ n, s32 (n - 1)) s;
|}.

Lemma same_env_pi p s : env_pi p s s.
Proof. by split; [intros ???|..]. Qed.

Lemma demo_class_steady k : class_steady (other_class k).
Proof.
  destruct k; split; intros; cbn in *; simplify_eq; try apply steady_refl; try reflexivity.
  all: split; [apply steady_refl|]. all: intros ? [= <-]. by left.
Qed.

#[export] Instance demo_machine_reliable : MachineReliable.
Proof.
  split; try done; try (intros; by apply same_env_pi).
  - apply demo_reliable.
  - intros k _. apply demo_class_steady.
  - intros p s. split; [intros ??? Hi; exact Hi|reflexivity].
Qed.

Lemma demo_rt_first c : rt_first c.
Proof.
  split.
  - done.
  - intros k s q s' Hk. destruct k; cbn; try done; by intros [= _ <-].
  - intros s [[Hok _] _] Hq. cbn. rewrite (ok_running _ _ _ (Hok c)). destruct (queued (rt_of s c)); [done|]. cbn. lia.
Qed.

(** ** From boot to sleep *)

(** Task [100 + c] is the idle task of processor [c], in the kernel's address space
    0; 1, 2 and 3 are real-time tasks that sleep, the second last ran on processor 1. *)
Definition boot_tasks (p : nat) : task :=
  if decide (100 <= p)%nat then set_active_mm (Some 0%nat) (set_on_cpu true (set_class idle_sched_class fair_demo_task))
  else set_state TASK_INTERRUPTIBLE (set_on_rq false (set_cpu (if decide (p = 2%nat) then 1%nat else 0%nat) (demo_tasks p))).

Definition boot_rq (c : nat) : rq := mk_rq init_rt_rq 0 (100 + c) (100 + c) 0 0 true false 0 None [] None false.

Definition boot_state : sys := mk_sys boot_tasks boot_rq (mk_rd [0; 1]%nat ∅ 0 (λ _, 100)) demo_bw (λ m, if decide (m = 0%nat) then 3 else 0) 0.

Lemma boot_booted : booted ∅ boot_state.
Proof.
  assert (∀ p, (p < 100)%nat → sched_class (boot_tasks p) = rt_sched_class → (p < 6)%nat) as Hsmall.
  { intros p Hp. unfold boot_tasks. rewrite decide_False by lia. do 6 (destruct p as [|p]; [lia|]). by cbn. }
  split.
  - split_and!; [done|done|]. intros p Hp. cbn [tasks boot_state] in *.
    assert (p < 100)%nat as Hlt. { apply Nat.nle_gt. intros Hle. unfold boot_tasks in Hp. by rewrite decide_True in Hp. }
    specialize (Hsmall p Hlt Hp). do 6 (destruct p as [|p]; [by vm_compute|]). lia.
  - intros p. cbn [tasks boot_state]. unfold boot_tasks. by case_decide.
  - intros c. cbn. unfold boot_tasks. by rewrite decide_True by lia.
  - cbn. lia.
  - done.
  - intros p. cbn [tasks boot_state]. unfold boot_tasks. by case_decide.
  - intros p _ Hidle. cbn [tasks boot_state]. unfold boot_tasks. case_decide; [|done].
    destruct Hidle. exists (p - 100)%nat. cbn. lia.
Qed.

Definition wake (p : nat) (s : sys) : res sys := '(_, s) ← wake_up_process 4 4 4 p s; Ok s.

Lemma wake_step p fr s s' : wake p s = Ok s' → mstep (fr, s) (fr, s').
Proof. unfold wake. intros ([b s1] & E & [= <-])%bind_ok. by eapply m_wake, E. Qed.

(** The running task goes to sleep. *)
Definition sleep_now (s : sys) : sys := upd_task (current s) (set_state TASK_INTERRUPTIBLE) s.

Definition idles (s : sys) : bool := bool_decide (current s = idle (rqs s (this_cpu s))).

(** Processor 0 wakes 1 and 2, the second on processor 1, and runs the first, which
    goes to sleep; processor 1 gets the interrupt and runs the second. *)
Definition boot_run : res sys :=
  s ← wake 1 boot_state; s ← wake 2 s; s ← schedule 4 4 s;
  s ← (if idles s then Bug else Ok (sleep_now s));
  s ← schedule 4 4 s; s ← scheduler_ipi 4 (set_this_cpu 1 s); schedule 4 4 s.

Lemma sleep_step fr s s' : (if idles s then Bug else Ok (sleep_now s)) = Ok s' → mstep (fr, s) (fr, s').
Proof.
  unfold idles. case_bool_decide; [done|]. intros [= <-]. by apply m_set_state.
Qed.

Lemma boot_steps s : boot_run = Ok s → rtc mstep (∅, boot_state) (∅, s).
Proof.
  unfold boot_run.
  intros (s1 & E1 & (s2 & E2 & (s3 & E3 & (s4 & E4 & (s5 & E5 & (s6 & E6 & E7)%bind_ok)%bind_ok)%bind_ok)%bind_ok)%bind_ok)%bind_ok.
  eapply rtc_l; [exact (wake_step _ _ _ _ E1)|]. eapply rtc_l; [exact (wake_step _ _ _ _ E2)|].
  eapply rtc_l; [exact (m_schedule _ _ _ _ _ E3)|]. eapply rtc_l; [exact (sleep_step _ _ _ E4)|].
  eapply rtc_l; [exact (m_schedule _ _ _ _ _ E5)|]. eapply rtc_l; [apply (m_go 1)|].
  eapply rtc_l; [exact (m_ipi _ _ _ _ E6)|]. apply rtc_once. exact (m_schedule _ _ _ _ _ E7).
Qed.

Lemma no_wakeup_lost_witness : ∃ s, boot_run = Ok s ∧ minv ∅ no_one None s ∧
  curr (rqs s 0) = 100%nat ∧ curr (rqs s 1) = 2%nat ∧ abs s 1 = [(2%nat, 40)] ∧ state (tasks s 1) = TASK_INTERRUPTIBLE.
Proof.
  assert ((s ← boot_run; Ok (curr (rqs s 0), curr (rqs s 1), abs s 1, state (tasks s 1))) =
    Ok (100%nat, 2%nat, [(2%nat, 40)], TASK_INTERRUPTIBLE)) as Hr by (vm_compute; reflexivity).
  pose proof boot_steps as Hb. destruct boot_run as [s| |]; cbn [mbind res_bind] in Hr; try discriminate.
  injection Hr as Hc0 Hc1 Ha Hst. exists s. split; [reflexivity|]. split; [|auto].
  exact (no_wakeup_lost ∅ boot_state ∅ s boot_booted (Hb s eq_refl)).
Defined.

(** ** The most urgent task runs *)

(** The idle task of processor 0 gives way to the tasks 3 and 1 that were woken up. *)
Definition two_woken : res sys := s ← wake 3 boot_state; s ← wake 1 s; Ok s.

Lemma two_woken_minv s : two_woken = Ok s → minv ∅ no_one None s.
Proof.
  unfold two_woken. intros (s1 & E1 & (s2 & E2 & [= <-])%bind_ok)%bind_ok.
  eapply mstep_minv; [exact (wake_step _ ∅ _ _ E2)|]. eapply mstep_minv; [exact (wake_step _ ∅ _ _ E1)|].
  apply booted_minv, boot_booted.
Qed.


(** ** A borrowed address space *)

(** Processor 0 runs a task with the address space 1, processor 1 a kernel thread
    that borrows 2; the kernel thread 7 will run on processor 0. *)
Definition mm_tasks (p : nat) : task :=
  let t := mk_task 120 SCHED_NORMAL fair_sched_class 2 {[0%nat; 1%nat]} 0 0 0 0 0 true true 0 false RLIM_INFINITY RLIM_INFINITY 120 120 0 false in
  match p with
  | 5%nat => t (Some 1%nat) (Some 1%nat) 0 false
  | 6%nat => t None (Some 2%nat) 0 false
  | _ => t None None 0 false
  end.

Definition mm_state : sys :=
  mk_sys mm_tasks (λ c, set_curr (if decide (c = 0%nat) then 5%nat else 6%nat) demo_rq)
    (mk_rd [0; 1]%nat ∅ 0 (λ _, 100)) demo_bw (λ m, if decide (m = 1%nat) then 1 else if decide (m = 2%nat) then 2 else 0) 0.

Definition mm_users (m : nat) : Z := if decide (m = 1%nat ∨ m = 2%nat) then 1 else 0.

Lemma cpus_two c : c ∈ cpus → c = 0%nat ∨ c = 1%nat.
Proof. unfold cpus. cbn. set_solver. Qed.

Lemma mm_state_ok : mm_ok mm_users mm_state.
Proof.
  assert (∀ p, p ≠ 5%nat → p ≠ 6%nat → active_mm (mm_tasks p) = None ∧ mm (mm_tasks p) = None) as Hno.
  { intros p ??. do 7 (destruct p as [|p]; [done|]). done. }
  split.
  - intros c d [-> | ->]%cpus_two [-> | ->]%cpus_two; done.
  - intros p m. cbn [tasks mm_state]. destruct (decide (p = 5%nat)) as [->|]; [done|].
    destruct (decide (p = 6%nat)) as [->|]; [done|]. by destruct (Hno p) as [_ ->].
  - intros c [-> | ->]%cpus_two; done.
  - intros p _ Hp. apply Hno; intros ->; [by apply (Hp 0%nat); [vm_compute; set_solver|]|].
    by apply (Hp 1%nat); [vm_compute; set_solver|].
  - done.
  - intros m. unfold mm_users. case_decide; cbn; lia.
  - intros m. cbn [mm_count mm_state]. unfold mm_users, borrowed_mm, cpus, borrows. cbn.
    repeat case_decide; subst; try lia; try naive_solver; try (rewrite ?bool_decide_false by congruence; cbn; lia).
    all: try (rewrite bool_decide_true by congruence; cbn; lia).
Qed.

Lemma demo_mmdrop : mmdrop_gives_back.
Proof. done. Qed.

Lemma lazy_mm_counted_witness :
  ∃ s', context_switch 0 5 7 (upd_rq 0 (set_curr 7) mm_state) = Ok s' ∧ mm_ok mm_users s' ∧ mm_count s' 1 = 2.
Proof.
  destruct (lazy_mm_counted mm_users 0 7 mm_state demo_mmdrop mm_state_ok ltac:(vm_compute; set_solver)
    (λ d Hd, ltac:(destruct (cpus_two d Hd) as [-> | ->]; vm_compute; discriminate))) as (s' & E & Hok & Hc & _).
  exists s'. split; [exact E|]. split; [exact Hok|].
  assert ((s ← context_switch 0 5 7 (upd_rq 0 (set_curr 7) mm_state); Ok (mm_count s 1)) = Ok 2) as Hr by (vm_compute; reflexivity).
  change (curr (rqs mm_state 0)) with 5%nat in E. rewrite E in Hr. cbn [mbind res_bind] in Hr. by injection Hr.
Defined.
