(* ===== verification/SchedPlace.v ===== *)
(** * A processor that goes down: concrete runs, and a defect (sched.c,
      src/indwriterups/project1)

    The theorems on affinity and hotplug applied to two processors.  The second goes
    down with a real-time task and one of the fair class on its queue; when the queue is
    throttled the loop that empties it does not end. *)

From S2P Require Import Prelude RtState RtBandwidth RtQueue SchedCore RtPush RtKeeps RtBalance SchedPolicy.
From S2P Require Import RtView RtInv RtEnqueue RtOps RtHandlers RtPreserve RtSteps RtDemo SchedQuiet SchedWake SchedMm.
From S2P Require Import SchedInv SchedWakeup SchedMachine SchedDemo SchedStill SchedMigrate SchedDying SchedSyscalls SchedAffinity SchedAsk.

Local Open Scope Z_scope.

(** ** Classes that know their tasks *)

(** Task 2 is a real-time task, 4 of the fair class, 50 the stopper of processor 1. *)
Definition hot_list : list nat := [2; 4; 50]%nat.

Definition fair_pick (c : nat) (s : sys) : option nat :=
  find (λ p, on_rq (tasks s p) && bool_decide (task_cpu (tasks s p) = c) && bool_decide (sched_class (tasks s p) = fair_sched_class)) hot_list.

Definition stop_pick (c : nat) (s : sys) : option nat :=
  match stop (rqs s c) with
  | Some p => if on_rq (tasks s p) && bool_decide (task_cpu (tasks s p) = c) then Some p else None
  | None => None
  end.

Definition picking (pick : nat → sys → option nat) : class_ops :=
  mk_class_ops (λ _ _ _ _ s, s) (λ _ _ s, s) (λ _ s, s) (λ _ _ s, s) (λ c s, Ok (pick c s, s)) (λ _ _ s, s)
    (λ _ _ _, 0%nat) None None None None None None None (λ _ s, s) (λ _ _ s, s) (λ _ _, 0)
    (λ _ _ _ s, Ok s) (λ _ _ s, Ok s) None.

#[local] Instance hot_classes : OtherClasses := {|
  other_class k := match k with
    | stop_sched_class => picking stop_pick
    | idle_sched_class => idle_ops
    | _ => picking fair_pick
    end;
|}.

(** The cpuset gives a task processor 0, the only one that is active. *)
Definition to_first (p : nat) (s : sys) : nat * sys :=
  (0%nat, match sched_class (tasks s p) with
          | rt_sched_class => default (upd_task p (set_affinity 1 {[0%nat]}) s) (set_cpus_allowed_rt p {[0%nat]} s)
          | _ => upd_task p (set_affinity 1 {[0%nat]}) s
          end).

#[local] Instance hot_policy : PolicyEnv := {|
  policy_name := 0;
  capable_sys_nice := true;
  rlimit_nice _ := 0;
  rlimit_rtprio _ := 0;
  same_user_ns _ := true;
  current_euid := 0;
  task_euid _ := 0;
  task_uid _ := 0;
  security_task_setscheduler _ := 0;
  security_task_setnice _ _ := 0;
  rt_mutex_getprio s p := normal_prio (tasks s p);
  rt_mutex_adjust_pi _ s := s;
  before_lock _ s := s;
  cpu_active c := bool_decide (c = 0%nat);
  node_mask _ := [0; 1]%nat;
  cpuset_cpus_allowed_fallback := to_first;
|}.

#[local] Instance hot_wake : WakeEnv := {|
  ttwu_queue_feature := true;
  other_task_waking _ := None;
  before_pi_lock _ s := s;
  before_rq_lock _ s := s;
  before_cmpxchg _ s := s;
  cpu_relax _ s := s;
  pi_trylock _ _ := true;
  signal_pending_state _ _ _ := false;
  wq_worker _ := false;
  wq_worker_sleeping _ _ _ := None;
  blk_needs_flush_plug _ _ := false;
  blk_schedule_flush_plug _ s := s;
  idle_balance _ s := s;
  cfs_nr_running s c := nr_running (rqs s c) - rt_nr_running (rt_of s c);
  mmdrop m s := upd_mm_count m (λ n, s32 (n - 1)) s;
|}.

(** The stopper runs where it is running already. *)
#[local] Instance hot_migrate : MigrateEnv := {|
  thread_bound _ := false;
  stopper_runs c s := (bool_decide (sched_class (tasks s (curr (rqs s c))) = stop_sched_class), s);
  init_mm := 0%nat;
|}.

#[local] Instance hot_syscalls : SyscallEnv := {|
  find_task_by_vpid pid := if decide (0 < pid) then Some (Z.to_nat pid) else None;
  task_ns_capable_sys_nice _ := true;
  security_task_getscheduler _ := 0;
  cpuset_cpus_allowed _ _ := {[0; 1]}%nat;
  alloc_ok _ := true;
  cpumask_size := 8;
  jiffies_to_timespec j := (j / HZ, j mod HZ * (1000000000 / HZ));
  c_yield_to_task _ := None;
  before_spin_lock s := s;
  in_softirq := false;
|}.

(** ** They do what is relied upon *)

Lemma hot_class_steady k : class_steady (other_class k).
Proof.
  destruct k; split; intros; cbn -[fair_pick] in *; simplify_eq; try apply steady_refl; try reflexivity; (split; [apply steady_refl|]).
  - intros p. unfold stop_pick. case_match; [|done]. case_match eqn:E; [|done]. intros [= <-]. apply andb_true_iff in E as [? ?%bool_decide_eq_true_1]. by right.
  - intros p Hp. apply find_some in Hp as [_ Hp]. rewrite !andb_true_iff, !bool_decide_eq_true in Hp. right. tauto.
  - intros p Hp. apply find_some in Hp as [_ Hp]. rewrite !andb_true_iff, !bool_decide_eq_true in Hp. right. tauto.
  - intros p [= <-]. by left.
Qed.

Lemma to_first_set fresh pend busy p s :
  minv fresh pend busy s → mask_set p {[0%nat]} s (snd (to_first p s)).
Proof.
  intros Hi. destruct (do_set_cpus_allowed_sets 0 p {[0%nat]} s) as (s' & E & Hs).
  - intros k. by destruct k.
  - apply Hi.
  - apply Hi.
  - unfold do_set_cpus_allowed, class_of in E. unfold to_first. cbn [snd]. destruct (sched_class (tasks s p)) eqn:Ek; cbn in E.
    2: { destruct (set_cpus_allowed_rt p {[0%nat]} s); [|done]. cbn in *. by injection E as ->. }
    all: injection E as <-; exact Hs.
Qed.

Lemma to_first_env p s : env_step s (snd (to_first p s)).
Proof. intros fresh pend busy Hi. eapply mask_set_minv; [by eapply to_first_set|done]. Qed.


(** Setting the mask changes what is read of the queues' pushable tasks only. *)
Lemma set_cpus_allowed_rq p m s s' : set_cpus_allowed_rt p m s = Some s' →
  mm_count s' = mm_count s ∧
  ∀ c, (rt_throttled (rt_of s' c), nr_running (rqs s' c), stop (rqs s' c)) = (rt_throttled (rt_of s c), nr_running (rqs s c), stop (rqs s c)).
Proof.
  unfold set_cpus_allowed_rt. destruct (rt_task (tasks s p)); [|done]. cbv zeta.
  set (P := λ s1 : sys, mm_count s1 = mm_count s ∧ still s1 s).
  assert (∀ s1 s2, mm_count s1 = mm_count s2 → still s1 s2 → P s2 → P s1) as Htr by (intros ???? []; split; [congruence|by etransitivity]).
  assert (P s) as Hs by done.
  assert (∀ s1, P s1 → Some (upd_task p (set_affinity (Z.of_nat (size m)) m) s1) = Some s' → mm_count s' = mm_count s ∧
    ∀ c, (rt_throttled (rt_of s' c), nr_running (rqs s' c), stop (rqs s' c)) = (rt_throttled (rt_of s c), nr_running (rqs s c), stop (rqs s c))) as Hend.
  { intros s1 [? Hl] [= <-]. split; [done|]. intros c. apply (sl_rq _ _ Hl c). }
  assert (∀ c f s1, (∀ r, rt_throttled (f r) = rt_throttled r) → P s1 → P (upd_rt c f s1)) as Hrt by
    (intros; eapply Htr; [| |done]; [done|by apply still_upd_rt]).
  assert (∀ c s1, P s1 → P (update_rt_migration c s1)) as Hmig.
  { intros c s1 H1'. eapply Htr; [|apply still_migration|done].
    unfold update_rt_migration, rt_set_overload, rt_clear_overload. by repeat case_match. }
  destruct (on_rq (tasks s p) && _); [|by apply Hend]. set (s1 := if task_current _ _ _ then s else _).
  assert (P s1) as H1' by (unfold s1, enqueue_pushable_task, dequeue_pushable_task; repeat case_match; auto). clearbody s1.
  case_decide; [apply Hend; by apply Hmig, Hrt|]. case_decide; [|apply Hend; by apply Hmig].
  case_decide; [done|]. apply Hend. by apply Hmig, Hrt.
Qed.

(** Whether or not the handler of the class succeeds. *)
Lemma to_first_fields p s : let s' := snd (to_first p s) in
  tasks s' = <[p := set_affinity 1 {[0%nat]} (tasks s p)]> (tasks s) ∧
  (∀ c, rqview (rqs s' c) = rqview (rqs s c)) ∧ this_cpu s' = this_cpu s ∧ mm_count s' = mm_count s ∧
  (∀ c, (rt_throttled (rt_of s' c), nr_running (rqs s' c), stop (rqs s' c)) = (rt_throttled (rt_of s c), nr_running (rqs s c), stop (rqs s c))).
Proof.
  unfold to_first. cbn [snd]. destruct (sched_class (tasks s p)); try (by split_and!).
  destruct (set_cpus_allowed_rt p {[0%nat]} s) as [s'|] eqn:E; [|by split_and!].
  destruct (set_cpus_allowed_fields _ _ _ _ E) as (Ht & Hr & Hc). destruct (set_cpus_allowed_rq _ _ _ _ E) as (Hm & Hq). by split_and!.
Qed.

#[local] Instance hot_reliable : MachineReliable.
Proof.
  split; try done; try (intros; by apply same_env_pi).
  - split; [done|..]; intros; by destruct k.
  - intros k _. apply hot_class_steady.
  - intros p s. split; [apply to_first_env|]. destruct (to_first_fields p s) as (Ht & Hr & Hc & Hm & _). split; try done.
    intros q. cbn [cpuset_cpus_allowed_fallback hot_policy]. rewrite Ht. destruct (decide (q = p)) as [->|]; [by rewrite fn_lookup_insert|by rewrite fn_lookup_insert_ne].
Qed.

Lemma hot_laws : hotplug_laws hot_list.
Proof.
  split.
  - split; intros; by destruct k.
  - intros k c s Hk. destruct k; try done; eexists _, s; split; reflexivity.
  - intros c s q s' Hs. cbn. unfold stop_pick. rewrite Hs. by intros [= <- _].
  - intros c s q s'. cbn -[fair_pick]. intros [= <- <-].
    destruct (fair_pick c s) as [p|] eqn:E; unfold fair_pick in E.
    + apply find_some in E as [_ E]. rewrite !andb_true_iff, !bool_decide_eq_true in E. tauto.
    + intros p Hp Hon Hc Hk. apply list_elem_of_In in Hp. pose proof (find_none _ _ E p Hp) as Hn. cbn beta in Hn.
      by rewrite Hon, !bool_decide_true in Hn.
  - intros c s q s'. cbn. by intros [= <- _].
  - intros p s. destruct (to_first_fields p s) as (Ht & _ & _ & _ & Hq).
    change (cpuset_cpus_allowed_fallback p s) with (0%nat, snd (to_first p s)). cbv beta iota zeta. rewrite Ht.
    split; [done|]. split; [rewrite fn_lookup_insert; cbn; set_solver|]. split; [exact Hq|].
    split; intros q; [|intros Hne; by rewrite fn_lookup_insert_ne].
    destruct (decide (q = p)) as [->|]; [by rewrite fn_lookup_insert|by rewrite fn_lookup_insert_ne].
Qed.

(** ** The machine *)

(** Task [100 + c] is the idle task of processor [c]; the stopper runs on 1. *)
Definition hot_task (k : sclass) (cpu : nat) (on_rq on_cpu : bool) (pr st : Z) : task :=
  mk_task pr (if decide (k = rt_sched_class) then SCHED_RR else SCHED_NORMAL) k 2 {[0%nat; 1%nat]} 3 0 0 0 0 on_rq on_cpu cpu false
    RLIM_INFINITY RLIM_INFINITY 120 pr 0 false None None st false.

Definition hot_tasks (p : nat) : task :=
  if decide (100 <= p)%nat then hot_task idle_sched_class (p - 100) false (negb (bool_decide (p = 101%nat))) 140 TASK_RUNNING
  else if decide (p = 2%nat) then hot_task rt_sched_class 1 true false 40 TASK_RUNNING
  else if decide (p = 4%nat) then hot_task fair_sched_class 1 true false 120 TASK_RUNNING
  else if decide (p = 50%nat) then hot_task stop_sched_class 1 true true 0 TASK_RUNNING
  else hot_task fair_sched_class 0 false false 120 TASK_INTERRUPTIBLE.

Definition hot_rq (c : nat) : rq :=
  mk_rq init_rt_rq (if decide (c = 1%nat) then 3 else 0) (if decide (c = 1%nat) then 50 else 100 + c) (100 + c) 0 0 true false 0
    (if decide (c = 1%nat) then Some 50%nat else None) [] None false.

Definition hot_base : sys := mk_sys hot_tasks hot_rq (mk_rd [0; 1]%nat ∅ 0 (λ _, 100)) demo_bw (λ _, 0) 1.

Definition hot_state : sys := enqueue_task_rt 1 2 false false hot_base.

Lemma hot_small p : sched_class (hot_tasks p) = rt_sched_class ∨ on_rq (hot_tasks p) = true → p ∈ hot_list.
Proof. unfold hot_tasks, hot_list. intros Hp. repeat case_decide; subst; try set_solver; by destruct Hp. Qed.

Lemma hot_rt p : sched_class (hot_tasks p) = rt_sched_class → p = 2%nat.
Proof. unfold hot_tasks. by repeat case_decide. Qed.

Lemma hot_rt_inv : rt_inv hot_state.
Proof.
  assert (rt_inv hot_base) as Hi.
  { apply initial_inv. split_and!; [done|done|]. intros p ->%hot_rt. by vm_compute. }
  apply (rt_step_inv mr_rely hot_base); [done|]. by apply step_enqueue.
Qed.

(** The queue holds the real-time task, and the tasks are as they were. *)
Lemma hot_tasks_same : tasks hot_state = hot_tasks.
Proof. reflexivity. Qed.

Lemma hot_rq_same c : rqview (rqs hot_state c) = rqview (hot_rq c).
Proof. unfold hot_state. change (hot_rq c) with (rqs hot_base c). exact (q_rq _ _ (quiet_enqueue_task 1 2 false false hot_base) c). Qed.

Lemma hot_fields c : curr (rqs hot_state c) = (if decide (c = 1%nat) then 50 else 100 + c)%nat ∧
  idle (rqs hot_state c) = (100 + c)%nat ∧ wake_list (rqs hot_state c) = [].
Proof.
  pose proof (hot_rq_same c) as E. generalize dependent (rqs hot_state c). intros q E. unfold rqview, hot_rq in E.
  cbn [curr idle wake_list prev_mm resched_ipi] in E. by injection E.
Qed.

Lemma hot_idle p : idle_one hot_state p ↔ (100 <= p)%nat.
Proof.
  unfold idle_one. split.
  - intros [c <-]. destruct (hot_fields c) as (_ & -> & _). lia.
  - intros Hp. exists (p - 100)%nat. destruct (hot_fields (p - 100)) as (_ & -> & _). lia.
Qed.

Lemma hot_waiting c p : ¬ p ∈ waiting no_one hot_state c.
Proof. unfold waiting, no_one. rewrite (proj2 (proj2 (hot_fields c))). set_solver. Qed.

Lemma hot_queue : queued (rt_of hot_state 1) = [2%nat].
Proof. vm_compute. reflexivity. Qed.

Lemma hot_curr : curr_ok None hot_state.
Proof.
  assert (∀ c, curr (rqs hot_state c) = (if decide (c = 1%nat) then 50 else 100 + c)%nat ∧ idle (rqs hot_state c) = (100 + c)%nat) as Hr.
  { intros c. exact (conj (proj1 (hot_fields c)) (proj1 (proj2 (hot_fields c)))). }
  split.
  - intros c _. destruct (Hr c) as [-> ->]. cbv zeta. rewrite hot_tasks_same. case_decide; subst; [by right|by left].
  - intros c d. rewrite (proj1 (Hr c)), (proj1 (Hr d)). repeat case_decide; lia.
  - intros c d. rewrite (proj2 (Hr c)), (proj2 (Hr d)). lia.
  - intros c. rewrite (proj1 (Hr c)), hot_tasks_same. case_decide; subst; [done|]. unfold hot_tasks.
    rewrite decide_True by lia. cbn. rewrite bool_decide_false by lia. done.
  - done.
Qed.

Lemma hot_minv : minv ∅ no_one None hot_state.
Proof.
  split.
  - apply hot_rt_inv.
  - intros p. unfold on_rq_queued. rewrite hot_tasks_same. intros ->%hot_rt. change (2%nat ∈ queued (rt_of hot_state 1)). rewrite hot_queue. by left.
  - intros p. rewrite hot_tasks_same. split; [|by intros [c ?%hot_waiting]]. unfold hot_tasks. by repeat case_decide.
  - intros c p Hp. by destruct (hot_waiting c p Hp).
  - intros c. unfold waiting, no_one. rewrite (proj2 (proj2 (hot_fields c))). constructor.
  - intros c Hc. destruct (hot_fields c) as (_ & _ & E). destruct (Hc E).
  - intros p _ Hp. rewrite hot_idle in Hp. rewrite hot_tasks_same. unfold hot_tasks. rewrite decide_False by lia. by repeat case_decide.
  - intros p Hp%hot_idle. rewrite hot_tasks_same. unfold hot_tasks. by rewrite decide_True.
  - apply hot_curr.
Qed.

#[local] Opaque hot_state.

(** Throttled or not, processor 1 can go down. *)
Definition hot_machine (throttled : bool) : sys := upd_rt 1 (set_throttle throttled 0) hot_state.

Lemma hot_machine_steady b : steady hot_state (upd_rq 1 (set_stop None) (hot_machine b)).
Proof.
  eapply steady_trans; [|apply set_stop_steady]. apply steady_view.
  - exact (sv_upd_rt 1 (set_throttle b 0) hot_state (λ r, eq_refl)).
  - exact (quiet_upd_rt 1 (set_throttle b 0) hot_state).
Qed.

Lemma hot_machine_tasks b : tasks (upd_rq 1 (set_stop None) (hot_machine b)) = hot_tasks.
Proof. unfold hot_machine, upd_rt. rewrite !tasks_upd_rq. exact hot_tasks_same. Qed.

Lemma hot_dying b : dying ∅ no_one None hot_list 1 50 (upd_rq 1 (set_stop None) (hot_machine b)).
Proof.
  set (s := upd_rq 1 (set_stop None) (hot_machine b)).
  assert (tasks s = hot_tasks) as Ht by exact (hot_machine_tasks b).
  assert (∀ p, on_queue 1 s p → p ∈ hot_list) as Hq by (intros p [Hon _]; apply hot_small; right; by rewrite <- Ht).
  split.
  - eapply steady_minv; [apply hot_machine_steady|apply hot_minv].
  - vm_compute. reflexivity.
  - unfold on_queue. rewrite Ht. by split_and!.
  - intros p Hp Hne. specialize (Hq p Hp). rewrite Ht.
    clearbody s. clear -Hq Hne. unfold hot_list in Hq. rewrite !elem_of_cons, elem_of_nil in Hq.
    destruct Hq as [->|[->|[->|[]]]]; [by left|by right|done].
  - exact Hq.
  - vm_compute. reflexivity.
  - vm_compute. reflexivity.
  - vm_compute. reflexivity.
Qed.

(** ** The queue is emptied *)

(** As many turns as there are other tasks; both go to processor 0. *)
Lemma migrate_tasks_empties_witness : ∃ s', migrate_tasks 4 2 1 (hot_machine false) = Ok s' ∧
  minv ∅ no_one None s' ∧ emptied 1 (hot_machine false) s' ∧ (∀ p, on_queue 1 s' p ↔ p = 50%nat) ∧
  nr_running (rqs s' 1) = 1 ∧ stop (rqs s' 1) = stop (rqs (hot_machine false) 1) ∧
  task_cpu (tasks s' 2%nat) = 0%nat ∧ task_cpu (tasks s' 4%nat) = 0%nat ∧ queued (rt_of s' 0) = [2%nat].
Proof.
  assert (NoDup hot_list) as Hnd by (apply (bool_decide_unpack _); vm_compute; exact I).
  assert (can_go 1 (hot_machine false)) as Hgo by (intros p _ _; vm_compute; reflexivity).
  destruct (migrate_tasks_empties 4 ∅ no_one None hot_list 1 50 hot_laws (λ p s, eq_refl) eq_refl Hnd ltac:(vm_compute; reflexivity)
    2 (hot_machine false) (hot_dying false) Hgo ltac:(vm_compute; discriminate)) as (s' & E & H1' & H2' & H3' & H4' & H5').
  assert ((s ← migrate_tasks 4 2 1 (hot_machine false); Ok (task_cpu (tasks s 2%nat), task_cpu (tasks s 4%nat), queued (rt_of s 0))) =
    Ok (0%nat, 0%nat, [2%nat])) as Hr by (vm_compute; reflexivity).
  exists s'. rewrite E in Hr. cbn [mbind res_bind] in Hr. injection Hr as Ha Hb Hc.
  repeat (split; [assumption|]). assumption.
Defined.

(** A processor whose queue is throttled never finishes going down. *)
Lemma migrate_tasks_ends_iff_witness :
  ((∃ turns s', migrate_tasks 4 turns 1 (hot_machine true) = Ok s') ↔ can_go 1 (hot_machine true)) ∧
  ¬ can_go 1 (hot_machine true).
Proof.
  assert (NoDup hot_list) as Hnd by (apply (bool_decide_unpack _); vm_compute; exact I). split.
  - exact (migrate_tasks_ends_iff 4 ∅ no_one None hot_list 1 50 hot_laws (λ p s, eq_refl) eq_refl Hnd ltac:(vm_compute; reflexivity)
      (hot_machine true) (hot_dying true)).
  - intros Hgo. specialize (Hgo 2%nat). assert (on_queue 1 (hot_machine true) 2) as Hq by (split; vm_compute; reflexivity).
    specialize (Hgo Hq ltac:(vm_compute; reflexivity)). vm_compute in Hgo. discriminate.
Defined.

(** Both queues have their runtime; the notifier takes processor 1 down: when its
    queue is throttled a thousand turns are not enough. *)
Definition with_runtime (s : sys) : sys := upd_rt 0 (set_rt_runtime 950) (upd_rt 1 (set_rt_runtime 950) s).

Example throttled_goes_down :
  (s ← migration_call 4 1000 CPU_DYING 1 (with_runtime (hot_machine true)); Ok (nr_running (rqs s 1))) = Out ∧
  (s ← migration_call 4 2 CPU_DYING 1 (with_runtime (hot_machine false));
   Ok (nr_running (rqs s 1), online (rqs s 1), rt_runtime (rt_of s 1), queued (rt_of s 0))) = Ok (1, false, RUNTIME_INF, [2%nat]).
Proof. split; vm_compute; reflexivity. Qed.

(** ** Affinity *)

Lemma hot_any m : cpumask_any m = None → m = ∅.
Proof. cbn. destruct (elements m) eqn:E; [|done]. intros _. by apply leibniz_equiv, elements_empty_inv. Qed.

Lemma hot_stopper p : stopper_ok p.
Proof. intros c s. cbn. split; [by intros ???|]. split; [done|]. by intros ?%bool_decide_eq_true_1. Qed.

Lemma hot_default : default_affinity.
Proof. intros k. by destruct k. Qed.

(** Task 2 waits on processor 1 and may run on 0 only: the stopper moves it. *)
Lemma affinity_enforced_witness :
  (∃ r s', set_cpus_allowed_ptr 4 2 {[0%nat]} hot_state = Ok (r, s') ∧ minv ∅ no_one None s' ∧
    if decide (filter (λ d, cpu_active d = true) ({[0%nat]} : gset nat) = ∅ ∨ (thread_bound 2 = true ∧ 2%nat ≠ current hot_state))
    then r = - EINVAL ∧ s' = hot_state
    else r = 0 ∧ cpus_allowed (tasks s' 2%nat) = {[0%nat]} ∧
      (on_rq (tasks hot_state 2%nat) = true → (∀ c s1, fst (stopper_runs c s1) = true) → task_cpu (tasks s' 2%nat) ∈ ({[0%nat]} : gset nat))) ∧
  ('(r, s) ← set_cpus_allowed_ptr 4 2 {[0%nat]} hot_state; Ok (r, task_cpu (tasks s 2%nat), queued (rt_of s 0), queued (rt_of s 1))) =
    Ok (0, 0%nat, [2%nat], []).
Proof.
  split; [|vm_compute; reflexivity].
  apply (affinity_enforced 4 (hl_still _ hot_laws) ∅ 2 hot_any hot_default (hot_stopper 2) (λ s, eq_refl) {[0%nat]} hot_state hot_minv).
  - rewrite hot_tasks_same. discriminate.
  - intros E. assert (1%nat ∈ ({[0%nat]} : gset nat)) as Hin by (rewrite <- E, hot_tasks_same; apply (bool_decide_unpack _); vm_compute; exact I).
    set_solver.
Defined.

(** ** System calls *)

Definition nothing_held : held := Held 0 (λ _, 0) 0.

(** Task 4 asks for processors 0 and 63 with a short mask. *)
Definition short_mask : gset nat := {[0; 9; 63]}%nat.

Lemma no_junk d : d ∈ (∅ : gset nat) → Z.of_nat d < BITS_PER_BYTE * cpumask_size.
Proof. intros Hd. by apply not_elem_of_empty in Hd. Qed.

Lemma short_len : Z.of_nat nr_cpu_ids <= 8 * BITS_PER_BYTE < 2 ^ 32.
Proof. vm_compute. split; [discriminate|reflexivity]. Qed.

Lemma fair_four : sched_class (tasks hot_state 4%nat) ≠ stop_sched_class.
Proof. rewrite hot_tasks_same. discriminate. Qed.

Lemma affinity_round_trip_witness : ∃ h1 s1 h2,
  sys_sched_setaffinity 4 1 4 1 (Some short_mask) ∅ nothing_held hot_state = Ok (0, (h1, s1)) ∧
  sys_sched_getaffinity 4 8 true h1 s1 =
    (Z.min 8 cpumask_size, Some (in_mask 8 (in_mask 1 short_mask ∩ {[0; 1]}%nat ∩ list_to_set cpu_online_mask)), (h2, s1)) ∧
  bool_decide (in_mask 8 (in_mask 1 short_mask ∩ {[0; 1]}%nat ∩ list_to_set cpu_online_mask) = {[0%nat]}) = true.
Proof.
  assert (('(r, _) ← sys_sched_setaffinity 4 1 4 1 (Some short_mask) ∅ nothing_held hot_state; Ok r) = Ok 0) as Hr by (vm_compute; reflexivity).
  destruct (sys_sched_setaffinity 4 1 4 1 (Some short_mask) ∅ nothing_held hot_state) as [[r [h1 s1]]| |] eqn:E;
    cbn [mbind res_bind] in Hr; [|discriminate..]. injection Hr as ->.
  destruct (affinity_round_trip 4 (hl_still _ hot_laws) ∅ 4 hot_any hot_default (hot_stopper 4) (λ s, eq_refl)
    1 4 1 8 short_mask ∅ {[0; 1]}%nat nothing_held hot_state h1 s1 ltac:(discriminate) eq_refl (λ k, eq_refl) (λ s, eq_refl)
    no_junk eq_refl eq_refl short_len eq_refl hot_minv fair_four E) as [h2 Hg].
  exists h1, s1, h2. split; [reflexivity|]. split; [exact Hg|]. vm_compute. reflexivity.
Defined.

Lemma affinity_calls_give_back_witness : ∃ r h1 s1,
  sys_sched_setaffinity 4 1 4 8 (Some short_mask) ∅ nothing_held hot_state = Ok (r, (h1, s1)) ∧ same_held nothing_held h1.
Proof.
  assert (('(r, _) ← sys_sched_setaffinity 4 1 4 8 (Some short_mask) ∅ nothing_held hot_state; Ok r) = Ok 0) as Hr by (vm_compute; reflexivity).
  destruct (sys_sched_setaffinity 4 1 4 8 (Some short_mask) ∅ nothing_held hot_state) as [[r [h1 s1]]| |] eqn:E;
    cbn [mbind res_bind] in Hr; [|discriminate..].
  exists r, h1, s1. split; [reflexivity|].
  exact (proj1 (affinity_calls_give_back 4 1 4 8 (Some short_mask) ∅ true nothing_held hot_state) r h1 s1 E).
Defined.

Lemma large_buffer_refused_witness :
  sys_sched_getaffinity 4 (2 ^ 29) true nothing_held hot_state = (- EINVAL, None, (nothing_held, hot_state)).
Proof. apply (large_buffer_refused 4 true nothing_held hot_state). vm_compute. lia. Defined.

Lemma reset_request_forgotten_witness :
  __sched_setscheduler 4 1 4 (Z.lor (policy (tasks hot_state 4%nat)) SCHED_RESET_ON_FORK) 0 true hot_state = Ok (0, hot_state) ∧
  sys_sched_getscheduler 4 hot_state = policy (tasks hot_state 4%nat).
Proof.
  apply (reset_request_forgotten 4 0 4 4 hot_state); rewrite ?hot_tasks_same; try reflexivity; try done.
  apply (bool_decide_unpack _). vm_compute. exact I.
Defined.
