(* ===== verification/TgWalk.v ===== *)
(** * Walking the tree of task groups (sched.c, src/indwriterups/project1)

    [walk_tg_tree] goes through a tree by its links alone: from a group to its first
    child, from a child to its sibling, and by the parent link back up.  It is shown
    to do what a recursion over the tree does. *)

From S2P Require Import Prelude RtState SchedCore.

Local Open Scope Z_scope.

(** ** The tree *)

#[warnings="-register-all"] Inductive tree := Node (g : nat) (ts : list tree).

Section tree_ind.
Variables (P : tree → Prop) (Q : list tree → Prop).
Hypotheses (H_node : ∀ g ts, Q ts → P (Node g ts)) (H_nil : Q []) (H_cons : ∀ t ts, P t → Q ts → Q (t :: ts)).

Fixpoint tree_list_ind (t : tree) : P t :=
  match t with
  | Node g ts => H_node g ts
      ((fix go l := match l return Q l with [] => H_nil | t' :: l' => H_cons t' l' (tree_list_ind t') (go l') end) ts)
  end.

End tree_ind.

Definition group_of (t : tree) : nat := match t with Node g _ => g end.

Fixpoint groups_of (t : tree) : list nat :=
  match t with Node g ts => g :: concat (map groups_of ts) end.

(** ** The traversal *)

(** The sibling that follows [c] in the list of children. *)
Fixpoint next_sibling (l : list nat) (c : nat) : option nat :=
  match l with
  | [] => None
  | d :: l' => if decide (d = c) then head l' else next_sibling l' c
  end.

(** Where the traversal is: at the label [down], or in the loop over the children of
    a group, with the child it has come to, if any. *)
Inductive walk_pc := at_down (p : nat) | at_child (p : nat) (c : option nat).

Section walk.
Context {D : Type} (children : nat → list nat) (parent : nat → option nat) (root : nat).
Variables down up : nat → D → res (Z * D).

(** Not zero ends the walk. *)
Fixpoint walk (fuel : nat) (pc : walk_pc) (s : D) : res (Z * D) :=
  match fuel with
  | O => Out
  | S fuel' =>
      match pc with
      | at_down p =>
          '(ret, s) ← down p s;
          if decide (ret ≠ 0) then Ok (ret, s) else walk fuel' (at_child p (head (children p))) s
      | at_child p (Some c) => walk fuel' (at_down c) s
      | at_child p None =>
          '(ret, s) ← up p s;
          if decide (ret ≠ 0) then Ok (ret, s)
          else match parent p with
               | Some q => walk fuel' (at_child q (next_sibling (children q) p)) s
               | None => Ok (ret, s)
               end
      end
  end.

Definition walk_tg_tree (fuel : nat) (s : D) : res (Z * D) := walk fuel (at_down root) s.

(** The links of the groups of [t] are those of the tree. *)
Fixpoint linked (par : option nat) (t : tree) : Prop :=
  match t with
  | Node g ts => parent g = par ∧ children g = map group_of ts ∧ NoDup (map group_of ts) ∧
      foldr (λ t' P, linked (Some g) t' ∧ P) True ts
  end.

Definition all_linked (g : nat) (ts : list tree) : Prop := foldr (λ t' P, linked (Some g) t' ∧ P) True ts.

(** ** The reference: a recursion *)

(** [k] after [m], unless [m] ends the walk. *)
Definition unless (m : res (Z * D)) (k : D → res (Z * D)) : res (Z * D) :=
  '(ret, s) ← m; if decide (ret ≠ 0) then Ok (ret, s) else k s.

Fixpoint visit (t : tree) : D → res (Z * D) :=
  match t with
  | Node g ts => λ s, unless (down g s) (λ s,
      unless (foldr (λ t' k s, unless (visit t' s) k) (λ s, Ok (0, s)) ts s) (up g))
  end.

Definition visit_all (ts : list tree) : D → res (Z * D) :=
  foldr (λ t' k s, unless (visit t' s) k) (λ s, Ok (0, s)) ts.

(** The steps the traversal takes. *)
Fixpoint walk_cost (t : tree) : nat :=
  match t with Node g ts => (2 + foldr (λ t' n, S (walk_cost t' + n)) 0 ts)%nat end.

Definition walk_costs (ts : list tree) : nat := foldr (λ t' n, S (walk_cost t' + n))%nat 0%nat ts.

Lemma unless_ext m k k' : (∀ s, k s = k' s) → unless m k = unless m k'.
Proof. intros E. unfold unless. destruct m as [[ret s]| |]; cbn; [|done..]. by case_decide. Qed.

Lemma unless_assoc m k k' : unless (unless m k) k' = unless m (λ s, unless (k s) k').
Proof.
  unfold unless. destruct m as [[ret s]| |]; cbn; [|done..]. case_decide; cbn; [by rewrite decide_True|done].
Qed.

Lemma unless_zero s k : unless (Ok (0, s)) k = k s.
Proof. done. Qed.

Lemma next_sibling_head l1 c l2 : NoDup (l1 ++ c :: l2) → next_sibling (l1 ++ c :: l2) c = head l2.
Proof.
  induction l1 as [|d l1 IH]; cbn; intros Hn; [by rewrite decide_True|]. apply list.NoDup_cons in Hn as [Hd Hn].
  rewrite decide_False; [by apply IH|]. intros ->. set_solver.
Qed.

(** More fuel changes nothing. *)
Lemma walk_more fuel : ∀ pc s x k, walk fuel pc s = Ok x → walk (fuel + k) pc s = Ok x.
Proof.
  induction fuel as [|fuel IH]; intros pc s x k; [done|]. cbn [walk Nat.add].
  destruct pc as [p|p [c|]]; [|apply IH|]; intros ([ret s1] & E & Hk)%bind_ok; rewrite E; cbn [mbind res_bind];
    (case_decide; [done|]); [by apply IH|]. destruct (parent p); [by apply IH|done].
Qed.

Lemma walk_down n p s :
  walk (S n) (at_down p) s = unless (down p s) (λ s, walk n (at_child p (head (children p))) s).
Proof. done. Qed.

Lemma walk_up n p s :
  walk (S n) (at_child p None) s = unless (up p s) (λ s,
    match parent p with Some q => walk n (at_child q (next_sibling (children q) p)) s | None => Ok (0, s) end).
Proof.
  cbn [walk]. unfold unless. destruct (up p s) as [[ret s']| |]; cbn; [|done..]. case_decide as Hr; [done|].
  destruct (parent p); [done|]. by replace ret with 0 by lia.
Qed.

(** From a group the traversal does what the recursion does, and goes on at the
    parent. *)
Lemma walk_visit t : ∀ par n s, linked par t →
  walk (walk_cost t + n) (at_down (group_of t)) s = unless (visit t s) (λ s,
    match par with
    | Some q => walk n (at_child q (next_sibling (children q) (group_of t))) s
    | None => Ok (0, s)
    end).
Proof.
  induction t as [g ts IH| |t ts IHt IHts] using tree_list_ind with (Q := λ ts, ∀ g l1 n s,
    children g = map group_of (l1 ++ ts) → NoDup (map group_of (l1 ++ ts)) → all_linked g ts →
    walk (walk_costs ts + n) (at_child g (head (map group_of ts))) s =
      unless (visit_all ts s) (λ s, walk n (at_child g None) s)).
  - intros par n s (Hpar & Hch & Hn & Hl). cbn [walk_cost group_of]. fold (walk_costs ts).
    replace (2 + walk_costs ts + n)%nat with (S (walk_costs ts + S n)) by lia.
    rewrite walk_down, Hch. cbn [visit]. fold (visit_all ts). rewrite unless_assoc. apply unless_ext. intros s1.
    rewrite (IH g [] (S n) s1 Hch Hn Hl), unless_assoc. apply unless_ext. intros s2. by rewrite walk_up, Hpar.
  - done.
  - intros g l1 n s Hch Hn [Ht Hts]. cbn [walk_costs foldr map head]. fold (walk_costs ts).
    replace (S (walk_cost t + walk_costs ts) + n)%nat with (S (walk_cost t + (walk_costs ts + n))) by lia.
    change (walk (S ?m) (at_child g (Some ?c)) s) with (walk m (at_down c) s). rewrite (IHt (Some g)) by done.
    cbn [visit_all foldr]. fold (visit_all ts). rewrite unless_assoc. apply unless_ext. intros s1.
    rewrite Hch, map_app. cbn [map]. rewrite next_sibling_head by (by rewrite map_app in Hn).
    apply (IHts g (l1 ++ [t])); by rewrite <- ?app_assoc.
Qed.

(** When leaving a group does nothing, the groups are visited from the root down. *)
Definition visit_seq (l : list nat) : D → res (Z * D) :=
  foldr (λ g k s, unless (down g s) k) (λ s, Ok (0, s)) l.

Lemma visit_seq_app l1 l2 s : visit_seq (l1 ++ l2) s = unless (visit_seq l1 s) (visit_seq l2).
Proof.
  revert s. induction l1 as [|g l1 IH]; intros s; [done|]. cbn [app visit_seq foldr]. fold (visit_seq l1) (visit_seq (l1 ++ l2)).
  rewrite unless_assoc. apply unless_ext. intros s'. apply IH.
Qed.

Lemma unless_end m : unless m (λ s, Ok (0, s)) = m.
Proof.
  unfold unless. destruct m as [[ret s]| |]; cbn; [|done..]. case_decide; [done|]. by replace ret with 0 by lia.
Qed.

Lemma visit_preorder t s : (∀ g s, up g s = Ok (0, s)) → visit t s = visit_seq (groups_of t) s.
Proof.
  intros Hup. revert s. induction t as [g ts IH| |t ts IHt IHts] using tree_list_ind with
    (Q := λ ts, ∀ s, visit_all ts s = visit_seq (concat (map groups_of ts)) s); intros s.
  - cbn [visit groups_of visit_seq foldr]. fold (visit_all ts) (visit_seq (concat (map groups_of ts))).
    apply unless_ext. intros s1. rewrite IH, (unless_ext _ (up g) (λ s, Ok (0, s))) by apply Hup. apply unless_end.
  - done.
  - cbn [visit_all foldr map concat]. fold (visit_all ts). rewrite visit_seq_app, IHt. by apply unless_ext.
Qed.

Lemma walk_whole t fuel s :
  linked None t → group_of t = root → (walk_cost t <= fuel)%nat → walk_tg_tree fuel s = visit t s.
Proof.
  intros Hl Hr Hf. unfold walk_tg_tree. rewrite <- Hr.
  replace fuel with (walk_cost t + (fuel - walk_cost t))%nat by lia. rewrite (walk_visit t None) by done. apply unless_end.
Qed.

(** C17: the traversal of a tree by its links does what the recursion over the tree does:
    every group is entered once, before its children, and left once, after them, in
    the order of the lists, up to the first visit that ends the walk. *)
Theorem walk_is_recursion t fuel s :
  linked None t → group_of t = root → (walk_cost t <= fuel)%nat → walk_tg_tree fuel s = visit t s.
Proof. apply walk_whole. Qed.

End walk.
