(* ===== verification/TaskGroup.v ===== *)
(** * Task groups and their share of the processors (sched.c,
      src/indwriterups/project1)

    The configuration with group scheduling.  Groups form a tree below
    [root_task_group]; each has a real-time period and runtime.  A request to change
    them is admitted only if the whole tree can still be served.  Groups are made of
    blocks of memory that can run out; a destroyed group is freed later. *)

From S2P Require Import Prelude RtState SchedCore SchedPolicy TgWalk.

Local Open Scope Z_scope.

Definition EBUSY : Z := 16.
Definition NSEC_PER_USEC : Z := 1000.

(** ** State *)

(** A block with one pointer per processor. *)
Definition array : Type := nat * list (option nat).

(** [struct task_group]; [tg_cpu_runtime] is the runtime in the queue of each
    processor, [tg_timer] whether the timer was initialised.  The period is a
    [ktime_t]. *)
Record task_group := mk_tg {
  tg_period : Z;
  tg_runtime : Z;
  tg_timer : bool;
  tg_parent : option nat;
  tg_children : list nat;
  tg_cfs_rq : option array;
  tg_se : option array;
  tg_rt_rq : option array;
  tg_rt_se : option array;
  tg_cpu_runtime : nat → Z;
}.

(** The group a task belongs to, and the one whose queue its real-time entity is on. *)
Record thread := mk_thread { th_prio : Z; th_css : nat; th_tg : nat }.

(** [heap] are the blocks allocated, [outcomes] whether the next allocations
    succeed; [raw_cancel] is set when a timer is cancelled that was never
    initialised. *)
Record groups := mk_groups {
  tgs : nat → task_group;
  task_groups : list nat;
  rcu_callbacks : list nat;
  heap : gset nat;
  outcomes : list bool;
  raw_cancel : bool;
  sysctl_sched_rt_period : Z;
  sysctl_sched_rt_runtime : Z;
  def_rt_period : Z;
  def_rt_runtime : Z;
  threads : list thread;
}.

Definition root_task_group : nat := 0.

Definition upd_tg (g : nat) (f : task_group → task_group) (s : groups) : groups :=
  mk_groups (<[g := f (tgs s g)]> (tgs s)) (task_groups s) (rcu_callbacks s) (heap s) (outcomes s) (raw_cancel s)
    (sysctl_sched_rt_period s) (sysctl_sched_rt_runtime s) (def_rt_period s) (def_rt_runtime s) (threads s).
Definition set_lists (l r : list nat) (s : groups) : groups :=
  mk_groups (tgs s) l r (heap s) (outcomes s) (raw_cancel s)
    (sysctl_sched_rt_period s) (sysctl_sched_rt_runtime s) (def_rt_period s) (def_rt_runtime s) (threads s).
Definition set_memory (h : gset nat) (o : list bool) (s : groups) : groups :=
  mk_groups (tgs s) (task_groups s) (rcu_callbacks s) h o (raw_cancel s)
    (sysctl_sched_rt_period s) (sysctl_sched_rt_runtime s) (def_rt_period s) (def_rt_runtime s) (threads s).
Definition set_raw_cancel (b : bool) (s : groups) : groups :=
  mk_groups (tgs s) (task_groups s) (rcu_callbacks s) (heap s) (outcomes s) b
    (sysctl_sched_rt_period s) (sysctl_sched_rt_runtime s) (def_rt_period s) (def_rt_runtime s) (threads s).
Definition set_sysctl (p r : Z) (s : groups) : groups :=
  mk_groups (tgs s) (task_groups s) (rcu_callbacks s) (heap s) (outcomes s) (raw_cancel s)
    p r (def_rt_period s) (def_rt_runtime s) (threads s).
Definition set_def (p r : Z) (s : groups) : groups :=
  mk_groups (tgs s) (task_groups s) (rcu_callbacks s) (heap s) (outcomes s) (raw_cancel s)
    (sysctl_sched_rt_period s) (sysctl_sched_rt_runtime s) p r (threads s).
Definition set_threads (l : list thread) (s : groups) : groups :=
  mk_groups (tgs s) (task_groups s) (rcu_callbacks s) (heap s) (outcomes s) (raw_cancel s)
    (sysctl_sched_rt_period s) (sysctl_sched_rt_runtime s) (def_rt_period s) (def_rt_runtime s) l.

Definition set_bandwidth (p r : Z) (timer : bool) (t : task_group) : task_group :=
  mk_tg p r timer (tg_parent t) (tg_children t) (tg_cfs_rq t) (tg_se t) (tg_rt_rq t) (tg_rt_se t) (tg_cpu_runtime t).
Definition set_links (par : option nat) (l : list nat) (t : task_group) : task_group :=
  mk_tg (tg_period t) (tg_runtime t) (tg_timer t) par l (tg_cfs_rq t) (tg_se t) (tg_rt_rq t) (tg_rt_se t) (tg_cpu_runtime t).
Definition set_fair (a b : option array) (t : task_group) : task_group :=
  mk_tg (tg_period t) (tg_runtime t) (tg_timer t) (tg_parent t) (tg_children t) a b (tg_rt_rq t) (tg_rt_se t) (tg_cpu_runtime t).
Definition set_rt_arrays (a b : option array) (t : task_group) : task_group :=
  mk_tg (tg_period t) (tg_runtime t) (tg_timer t) (tg_parent t) (tg_children t) (tg_cfs_rq t) (tg_se t) a b (tg_cpu_runtime t).
Definition set_cpu_runtime (i : nat) (z : Z) (t : task_group) : task_group :=
  mk_tg (tg_period t) (tg_runtime t) (tg_timer t) (tg_parent t) (tg_children t) (tg_cfs_rq t) (tg_se t) (tg_rt_rq t) (tg_rt_se t)
    (<[i := z]> (tg_cpu_runtime t)).

Definition zero_group : task_group := mk_tg 0 0 false None [] None None None None (λ _, 0).

(** ** Admission *)

Definition ns_to_ktime (ns : Z) : Z := s64 ns.
Definition ktime_to_ns (k : Z) : Z := u64 k.

Definition global_rt_period (s : groups) : Z := u64 (sysctl_sched_rt_period s * NSEC_PER_USEC).

Definition global_rt_runtime (s : groups) : Z :=
  if decide (sysctl_sched_rt_runtime s < 0) then RUNTIME_INF else u64 (sysctl_sched_rt_runtime s * NSEC_PER_USEC).

Definition rt_bandwidth_enabled (s : groups) : bool := bool_decide (0 <= sysctl_sched_rt_runtime s).

(** [Bug] is a division by zero. *)
Definition to_ratio (period runtime : Z) : res Z :=
  if decide (runtime = RUNTIME_INF) then Ok (2 ^ 20)
  else if decide (period = 0) then Bug
  else Ok (u64 (Z.shiftl runtime 20) / period).

Definition th_rt_task (t : thread) : bool := rt_prio (th_prio t).

Definition tg_has_rt_tasks (g : nat) (s : groups) : bool :=
  existsb (λ t, th_rt_task t && bool_decide (th_tg t = g)) (threads s).

(** [struct rt_schedulable_data]: the group that is to change, its period and its
    runtime. *)
Definition rt_schedulable_data : Type := option nat * Z * Z.

Definition period_in (d : rt_schedulable_data) (s : groups) (g : nat) : Z :=
  if decide (d.1.1 = Some g) then d.1.2 else ktime_to_ns (tg_period (tgs s g)).

Definition runtime_in (d : rt_schedulable_data) (s : groups) (g : nat) : Z :=
  if decide (d.1.1 = Some g) then d.2 else tg_runtime (tgs s g).

(** The loop over the children; the sum is an unsigned long. *)
Fixpoint sum_ratios (d : rt_schedulable_data) (s : groups) (l : list nat) (sum : Z) : res Z :=
  match l with
  | [] => Ok sum
  | g :: l' => r ← to_ratio (period_in d s g) (runtime_in d s g); sum_ratios d s l' (u64 (sum + r))
  end.

Definition tg_schedulable (s : groups) (d : rt_schedulable_data) (g : nat) : res Z :=
  let period := period_in d s g in
  let runtime := runtime_in d s g in
  if decide (period < runtime ∧ runtime ≠ RUNTIME_INF) then Ok (- EINVAL)
  else if rt_bandwidth_enabled s && bool_decide (runtime = 0) && tg_has_rt_tasks g s then Ok (- EBUSY)
  else
    total ← to_ratio period runtime;
    most ← to_ratio (global_rt_period s) (global_rt_runtime s);
    if decide (most < total) then Ok (- EINVAL)
    else
      sum ← sum_ratios d s (tg_children (tgs s g)) 0;
      if decide (total < sum) then Ok (- EINVAL) else Ok 0.

Definition tg_nop (g : nat) (u : unit) : res (Z * unit) := Ok (0, u).

Definition __rt_schedulable (fuel : nat) (d : rt_schedulable_data) (s : groups) : res Z :=
  '(ret, _) ← walk_tg_tree (λ g, tg_children (tgs s g)) (λ g, tg_parent (tgs s g)) root_task_group
                (λ g u, ret ← tg_schedulable s d g; Ok (ret, u)) tg_nop fuel tt;
  Ok ret.

Class GroupEnv := { nr_cpus : nat }.

Section groups.
Context `{GroupEnv}.

Definition possible_cpus : list nat := seq 0 nr_cpus.

Definition set_cpu_runtimes (g : nat) (z : Z) (s : groups) : groups :=
  foldl (λ s i, upd_tg g (set_cpu_runtime i z) s) s possible_cpus.

Definition tg_set_bandwidth (fuel : nat) (g : nat) (rt_period rt_runtime : Z) (s : groups) : res (Z * groups) :=
  err ← __rt_schedulable fuel (Some g, rt_period, rt_runtime) s;
  if decide (err ≠ 0) then Ok (err, s)
  else
    let s := upd_tg g (λ t, set_bandwidth (ns_to_ktime rt_period) rt_runtime (tg_timer t) t) s in
    Ok (0, set_cpu_runtimes g rt_runtime s).

(** [rt_runtime_us] is a signed long. *)
Definition sched_group_set_rt_runtime (fuel : nat) (g : nat) (rt_runtime_us : Z) (s : groups) : res (Z * groups) :=
  let rt_period := ktime_to_ns (tg_period (tgs s g)) in
  let rt_runtime := if decide (rt_runtime_us < 0) then RUNTIME_INF else u64 (u64 rt_runtime_us * NSEC_PER_USEC) in
  tg_set_bandwidth fuel g rt_period rt_runtime s.

Definition sched_group_rt_runtime (g : nat) (s : groups) : Z :=
  if decide (tg_runtime (tgs s g) = RUNTIME_INF) then -1 else s64 (tg_runtime (tgs s g) / NSEC_PER_USEC).

Definition sched_group_set_rt_period (fuel : nat) (g : nat) (rt_period_us : Z) (s : groups) : res (Z * groups) :=
  let rt_period := u64 (u64 rt_period_us * NSEC_PER_USEC) in
  let rt_runtime := tg_runtime (tgs s g) in
  if decide (rt_period = 0) then Ok (- EINVAL, s) else tg_set_bandwidth fuel g rt_period rt_runtime s.

Definition sched_group_rt_period (g : nat) (s : groups) : Z :=
  s64 (ktime_to_ns (tg_period (tgs s g)) / NSEC_PER_USEC).

Definition sched_rt_global_constraints (fuel : nat) (s : groups) : res Z :=
  if decide (sysctl_sched_rt_period s <= 0) then Ok (- EINVAL)
  else if decide (global_rt_period s < global_rt_runtime s ∧ global_rt_runtime s ≠ RUNTIME_INF) then Ok (- EINVAL)
  else __rt_schedulable fuel (None, 0, 0) s.

(** [proc_dointvec] has returned [ret] and left [p] and [r] in the two settings. *)
Definition sched_rt_handler (fuel : nat) (write : bool) (ret p r : Z) (s : groups) : res (Z * groups) :=
  let old_period := sysctl_sched_rt_period s in
  let old_runtime := sysctl_sched_rt_runtime s in
  let s := set_sysctl p r s in
  if bool_decide (ret = 0) && write then
    ret ← sched_rt_global_constraints fuel s;
    if decide (ret ≠ 0) then Ok (ret, set_sysctl old_period old_runtime s)
    else Ok (0, set_def (ns_to_ktime (global_rt_period s)) (global_rt_runtime s) s)
  else Ok (ret, s).

(** ** Tasks *)

Definition sched_rt_can_attach (g : nat) (t : thread) (s : groups) : bool :=
  negb (th_rt_task t && bool_decide (tg_runtime (tgs s g) = 0)).

Definition cpu_cgroup_can_attach_task (g : nat) (t : thread) (s : groups) : Z :=
  if sched_rt_can_attach g t s then 0 else - EINVAL.

(** The real-time entity; the queues themselves are not modelled here. *)
Definition set_task_rq (t : thread) : thread := mk_thread (th_prio t) (th_css t) (th_css t).

(** ** Memory *)

Definition kzalloc (s : groups) : option nat * groups :=
  match outcomes s with
  | true :: o => let a := fresh ({[root_task_group]} ∪ heap s) in (Some a, set_memory ({[a]} ∪ heap s) o s)
  | false :: o => (None, set_memory (heap s) o s)
  | [] => (None, s)
  end.

(** [Bug]: the block is not allocated. *)
Definition kfree (p : option nat) (s : groups) : res groups :=
  match p with
  | None => Ok s
  | Some a => if decide (a ∈ heap s) then Ok (set_memory (heap s ∖ {[a]}) (outcomes s) s) else Bug
  end.

Definition arr_block (a : option array) : option nat := fst <$> a.
Definition arr_at (a : option array) (i : nat) : option nat := '(_, l) ← a; mjoin (l !! i).
Definition arr_set (i p : nat) (a : option array) : option array := (λ '(b, l), (b, <[i := Some p]> l)) <$> a.
Definition new_array (p : option nat) : option array := (λ b, (b, replicate nr_cpus None)) <$> p.

(** What the queues and entities hold is not modelled, but for the runtime. *)
Definition init_tg_cfs_entry (g rq e i : nat) (s : groups) : groups :=
  upd_tg g (λ t, set_fair (arr_set i rq (tg_cfs_rq t)) (arr_set i e (tg_se t)) t) s.

Definition init_tg_rt_entry (g rq e i : nat) (s : groups) : groups :=
  let s := upd_tg g (λ t, set_rt_arrays (arr_set i rq (tg_rt_rq t)) (tg_rt_se t) t) s in
  let s := upd_tg g (λ t, set_cpu_runtime i (tg_runtime t) t) s in
  upd_tg g (λ t, set_rt_arrays (tg_rt_rq t) (arr_set i e (tg_rt_se t)) t) s.

(** The loop over the processors, from the first of [cpus] on. *)
Fixpoint alloc_entries (init : nat → nat → nat → groups → groups) (cpus : list nat) (s : groups) : res (bool * groups) :=
  match cpus with
  | [] => Ok (true, s)
  | i :: cpus' =>
      let '(rq, s) := kzalloc s in
      match rq with
      | None => Ok (false, s)
      | Some rq =>
          let '(e, s) := kzalloc s in
          match e with
          | None => s ← kfree (Some rq) s; Ok (false, s)
          | Some e => alloc_entries init cpus' (init rq e i s)
          end
      end
  end.

Definition alloc_fair_sched_group (g : nat) (s : groups) : res (bool * groups) :=
  let '(a, s) := kzalloc s in
  let s := upd_tg g (λ t, set_fair (new_array a) (tg_se t) t) s in
  if decide (a = None) then Ok (false, s)
  else
    let '(b, s) := kzalloc s in
    let s := upd_tg g (λ t, set_fair (tg_cfs_rq t) (new_array b) t) s in
    if decide (b = None) then Ok (false, s)
    else alloc_entries (init_tg_cfs_entry g) possible_cpus s.

Definition init_rt_bandwidth (p r : Z) (t : task_group) : task_group := set_bandwidth (ns_to_ktime p) r true t.

Definition alloc_rt_sched_group (g : nat) (s : groups) : res (bool * groups) :=
  let '(a, s) := kzalloc s in
  let s := upd_tg g (λ t, set_rt_arrays (new_array a) (tg_rt_se t) t) s in
  if decide (a = None) then Ok (false, s)
  else
    let '(b, s) := kzalloc s in
    let s := upd_tg g (λ t, set_rt_arrays (tg_rt_rq t) (new_array b) t) s in
    if decide (b = None) then Ok (false, s)
    else
      let s := upd_tg g (init_rt_bandwidth (ktime_to_ns (def_rt_period s)) 0) s in
      alloc_entries (init_tg_rt_entry g) possible_cpus s.

Fixpoint free_entries (rq se : option array) (cpus : list nat) (s : groups) : res groups :=
  match cpus with
  | [] => Ok s
  | i :: cpus' => s ← kfree (arr_at rq i) s; s ← kfree (arr_at se i) s; free_entries rq se cpus' s
  end.

Definition free_fair_sched_group (g : nat) (s : groups) : res groups :=
  let t := tgs s g in
  s ← free_entries (tg_cfs_rq t) (tg_se t) possible_cpus s;
  s ← kfree (arr_block (tg_cfs_rq t)) s;
  kfree (arr_block (tg_se t)) s.

(** What cancelling a timer that was not initialised does is up to the timers. *)
Definition destroy_rt_bandwidth (g : nat) (s : groups) : groups :=
  if tg_timer (tgs s g) then s else set_raw_cancel true s.

Definition free_rt_sched_group (g : nat) (s : groups) : res groups :=
  let t := tgs s g in
  let s := destroy_rt_bandwidth g s in
  s ← free_entries (tg_rt_rq t) (tg_rt_se t) possible_cpus s;
  s ← kfree (arr_block (tg_rt_rq t)) s;
  kfree (arr_block (tg_rt_se t)) s.

Definition free_sched_group (g : nat) (s : groups) : res groups :=
  s ← free_fair_sched_group g s;
  s ← free_rt_sched_group g s;
  kfree (Some g) s.

(** [None] is -ENOMEM. *)
Definition sched_create_group (parent : nat) (s : groups) : res (option nat * groups) :=
  let '(g, s) := kzalloc s in
  match g with
  | None => Ok (None, s)
  | Some g =>
      let s := upd_tg g (λ _, zero_group) s in
      '((ok, s) : bool * groups) ← alloc_fair_sched_group g s;
      '((ok, s) : bool * groups) ← (if ok then alloc_rt_sched_group g s else Ok (false, s));
      if ok then
        let s := set_lists (g :: task_groups s) (rcu_callbacks s) s in
        let s := upd_tg g (set_links (Some parent) []) s in
        Ok (Some g, upd_tg parent (λ t, set_links (tg_parent t) (g :: tg_children t) t) s)
      else s ← free_sched_group g s; Ok (None, s)
  end.

Definition unlinked (g : nat) (l : list nat) : list nat := filter (λ q, q ≠ g) l.

(** The share of the fair class is not modelled. *)
Definition sched_destroy_group (g : nat) (s : groups) : groups :=
  let s := set_lists (unlinked g (task_groups s)) (rcu_callbacks s) s in
  let s := match tg_parent (tgs s g) with
           | Some q => upd_tg q (λ t, set_links (tg_parent t) (unlinked g (tg_children t)) t) s
           | None => s
           end in
  set_lists (task_groups s) (rcu_callbacks s ++ [g]) s.

(** The callback of [g] runs. *)
Definition free_sched_group_rcu (g : nat) (s : groups) : res groups :=
  free_sched_group g (set_lists (task_groups s) (unlinked g (rcu_callbacks s)) s).

(** What [sched_init] does for the groups.  The arrays of the root, which are never
    freed, are not modelled. *)
Definition sched_init_groups (o : list bool) (l : list thread) : groups :=
  let s := mk_groups (λ _, zero_group) [] [] ∅ o false 1000000 950000 0 0 l in
  let s := set_def (ns_to_ktime (global_rt_period s)) (global_rt_runtime s) s in
  let s := upd_tg root_task_group (init_rt_bandwidth (global_rt_period s) (global_rt_runtime s)) s in
  let s := set_lists [root_task_group] [] s in
  set_cpu_runtimes root_task_group (tg_runtime (tgs s root_task_group)) s.

End groups.
