(* ===== verification/TgAdmit.v ===== *)
(** * What is admitted can be served (sched.c, src/indwriterups/project1)

    A request to change the bandwidth of a task group is granted exactly when every
    group of the tree, the changed one included, can then be served. *)

From S2P Require Import Prelude RtState SchedCore SchedPolicy TgWalk TaskGroup.

Local Open Scope Z_scope.

(** ** Ratios *)

(** The share of a processor, in units of 2^-20. *)
Definition ratio (p r : Z) : Z :=
  if decide (r = RUNTIME_INF) then 2 ^ 20 else u64 (Z.shiftl r 20) / p.

Lemma to_ratio_ok p r : 0 < p → to_ratio p r = Ok (ratio p r).
Proof. intros Hp. unfold to_ratio, ratio. case_decide; [done|]. by rewrite decide_False by lia. Qed.

Lemma ratio_nonneg p r : 0 < p → 0 <= ratio p r.
Proof.
  intros Hp. unfold ratio. case_decide; [done|]. apply Z.div_pos; [|done].
  pose proof (wrap_u_range 64 (Z.shiftl r 20)). lia.
Qed.

Lemma ratio_exact p r : 0 <= r < 2 ^ 44 → ratio p r = r * 2 ^ 20 / p.
Proof.
  intros Hr. unfold ratio. rewrite decide_False by (unfold RUNTIME_INF; lia).
  by rewrite Z.shiftl_mul_pow2, wrap_u_small by lia.
Qed.

Lemma ratio_unit p r : 0 < p → 0 <= r < 2 ^ 44 → r <= p → ratio p r <= 2 ^ 20.
Proof. intros. rewrite ratio_exact by done. apply Z.div_le_upper_bound; nia. Qed.

(** ** What it takes *)

Definition share_in (d : rt_schedulable_data) (s : groups) (g : nat) : Z := ratio (period_in d s g) (runtime_in d s g).

Definition most (s : groups) : Z := ratio (global_rt_period s) (global_rt_runtime s).

(** A group does not have more than its period, has something if it has real-time
    tasks, not more than the setting for all, and not less than its children. *)
Record admits_in (d : rt_schedulable_data) (s : groups) (g : nat) : Prop := {
  ad_fits : runtime_in d s g <= period_in d s g ∨ runtime_in d s g = RUNTIME_INF;
  ad_starves : rt_bandwidth_enabled s = true → tg_has_rt_tasks g s = true → runtime_in d s g ≠ 0;
  ad_most : share_in d s g <= most s;
  ad_sum : sum_of (share_in d s) (tg_children (tgs s g)) <= share_in d s g;
}.

Definition no_change : rt_schedulable_data := (None, 0, 0).

Definition share : groups → nat → Z := share_in no_change.

Definition admits : groups → nat → Prop := admits_in no_change.

Definition tg_linked (s : groups) : option nat → tree → Prop :=
  linked (λ g, tg_children (tgs s g)) (λ g, tg_parent (tgs s g)).

(** The groups of [s] form the tree [t]. *)
Record tree_ok (s : groups) (t : tree) : Prop := {
  to_linked : tg_linked s None t;
  to_root : group_of t = root_task_group;
  to_nodup : NoDup (groups_of t);
  to_count : Z.of_nat (length (groups_of t)) < 2 ^ 40;
}.

Record settings_ok (s : groups) : Prop := {
  so_period : 0 < sysctl_sched_rt_period s < 2 ^ 32;
  so_runtime : - 2 ^ 31 <= sysctl_sched_rt_runtime s < 2 ^ 31;
  so_fits : global_rt_runtime s <= global_rt_period s ∨ global_rt_runtime s = RUNTIME_INF;
}.

Lemma most_range s : settings_ok s → 0 < global_rt_period s ∧ 0 <= most s <= 2 ^ 20.
Proof.
  intros [Hp Hr Hf]. assert (0 < global_rt_period s) as Hpos.
  { unfold global_rt_period, NSEC_PER_USEC. rewrite wrap_u_small; lia. }
  split; [done|]. split; [by apply ratio_nonneg|]. unfold most. destruct Hf as [Hf|E].
  - destruct (decide (global_rt_runtime s = RUNTIME_INF)) as [->|Hn]; [done|]. apply ratio_unit; [done| |done].
    unfold global_rt_runtime, NSEC_PER_USEC in *. case_decide; [done|]. rewrite wrap_u_small; lia.
  - by rewrite E.
Qed.

(** ** Children are in the tree *)

Lemma linked_children (ch : nat → list nat) (par : nat → option nat) t : ∀ q g c,
  linked ch par q t → g ∈ groups_of t → c ∈ ch g → c ∈ groups_of t.
Proof.
  induction t as [g0 ts IH| |t ts IHt IHts] using tree_list_ind with (Q := λ ts, ∀ q g c,
    all_linked ch par q ts → g ∈ concat (map groups_of ts) → c ∈ ch g → c ∈ concat (map groups_of ts)).
  - intros q g c (_ & Hch & _ & Hl) Hg Hc. cbn [groups_of] in *. apply elem_of_cons in Hg as [->|Hg].
    + right. rewrite Hch in Hc. clear -Hc. induction ts as [|[c' ts'] ts IH]; cbn in *; set_solver.
    + right. by eapply IH.
  - intros q g c _ Hg. set_solver.
  - intros q g c [Ht Hts] Hg Hc. cbn [map concat] in *. apply elem_of_app in Hg as [Hg|Hg]; apply elem_of_app; [left|right].
    + by eapply IHt.
    + by eapply IHts.
Qed.

Lemma linked_count (ch : nat → list nat) (par : nat → option nat) t : ∀ q g,
  linked ch par q t → g ∈ groups_of t → (length (ch g) < length (groups_of t))%nat.
Proof.
  induction t as [g0 ts IH| |t ts IHt IHts] using tree_list_ind with (Q := λ ts, ∀ q g,
    all_linked ch par q ts → g ∈ concat (map groups_of ts) → (length (ch g) < length (concat (map groups_of ts)))%nat).
  - intros q g (_ & Hch & _ & Hl) Hg. cbn [groups_of length] in *. apply elem_of_cons in Hg as [->|Hg].
    + rewrite Hch. clear. induction ts as [|[c' ts'] ts IH]; cbn in *; [lia|]. rewrite length_app. lia.
    + specialize (IH g0 g Hl Hg). lia.
  - intros q g _ Hg. set_solver.
  - intros q g [Ht Hts] Hg. cbn [map concat] in *. rewrite length_app. apply elem_of_app in Hg as [Hg|Hg].
    + specialize (IHt _ _ Ht Hg). lia.
    + specialize (IHts _ _ Hts Hg). lia.
Qed.

(** ** The check of one group, and of all *)

Section check.
Variables (d : rt_schedulable_data) (s : groups) (t : tree).
Hypothesis Ht : tree_ok s t.
Hypothesis Hset : settings_ok s.
Hypothesis Hperiod : ∀ g, g ∈ groups_of t → 0 < period_in d s g.

Definition wrapped_sum (l : list nat) (a : Z) : Z := foldl (λ a g, u64 (a + share_in d s g)) a l.

Lemma sum_ratios_ok l a : (∀ g, g ∈ l → g ∈ groups_of t) → sum_ratios d s l a = Ok (wrapped_sum l a).
Proof.
  revert a. induction l as [|g l IH]; intros a Hl; [done|]. cbn [sum_ratios wrapped_sum foldl].
  rewrite to_ratio_ok by (apply Hperiod, Hl; by left). cbn [mbind res_bind]. apply IH. intros. apply Hl. by right.
Qed.

Lemma wrapped_exact l a :
  (∀ g, g ∈ l → 0 <= share_in d s g <= 2 ^ 20) → 0 <= a → a + Z.of_nat (length l) * 2 ^ 20 < 2 ^ 64 →
  wrapped_sum l a = a + sum_of (share_in d s) l.
Proof.
  revert a. induction l as [|g l IH]; intros a Hl Ha Hb; [cbn; lia|]. cbn [wrapped_sum foldl length] in *.
  pose proof (Hl g ltac:(by left)) as Hg. rewrite (wrap_u_small 64) by lia.
  change (foldl _ _ l) with (wrapped_sum l (a + share_in d s g)).
  rewrite IH, sum_of_cons; [lia|intros; apply Hl; by right|lia|lia].
Qed.

(** What is computed for one group. *)
Definition passes (g : nat) : Prop :=
  (runtime_in d s g <= period_in d s g ∨ runtime_in d s g = RUNTIME_INF) ∧
  (rt_bandwidth_enabled s = true → tg_has_rt_tasks g s = true → runtime_in d s g ≠ 0) ∧
  share_in d s g <= most s ∧ wrapped_sum (tg_children (tgs s g)) 0 <= share_in d s g.

Definition verdict (ret : Z) : Prop := ret = 0 ∨ ret = - EINVAL ∨ ret = - EBUSY.

Lemma tg_schedulable_ok g :
  g ∈ groups_of t → ∃ ret, tg_schedulable s d g = Ok ret ∧ verdict ret ∧ (ret = 0 ↔ passes g).
Proof.
  intros Hg. unfold tg_schedulable, passes. cbv zeta. pose proof (most_range s Hset) as [Hgp _].
  rewrite (to_ratio_ok (period_in d s g)), (to_ratio_ok (global_rt_period s)) by (try done; by apply Hperiod).
  rewrite sum_ratios_ok by (intros; eapply linked_children; [apply Ht|done..]). cbn [mbind res_bind].
  change (ratio (period_in d s g) (runtime_in d s g)) with (share_in d s g). fold (most s).
  assert (∀ e, e = EINVAL ∨ e = EBUSY → ∀ P : Prop, ¬ P → ∃ ret, Ok (- e) = Ok ret ∧ verdict ret ∧ (ret = 0 ↔ P)) as Hno.
  { intros e He P HP. exists (- e). split; [done|]. unfold verdict, EINVAL, EBUSY in *. split; [destruct He as [-> | ->]; auto|].
    split; [destruct He as [-> | ->]; lia|done]. }
  case_decide as H1; [apply Hno; [by left|]; intros ([?|?] & _); [lia|tauto]|].
  destruct (_ && _) eqn:E; [apply Hno; [by right|]; intros (_ & Hs & _)|].
  { apply andb_prop in E as [[Ee Er%bool_decide_eq_true]%andb_prop Eh]. by apply Hs. }
  destruct (decide (most s < share_in d s g)) as [H2|H2]; [apply Hno; [by left|]; intros (_ & _ & ? & _); lia|].
  destruct (decide (_ < _)) as [H3|H3]; [apply Hno; [by left|]; intros (_ & _ & _ & ?); lia|].
  exists 0. split; [done|]. split; [by left|]. split; [intros _|done]. split; [lia|]. split; [|lia].
  intros Ee Eh Er. rewrite Ee, Eh, bool_decide_true in E by done. done.
Qed.

Lemma visit_verdict l :
  (∀ g, g ∈ l → g ∈ groups_of t) → ∃ ret,
  visit_seq (λ g u, ret ← tg_schedulable s d g; Ok (ret, u)) l tt = Ok (ret, tt) ∧ verdict ret ∧ (ret = 0 ↔ Forall passes l).
Proof.
  induction l as [|g l IH]; intros Hl; [exists 0; split_and!; [done|by left|done]|]. cbn [visit_seq foldr]. unfold unless at 1.
  destruct (tg_schedulable_ok g) as (ret & -> & Hv & Hp); [apply Hl; by left|]. cbn [mbind res_bind].
  destruct IH as (ret' & E & Hv' & Hp'); [intros; apply Hl; by right|].
  destruct (decide (ret ≠ 0)) as [Hr|Hr].
  - exists ret. split; [done|]. split; [done|]. rewrite list.Forall_cons, <- Hp. tauto.
  - exists ret'. split; [exact E|]. split; [done|]. rewrite list.Forall_cons, <- Hp, <- Hp'. lia.
Qed.

(** Sums of small shares do not wrap. *)
Lemma passes_admits : Forall passes (groups_of t) ↔ Forall (admits_in d s) (groups_of t).
Proof.
  pose proof (most_range s Hset) as [_ Hmost].
  assert (∀ g, g ∈ groups_of t → 0 <= share_in d s g) as Hpos by (intros; by apply ratio_nonneg, Hperiod).
  assert ((∀ g, g ∈ groups_of t → share_in d s g <= most s) → ∀ g, g ∈ groups_of t →
    wrapped_sum (tg_children (tgs s g)) 0 = sum_of (share_in d s) (tg_children (tgs s g))) as Hsum.
  { intros Hle g Hg. rewrite wrapped_exact; [lia| |lia|].
    - intros c Hc. assert (c ∈ groups_of t) as Hc' by (eapply linked_children; [apply Ht|done..]).
      specialize (Hle c Hc'). specialize (Hpos c Hc'). lia.
    - pose proof (linked_count _ _ t None g (to_linked _ _ Ht) Hg) as Hlen. pose proof (to_count _ _ Ht). lia. }
  rewrite !list.Forall_forall. split; intros Hall g Hg.
  - destruct (Hall g Hg) as (? & ? & ? & Hs). split; try done. rewrite <- Hsum; [done| |done].
    intros c Hc. by apply (Hall c Hc).
  - destruct (Hall g Hg) as [? ? ? Hs]. split_and!; try done. rewrite Hsum; [done| |done].
    intros c Hc. by apply (Hall c Hc).
Qed.

Lemma rt_schedulable_ok fuel :
  (walk_cost t <= fuel)%nat → ∃ ret,
  __rt_schedulable fuel d s = Ok ret ∧ verdict ret ∧ (ret = 0 ↔ Forall (admits_in d s) (groups_of t)).
Proof.
  intros Hf. unfold __rt_schedulable.
  destruct (visit_verdict (groups_of t)) as (ret & E & Hv & Hp); [done|].
  rewrite (walk_whole _ _ _ _ _ t), (visit_preorder _ tg_nop), E by (try done; by apply Ht).
  exists ret. split; [done|]. split; [done|]. by rewrite Hp, passes_admits.
Qed.

(** So too when it is known to have ended, whatever bound it was given. *)
Lemma rt_schedulable_ended fuel ret :
  __rt_schedulable fuel d s = Ok ret → verdict ret ∧ (ret = 0 ↔ Forall (admits_in d s) (groups_of t)).
Proof.
  intros ([ret1 u] & E & [= <-])%bind_ok. destruct (rt_schedulable_ok (fuel + walk_cost t)) as (ret2 & E2 & Hv); [lia|].
  unfold __rt_schedulable, walk_tg_tree in E2. rewrite (walk_more _ _ _ _ _ _ _ _ _ E) in E2.
  cbn [mbind res_bind] in E2. by injection E2 as ->.
Qed.

End check.

(** ** A change *)

(** What admission reads is that of [s] with the change [d] made. *)
Record reads_as (d : rt_schedulable_data) (s s' : groups) : Prop := {
  ra_period g : period_in no_change s' g = period_in d s g;
  ra_runtime g : runtime_in no_change s' g = runtime_in d s g;
  ra_children g : tg_children (tgs s' g) = tg_children (tgs s g);
  ra_parent g : tg_parent (tgs s' g) = tg_parent (tgs s g);
  ra_settings : sysctl_sched_rt_period s' = sysctl_sched_rt_period s ∧ sysctl_sched_rt_runtime s' = sysctl_sched_rt_runtime s;
  ra_threads : threads s' = threads s;
}.

Lemma reads_as_admits d s s' g : reads_as d s s' → admits_in d s g ↔ admits s' g.
Proof.
  intros [Hp Hr Hc _ [E1 E2] Hth].
  assert (∀ h, share s' h = share_in d s h) as Hs by (intros h; unfold share, share_in; by rewrite Hp, Hr).
  assert (most s' = most s) as Hm by (unfold most, global_rt_period, global_rt_runtime; by rewrite E1, E2).
  assert (rt_bandwidth_enabled s' = rt_bandwidth_enabled s ∧ tg_has_rt_tasks g s' = tg_has_rt_tasks g s) as [He Ht]
    by (unfold rt_bandwidth_enabled, tg_has_rt_tasks; by rewrite E2, Hth).
  assert (sum_of (share s') (tg_children (tgs s' g)) = sum_of (share_in d s) (tg_children (tgs s g))) as Hsum
    by (rewrite Hc; by apply sum_of_ext).
  split; intros [H1 H2 H3 H4]; split; unfold share in *;
    rewrite ?Hp, ?Hr, ?He, ?Ht, ?Hs, ?Hm, ?Hsum in *; try done; by rewrite <- ?Hs, <- ?Hsum, <- ?Hm.
Qed.

Lemma linked_ext (ch ch' : nat → list nat) (par par' : nat → option nat) t : ∀ q,
  (∀ g, g ∈ groups_of t → ch' g = ch g ∧ par' g = par g) → linked ch par q t → linked ch' par' q t.
Proof.
  induction t as [g ts IH| |t ts IHt IHts] using tree_list_ind with (Q := λ ts, ∀ q,
    (∀ g, g ∈ concat (map groups_of ts) → ch' g = ch g ∧ par' g = par g) → all_linked ch par q ts → all_linked ch' par' q ts).
  - intros q E (Hp & Hc & Hn & Hl). cbn [linked]. destruct (E g) as [-> ->]; [by left|]. split_and!; try done.
    apply IH; [|done]. intros h Hh. apply E. by right.
  - done.
  - intros q E [Ht Hts]. cbn [map concat] in E. split; [apply IHt|apply IHts]; try done; intros g Hg; apply E; set_solver.
Qed.

Lemma tree_ok_ext s s' t :
  (∀ g, g ∈ groups_of t → tg_children (tgs s' g) = tg_children (tgs s g) ∧ tg_parent (tgs s' g) = tg_parent (tgs s g)) →
  tree_ok s t → tree_ok s' t.
Proof. intros E [Hl ? ? ?]. split; try done. by eapply linked_ext, Hl. Qed.

Lemma ktime_round_trip ns : 0 <= ns < 2 ^ 64 → ktime_to_ns (ns_to_ktime ns) = ns.
Proof.
  intros Hns. unfold ktime_to_ns, ns_to_ktime, wrap_u, wrap_s.
  pose proof (Z.div_mod (ns + 2 ^ (64 - 1)) (2 ^ 64) ltac:(lia)) as E.
  replace ((ns + 2 ^ (64 - 1)) mod 2 ^ 64 - 2 ^ (64 - 1)) with (ns + (- ((ns + 2 ^ (64 - 1)) / 2 ^ 64)) * 2 ^ 64) by lia.
  by rewrite Z.mod_add, Z.mod_small by lia.
Qed.

Lemma tgs_upd g f s h : tgs (upd_tg g f s) h = if decide (h = g) then f (tgs s g) else tgs s h.
Proof.
  cbn. unfold insert, fn_insert. case_decide as E; [subst; by rewrite decide_True|].
  by rewrite decide_False by congruence.
Qed.

Section requests.
Context `{GroupEnv}.

(** Everything but the runtimes of the processors. *)
Definition tg_rest (t : task_group) := (tg_period t, tg_runtime t, tg_timer t, tg_parent t, tg_children t,
  (tg_cfs_rq t, tg_se t, tg_rt_rq t, tg_rt_se t)).

Lemma cpu_runtimes_tgs l g z : ∀ s h, let s' := foldl (λ s i, upd_tg g (set_cpu_runtime i z) s) s l in
  tg_rest (tgs s' h) = tg_rest (tgs s h) ∧ (h ≠ g → tgs s' h = tgs s h) ∧
  ∀ i, tg_cpu_runtime (tgs s' g) i = if decide (i ∈ l) then z else tg_cpu_runtime (tgs s g) i.
Proof.
  induction l as [|i l IH]; intros s h; cbn [foldl]; [split_and!; [done|done|]; intros j; by rewrite decide_False by set_solver|].
  destruct (IH (upd_tg g (set_cpu_runtime i z) s) h) as (E1 & E2 & E3). split_and!.
  - etransitivity; [exact E1|]. rewrite tgs_upd. by case_decide; subst.
  - intros Hh. etransitivity; [by apply E2|]. by rewrite tgs_upd, decide_False.
  - intros j. etransitivity; [apply E3|]. rewrite tgs_upd, (decide_True (P := g = g)) by done. cbn [tg_cpu_runtime set_cpu_runtime].
    unfold insert, fn_insert. repeat case_decide; try done; set_solver.
Qed.

(** The rest of the state. *)
Definition groups_rest (s : groups) := (task_groups s, rcu_callbacks s, heap s, outcomes s, raw_cancel s,
  (sysctl_sched_rt_period s, sysctl_sched_rt_runtime s, def_rt_period s, def_rt_runtime s, threads s)).

Lemma cpu_runtimes_rest l g z : ∀ s, groups_rest (foldl (λ s i, upd_tg g (set_cpu_runtime i z) s) s l) = groups_rest s.
Proof. induction l as [|i l IH]; intros s; cbn [foldl]; [done|]. by rewrite IH. Qed.

(** What the request sets. *)
Record bandwidth_set (g : nat) (p r : Z) (s s' : groups) : Prop := {
  bs_period : ktime_to_ns (tg_period (tgs s' g)) = p;
  bs_runtime : tg_runtime (tgs s' g) = r;
  bs_cpus i : (i < nr_cpus)%nat → tg_cpu_runtime (tgs s' g) i = r;
  bs_links : (tg_timer (tgs s' g), tg_parent (tgs s' g), tg_children (tgs s' g)) =
    (tg_timer (tgs s g), tg_parent (tgs s g), tg_children (tgs s g)) ∧
    (tg_cfs_rq (tgs s' g), tg_se (tgs s' g), tg_rt_rq (tgs s' g), tg_rt_se (tgs s' g)) =
    (tg_cfs_rq (tgs s g), tg_se (tgs s g), tg_rt_rq (tgs s g), tg_rt_se (tgs s g));
  bs_others h : h ≠ g → tgs s' h = tgs s h;
  bs_rest : groups_rest s' = groups_rest s;
}.

Lemma bandwidth_is_set g p r s :
  0 <= p < 2 ^ 64 →
  bandwidth_set g p r s (set_cpu_runtimes g r (upd_tg g (λ t, set_bandwidth (ns_to_ktime p) r (tg_timer t) t) s)).
Proof.
  intros Hp. unfold set_cpu_runtimes. set (s1 := upd_tg g _ s). pose proof (cpu_runtimes_tgs possible_cpus g r s1) as Hc.
  cbv zeta in Hc. destruct (Hc g) as (Er & _ & Ec). unfold s1 in Er at 2. rewrite tgs_upd, decide_True in Er by done.
  injection Er as E1 E2 E3 E4 E5 E6 E7 E8 E9. split.
  - rewrite E1. cbn. by apply ktime_round_trip.
  - by rewrite E2.
  - intros i Hi. rewrite Ec, decide_True; [done|]. apply elem_of_seq. lia.
  - rewrite E3, E4, E5, E6, E7, E8, E9. done.
  - intros h Hh. destruct (Hc h) as (_ & E & _). rewrite E by done. unfold s1. by rewrite tgs_upd, decide_False.
  - by rewrite cpu_runtimes_rest.
Qed.

Lemma set_reads_as g p r s s' : bandwidth_set g p r s s' → reads_as (Some g, p, r) s s'.
Proof.
  intros [Hp Hr _ [Hl _] Ho Hrest]. injection Hl as _ Epar Ech. injection Hrest as _ _ _ _ _ E1 E2 _ _ E3.
  assert (∀ h, h = g ∨ h ≠ g ∧ tgs s' h = tgs s h) as Hcase by (intros h; destruct (decide (h = g)); auto).
  split; try done; intros h; destruct (Hcase h) as [-> |[Hn E]]; unfold period_in, runtime_in; cbn [fst snd no_change];
    rewrite ?decide_False, ?E by (try done; congruence); rewrite ?decide_True by done; try done.
Qed.


End requests.
