(* ===== verification/TgMemory.v ===== *)
(** * Groups are made and freed whole (sched.c, src/indwriterups/project1)

    A group is a block and four arrays of blocks, one pair for each processor.
    Making a group either succeeds or gives back whatever it had allocated, and
    freeing a group gives back each of its blocks once. *)

From S2P Require Import Prelude RtState SchedCore TgWalk TaskGroup TgAdmit.

Local Open Scope Z_scope.

(** ** Blocks *)

Definition arr_blocks (a : option array) : list nat :=
  match a with None => [] | Some (b, l) => b :: omap id l end.

Definition tg_blocks (g : nat) (t : task_group) : list nat :=
  g :: arr_blocks (tg_cfs_rq t) ++ arr_blocks (tg_se t) ++ arr_blocks (tg_rt_rq t) ++ arr_blocks (tg_rt_se t).

Lemma omap_insert_none (l : list (option nat)) i p :
  l !! i = Some None → omap id (<[i := Some p]> l) ≡ₚ p :: omap id l.
Proof.
  revert i. induction l as [|x l IH]; intros [|i] Hi; cbn in *; [done|done| |].
  - by injection Hi as ->.
  - destruct x; cbn; [rewrite IH by done; apply perm_swap|by apply IH].
Qed.

Definition free_slot (a : option array) (i : nat) : Prop := ∃ b l, a = Some (b, l) ∧ l !! i = Some None.

Lemma arr_set_blocks a i p : free_slot a i → arr_blocks (arr_set i p a) ≡ₚ p :: arr_blocks a.
Proof.
  intros (b & l & -> & Hi). cbn. rewrite omap_insert_none by done. apply perm_swap.
Qed.

Lemma arr_set_slot a i j p : i ≠ j → free_slot a j → free_slot (arr_set i p a) j.
Proof. intros Hij (b & l & -> & Hj). exists b, (<[i := Some p]> l). split; [done|]. by rewrite list_lookup_insert_ne. Qed.

Section memory.
Context `{GroupEnv}.

Definition arr_shape (a : option array) : Prop := ∀ b l, a = Some (b, l) → length l = nr_cpus.

Lemma arr_set_shape a i p : arr_shape a → arr_shape (arr_set i p a).
Proof. intros Ha b l. destruct a as [[b' l']|]; [|done]. intros [= <- <-]. rewrite length_insert. by eapply Ha. Qed.

Lemma new_array_blocks p : arr_blocks (new_array p) = match p with Some b => [b] | None => [] end.
Proof. destruct p; [|done]. cbn. f_equal. by induction nr_cpus. Qed.

Lemma new_array_shape p : arr_shape (new_array p).
Proof. intros b l. destruct p; [|done]. intros [= _ <-]. apply length_replicate. Qed.

Lemma new_array_slot b i : (i < nr_cpus)%nat → free_slot (new_array (Some b)) i.
Proof. intros Hi. exists b, (replicate nr_cpus None). split; [done|]. by apply lookup_replicate_2. Qed.

(** ** Freeing *)

Fixpoint kfrees (l : list (option nat)) (s : groups) : res groups :=
  match l with [] => Ok s | p :: l' => s ← kfree p s; kfrees l' s end.

Lemma kfrees_app l1 l2 s : kfrees (l1 ++ l2) s = s ← kfrees l1 s; kfrees l2 s.
Proof.
  revert s. induction l1 as [|p l1 IH]; intros s; [done|]. cbn [app kfrees].
  destruct (kfree p s); cbn [mbind res_bind]; [apply IH|done..].
Qed.

Definition without (l : list nat) (s : groups) : groups := set_memory (heap s ∖ list_to_set l) (outcomes s) s.

Lemma without_nil s : without [] s = s.
Proof. unfold without. destruct s. unfold set_memory. cbn. f_equal. set_solver. Qed.

Lemma without_one a s : set_memory (heap s ∖ {[a]}) (outcomes s) s = without [a] s.
Proof. unfold without, set_memory. f_equal. set_solver. Qed.

Lemma without_without l1 l2 s : without l2 (without l1 s) = without (l1 ++ l2) s.
Proof. unfold without, set_memory. cbn. f_equal. set_solver. Qed.

Lemma kfrees_ok l s :
  NoDup (omap id l) → (∀ a, a ∈ omap id l → a ∈ heap s) → kfrees l s = Ok (without (omap id l) s).
Proof.
  revert s. induction l as [|[a|] l IH]; intros s Hn Hin; [by rewrite without_nil| |by apply IH].
  cbn in Hn, Hin |- *. apply list.NoDup_cons in Hn as [Ha Hn]. rewrite decide_True by (apply Hin; by left). cbn [mbind res_bind].
  rewrite without_one, IH; [by rewrite without_without|done|].
  intros b Hb. unfold without. cbn. assert (b ≠ a) by (intros ->; done). specialize (Hin b). set_solver.
Qed.

(** The pointers in an array. *)
Definition arr_entries (a : option array) : list (option nat) := map (arr_at a) possible_cpus.

Lemma arr_entries_list a :
  arr_shape a → arr_entries a = match a with Some (_, l) => l | None => replicate nr_cpus None end.
Proof.
  intros Ha. unfold arr_entries, possible_cpus. change (map (arr_at a) ?l) with (arr_at a <$> l). apply list_eq. intros i.
  rewrite list_lookup_fmap. destruct (decide (i < nr_cpus)%nat) as [Hi|Hi].
  - rewrite lookup_seq_lt by done. cbn. destruct a as [[b l]|]; cbn.
    + pose proof (Ha b l eq_refl). destruct (l !! i) as [x|] eqn:E; [by destruct x|]. apply lookup_ge_None in E. lia.
    + by rewrite lookup_replicate_2.
  - rewrite lookup_seq_ge by lia. cbn. symmetry. apply lookup_ge_None. destruct a as [[b l]|].
    + rewrite (Ha b l eq_refl). lia.
    + rewrite length_replicate. lia.
Qed.

Lemma arr_freed a : arr_shape a → omap id (arr_block a :: arr_entries a) = arr_blocks a.
Proof.
  intros Ha. cbn [omap list_omap]. rewrite arr_entries_list by done. destruct a as [[b l]|]; [done|]. cbn. by induction nr_cpus.
Qed.

Lemma free_entries_kfrees rq se cpus s :
  free_entries rq se cpus s = kfrees (concat (map (λ i, [arr_at rq i; arr_at se i]) cpus)) s.
Proof.
  revert s. induction cpus as [|i cpus IH]; intros s; [done|]. cbn [free_entries map concat app kfrees].
  destruct (kfree (arr_at rq i) s) as [s1| |]; cbn [mbind res_bind]; [|done..].
  destruct (kfree (arr_at se i) s1) as [s2| |]; cbn [mbind res_bind]; [apply IH|done..].
Qed.

Lemma zipped_entries (f g : nat → option nat) l :
  concat (map (λ i, [f i; g i]) l) ≡ₚ map f l ++ map g l.
Proof.
  induction l as [|i l IH]; [done|]. cbn [map concat app]. rewrite IH.
  apply Permutation_cons; [done|]. by rewrite (Permutation_middle (map f l) (map g l) (g i)).
Qed.

(** What the two halves of [free_sched_group] free. *)
Definition freed (rq se : option array) : list (option nat) :=
  concat (map (λ i, [arr_at rq i; arr_at se i]) possible_cpus) ++ [arr_block rq; arr_block se].

Lemma freed_blocks rq se : arr_shape rq → arr_shape se → omap id (freed rq se) ≡ₚ arr_blocks rq ++ arr_blocks se.
Proof.
  intros Hr Hs. rewrite <- (arr_freed rq), <- (arr_freed se), <- omap_app by done. apply omap_Permutation.
  unfold freed. rewrite zipped_entries. change (map (arr_at rq) possible_cpus) with (arr_entries rq).
  change (map (arr_at se) possible_cpus) with (arr_entries se). solve_Permutation.
Qed.

Lemma free_fair_ok g s :
  let t := tgs s g in let l := freed (tg_cfs_rq t) (tg_se t) in
  free_fair_sched_group g s = kfrees l s.
Proof.
  cbv zeta. unfold free_fair_sched_group, freed. cbv zeta. rewrite free_entries_kfrees, kfrees_app.
  destruct (kfrees _ s) as [s1| |]; cbn [mbind res_bind]; [|done..]. cbn [kfrees].
  destruct (kfree (arr_block (tg_cfs_rq (tgs s g))) s1) as [s2| |]; cbn [mbind res_bind]; [|done..]. by destruct (kfree _ s2).
Qed.

Lemma free_rt_ok g s :
  let t := tgs s g in let l := freed (tg_rt_rq t) (tg_rt_se t) in
  free_rt_sched_group g s = kfrees l (destroy_rt_bandwidth g s).
Proof.
  cbv zeta. unfold free_rt_sched_group, freed. cbv zeta. rewrite free_entries_kfrees, kfrees_app.
  destruct (kfrees _ (destroy_rt_bandwidth g s)) as [s1| |]; cbn [mbind res_bind]; [|done..]. cbn [kfrees].
  destruct (kfree (arr_block (tg_rt_rq (tgs s g))) s1) as [s2| |]; cbn [mbind res_bind]; [|done..]. by destruct (kfree _ s2).
Qed.

(** ** A group under construction *)

(** What making a group leaves alone. *)
Definition outer (s : groups) := (task_groups s, rcu_callbacks s, sysctl_sched_rt_period s, sysctl_sched_rt_runtime s,
  (def_rt_period s, def_rt_runtime s, threads s)).

Definition shaped (t : task_group) : Prop :=
  arr_shape (tg_cfs_rq t) ∧ arr_shape (tg_se t) ∧ arr_shape (tg_rt_rq t) ∧ arr_shape (tg_rt_se t).

Definition unused (t : task_group) : Prop := tg_runtime t = 0 ∧ ∀ i, tg_cpu_runtime t i = 0.

(** [extra] are blocks allocated for the group [g] that it does not point to yet;
    [s0] is the state before. *)
Record building (g : nat) (extra : list nat) (s0 s : groups) : Prop := {
  bd_heap a : a ∈ heap s ↔ a ∈ heap s0 ∨ a ∈ extra ++ tg_blocks g (tgs s g);
  bd_new a : a ∈ extra ++ tg_blocks g (tgs s g) → (a ∉ heap s0) ∧ a ≠ root_task_group;
  bd_nodup : NoDup (extra ++ tg_blocks g (tgs s g));
  bd_shaped : shaped (tgs s g);
  bd_unused : unused (tgs s g);
  bd_others h : h ≠ g → tgs s h = tgs s0 h;
  bd_outer : outer s = outer s0;
}.

Lemma kzalloc_cases s :
  (∃ a o, kzalloc s = (Some a, set_memory ({[a]} ∪ heap s) o s) ∧ (a ∉ heap s) ∧ a ≠ root_task_group) ∨
  (∃ o, kzalloc s = (None, set_memory (heap s) o s)).
Proof.
  unfold kzalloc. destruct (outcomes s) as [|[|] o] eqn:E.
  - right. exists []. f_equal. destruct s. cbn in *. by rewrite E.
  - left. set (a := fresh _). exists a, o. split; [done|].
    pose proof (is_fresh ({[root_task_group]} ∪ heap s)) as Hf. fold a in Hf. set_solver.
  - right. by exists o.
Qed.

Lemma building_memory g extra s0 s o :
  building g extra s0 s → building g extra s0 (set_memory (heap s) o s).
Proof. by intros []. Qed.

Lemma building_alloc g extra s0 s a o :
  building g extra s0 s → a ∉ heap s → a ≠ root_task_group →
  building g (a :: extra) s0 (set_memory ({[a]} ∪ heap s) o s).
Proof.
  intros [Hh Hn Hd ? ? ? ?] Ha Hr. split; try done; cbn [app].
  - intros b. cbn. specialize (Hh b). set_solver.
  - intros b [->|Hb]%elem_of_cons; [|by apply Hn]. split; [|done]. specialize (Hh a). tauto.
  - apply list.NoDup_cons. split; [|done]. specialize (Hh a). tauto.
Qed.

(** Pointers to the extra blocks are stored. *)
Lemma building_store g extra s0 s s1 :
  building g extra s0 s → heap s1 = heap s → outer s1 = outer s → (∀ h, h ≠ g → tgs s1 h = tgs s h) →
  tg_blocks g (tgs s1 g) ≡ₚ extra ++ tg_blocks g (tgs s g) → shaped (tgs s1 g) → unused (tgs s1 g) →
  building g [] s0 s1.
Proof.
  intros [Hh Hn Hd _ _ Ho Hout] Eh Eo Ht Hp Hs Hz.
  split; rewrite ?Eh, ?Eo; cbn [app]; try done.
  - intros a. rewrite Hp. apply Hh.
  - intros a. rewrite Hp. apply Hn.
  - by rewrite Hp.
  - intros h Hne. by rewrite Ht; auto.
Qed.

Lemma building_kfree g a s0 s :
  building g [a] s0 s → ∃ s', kfree (Some a) s = Ok s' ∧ building g [] s0 s'.
Proof.
  intros [Hh Hn Hd ? ? ? ?]. unfold kfree. rewrite decide_True by (apply Hh; set_solver). eexists. split; [reflexivity|].
  cbn [app] in *. apply list.NoDup_cons in Hd as [Ha Hd]. split; try done; cbn [app].
  - intros b. cbn. specialize (Hh b). specialize (Hn b). set_solver.
  - intros b Hb. apply Hn. by right.
Qed.

(** ** The loops *)

(** What building keeps. *)
Definition kept (t : task_group) := (tg_period t, tg_timer t, tg_parent t, tg_children t).

(** [init] stores its blocks in the arrays [A] and [B] of [g], and leaves the
    arrays [C] alone. *)
Record stores (g : nat) (A B : task_group → option array) (C : task_group → option array * option array) (init : nat → nat → nat → groups → groups) : Prop := {
  st_frame rq e i s : heap (init rq e i s) = heap s ∧ outer (init rq e i s) = outer s ∧
    (∀ h, h ≠ g → tgs (init rq e i s) h = tgs s h) ∧ kept (tgs (init rq e i s) g) = kept (tgs s g);
  st_blocks rq e i s : free_slot (A (tgs s g)) i → free_slot (B (tgs s g)) i →
    tg_blocks g (tgs (init rq e i s) g) ≡ₚ e :: rq :: tg_blocks g (tgs s g);
  st_shaped rq e i s : shaped (tgs s g) → shaped (tgs (init rq e i s) g);
  st_unused rq e i s : unused (tgs s g) → unused (tgs (init rq e i s) g);
  st_first rq e i s : A (tgs (init rq e i s) g) = arr_set i rq (A (tgs s g));
  st_rest rq e i s : C (tgs (init rq e i s) g) = C (tgs s g);
  st_second rq e i s : B (tgs (init rq e i s) g) = arr_set i e (B (tgs s g));
}.

Definition filled (a : option array) (i : nat) : Prop := arr_at a i ≠ None.

Lemma arr_set_filled a i p : free_slot a i → filled (arr_set i p a) i.
Proof.
  intros (b & l & -> & Hi). unfold filled. cbn. rewrite list_lookup_insert_eq; [done|]. by apply lookup_lt_Some in Hi.
Qed.

Lemma arr_set_keeps a i j p : filled a j → filled (arr_set i p a) j.
Proof.
  unfold filled, arr_at. destruct a as [[b l]|]; [|done]. cbn. destruct (decide (i = j)) as [->|Hn].
  - destruct (decide (j < length l)%nat).
    + by rewrite list_lookup_insert_eq.
    + by rewrite list_insert_ge by lia.
  - by rewrite list_lookup_insert_ne.
Qed.

Lemma alloc_entries_ok g A B C init s0 cpus :
  stores g A B C init → ∀ s, NoDup cpus → building g [] s0 s →
  (∀ i, i ∈ cpus → free_slot (A (tgs s g)) i ∧ free_slot (B (tgs s g)) i) →
  ∃ ok s', alloc_entries init cpus s = Ok (ok, s') ∧ building g [] s0 s' ∧ kept (tgs s' g) = kept (tgs s g) ∧
    C (tgs s' g) = C (tgs s g) ∧ ∀ i, (ok = true ∧ i ∈ cpus) ∨ (filled (A (tgs s g)) i ∧ filled (B (tgs s g)) i) →
      filled (A (tgs s' g)) i ∧ filled (B (tgs s' g)) i.
Proof.
  intros Hst. induction cpus as [|i cpus IH]; intros s Hnd Hb Hfree; cbn [alloc_entries].
  { exists true, s. split_and!; [done..|]. intros i [[_ Hi]|]; [set_solver|done]. }
  apply list.NoDup_cons in Hnd as [Hi Hnd].
  destruct (kzalloc_cases s) as [(rq & o & -> & Hrq & Hr0)|(o & ->)].
  2: { exists false. eexists. split; [reflexivity|]. split; [by apply building_memory|]. split; [done|]. split; [done|]. by intros j [[? _]|]. }
  pose proof (building_alloc g [] s0 s rq o Hb Hrq Hr0) as Hb1. set (s1 := set_memory _ o s) in *.
  assert (tgs s1 = tgs s) as E1 by done. clearbody s1.
  destruct (kzalloc_cases s1) as [(e & o1 & -> & He & He0)|(o1 & ->)].
  2: { destruct (building_kfree g rq s0 _ (building_memory g [rq] s0 s1 o1 Hb1)) as (s2 & E2 & Hb2).
       rewrite E2. cbn [mbind res_bind]. unfold kfree in E2. case_decide; [|done]. injection E2 as <-.
       eexists false, _. split; [reflexivity|]. split; [done|]. cbn. rewrite E1. split; [done|]. split; [done|]. by intros j [[? _]|]. }
  pose proof (building_alloc g [rq] s0 s1 e o1 Hb1 He He0) as Hb2. set (s2 := set_memory _ o1 s1) in *.
  assert (tgs s2 = tgs s) as E2 by (rewrite <- E1; done). clearbody s2.
  destruct (Hfree i ltac:(by left)) as [Hfa Hfb]. rewrite <- E2 in Hfa, Hfb.
  destruct (st_frame _ _ _ _ _ Hst rq e i s2) as (Fh & Fo & Ft & Fk).
  assert (building g [] s0 (init rq e i s2)) as Hb3.
  { eapply building_store; [exact Hb2|done|done|done| | |].
    - cbn [app]. by apply Hst.
    - apply Hst, Hb2.
    - apply Hst, Hb2. }
  destruct (IH (init rq e i s2) Hnd Hb3) as (ok & s' & E & Hb' & Hk' & Hc' & Hfill).
  { intros j Hj. rewrite (st_first _ _ _ _ _ Hst), (st_second _ _ _ _ _ Hst), E2.
    destruct (Hfree j ltac:(by right)). assert (i ≠ j) by (intros ->; done). split; by apply arr_set_slot. }
  exists ok, s'. split; [done|]. split; [done|]. split; [by rewrite Hk', Fk, E2|].
  split; [by rewrite Hc', (st_rest _ _ _ _ _ Hst), E2|]. intros j Hj. apply Hfill.
  rewrite (st_first _ _ _ _ _ Hst), (st_second _ _ _ _ _ Hst). rewrite E2.
  destruct Hj as [[-> Hj]|[Ha Hb4]]; [|right; split; by apply arr_set_keeps].
  apply elem_of_cons in Hj as [->|Hj]; [|by left]. right. rewrite E2 in Hfa, Hfb. split; by apply arr_set_filled.
Qed.

Lemma tgs_upd_same g f s : tgs (upd_tg g f s) g = f (tgs s g).
Proof. by rewrite tgs_upd, decide_True. Qed.

Lemma tgs_upd_other g f s h : h ≠ g → tgs (upd_tg g f s) h = tgs s h.
Proof. intros Hh. by rewrite tgs_upd, decide_False. Qed.

Definition fair_arrays (t : task_group) := (tg_cfs_rq t, tg_se t).
Definition rt_arrays (t : task_group) := (tg_rt_rq t, tg_rt_se t).

Lemma stores_cfs g : stores g tg_cfs_rq tg_se rt_arrays (init_tg_cfs_entry g).
Proof.
  unfold init_tg_cfs_entry. split; intros; rewrite ?tgs_upd_same; try done.
  - split_and!; [done|done|by intros; apply tgs_upd_other|done].
  - unfold tg_blocks. cbn [set_fair tg_cfs_rq tg_se tg_rt_rq tg_rt_se]. rewrite !arr_set_blocks by done. solve_Permutation.
  - destruct H0 as (? & ? & ? & ?). by split_and!; try apply arr_set_shape.
Qed.

Lemma stores_rt g : stores g tg_rt_rq tg_rt_se fair_arrays (init_tg_rt_entry g).
Proof.
  unfold init_tg_rt_entry. cbv zeta. split; intros; rewrite ?tgs_upd_same; try done.
  - split_and!; [done|done|intros; by rewrite !tgs_upd_other|done].
  - unfold tg_blocks. cbn [set_rt_arrays set_cpu_runtime tg_cfs_rq tg_se tg_rt_rq tg_rt_se].
    rewrite !arr_set_blocks by done. solve_Permutation.
  - destruct H0 as (? & ? & ? & ?). by split_and!; try apply arr_set_shape.
  - destruct H0 as [Hr Hc]. split; [done|]. intros j. cbn. unfold insert, fn_insert. by case_decide.
Qed.

(** A new array is stored in a field that was empty. *)
Lemma building_array g p s0 s s1 :
  building g (match p with Some a => [a] | None => [] end) s0 s →
  heap s1 = heap s → outer s1 = outer s → (∀ h, h ≠ g → tgs s1 h = tgs s h) →
  tg_blocks g (tgs s1 g) ≡ₚ arr_blocks (new_array p) ++ tg_blocks g (tgs s g) →
  shaped (tgs s1 g) → unused (tgs s1 g) → building g [] s0 s1.
Proof.
  intros Hb Eh Eo Ht Hp Hs Hu. eapply building_store; [done..| |done|done].
  rewrite Hp, new_array_blocks. done.
Qed.

Lemma kzalloc_building g s0 s :
  building g [] s0 s → ∃ p s1, kzalloc s = (p, s1) ∧ tgs s1 = tgs s ∧ def_rt_period s1 = def_rt_period s ∧
    building g (match p with Some a => [a] | None => [] end) s0 s1.
Proof.
  intros Hb. destruct (kzalloc_cases s) as [(a & o & -> & Ha & Hr)|(o & ->)]; eexists _, _; split_and!; try done.
  - by apply building_alloc.
  - by apply building_memory.
Qed.

Lemma possible_slots a b i : i ∈ possible_cpus → free_slot (new_array (Some a)) i ∧ free_slot (new_array (Some b)) i.
Proof. intros [_ Hi]%elem_of_seq. split; by apply new_array_slot. Qed.

Lemma alloc_fair_ok g s0 s :
  building g [] s0 s → fair_arrays (tgs s g) = (None, None) → rt_arrays (tgs s g) = (None, None) →
  ∃ ok s', alloc_fair_sched_group g s = Ok (ok, s') ∧ building g [] s0 s' ∧ rt_arrays (tgs s' g) = (None, None) ∧
    kept (tgs s' g) = kept (tgs s g) ∧
    (ok = true → ∀ i, (i < nr_cpus)%nat → filled (tg_cfs_rq (tgs s' g)) i ∧ filled (tg_se (tgs s' g)) i).
Proof.
  intros Hb [= Hn1 Hn2] [= Hn3 Hn4]. unfold alloc_fair_sched_group.
  destruct (kzalloc_building g s0 s Hb) as (a & s1 & -> & E1 & _ & Hb1). pose proof (bd_shaped _ _ _ _ Hb) as (? & ? & ? & ?).
  pose proof (bd_unused _ _ _ _ Hb) as [Hu1 Hu2].
  set (s2 := upd_tg g _ s1).
  assert (tgs s2 g = set_fair (new_array a) None (tgs s g)) as E2 by (unfold s2; by rewrite tgs_upd_same, E1, Hn2).
  assert (building g [] s0 s2) as Hb2.
  { eapply building_array; [exact Hb1|done|done|by intros; apply tgs_upd_other|..]; rewrite E2, ?E1.
    - unfold tg_blocks. cbn [set_fair tg_cfs_rq tg_se tg_rt_rq tg_rt_se]. rewrite Hn1, Hn2, Hn3, Hn4. cbn [arr_blocks app].
      rewrite app_nil_r. apply Permutation_cons_append.
    - split_and!; try done. apply new_array_shape.
    - done. }
  clearbody s2. case_decide as Ha.
  { exists false, s2. rewrite E2. split_and!; try done. unfold rt_arrays. cbn. congruence. }
  destruct a as [a|]; [|done].
  destruct (kzalloc_building g s0 s2 Hb2) as (b & s3 & -> & E3 & _ & Hb3).
  set (s4 := upd_tg g _ s3).
  assert (tgs s4 g = set_fair (new_array (Some a)) (new_array b) (tgs s g)) as E4 by (unfold s4; by rewrite tgs_upd_same, E3, E2).
  assert (building g [] s0 s4) as Hb4.
  { eapply building_array; [exact Hb3|done|done|by intros; apply tgs_upd_other|..]; rewrite E4, ?E3, ?E2.
    - unfold tg_blocks. cbn [set_fair tg_cfs_rq tg_se tg_rt_rq tg_rt_se]. rewrite Hn3, Hn4. cbn [arr_blocks].
      rewrite !app_nil_r. solve_Permutation.
    - split_and!; try done; apply new_array_shape.
    - done. }
  clearbody s4. case_decide as Hbn.
  { exists false, s4. rewrite E4. split_and!; try done. unfold rt_arrays. cbn. congruence. }
  destruct b as [b|]; [|done].
  destruct (alloc_entries_ok g _ _ _ _ s0 possible_cpus (stores_cfs g) s4 (NoDup_seq _ _) Hb4) as (ok & s' & E & Hb' & Hk & Hc & Hfill).
  { intros i Hi. rewrite E4. by apply possible_slots. }
  exists ok, s'. split; [done|]. split; [done|]. split; [rewrite Hc, E4; unfold rt_arrays; cbn; congruence|].
  split; [by rewrite Hk, E4|]. intros -> i Hi. apply Hfill. left. split; [done|]. apply elem_of_seq. lia.
Qed.

Lemma alloc_rt_ok g s0 s :
  building g [] s0 s → rt_arrays (tgs s g) = (None, None) →
  ∃ ok s', alloc_rt_sched_group g s = Ok (ok, s') ∧ building g [] s0 s' ∧ fair_arrays (tgs s' g) = fair_arrays (tgs s g) ∧
    (ok = true → tg_timer (tgs s' g) = true ∧ tg_period (tgs s' g) = ns_to_ktime (ktime_to_ns (def_rt_period s0)) ∧
      ∀ i, (i < nr_cpus)%nat → filled (tg_rt_rq (tgs s' g)) i ∧ filled (tg_rt_se (tgs s' g)) i).
Proof.
  intros Hb [= Hn3 Hn4]. unfold alloc_rt_sched_group.
  destruct (kzalloc_building g s0 s Hb) as (a & s1 & -> & E1 & D1 & Hb1). pose proof (bd_shaped _ _ _ _ Hb) as (? & ? & ? & ?).
  pose proof (bd_unused _ _ _ _ Hb) as [Hu1 Hu2].
  set (s2 := upd_tg g _ s1).
  assert (tgs s2 g = set_rt_arrays (new_array a) None (tgs s g)) as E2 by (unfold s2; by rewrite tgs_upd_same, E1, Hn4).
  assert (building g [] s0 s2) as Hb2.
  { eapply building_array; [exact Hb1|done|done|by intros; apply tgs_upd_other|..]; rewrite E2, ?E1.
    - unfold tg_blocks. cbn [set_rt_arrays tg_cfs_rq tg_se tg_rt_rq tg_rt_se]. rewrite Hn3, Hn4. cbn [arr_blocks app].
      rewrite !app_nil_r. solve_Permutation.
    - split_and!; try done. apply new_array_shape.
    - done. }
  clearbody s2. case_decide as Ha.
  { exists false, s2. rewrite E2. by split_and!. }
  destruct a as [a|]; [|done].
  destruct (kzalloc_building g s0 s2 Hb2) as (b & s3 & -> & E3 & _ & Hb3).
  set (s4 := upd_tg g _ s3).
  assert (tgs s4 g = set_rt_arrays (new_array (Some a)) (new_array b) (tgs s g)) as E4 by (unfold s4; by rewrite tgs_upd_same, E3, E2).
  assert (building g [] s0 s4) as Hb4.
  { eapply building_array; [exact Hb3|done|done|by intros; apply tgs_upd_other|..]; rewrite E4, ?E3, ?E2.
    - unfold tg_blocks. cbn [set_rt_arrays tg_cfs_rq tg_se tg_rt_rq tg_rt_se]. cbn [arr_blocks].
      rewrite !app_nil_r. solve_Permutation.
    - split_and!; try done; apply new_array_shape.
    - done. }
  clearbody s4. case_decide as Hbn.
  { exists false, s4. rewrite E4. by split_and!. }
  destruct b as [b|]; [|done].
  assert (def_rt_period s4 = def_rt_period s0) as -> by by injection (bd_outer _ _ _ _ Hb4).
  set (s5 := upd_tg g _ s4).
  assert (tgs s5 g = init_rt_bandwidth (ktime_to_ns (def_rt_period s0)) 0 (tgs s4 g)) as E5 by (unfold s5; by rewrite tgs_upd_same).
  assert (building g [] s0 s5) as Hb5.
  { eapply building_store; [exact Hb4|done|done|by intros; apply tgs_upd_other|..]; rewrite E5; [done|apply Hb4|].
    split; [done|apply Hb4]. }
  destruct (alloc_entries_ok g _ _ _ _ s0 possible_cpus (stores_rt g) s5 (NoDup_seq _ _) Hb5) as (ok & s' & E & Hb' & Hk & Hc & Hfill).
  { intros i Hi. rewrite E5, E4. by apply possible_slots. }
  rewrite E5, E4 in Hk, Hc. injection Hk as Hk1 Hk2 _ _. exists ok, s'. split; [done|]. split; [done|]. split; [done|]. intros ->.
  split; [done|]. split; [done|]. intros i Hi. apply Hfill. left. split; [done|]. apply elem_of_seq. lia.
Qed.

(** ** Freeing a group *)

Lemma destroy_tgs g s : tgs (destroy_rt_bandwidth g s) = tgs s ∧ outer (destroy_rt_bandwidth g s) = outer s ∧
  heap (destroy_rt_bandwidth g s) = heap s ∧ outcomes (destroy_rt_bandwidth g s) = outcomes s ∧
  raw_cancel (destroy_rt_bandwidth g s) = raw_cancel s || negb (tg_timer (tgs s g)).
Proof. unfold destroy_rt_bandwidth. case_match; cbn; by rewrite ?orb_false_r, ?orb_true_r. Qed.

(** Every block of the group is freed once. *)
Lemma free_group_ok g s :
  shaped (tgs s g) → NoDup (tg_blocks g (tgs s g)) → (∀ a, a ∈ tg_blocks g (tgs s g) → a ∈ heap s) →
  ∃ s', free_sched_group g s = Ok s' ∧ tgs s' = tgs s ∧ outer s' = outer s ∧
    heap s' = heap s ∖ list_to_set (tg_blocks g (tgs s g)) ∧
    raw_cancel s' = raw_cancel s || negb (tg_timer (tgs s g)).
Proof.
  intros (Hs1 & Hs2 & Hs3 & Hs4) Hnd Hin. unfold free_sched_group. rewrite free_fair_ok. set (t := tgs s g) in *.
  pose proof (freed_blocks _ _ Hs1 Hs2) as P1. pose proof (freed_blocks _ _ Hs3 Hs4) as P2.
  set (l1 := freed (tg_cfs_rq t) (tg_se t)) in *. set (l2 := freed (tg_rt_rq t) (tg_rt_se t)) in *.
  assert (tg_blocks g t ≡ₚ g :: omap id l1 ++ omap id l2) as P.
  { rewrite P1, P2. unfold tg_blocks. by rewrite <- !app_assoc. }
  rewrite P in Hnd. apply list.NoDup_cons in Hnd as [Hg Hnd]. apply list.NoDup_app in Hnd as (N1 & N12 & N2).
  assert (∀ a, a = g ∨ a ∈ omap id l1 ∨ a ∈ omap id l2 → a ∈ heap s) as Hin'.
  { intros a Ha. apply Hin. rewrite P, elem_of_cons, elem_of_app. done. }
  rewrite (kfrees_ok l1) by auto. cbn [mbind res_bind]. rewrite free_rt_ok. change (tgs (without _ s) g) with t.
  fold l2. destruct (destroy_tgs g (without (omap id l1) s)) as (E1 & E2 & E3 & E4 & E5).
  set (s2 := destroy_rt_bandwidth g _) in *. clearbody s2.
  rewrite (kfrees_ok l2); [|done|].
  2: { intros a Ha. rewrite E3. unfold without. cbn. rewrite elem_of_difference, elem_of_list_to_set. split; [by auto|].
       intros Ha'. by apply (N12 a). }
  cbn [mbind res_bind kfree]. rewrite decide_True.
  2: { unfold without. cbn. rewrite E3. unfold without. cbn. specialize (Hin' g ltac:(by left)). set_solver. }
  eexists. split; [reflexivity|]. split; [exact E1|]. split; [exact E2|]. split; [|exact E5].
  unfold without. cbn [heap set_memory]. rewrite E3. unfold without. cbn [heap set_memory]. apply set_eq. intros a.
  rewrite !elem_of_difference, !elem_of_list_to_set, P, elem_of_cons, elem_of_app. set_solver.
Qed.

(** ** Making a group *)

Definition array_filled (a : option array) : Prop := ∀ i, (i < nr_cpus)%nat → filled a i.

(** A new group below [parent]. *)
Record made (parent g : nat) (s s' : groups) : Prop := {
  md_new a : a ∈ tg_blocks g (tgs s' g) → (a ∉ heap s) ∧ a ≠ root_task_group;
  md_blocks : NoDup (tg_blocks g (tgs s' g));
  md_heap : heap s' = heap s ∪ list_to_set (tg_blocks g (tgs s' g));
  md_shaped : shaped (tgs s' g);
  md_filled : array_filled (tg_cfs_rq (tgs s' g)) ∧ array_filled (tg_se (tgs s' g)) ∧
    array_filled (tg_rt_rq (tgs s' g)) ∧ array_filled (tg_rt_se (tgs s' g));
  md_period : tg_period (tgs s' g) = ns_to_ktime (ktime_to_ns (def_rt_period s));
  md_unused : unused (tgs s' g);
  md_timer : tg_timer (tgs s' g) = true;
  md_links : tg_parent (tgs s' g) = Some parent ∧ tg_children (tgs s' g) = [];
  md_parent : tgs s' parent = set_links (tg_parent (tgs s parent)) (g :: tg_children (tgs s parent)) (tgs s parent);
  md_others h : h ≠ g → h ≠ parent → tgs s' h = tgs s h;
  md_outer : outer s' = outer (set_lists (g :: task_groups s) (rcu_callbacks s) s);
}.

Lemma building_free g s0 s :
  building g [] s0 s → ∃ s', free_sched_group g s = Ok s' ∧ heap s' = heap s0 ∧ outer s' = outer s0 ∧
    ∀ h, h ≠ g → tgs s' h = tgs s0 h.
Proof.
  intros [Hh Hn Hd Hs _ Ho Hout]. cbn [app] in *. destruct (free_group_ok g s Hs Hd) as (s' & E & Et & Eo & Eh & _).
  { intros a Ha. apply Hh. by right. }
  exists s'. split; [done|]. split; [|split; [by rewrite Eo|intros h Hh'; rewrite Et; auto]].
  rewrite Eh. apply set_eq. intros a. rewrite elem_of_difference, elem_of_list_to_set, Hh. specialize (Hn a). tauto.
Qed.

Lemma create_group_ok parent s :
  parent = root_task_group ∨ parent ∈ heap s →
  ∃ r s', sched_create_group parent s = Ok (r, s') ∧
    match r with
    | None => heap s' = heap s ∧ outer s' = outer s ∧ ∀ h, h = root_task_group ∨ h ∈ heap s → tgs s' h = tgs s h
    | Some g => made parent g s s'
    end.
Proof.
  intros Hpar. unfold sched_create_group.
  destruct (kzalloc_cases s) as [(g & o & -> & Hg & Hroot)|(o & ->)]; [|by eexists None, _].
  assert (∀ h, h = root_task_group ∨ h ∈ heap s → h ≠ g) as Hold by (intros h [Eh|Hh] Eg; congruence).
  set (s1 := upd_tg g _ _).
  assert (tgs s1 g = zero_group) as E1 by (unfold s1; by rewrite tgs_upd_same).
  assert (building g [] s s1) as Hb1.
  { split; rewrite ?E1; cbn [app tg_blocks zero_group tg_cfs_rq tg_se tg_rt_rq tg_rt_se arr_blocks]; try done.
    - intros a. unfold s1. cbn. set_solver.
    - intros a. set_solver.
    - apply NoDup_singleton.
    - intros h Hh. unfold s1. by rewrite tgs_upd_other. }
  clearbody s1. cbv zeta.
  destruct (alloc_fair_ok g s s1 Hb1) as (ok1 & s2 & -> & Hb2 & Hrt2 & Hk2 & Hf2); [by rewrite E1..|].
  rewrite E1 in Hk2. cbn [mbind res_bind].
  assert (∃ ok s3, (if ok1 then alloc_rt_sched_group g s2 else Ok (false, s2)) = Ok (ok, s3) ∧ building g [] s s3 ∧
    (ok = true → (array_filled (tg_cfs_rq (tgs s3 g)) ∧ array_filled (tg_se (tgs s3 g))) ∧ tg_timer (tgs s3 g) = true ∧
      tg_period (tgs s3 g) = ns_to_ktime (ktime_to_ns (def_rt_period s)) ∧
      array_filled (tg_rt_rq (tgs s3 g)) ∧ array_filled (tg_rt_se (tgs s3 g)))) as (ok & s3 & -> & Hb3 & Hf3).
  { destruct ok1; [|by exists false, s2]. destruct (alloc_rt_ok g s s2 Hb2 Hrt2) as (ok & s3 & E & Hb3 & Hfa & Hf3).
    exists ok, s3. split; [done|]. split; [done|]. intros Hok. destruct (Hf3 Hok) as (? & ? & Hf). injection Hfa as -> ->.
    split_and!; try done; intros i Hi; try (by apply Hf2); by apply Hf. }
  cbn [mbind res_bind]. destruct ok.
  - exists (Some g). eexists. split; [reflexivity|]. destruct (Hf3 eq_refl) as ((? & ?) & ? & ? & ? & ?).
    assert (parent ≠ g) as Hpg by by apply Hold.
    set (s4 := set_lists _ _ _). set (s5 := upd_tg g _ s4). set (s6 := upd_tg parent _ s5).
    assert (tgs s6 g = set_links (Some parent) [] (tgs s3 g)) as E6.
    { unfold s6. rewrite tgs_upd_other by done. unfold s5. by rewrite tgs_upd_same. }
    assert (tgs s3 parent = tgs s parent) as Ep by by apply Hb3.
    pose proof (bd_outer _ _ _ _ Hb3) as Eo.
    split; rewrite ?E6; try done.
    + intros a Ha. by apply (bd_new _ _ _ _ Hb3).
    + apply (bd_nodup _ _ _ _ Hb3).
    + change (heap s6) with (heap s3). apply set_eq. intros a. rewrite elem_of_union, elem_of_list_to_set. apply (bd_heap _ _ _ _ Hb3).
    + apply (bd_shaped _ _ _ _ Hb3).
    + apply (bd_unused _ _ _ _ Hb3).
    + unfold s6. rewrite tgs_upd_same. unfold s5. rewrite tgs_upd_other by done. change (tgs s4) with (tgs s3). by rewrite Ep.
    + intros h Hh Hhp. unfold s6, s5. rewrite !tgs_upd_other by done. by apply Hb3.
    + unfold outer in *. unfold s6, s5, s4. cbn. injection Eo as E1' E2' E3' E4' E5' E6' E7'. by rewrite E1', E2', E3', E4', E5', E6', E7'.
  - destruct (building_free g s s3 Hb3) as (s' & -> & Eh & Eo & Et). cbn [mbind res_bind].
    exists None, s'. split; [done|]. split; [done|]. split; [done|]. intros h Hh. by apply Et, Hold.
Qed.

(** C19: making a group ends without a fault.  If memory runs out anywhere nothing stays
    allocated and nothing has changed; otherwise the group has a place for each
    processor in all its arrays, no runtime, and is the first child of its parent,
    and freeing it gives back all it took, each block once. *)
Theorem group_made_whole parent s :
  parent = root_task_group ∨ parent ∈ heap s →
  ∃ r s', sched_create_group parent s = Ok (r, s') ∧
    match r with
    | None => heap s' = heap s ∧ outer s' = outer s ∧ ∀ h, h = root_task_group ∨ h ∈ heap s → tgs s' h = tgs s h
    | Some g => made parent g s s' ∧ ∃ s'', free_sched_group g s' = Ok s'' ∧ heap s'' = heap s ∧ raw_cancel s'' = raw_cancel s'
    end.
Proof.
  intros Hp. destruct (create_group_ok parent s Hp) as (r & s' & E & Hr). exists r, s'. split; [done|].
  destruct r as [g|]; [|done]. split; [done|].
  destruct (free_group_ok g s' (md_shaped _ _ _ _ Hr) (md_blocks _ _ _ _ Hr)) as (s'' & E'' & _ & _ & Eh & Ec).
  { intros a Ha. rewrite (md_heap _ _ _ _ Hr). set_solver. }
  exists s''. split; [done|]. rewrite Eh, Ec, (md_heap _ _ _ _ Hr), (md_timer _ _ _ _ Hr), orb_false_r. split; [|done].
  apply set_eq. intros a. pose proof (md_new _ _ _ _ Hr a). set_solver.
Qed.

End memory.
