(* ===== verification/TgSteps.v ===== *)
(** * Task groups stay schedulable (sched.c, src/indwriterups/project1)

    The groups as a transition system: groups are made, destroyed and freed, their
    bandwidth and the settings for all are changed, tasks come and go.  In every
    state the tree can be served, and memory is accounted for. *)

From S2P Require Import Prelude RtState SchedCore SchedPolicy TgWalk TaskGroup TgAdmit TgMemory.

Local Open Scope Z_scope.

(** ** A leaf more and a leaf less *)

Fixpoint tree_add (p g : nat) (t : tree) : tree :=
  match t with Node h ts => Node h ((if decide (h = p) then [Node g []] else []) ++ map (tree_add p g) ts) end.

Fixpoint tree_del (g : nat) (t : tree) : tree :=
  match t with Node h ts => Node h (foldr (λ t' l, if decide (group_of t' = g) then l else tree_del g t' :: l) [] ts) end.

Definition forest_del (g : nat) (ts : list tree) : list tree :=
  foldr (λ t' l, if decide (group_of t' = g) then l else tree_del g t' :: l) [] ts.

Lemma group_of_add p g t : group_of (tree_add p g t) = group_of t.
Proof. by destruct t. Qed.

Lemma group_of_del g t : group_of (tree_del g t) = group_of t.
Proof. by destruct t. Qed.

Lemma groups_of_in t : group_of t ∈ groups_of t.
Proof. destruct t. by left. Qed.

Lemma groups_of_forest ts g : g ∈ map group_of ts → g ∈ concat (map groups_of ts).
Proof.
  induction ts as [|t ts IH]; cbn; [done|]. intros [->|Hg]%elem_of_cons; apply elem_of_app; [left; apply groups_of_in|by right; apply IH].
Qed.

Lemma add_absent p g t : p ∉ groups_of t → tree_add p g t = t.
Proof.
  induction t as [h ts IH| |t ts IHt IHts] using tree_list_ind with
    (Q := λ ts, p ∉ concat (map groups_of ts) → map (tree_add p g) ts = ts).
  - intros Hp. cbn [groups_of tree_add] in *. rewrite decide_False by set_solver. cbn [app]. rewrite IH by set_solver. done.
  - done.
  - intros Hp. cbn [map concat] in *. rewrite IHt, IHts by set_solver. done.
Qed.

Lemma groups_of_add p g t :
  p ∈ groups_of t → NoDup (groups_of t) → groups_of (tree_add p g t) ≡ₚ g :: groups_of t.
Proof.
  induction t as [h ts IH| |t ts IHt IHts] using tree_list_ind with (Q := λ ts, p ∈ concat (map groups_of ts) →
    NoDup (concat (map groups_of ts)) → concat (map groups_of (map (tree_add p g) ts)) ≡ₚ g :: concat (map groups_of ts)).
  - intros Hp [Hh Hn]%list.NoDup_cons. cbn [tree_add groups_of] in *. rewrite map_app, concat_app. case_decide as Hhp.
    + subst h. cbn. assert (map (tree_add p g) ts = ts) as ->; [|by apply perm_swap].
      clear -Hh. induction ts as [|t ts IH]; [done|]. cbn in *. rewrite add_absent, IH by set_solver. done.
    + apply elem_of_cons in Hp as [->|Hp]; [done|]. cbn. rewrite IH by done. by apply perm_swap.
  - set_solver.
  - cbn [map concat]. intros Hp (N1 & N12 & N2)%list.NoDup_app. destruct (decide (p ∈ groups_of t)) as [Ht|Ht].
    + rewrite IHt by done. assert (map (tree_add p g) ts = ts) as ->; [|done].
      specialize (N12 p Ht). clear -N12. induction ts as [|t ts IH]; [done|]. cbn in *. rewrite add_absent, IH by set_solver. done.
    + rewrite add_absent, IHts by set_solver. by rewrite Permutation_middle.
Qed.

Lemma unlinked_cons g h l : h ≠ g → unlinked g (h :: l) = h :: unlinked g l.
Proof. intros Hh. unfold unlinked. by rewrite filter_cons_True. Qed.

Section links.
Variables (ch ch' : nat → list nat) (par par' : nat → option nat).

Lemma linked_parent t : ∀ q g c,
  linked ch par q t → g ∈ groups_of t → c ∈ ch g → par c = Some g.
Proof.
  induction t as [h ts IH| |t ts IHt IHts] using tree_list_ind with (Q := λ ts, ∀ q g c,
    all_linked ch par q ts → g ∈ concat (map groups_of ts) → c ∈ ch g → par c = Some g).
  - intros q g c (_ & Hch & _ & Hl) Hg Hc. cbn [groups_of] in Hg. apply elem_of_cons in Hg as [->|Hg]; [|by eapply IH].
    rewrite Hch in Hc. clear -Hl Hc. induction ts as [|[c' ts'] ts IH]; [set_solver|]. destruct Hl as [(Hp & _) Hl].
    cbn in Hc. apply elem_of_cons in Hc as [->|Hc]; [done|by apply IH].
  - intros q g c _ Hg. set_solver.
  - intros q g c [Ht Hts] Hg Hc. cbn [map concat] in Hg. apply elem_of_app in Hg as [Hg|Hg]; [by eapply IHt|by eapply IHts].
Qed.

Lemma linked_add p g t : ∀ q,
  ch' g = [] → par' g = Some p → ch' p = g :: ch p → par' p = par p →
  (∀ h, h ∈ groups_of t → h ≠ p → ch' h = ch h ∧ par' h = par h) →
  g ∉ groups_of t → linked ch par q t → linked ch' par' q (tree_add p g t).
Proof.
  intros q Hg1 Hg2 Hp1 Hp2. revert q.
  induction t as [h ts IH| |t ts IHt IHts] using tree_list_ind with (Q := λ ts, ∀ q,
    (∀ h, h ∈ concat (map groups_of ts) → h ≠ p → ch' h = ch h ∧ par' h = par h) → g ∉ concat (map groups_of ts) →
    all_linked ch par q ts → all_linked ch' par' q (map (tree_add p g) ts)).
  - intros q Ho Hg (Hpar & Hch & Hn & Hl). cbn [groups_of tree_add linked] in *.
    assert (map group_of (map (tree_add p g) ts) = map group_of ts) as Hm
      by (rewrite map_map; apply map_ext; intros; apply group_of_add).
    assert (all_linked ch' par' h (map (tree_add p g) ts)) as Hall by (apply IH; [intros; apply Ho; set_solver|set_solver|done]).
    rewrite map_app, Hm. case_decide as Hhp.
    + subst h. rewrite Hp1, Hp2, Hch. cbn [map app group_of foldr].
      split; [done|]. split; [done|]. split; [|split; [|exact Hall]].
      * apply list.NoDup_cons. split; [|done]. intros Hin. apply Hg. right. by apply groups_of_forest.
      * split; [done|]. split; [done|]. split; [constructor|done].
    + destruct (Ho h ltac:(by left) Hhp) as [-> ->]. cbn [app]. by split_and!.
  - done.
  - intros q Ho Hg [Ht Hts]. cbn [map concat] in *. split; [apply IHt|apply IHts]; try done; try set_solver;
      intros h' Hh'; apply Ho; set_solver.
Qed.

Lemma linked_del g t : ∀ q,
  ch g = [] → (∀ h, h ∈ groups_of t → h ≠ g → ch' h = unlinked g (ch h) ∧ par' h = par h) →
  group_of t ≠ g → linked ch par q t →
  linked ch' par' q (tree_del g t) ∧ groups_of (tree_del g t) = unlinked g (groups_of t).
Proof.
  intros q Hg. revert q.
  induction t as [h ts IH| |t ts IHt IHts] using tree_list_ind with (Q := λ ts, ∀ q,
    (∀ h, h ∈ concat (map groups_of ts) → h ≠ g → ch' h = unlinked g (ch h) ∧ par' h = par h) → all_linked ch par q ts →
    all_linked ch' par' q (forest_del g ts) ∧ map group_of (forest_del g ts) = unlinked g (map group_of ts) ∧
    concat (map groups_of (forest_del g ts)) = unlinked g (concat (map groups_of ts))).
  - intros q Ho Hh (Hpar & Hch & Hn & Hl). cbn [groups_of tree_del linked group_of] in *. fold (forest_del g ts).
    destruct (IH h) as (Hl' & Hm & Hc); [intros; apply Ho; set_solver|done|].
    destruct (Ho h ltac:(by left) Hh) as [-> ->]. rewrite Hch, Hm, Hc, unlinked_cons by done.
    split_and!; try done. by apply list.NoDup_filter.
  - done.
  - intros q Ho [Ht Hts]. cbn [map concat] in *. destruct (IHts q) as (Hl & Hm & Hc); [intros; apply Ho; set_solver|done|].
    cbn [forest_del foldr]. fold (forest_del g ts). unfold unlinked in *. rewrite list.filter_app, list.filter_cons. case_decide as Hd.
    + rewrite decide_False by (by intros []). rewrite Hm, Hc. split_and!; try done.
      destruct t as [h ts']. cbn in Hd. subst h. destruct Ht as (_ & Hch & _). rewrite Hg in Hch. destruct ts'; [|done].
      cbn. by rewrite decide_False by (by intros []).
    + rewrite decide_True by done. destruct (IHt (Some q)) as (Hl1 & Hg1); [intros; apply Ho; set_solver|done|done|].
      cbn [map concat]. rewrite Hm, Hc, Hg1, group_of_del. by split_and!.
Qed.

End links.

(** ** The invariant *)

Section steps.
Context `{GroupEnv}.

(** A group is served: what it may use fits its period and the setting for all, and
    its children may not use more than it may. *)
Definition served (s : groups) (g : nat) : Prop :=
  (tg_runtime (tgs s g) <= ktime_to_ns (tg_period (tgs s g)) ∨ tg_runtime (tgs s g) = RUNTIME_INF) ∧
  share s g <= most s ∧ sum_of (share s) (tg_children (tgs s g)) <= share s g.

Record bandwidth_ok (s : groups) (g : nat) : Prop := {
  bo_period : 0 < ktime_to_ns (tg_period (tgs s g));
  bo_runtime : 0 <= tg_runtime (tgs s g) < 2 ^ 64;
  bo_cpus i : (i < nr_cpus)%nat → tg_cpu_runtime (tgs s g) i = tg_runtime (tgs s g);
  bo_served : served s g;
}.

(** The groups that are not the root, and those that wait to be freed. *)
Definition owners (s : groups) (t : tree) : list nat := unlinked root_task_group (groups_of t) ++ rcu_callbacks s.

Definition all_blocks (s : groups) (l : list nat) : list nat := concat (map (λ g, tg_blocks g (tgs s g)) l).

(** Every block belongs to one group, once. *)
Record memory_ok (s : groups) (l : list nat) : Prop := {
  mo_heap a : a ∈ heap s ↔ a ∈ all_blocks s l;
  mo_nodup : NoDup (all_blocks s l);
  mo_root : root_task_group ∉ heap s;
  mo_shaped g : g ∈ l → shaped (tgs s g);
}.

Record group_inv (s : groups) (t : tree) : Prop := {
  gi_tree : tree_ok s t;
  gi_list : task_groups s ≡ₚ groups_of t;
  gi_settings : settings_ok s;
  gi_def : 0 < ktime_to_ns (def_rt_period s);
  gi_bandwidth g : g ∈ groups_of t → bandwidth_ok s g;
  gi_memory : memory_ok s (owners s t);
}.

(** ** Steps *)

(** Tasks and the outcomes of allocations may change at any time; groups that have
    children or are the root are not destroyed; fewer than 2^40 groups fit into
    memory. *)
Inductive gstep : groups → groups → Prop :=
  | gs_create parent s r s' :
      parent ∈ task_groups s → Z.of_nat (length (task_groups s)) < 2 ^ 40 - 1 →
      sched_create_group parent s = Ok (r, s') → gstep s s'
  | gs_destroy g s : g ∈ task_groups s → g ≠ root_task_group → tg_children (tgs s g) = [] → gstep s (sched_destroy_group g s)
  | gs_rcu g s s' : g ∈ rcu_callbacks s → free_sched_group_rcu g s = Ok s' → gstep s s'
  | gs_runtime fuel g us s ret s' :
      g ∈ task_groups s → sched_group_set_rt_runtime fuel g us s = Ok (ret, s') → gstep s s'
  | gs_period fuel g us s ret s' :
      g ∈ task_groups s → sched_group_set_rt_period fuel g us s = Ok (ret, s') → gstep s s'
  | gs_handler fuel write ret p r s ret' s' :
      0 <= p < 2 ^ 32 → - 2 ^ 31 <= r < 2 ^ 31 →
      (write = false ∨ ret ≠ 0 → p = sysctl_sched_rt_period s ∧ r = sysctl_sched_rt_runtime s) →
      sched_rt_handler fuel write ret p r s = Ok (ret', s') → gstep s s'
  | gs_attach g i th s :
      g ∈ task_groups s → threads s !! i = Some th → cpu_cgroup_can_attach_task g th s = 0 →
      gstep s (set_threads (<[i := set_task_rq (mk_thread (th_prio th) g (th_tg th))]> (threads s)) s)
  | gs_threads l s : gstep s (set_threads l s)
  | gs_memory o s : gstep s (set_memory (heap s) o s).

(** ** What a step reads *)

Lemma bandwidth_ext s s' g :
  (∀ h, h = g ∨ h ∈ tg_children (tgs s g) → share s' h = share s h) →
  tg_period (tgs s' g) = tg_period (tgs s g) → tg_runtime (tgs s' g) = tg_runtime (tgs s g) →
  (∀ i, tg_cpu_runtime (tgs s' g) i = tg_cpu_runtime (tgs s g) i) → tg_children (tgs s' g) = tg_children (tgs s g) →
  most s' = most s → bandwidth_ok s g → bandwidth_ok s' g.
Proof.
  intros Hs Ep Er Ei Ec Em [? ? ? (? & ? & ?)]. split; rewrite ?Ep, ?Er; try done.
  - intros i Hi. rewrite Ei; auto.
  - unfold served. rewrite Ep, Er, Ec, Em, (Hs g) by by left. split_and!; try done.
    rewrite (sum_of_ext (share s') (share s)); [done|]. intros. apply Hs. by right.
Qed.

Lemma share_ext s s' h :
  tg_period (tgs s' h) = tg_period (tgs s h) → tg_runtime (tgs s' h) = tg_runtime (tgs s h) → share s' h = share s h.
Proof. unfold share, share_in, period_in, runtime_in. cbn. by intros -> ->. Qed.

Lemma inv_not_root s t g : group_inv s t → g ∈ groups_of t → g ≠ root_task_group → g ∈ owners s t.
Proof. intros _ Hg Hr. apply elem_of_app. left. unfold unlinked. by apply list_elem_of_filter. Qed.

Lemma owner_blocks s l g : g ∈ l → ∀ a, a ∈ tg_blocks g (tgs s g) → a ∈ all_blocks s l.
Proof.
  intros Hg a Ha. unfold all_blocks. induction l as [|h l IH]; [set_solver|]. cbn [map concat]. apply elem_of_app.
  apply elem_of_cons in Hg as [->|Hg]; [by left|right; by apply IH].
Qed.

Lemma owner_in_heap s l g : memory_ok s l → g ∈ l → g ∈ heap s.
Proof. intros [Hh _ _ _] Hg. apply Hh. eapply owner_blocks; [done|]. by left. Qed.

Lemma inv_known s t g : group_inv s t → g ∈ groups_of t → g = root_task_group ∨ g ∈ heap s.
Proof.
  intros Hi Hg. destruct (decide (g = root_task_group)); [by left|right]. eapply owner_in_heap; [apply Hi|]. by apply inv_not_root.
Qed.

Lemma root_in s t : tree_ok s t → root_task_group ∈ groups_of t.
Proof. intros Ht. rewrite <- (to_root _ _ Ht). apply groups_of_in. Qed.

Lemma blocks_ext s s' l : (∀ g, g ∈ l → tg_blocks g (tgs s' g) = tg_blocks g (tgs s g)) → all_blocks s' l = all_blocks s l.
Proof. intros E. unfold all_blocks. f_equal. apply map_ext_in. intros g Hg. apply E. by apply list_elem_of_In. Qed.

Lemma settings_ext s s' :
  sysctl_sched_rt_period s' = sysctl_sched_rt_period s → sysctl_sched_rt_runtime s' = sysctl_sched_rt_runtime s →
  most s' = most s ∧ (settings_ok s → settings_ok s').
Proof.
  intros E1 E2. unfold most, global_rt_period, global_rt_runtime. rewrite E1, E2. split; [done|].
  intros [? ? Hf]. split; rewrite ?E1, ?E2; try done. unfold global_rt_period, global_rt_runtime in *. by rewrite E1, E2.
Qed.

(** Groups, settings and lists as before. *)
Lemma tg_inv_same s s' t :
  (∀ h, h = root_task_group ∨ h ∈ heap s → tgs s' h = tgs s h) → heap s' = heap s →
  task_groups s' = task_groups s → rcu_callbacks s' = rcu_callbacks s →
  sysctl_sched_rt_period s' = sysctl_sched_rt_period s → sysctl_sched_rt_runtime s' = sysctl_sched_rt_runtime s →
  def_rt_period s' = def_rt_period s → group_inv s t → group_inv s' t.
Proof.
  intros Et Eh El Er E1 E2 E3 Hi. destruct (settings_ext s s' E1 E2) as [Em Hset'].
  assert (∀ h, h ∈ groups_of t → tgs s' h = tgs s h) as Etree by (intros h Hh; by apply Et, (inv_known s t)).
  pose proof Hi as [Ht Hl Hset Hd Hb Hm]. split.
  - eapply tree_ok_ext; [|done]. intros g Hg. by rewrite Etree.
  - by rewrite El.
  - by apply Hset'.
  - by rewrite E3.
  - intros g Hg. eapply bandwidth_ext; [..|by apply Hb]; rewrite ?(Etree g Hg); try done.
    intros h [->|Hh]; apply share_ext; rewrite Etree; try done; eapply linked_children; (apply Ht || done).
  - unfold owners. rewrite Er. fold (owners s t). assert (∀ g, g ∈ owners s t → tgs s' g = tgs s g) as Eo
      by (intros g Hg; apply Et; right; by eapply owner_in_heap).
    assert (all_blocks s' (owners s t) = all_blocks s (owners s t)) as Eb by (apply blocks_ext; intros g Hg; by rewrite Eo).
    destruct Hm as [? ? ? Hsh]. split; rewrite ?Eb, ?Eh; try done. intros g Hg. rewrite Eo; auto.
Qed.

(** ** Bandwidth requests *)

Lemma inv_admits s t : group_inv s t → settings_ok s ∧ ∀ g, g ∈ groups_of t → 0 < ktime_to_ns (tg_period (tgs s g)).
Proof. intros Hi. split; [apply Hi|]. intros g Hg. by apply (gi_bandwidth _ _ Hi). Qed.

Lemma set_bandwidth_inv fuel g p r s ret s' t :
  group_inv s t → g ∈ groups_of t → 0 < p < 2 ^ 64 → 0 <= r < 2 ^ 64 →
  tg_set_bandwidth fuel g p r s = Ok (ret, s') → group_inv s' t.
Proof.
  intros Hi Hg Hp Hr. unfold tg_set_bandwidth. intros (err & E & Hs')%bind_ok. destruct (inv_admits _ _ Hi) as [Hset Hper].
  case_decide as Hz; [by injection Hs' as _ <-|]. injection Hs' as _ <-.
  pose proof (bandwidth_is_set g p r s ltac:(lia)) as Hs. set (s' := set_cpu_runtimes _ _ _) in *. clearbody s'.
  pose proof (set_reads_as _ _ _ _ _ Hs) as Hra.
  assert (err = 0) as -> by lia. apply rt_schedulable_ended with (t := t) in E as [_ Hall]; [|apply Hi|done|].
  2: { intros h Hh. unfold period_in. cbn [fst snd]. case_decide; [lia|by apply Hper]. }
  apply proj1 in Hall. specialize (Hall eq_refl). rewrite list.Forall_forall in Hall.
  assert (∀ h, h ∈ groups_of t → admits s' h) as Had by (intros h Hh; apply (reads_as_admits _ _ _ h Hra); by apply Hall).
  destruct Hs as [Ep Er Ei Hl Ho Hrest]. injection Hrest as R1 R2 R3 R4 R5 R6 R7 R8 R9 R10.
  destruct Hi as [Ht Hlist Hset' Hd Hb Hm].
  assert (∀ h, h = g ∨ h ≠ g ∧ tgs s' h = tgs s h) as Hcase by (intros h; destruct (decide (h = g)); auto).
  destruct Hl as [Hl1 Hl2]. injection Hl1 as L1 L2 L3. injection Hl2 as L4 L5 L6 L7.
  split.
  - eapply tree_ok_ext; [|done]. intros h _. by destruct (Hcase h) as [->|[_ ->]].
  - by rewrite R1.
  - by apply (settings_ext s s').
  - by rewrite R8.
  - intros h Hh. destruct (Had h Hh) as [Hf _ Hmost Hsum]. unfold period_in, runtime_in, no_change in Hf. cbn in Hf.
    split.
    + destruct (Hcase h) as [->|[_ ->]]; [lia|by apply Hper].
    + destruct (Hcase h) as [->|[_ ->]]; [lia|by apply Hb].
    + destruct (Hcase h) as [->|[_ ->]]; [intros i Hi'; rewrite Ei by done; congruence|by apply Hb].
    + by split_and!.
  - unfold owners. rewrite R2. fold (owners s t). destruct Hm as [M1 M2 M3 M4].
    assert (all_blocks s' (owners s t) = all_blocks s (owners s t)) as Eb.
    { apply blocks_ext. intros h _. destruct (Hcase h) as [->|[_ ->]]; [|done]. unfold tg_blocks. by rewrite L4, L5, L6, L7. }
    split; rewrite ?Eb, ?R3; try done. intros h Hh. destruct (Hcase h) as [->|[_ ->]]; [|by apply M4].
    unfold shaped. rewrite L4, L5, L6, L7. by apply M4.
Qed.

(** ** Groups made, destroyed and freed *)

Lemma memory_perm s l l' : l ≡ₚ l' → memory_ok s l → memory_ok s l'.
Proof.
  intros P [Hh Hn Hr Hs]. assert (all_blocks s l ≡ₚ all_blocks s l') as Pb by (unfold all_blocks; by rewrite P).
  split; try done.
  - intros a. by rewrite Hh, Pb.
  - by rewrite <- Pb.
  - intros g. rewrite <- P. apply Hs.
Qed.

Lemma owners_nodup s l : memory_ok s l → NoDup l.
Proof.
  intros [_ Hn _ _]. induction l as [|g l IH]; [constructor|]. unfold all_blocks in Hn. cbn [map concat] in Hn.
  apply list.NoDup_app in Hn as (_ & Hd & Hn). apply list.NoDup_cons. split; [|by apply IH].
  intros Hg. apply (Hd g); [by left|]. eapply owner_blocks; [exact Hg|by left].
Qed.

Lemma unlinked_perm g l1 l2 : l1 ≡ₚ l2 → unlinked g l1 ≡ₚ unlinked g l2.
Proof. intros P. unfold unlinked. by rewrite P. Qed.

Lemma unlinked_absent g l : g ∉ l → unlinked g l = l.
Proof.
  intros Hg. unfold unlinked. induction l as [|h l IH]; [done|]. rewrite list.filter_cons, decide_True by set_solver.
  f_equal. apply IH. set_solver.
Qed.

Lemma unlinked_first g l : NoDup l → g ∈ l → l ≡ₚ g :: unlinked g l.
Proof.
  induction l as [|h l IH]; [set_solver|]. intros [Hh Hn]%list.NoDup_cons Hg. destruct (decide (h = g)) as [->|Hd].
  - unfold unlinked. rewrite list.filter_cons, decide_False by (by intros []). fold (unlinked g l). by rewrite unlinked_absent.
  - rewrite unlinked_cons, perm_swap by done. apply Permutation_cons; [done|]. apply IH; [done|]. set_solver.
Qed.

Lemma ratio_zero p : ratio p 0 = 0.
Proof. unfold ratio, RUNTIME_INF. rewrite decide_False by lia. done. Qed.

Lemma create_inv parent g s s' t :
  group_inv s t → parent ∈ groups_of t → Z.of_nat (length (groups_of t)) < 2 ^ 40 - 1 → made parent g s s' →
  group_inv s' (tree_add parent g t).
Proof.
  intros Hi Hp Hlen [Hnew Hbl Hheap Hsh Hfill Hper [Hr Hc] Htim [Hl1 Hl2] Hpar Hoth Hout].
  injection Hout as E1 E2 E3 E4 E5 E6 E7. destruct (settings_ext s s' E3 E4) as [Em Hset'].
  assert (g ∈ tg_blocks g (tgs s' g)) as Hself by by left. destruct (Hnew g Hself) as [Hgh Hgr].
  assert (∀ h, h = root_task_group ∨ h ∈ heap s → h ≠ g) as Hold by (intros h [?|?] ?; congruence).
  assert (g ∉ groups_of t) as Hgt by (intros Hg; by apply (Hold g); [apply (inv_known s t)|]).
  assert (parent ≠ g) as Hpg by (intros ->; done).
  assert (∀ h, h ≠ g → tgs s' h = if decide (h = parent) then set_links (tg_parent (tgs s parent))
    (g :: tg_children (tgs s parent)) (tgs s parent) else tgs s h) as Eo.
  { intros h Hh. case_decide; [by subst|by apply Hoth]. }
  assert (∀ h, h ≠ g → share s' h = share s h) as Es.
  { intros h Hh. apply share_ext; rewrite Eo by done; by case_decide; subst. }
  pose proof Hi as [Ht Hl Hset Hd Hb Hm].
  assert (groups_of (tree_add parent g t) ≡ₚ g :: groups_of t) as P by (apply groups_of_add; [done|apply Ht]).
  split.
  - split.
    + eapply linked_add; [done|done|..|done|apply Ht]; rewrite ?Hpar; try done.
      intros h Hh Hne. rewrite Eo, decide_False; [done|done|]. intros ->; done.
    + by rewrite group_of_add, (to_root _ _ Ht).
    + rewrite P. apply list.NoDup_cons. split; [done|apply Ht].
    + rewrite P. cbn [length]. lia.
  - by rewrite E1, P, Hl.
  - by apply Hset'.
  - by rewrite E5.
  - intros h Hh. rewrite P in Hh. apply elem_of_cons in Hh as [->|Hh].
    + split.
      * rewrite Hper, ktime_round_trip; [done|]. split; [lia|]. by apply wrap_u_range.
      * rewrite Hr. lia.
      * intros i _. by rewrite Hr, Hc.
      * unfold served. rewrite Hr, Hl2, Hper, ktime_round_trip by (split; [lia|by apply wrap_u_range]).
        unfold share, share_in, runtime_in, no_change. cbn [fst snd]. rewrite decide_False, Hr, ratio_zero by done.
        split; [left; lia|]. split; [|cbn; lia]. rewrite Em. by apply most_range.
    + assert (h ≠ g) as Hhg by (intros ->; done). destruct (decide (h = parent)) as [->|Hhp].
      * destruct (Hb parent Hp) as [? ? ? (? & ? & ?)].
        split; unfold served; rewrite ?Es, ?Em, ?Hpar by done; cbn [set_links tg_period tg_runtime tg_cpu_runtime tg_children]; try done.
        split_and!; try done. rewrite sum_of_cons. unfold share at 1, share_in, runtime_in, no_change. cbn [fst snd].
        rewrite decide_False, Hr, ratio_zero by done. rewrite (sum_of_ext (share s') (share s)); [done|].
        intros c Hcc. apply Es. intros ->. apply Hgt. by eapply linked_children; [apply Ht|..].
      * eapply bandwidth_ext; [..|by apply Hb]; rewrite ?Eo, ?decide_False by done; try done.
        intros c [->|Hcc]; apply Es; [done|]. intros ->. apply Hgt. by eapply linked_children; [apply Ht|..].
  - unfold owners. rewrite E2.
    assert (g :: owners s t ≡ₚ unlinked root_task_group (groups_of (tree_add parent g t)) ++ rcu_callbacks s) as Po.
    { rewrite (unlinked_perm _ _ _ P), unlinked_cons by done. done. }
    apply (memory_perm _ _ _ Po).
    assert (∀ h, h ∈ owners s t → h ≠ g) as Hne by (intros h Ho; apply Hold; right; by eapply owner_in_heap).
    destruct Hm as [Hh Hn Hroot Hs].
    assert (∀ h, h ∈ owners s t → tg_blocks h (tgs s' h) = tg_blocks h (tgs s h)) as Eb
      by (intros h Ho; rewrite Eo by auto; by case_decide; subst).
    assert (all_blocks s' (g :: owners s t) = tg_blocks g (tgs s' g) ++ all_blocks s (owners s t)) as Eall
      by (unfold all_blocks at 1; cbn [map concat]; f_equal; by apply blocks_ext).
    split.
    + intros a. rewrite Eall, Hheap, elem_of_app, elem_of_union, elem_of_list_to_set, Hh. tauto.
    + rewrite Eall. apply list.NoDup_app. split; [done|]. split; [|done]. intros a Ha Ha'. apply Hh in Ha'. by destruct (Hnew a Ha).
    + rewrite Hheap. intros [?|Ha%elem_of_list_to_set]%elem_of_union; [done|]. by destruct (Hnew _ Ha).
    + intros h [->|Ho]%elem_of_cons; [done|]. rewrite Eo by auto. case_decide; subst; by apply Hs.
Qed.

Lemma sum_unlinked f g l : (∀ h, h ∈ l → 0 <= f h) → sum_of f (unlinked g l) <= sum_of f l.
Proof.
  unfold unlinked. induction l as [|h l IH]; intros Hf; [done|]. rewrite list.filter_cons, sum_of_cons.
  specialize (IH ltac:(intros; apply Hf; by right)). specialize (Hf h ltac:(by left)). case_decide; rewrite ?sum_of_cons; lia.
Qed.

Lemma unlinked_swap g h l : unlinked g (unlinked h l) = unlinked h (unlinked g l).
Proof.
  unfold unlinked. induction l as [|x l IH]; [done|]. rewrite !list.filter_cons.
  repeat (case_decide || rewrite list.filter_cons); try tauto; by rewrite ?IH.
Qed.

(** The links of a group that is destroyed. *)
Lemma destroy_tgs_of g s h :
  let s' := sched_destroy_group g s in
  (tg_period (tgs s' h), tg_runtime (tgs s' h), tg_cpu_runtime (tgs s' h), tg_parent (tgs s' h)) =
    (tg_period (tgs s h), tg_runtime (tgs s h), tg_cpu_runtime (tgs s h), tg_parent (tgs s h)) ∧
  tg_children (tgs s' h) = (if decide (tg_parent (tgs s g) = Some h) then unlinked g (tg_children (tgs s h)) else tg_children (tgs s h)) ∧
  tg_blocks h (tgs s' h) = tg_blocks h (tgs s h) ∧ (shaped (tgs s h) → shaped (tgs s' h)).
Proof.
  unfold sched_destroy_group. cbv zeta. cbn [tgs set_lists]. destruct (tg_parent (tgs s g)) as [q|] eqn:E.
  - change (tgs (set_lists ?a ?b ?x)) with (tgs x). rewrite tgs_upd. change (tgs (set_lists ?a ?b ?x)) with (tgs x).
    destruct (decide (h = q)) as [->|Hn]; [by rewrite decide_True|]. rewrite decide_False by congruence. done.
  - by rewrite decide_False.
Qed.

Lemma destroy_rest g s : let s' := sched_destroy_group g s in
  task_groups s' = unlinked g (task_groups s) ∧ rcu_callbacks s' = rcu_callbacks s ++ [g] ∧ heap s' = heap s ∧
  sysctl_sched_rt_period s' = sysctl_sched_rt_period s ∧ sysctl_sched_rt_runtime s' = sysctl_sched_rt_runtime s ∧
  def_rt_period s' = def_rt_period s.
Proof. unfold sched_destroy_group. cbv zeta. by destruct (tg_parent _). Qed.

Lemma destroy_inv g s t :
  group_inv s t → g ∈ groups_of t → g ≠ root_task_group → tg_children (tgs s g) = [] →
  group_inv (sched_destroy_group g s) (tree_del g t).
Proof.
  intros Hi Hg Hgr Hleaf. destruct (destroy_rest g s) as (E1 & E2 & E3 & E4 & E5 & E6).
  pose proof (destroy_tgs_of g s) as Hv. set (s' := sched_destroy_group g s) in *. clearbody s'. cbv zeta in Hv.
  destruct (settings_ext s s' E4 E5) as [Em Hset']. pose proof Hi as [Ht Hl Hset Hd Hb Hm].
  assert (∀ h, share s' h = share s h) as Es by (intros h; destruct (Hv h) as (E & _); injection E as ?? _ _; by apply share_ext).
  assert (∀ h, h ∈ groups_of t → tg_children (tgs s' h) = unlinked g (tg_children (tgs s h))) as Ec.
  { intros h Hh. destruct (Hv h) as (_ & -> & _). case_decide as Hp; [done|]. symmetry. apply unlinked_absent.
    intros Hin. apply Hp. exact (linked_parent _ _ t None h g (to_linked _ _ Ht) Hh Hin). }
  destruct (linked_del (λ h, tg_children (tgs s h)) (λ h, tg_children (tgs s' h)) (λ h, tg_parent (tgs s h))
    (λ h, tg_parent (tgs s' h)) g t None Hleaf) as [Hlink Hgs]; [..|apply Ht|].
  { intros h Hh _. split; [by apply Ec|]. destruct (Hv h) as (E & _). by injection E as _ _ _ ->. }
  { rewrite (to_root _ _ Ht). done. }
  assert (∀ h, h ∈ unlinked g (groups_of t) → h ∈ groups_of t) as Hsub by (intros h [_ ?]%list_elem_of_filter; done).
  split.
  - split; [done|by rewrite group_of_del, (to_root _ _ Ht)|..]; rewrite Hgs.
    + apply list.NoDup_filter, Ht.
    + pose proof (length_filter (λ q, q ≠ g) (groups_of t)). pose proof (to_count _ _ Ht). unfold unlinked. lia.
  - rewrite E1, Hgs. by apply unlinked_perm.
  - by apply Hset'.
  - by rewrite E6.
  - intros h Hh. rewrite Hgs in Hh. specialize (Hsub h Hh). destruct (Hv h) as (E & _). injection E as Ep Er Ei _.
    destruct (Hb h Hsub) as [? ? ? (? & ? & ?)]. split; unfold served; rewrite ?Ep, ?Er, ?Ei, ?Es, ?Em, ?Ec by done; try done.
    split_and!; try done. rewrite (sum_of_ext (share s') (share s)) by auto. etransitivity; [apply sum_unlinked|done].
    intros c Hc. apply ratio_nonneg. unfold period_in, no_change. cbn [fst snd]. rewrite decide_False by done.
    apply Hb. by eapply linked_children; [apply Ht|..].
  - assert (owners s' (tree_del g t) ≡ₚ owners s t) as Po.
    { unfold owners. rewrite Hgs, E2, unlinked_swap.
      rewrite (unlinked_first g (unlinked root_task_group (groups_of t))) at 2;
        [|apply list.NoDup_filter, Ht|by apply list_elem_of_filter]. solve_Permutation. }
    symmetry in Po. apply (memory_perm _ _ _ Po).
    assert (all_blocks s' (owners s t) = all_blocks s (owners s t)) as Eb by (apply blocks_ext; intros h _; apply Hv).
    destruct Hm as [? ? ? Hs]. split; rewrite ?Eb, ?E3; try done. intros h Hh. by apply Hv, Hs.
Qed.

Lemma rcu_frees g s t :
  group_inv s t → g ∈ rcu_callbacks s →
  ∃ s', free_sched_group_rcu g s = Ok s' ∧ group_inv s' t.
Proof.
  intros Hi Hg. unfold free_sched_group_rcu. set (s1 := set_lists _ _ s).
  pose proof Hi as [Ht Hl Hset Hd Hb Hm]. pose proof (owners_nodup _ _ Hm) as Hnd.
  set (l := unlinked root_task_group (groups_of t) ++ unlinked g (rcu_callbacks s)).
  assert (owners s t ≡ₚ g :: l) as Po.
  { unfold owners, l in *. apply list.NoDup_app in Hnd as (_ & _ & Hn). rewrite (unlinked_first g (rcu_callbacks s)) at 1 by done.
    solve_Permutation. }
  pose proof (memory_perm _ _ _ Po Hm) as [Hh Hn Hroot Hs].
  assert (all_blocks s (g :: l) = tg_blocks g (tgs s g) ++ all_blocks s l) as Eall by done.
  rewrite Eall in Hh, Hn. apply list.NoDup_app in Hn as (N1 & N12 & N2).
  destruct (free_group_ok g s1) as (s' & -> & Et & Eo & Eh & _).
  { apply Hs. by left. } { exact N1. } { intros a Ha. apply Hh, elem_of_app. by left. }
  exists s'. split; [done|]. injection Eo as E1 E2 E3 E4 E5 E6 E7. change (tgs s1) with (tgs s) in *.
  destruct (settings_ext s s' E3 E4) as [Em Hset'].
  split.
  - eapply tree_ok_ext; [|done]. by rewrite Et.
  - by rewrite E1.
  - by apply Hset'.
  - by rewrite E5.
  - intros h Hh'. eapply bandwidth_ext; [..|by apply Hb]; rewrite ?Et; try done. intros; apply share_ext; by rewrite Et.
  - unfold owners. rewrite E2. change (rcu_callbacks s1) with (unlinked g (rcu_callbacks s)). fold l.
    assert (all_blocks s' l = all_blocks s l) as Eb by (apply blocks_ext; intros; by rewrite Et).
    change (heap s1) with (heap s) in Eh. split; rewrite ?Eb, ?Eh; try done.
    + intros a. rewrite elem_of_difference, elem_of_list_to_set, Hh, elem_of_app. specialize (N12 a). tauto.
    + intros [? _]%elem_of_difference. done.
    + intros h Hh'. rewrite Et. apply Hs. by right.
Qed.

(** ** The settings *)

Lemma handler_inv fuel write ret p r s ret' s' t :
  0 <= p < 2 ^ 32 → - 2 ^ 31 <= r < 2 ^ 31 →
  (write = false ∨ ret ≠ 0 → p = sysctl_sched_rt_period s ∧ r = sysctl_sched_rt_runtime s) →
  group_inv s t → sched_rt_handler fuel write ret p r s = Ok (ret', s') → group_inv s' t.
Proof.
  intros Hp Hr Hkeep Hi. unfold sched_rt_handler. cbv zeta.
  destruct (bool_decide (ret = 0) && write) eqn:Ew.
  2: { intros [= _ <-]. destruct Hkeep as [-> ->].
       { destruct write; [right|by left]. rewrite andb_true_r in Ew. by apply bool_decide_eq_false in Ew. }
       by apply (tg_inv_same s). }
  intros (ret1 & E & Hs')%bind_ok. case_decide as Hz; [injection Hs' as _ <-; by apply (tg_inv_same s)|].
  injection Hs' as _ <-. assert (ret1 = 0) as -> by lia. revert E. unfold sched_rt_global_constraints.
  set (s1 := set_sysctl p r s). assert (Ok (- EINVAL) ≠ Ok 0) as Hne by (unfold EINVAL; intros [= E0]).
  destruct (decide _) as [H1|H1]; [done|]. destruct (decide _) as [H2|H2]; [done|]. intros E.
  assert (settings_ok s1) as Hset1.
  { split; [cbn in *; lia|done|]. destruct (decide (global_rt_runtime s1 = RUNTIME_INF)); [by right|left]. lia. }
  pose proof Hi as [Ht Hl Hset Hd Hb Hm].
  assert (tree_ok s1 t) as Ht1 by (by apply (tree_ok_ext s)).
  apply rt_schedulable_ended with (t := t) in E as [_ Hall]; [|done..|].
  2: { intros h Hh. unfold period_in. cbn [fst snd]. rewrite decide_False by done. by apply Hb. }
  apply proj1 in Hall. specialize (Hall eq_refl). rewrite list.Forall_forall in Hall.
  split.
  - by apply (tree_ok_ext s).
  - exact Hl.
  - by destruct Hset1; split.
  - change (def_rt_period (set_def ?a ?b ?c)) with a. pose proof (most_range s1 Hset1) as [Hg _].
    rewrite ktime_round_trip; [done|]. split; [lia|]. by apply wrap_u_range.
  - intros g Hg. destruct (Hall g Hg) as [? _ ? ?], (Hb g Hg) as [? ? ? _]. by split.
  - by destruct Hm; split.
Qed.

Lemma attach_inv l s t : group_inv s t → group_inv (set_threads l s) t.
Proof. by apply tg_inv_same. Qed.

(** ** Every step *)

Lemma gstep_inv s s' t : group_inv s t → gstep s s' → ∃ t', group_inv s' t'.
Proof.
  intros Hi Hs. pose proof (gi_list _ _ Hi) as Hl. destruct Hs.
  - rewrite Hl in *. destruct (create_group_ok parent s) as (r1 & s1 & E & Hr); [by eapply inv_known|].
    rewrite E in H2. injection H2 as -> ->. destruct r as [g|].
    + exists (tree_add parent g t). by apply (create_inv parent g s).
    + exists t. destruct Hr as (Eh & Eo & Et). injection Eo as E1 E2 E3 E4 E5 E6 E7. by apply (tg_inv_same s).
  - exists (tree_del g t). apply destroy_inv; try done. by rewrite <- Hl.
  - exists t. destruct (rcu_frees g s t Hi) as (s1 & E & Hi1); [done|]. rewrite E in H1. by injection H1 as <-.
  - exists t. rewrite Hl in *. pose proof (gi_bandwidth _ _ Hi g ltac:(done)) as [Hp _ _ _].
    eapply set_bandwidth_inv; [done|done| | |exact H1].
    + split; [done|]. by apply wrap_u_range.
    + case_decide; [unfold RUNTIME_INF; lia|by apply wrap_u_range].
  - exists t. rewrite Hl in *. unfold sched_group_set_rt_period in H1. cbv zeta in H1.
    case_decide as Hz; [by injection H1 as _ <-|]. pose proof (wrap_u_range 64 (u64 us * NSEC_PER_USEC)).
    eapply set_bandwidth_inv; [done|done| | |exact H1]; [lia|]. by apply (gi_bandwidth _ _ Hi).
  - exists t. by eapply handler_inv.
  - exists t. by apply attach_inv.
  - exists t. by apply attach_inv.
  - exists t. by apply (tg_inv_same s).
Qed.

Lemma init_inv o l : group_inv (sched_init_groups o l) (Node root_task_group []).
Proof.
  unfold sched_init_groups. cbv zeta. set (s0 := mk_groups _ _ _ _ _ _ _ _ _ _ _).
  change (ktime_to_ns 0) with 0. set (s1 := set_def _ _ s0). set (s2 := upd_tg root_task_group _ s1).
  set (s3 := set_lists _ _ s2). set (z := tg_runtime _). unfold set_cpu_runtimes.
  pose proof (cpu_runtimes_tgs possible_cpus root_task_group z s3 root_task_group) as (E & _ & Ec).
  pose proof (cpu_runtimes_rest possible_cpus root_task_group z s3) as Er.
  set (s' := foldl _ s3 possible_cpus) in *.
  injection Er as R1 R2 R3 R4 R5 R6 R7 R8 R9 R10. injection E as E1 E2 E3 E4 E5 E6 E7 E8 E9.
  assert (z = 950000000) as Hz by done. assert (tgs s3 root_task_group = init_rt_bandwidth 1000000000 950000000 zero_group) as E0 by done.
  rewrite E0 in *. cbn in E1, E2, E3, E4, E5, E6, E7, E8, E9.
  assert (settings_ok s') as Hset by (split; unfold global_rt_period, global_rt_runtime; rewrite ?R6, ?R7; try done; by left).
  clearbody s'. split.
  - split; [|done|apply NoDup_singleton|done]. split; [done|]. split; [done|]. split; [constructor|done].
  - by rewrite R1.
  - done.
  - by rewrite R8.
  - intros g [->|Hg]%elem_of_cons; [|set_solver]. split; unfold served; rewrite ?E1, ?E2, ?E5; try done.
    + intros i Hi. rewrite Ec, decide_True; [done|]. apply elem_of_seq. lia.
    + split; [by left|]. assert (share s' root_task_group = 996147) as ->.
      { unfold share, share_in, period_in, runtime_in, no_change. cbn [fst snd]. rewrite !decide_False, E1, E2 by done. done. }
      split; [|done]. unfold most, global_rt_period, global_rt_runtime. by rewrite R6, R7.
  - assert (owners s' (Node root_task_group []) = []) as -> by (unfold owners; by rewrite R2).
    change (heap s3) with (∅ : gset nat) in R3. split; rewrite ?R3; [|constructor|set_solver..].
    intros a. change (all_blocks s' []) with (@nil nat). set_solver.
Qed.

Lemma reached_inv o l s : rtc gstep (sched_init_groups o l) s → ∃ t, group_inv s t.
Proof.
  intros Hr. assert (∃ t, group_inv (sched_init_groups o l) t) as Hi by (eexists; apply init_inv).
  induction Hr as [|s1 s2 s3 Hs _ IH]; [done|]. apply IH. destruct Hi as (t & Hi). by eapply gstep_inv.
Qed.

(** ** What the leaves use *)

Fixpoint leaves (t : tree) : list nat :=
  match t with Node g ts => match ts with [] => [g] | _ => concat (map leaves ts) end end.

Lemma leaves_share s t : ∀ q,
  tg_linked s q t → (∀ g, g ∈ groups_of t → sum_of (share s) (tg_children (tgs s g)) <= share s g) →
  sum_of (share s) (leaves t) <= share s (group_of t).
Proof.
  induction t as [g ts IH| |t ts IHt IHts] using tree_list_ind with (Q := λ ts, ∀ q,
    all_linked (λ g, tg_children (tgs s g)) (λ g, tg_parent (tgs s g)) q ts →
    (∀ g, g ∈ concat (map groups_of ts) → sum_of (share s) (tg_children (tgs s g)) <= share s g) →
    sum_of (share s) (concat (map leaves ts)) <= sum_of (share s) (map group_of ts)).
  - intros q (_ & Hch & _ & Hl) Hs. cbn [leaves group_of groups_of] in *. destruct ts as [|t1 ts]; [cbn; lia|].
    etransitivity; [eapply IH; [exact Hl|]; intros; apply Hs; by right|]. rewrite <- Hch. apply Hs. by left.
  - done.
  - intros q [Ht Hts] Hs. cbn [map concat] in *. rewrite sum_of_app, sum_of_cons.
    specialize (IHt _ Ht ltac:(intros; apply Hs; set_solver)). specialize (IHts _ Hts ltac:(intros; apply Hs; set_solver)). lia.
Qed.


(** In every reachable state every request is answered: nothing is divided by zero,
    no block is freed twice, and the walk over the groups ends. *)
Theorem group_requests_answered o l s :
  rtc gstep (sched_init_groups o l) s →
  (∀ parent, parent ∈ task_groups s → is_ok (sched_create_group parent s)) ∧
  (∀ g, g ∈ rcu_callbacks s → is_ok (free_sched_group_rcu g s)) ∧
  ∃ fuel,
    (∀ g us, g ∈ task_groups s → is_ok (sched_group_set_rt_runtime fuel g us s) ∧ is_ok (sched_group_set_rt_period fuel g us s)) ∧
    (∀ write ret p r, 0 <= p < 2 ^ 32 → - 2 ^ 31 <= r < 2 ^ 31 → is_ok (sched_rt_handler fuel write ret p r s)).
Proof.
  intros (t & Hi)%reached_inv. pose proof Hi as [Ht Hl Hset _ Hb _]. destruct (inv_admits _ _ Hi) as [_ Hper].
  split; [|split; [|exists (walk_cost t); split]].
  - intros parent Hp. rewrite Hl in Hp. destruct (create_group_ok parent s) as (r & s' & -> & _); [by eapply inv_known|done].
  - intros g Hg. by destruct (rcu_frees g s t Hi Hg) as (s' & -> & _).
  - intros g us Hg. rewrite Hl in Hg.
    assert (∀ p r, 0 < p → is_ok (tg_set_bandwidth (walk_cost t) g p r s)) as Hok.
    { intros p r Hp. unfold tg_set_bandwidth. destruct (rt_schedulable_ok (Some g, p, r) s t) with (fuel := walk_cost t)
        as (ret & -> & _); try done; [|by cbn [mbind res_bind]; case_decide].
      intros h Hh. unfold period_in. cbn [fst snd]. case_decide; [done|by apply Hper]. }
    split; [by apply Hok, Hper|]. unfold sched_group_set_rt_period. cbv zeta. case_decide as Hz; [done|]. apply Hok.
    pose proof (wrap_u_range 64 (u64 us * NSEC_PER_USEC)). lia.
  - intros write ret p r Hp Hr. unfold sched_rt_handler. cbv zeta. case_match; [|done]. unfold sched_rt_global_constraints.
    set (s1 := set_sysctl p r s). destruct (decide (_ <= 0)) as [H1|H1]; [done|]. destruct (decide (_ ∧ _)) as [H2|H2]; [done|].
    assert (settings_ok s1) as Hset1.
    { split; [cbn in *; lia|done|]. destruct (decide (global_rt_runtime s1 = RUNTIME_INF)); [by right|left]. lia. }
    destruct (rt_schedulable_ok no_change s1 t) with (fuel := walk_cost t) as (ret1 & E & _); try done.
    { by apply (tree_ok_ext s). }
    change (None, 0, 0) with no_change. rewrite E. cbn [mbind res_bind]. by destruct (decide (ret1 ≠ 0)).
Qed.

End steps.
