(* ===== verification/TgDemo.v ===== *)
(** * Task groups to try the theorems on (sched.c, src/indwriterups/project1)

    Two processors and small trees; and two things that go wrong: runtimes whose
    ratio overflows, and a timer that is cancelled before it was set up. *)

From S2P Require Import Prelude RtState SchedCore SchedPolicy TgWalk TaskGroup TgAdmit TgMemory TgSteps.

Local Open Scope Z_scope.

#[export] Instance demo_groups : GroupEnv := {| nr_cpus := 2 |}.

(** ** A walk *)

(** Group 0 has the children 1 and 3, group 1 the child 2; the visits are written
    down, a group that is left with 100 added. *)
Definition walk_children (g : nat) : list nat := match g with 0%nat => [1; 3]%nat | 1%nat => [2%nat] | _ => [] end.
Definition walk_parent (g : nat) : option nat :=
  match g with 1%nat | 3%nat => Some 0%nat | 2%nat => Some 1%nat | _ => None end.
Definition walk_tree : tree := Node 0 [Node 1 [Node 2 []]; Node 3 []].
Definition note_down (g : nat) (l : list nat) : res (Z * list nat) := Ok (0, l ++ [g]).
Definition note_up (g : nat) (l : list nat) : res (Z * list nat) := Ok (0, l ++ [100 + g]%nat).

Lemma walk_is_recursion_witness :
  walk_tg_tree walk_children walk_parent 0 note_down note_up 20 [] = Ok (0, [0; 1; 2; 102; 101; 3; 103; 100]%nat).
Proof.
  assert (linked walk_children walk_parent None walk_tree) as Hl.
  { assert (NoDup [1; 3]%nat ∧ NoDup [2%nat] ∧ NoDup (@nil nat)) as (H1 & H2 & H3)
      by (split_and!; apply (bool_decide_unpack _); vm_compute; exact I).
    cbn. split_and!; try exact eq_refl; try exact I; assumption. }
  rewrite (walk_is_recursion walk_children walk_parent 0 note_down note_up walk_tree 20 [] Hl eq_refl ltac:(vm_compute; lia)).
  vm_compute. reflexivity.
Defined.

(** ** A request to the root *)

Definition only_root : groups := sched_init_groups [] [].


(** ** Groups made and changed *)

Lemma group_made_whole_witness :
  (∃ g s', sched_create_group 0 (sched_init_groups (replicate 13 true) []) = Ok (Some g, s') ∧ made 0 g (sched_init_groups (replicate 13 true) []) s') ∧
  ∃ s', sched_create_group 0 (sched_init_groups (replicate 6 true) []) = Ok (None, s') ∧ heap s' = ∅.
Proof.
  split.
  - destruct (group_made_whole 0 (sched_init_groups (replicate 13 true) []) ltac:(left; reflexivity)) as (r & s' & E & Hr).
    assert ((r ← sched_create_group 0 (sched_init_groups (replicate 13 true) []); Ok (bool_decide (fst r = None))) = Ok false) as Hb
      by (vm_compute; reflexivity).
    rewrite E in Hb. cbn [mbind res_bind fst] in Hb. destruct r as [g|]; [|discriminate]. exists g, s'. split; [exact E|]. apply Hr.
  - destruct (group_made_whole 0 (sched_init_groups (replicate 6 true) []) ltac:(left; reflexivity)) as (r & s' & E & Hr).
    assert ((r ← sched_create_group 0 (sched_init_groups (replicate 6 true) []); Ok (bool_decide (fst r = None))) = Ok true) as Hb
      by (vm_compute; reflexivity).
    rewrite E in Hb. cbn [mbind res_bind fst] in Hb. destruct r as [g|]; [discriminate|]. exists s'. split; [exact E|].
    destruct Hr as [Hh _]. rewrite Hh. vm_compute. reflexivity.
Defined.

Definition created (r : res (option nat * groups)) : res (nat * groups) :=
  '(g, s) ← r; match g with Some g => Ok (g, s) | None => Bug end.

(** A child is made and given 400 of the root's 950 ms. *)
Definition child_run : res (nat * groups) :=
  '(g, s) ← created (sched_create_group 0 (sched_init_groups (replicate 13 true) []));
  '(ret, s) ← sched_group_set_rt_runtime 20 g 400000 s;
  Ok (g, s).

Lemma child_reached g s : child_run = Ok (g, s) → rtc gstep (sched_init_groups (replicate 13 true) []) s.
Proof.
  unfold child_run, created. intros ([g1 s1] & ([r s2] & E1 & E2)%bind_ok & ([ret s3] & E3 & [= <- <-])%bind_ok)%bind_ok.
  destruct r as [g2|]; [|done]. injection E2 as <- <-.
  assert (0%nat ∈ task_groups (sched_init_groups (replicate 13 true) [])) as H0.
  { change (task_groups (sched_init_groups (replicate 13 true) [])) with [0%nat]. by left. }
  destruct (create_group_ok 0 (sched_init_groups (replicate 13 true) []) (or_introl eq_refl)) as (r & s' & E & Hr). rewrite E1 in E. injection E as <- <-.
  assert (g2 ∈ task_groups s2) as Hg by (injection (md_outer _ _ _ _ Hr) as -> _ _ _ _ _ _; by left).
  eapply rtc_l; [|apply rtc_once].
  - exact (gs_create 0 _ _ _ H0 eq_refl E1).
  - by eapply gs_runtime.
Qed.


Lemma group_requests_answered_witness : ∃ g s, child_run = Ok (g, s) ∧ is_ok (sched_create_group 0 s).
Proof.
  assert ((r ← child_run; Ok (list.last (task_groups (snd r)))) = Ok (Some 0%nat)) as Hb by (vm_compute; reflexivity).
  pose proof child_reached as Hr. destruct child_run as [[g s]| |]; try discriminate. cbn [mbind res_bind snd] in Hb.
  exists g, s. split; [reflexivity|]. apply (group_requests_answered _ _ s (Hr g s eq_refl)).
  injection Hb as Hb. by apply last_Some_elem_of.
Defined.

(** ** What goes wrong *)

(** Two children of a root that may use 95 % of a processor ask for a period and a
    runtime of 2^41 microseconds each. *)
Definition greedy_run : res (list Z * groups) :=
  '(g, s) ← created (sched_create_group 0 (sched_init_groups (replicate 26 true) []));
  '(h, s) ← created (sched_create_group 0 s);
  '(r1, s) ← sched_group_set_rt_period 20 g (2 ^ 41) s;
  '(r2, s) ← sched_group_set_rt_runtime 20 g (2 ^ 41) s;
  '(r3, s) ← sched_group_set_rt_period 20 h (2 ^ 41) s;
  '(r4, s) ← sched_group_set_rt_runtime 20 h (2 ^ 41) s;
  Ok ([r1; r2; r3; r4; share s g; share s h;
    ktime_to_ns (tg_period (tgs s g)) - tg_runtime (tgs s g); ktime_to_ns (tg_period (tgs s h)) - tg_runtime (tgs s h)], s).

(** All four requests are granted: the runtimes, shifted by 20 bits, are 0 modulo
    2^64, so two groups with all of a processor each count for nothing. *)
Theorem greedy_groups_admitted : fst <$> (match greedy_run with Ok r => Some r | _ => None end) = Some [0; 0; 0; 0; 0; 0; 0; 0].
Proof. vm_compute. reflexivity. Qed.

(** When the second allocation fails, a timer is cancelled that was never
    initialised. *)
Theorem early_failure_cancels_raw :
  ∃ s', sched_create_group 0 (sched_init_groups [true; false] []) = Ok (None, s') ∧ raw_cancel s' = true.
Proof.
  assert ((r ← sched_create_group 0 (sched_init_groups [true; false] []); Ok (fst r, raw_cancel (snd r))) = Ok (None, true)) as Hb
    by (vm_compute; reflexivity).
  destruct (sched_create_group 0 (sched_init_groups [true; false] [])) as [[r s']| |]; try discriminate.
  cbn [mbind res_bind fst snd] in Hb. injection Hb as -> Hc. by exists s'.
Qed.
