(* ===== verification/LoadAvg.v ===== *)
(** * Load averages (sched.c, src/indwriterups/project1)

    The load averages of the system: every processor adds the change of its number
    of active tasks to a global count, directly at the end of a period or, when it
    goes idle, by way of a second count; the processor that keeps the time ages the
    three averages.  A step of [load_step] is one access to a shared counter, or
    what is done under the lock of a run queue or of the time between two of them. *)

From S2P Require Import Prelude.

Local Open Scope Z_scope.

(** The constants of the fixed-point format (linux/sched.h) and the comparison of
    times (linux/jiffies.h). *)
Class LoadEnv := {
  FSHIFT : Z;
  LOAD_FREQ : Z;
  EXP_1 : Z;
  EXP_5 : Z;
  EXP_15 : Z;
  time_before : Z → Z → bool;
}.

(** What the code relies on: factors are fractions below one, a period is longer
    than the ten ticks the update waits, times are compared modulo their range. *)
Class LoadLaws `{LoadEnv} : Prop := {
  fshift_range : 0 < FSHIFT <= 31;
  exp_1_range : 0 < EXP_1 < 2 ^ FSHIFT;
  exp_5_range : 0 < EXP_5 < 2 ^ FSHIFT;
  exp_15_range : 0 < EXP_15 < 2 ^ FSHIFT;
  load_freq_range : 10 < LOAD_FREQ < 2 ^ 32;
  time_before_signed a b : time_before a b = bool_decide (s64 (a - b) < 0);
}.

(** ** Fixed-point arithmetic *)

Definition FIXED_1 `{LoadEnv} : Z := 2 ^ FSHIFT.

(** Multiply and round: [x *= y; x += 1UL << (frac_bits - 1); x >>= frac_bits]. *)
Definition fixed_mul (frac_bits x y : Z) : Z :=
  Z.shiftr (u64 (u64 (x * y) + 2 ^ (frac_bits - 1))) frac_bits.

(** The loop of [fixed_power_int]: [n & 1] is the constructor of the binary number
    [n], [n >>= 1] what is below it, and the loop ends at its leading one. *)
Fixpoint fixed_power_loop (frac_bits x result : Z) (n : positive) : Z :=
  match n with
  | xH => fixed_mul frac_bits result x
  | xO n => fixed_power_loop frac_bits (fixed_mul frac_bits x x) result n
  | xI n => fixed_power_loop frac_bits (fixed_mul frac_bits x x) (fixed_mul frac_bits result x) n
  end.

Definition fixed_power_int (x frac_bits n : Z) : Z :=
  let result := u64 (2 ^ frac_bits) in
  match n with
  | Zpos n => fixed_power_loop frac_bits x result n
  | _ => result
  end.

Section averages.
Context `{LoadEnv}.

Definition calc_load (load exp active : Z) : Z :=
  let load := u64 (load * exp) in
  let load := u64 (load + u64 (active * u64 (FIXED_1 - exp))) in
  let load := u64 (load + 2 ^ (FSHIFT - 1)) in
  Z.shiftr load FSHIFT.

Definition calc_load_n (load exp active n : Z) : Z :=
  calc_load load (fixed_power_int exp FSHIFT n) active.

(** [avenrun] and what ages its three elements. *)
Definition averages : Type := Z * Z * Z.

Definition age_averages (age : Z → Z → Z) (a : averages) : averages :=
  (age a.1.1 EXP_1, age a.1.2 EXP_5, age a.2 EXP_15).

(** The active count as a fixed-point number, for parameters of type unsigned long. *)
Definition active_load (tasks : Z) : Z := u64 (if decide (0 < tasks) then s64 (tasks * FIXED_1) else 0).

(** ** The counters of a run queue *)

Record load_rq := LoadRq {
  nr_running : Z;
  nr_uninterruptible : Z;
  calc_load_active : Z;
  rq_calc_load_update : Z;
}.

Definition count_active (r : load_rq) : Z := s64 (s64 (nr_running r) + s64 (nr_uninterruptible r)).

Definition calc_load_fold_active (r : load_rq) : Z * load_rq :=
  let nr_active := count_active r in
  if decide (nr_active ≠ calc_load_active r) then
    (s64 (nr_active - calc_load_active r),
     LoadRq (nr_running r) (nr_uninterruptible r) nr_active (rq_calc_load_update r))
  else (0, r).

(** The counters in [activate_task] and [deactivate_task]. *)
Definition count_activate (contributes : bool) (r : load_rq) : load_rq :=
  let un := if contributes then u64 (nr_uninterruptible r - 1) else nr_uninterruptible r in
  LoadRq (u64 (nr_running r + 1)) un (calc_load_active r) (rq_calc_load_update r).

Definition count_deactivate (contributes : bool) (r : load_rq) : load_rq :=
  let un := if contributes then u64 (nr_uninterruptible r + 1) else nr_uninterruptible r in
  LoadRq (u64 (nr_running r - 1)) un (calc_load_active r) (rq_calc_load_update r).

(** The two halves of [migrate_nr_uninterruptible], for the destination and for
    the source. *)
Definition add_uninterruptible (n : Z) (r : load_rq) : load_rq :=
  LoadRq (nr_running r) (u64 (nr_uninterruptible r + n)) (calc_load_active r) (rq_calc_load_update r).

Definition clear_uninterruptible (r : load_rq) : load_rq :=
  LoadRq (nr_running r) 0 (calc_load_active r) (rq_calc_load_update r).

Definition clear_active (r : load_rq) : load_rq :=
  LoadRq (nr_running r) (nr_uninterruptible r) 0 (rq_calc_load_update r).

Definition next_period (r : load_rq) : load_rq :=
  LoadRq (nr_running r) (nr_uninterruptible r) (calc_load_active r) (u64 (rq_calc_load_update r + LOAD_FREQ)).

(** ** The system *)

(** Where a processor is: nowhere in this code, in [calc_load_account_idle], in
    [calc_load_account_active], in [calc_global_nohz], in [calc_global_load]; with
    the delta it has not added yet. *)
Inductive load_pc :=
  | Out
  | IdleAdds (delta : Z)
  | ActiveReads (delta : Z)
  | ActiveTakes (delta : Z)
  | ActiveAdds (delta : Z)
  | NohzReads (ticks : Z)
  | NohzTakes (ticks : Z)
  | NohzAdds (ticks delta : Z)
  | NohzAges (ticks : Z)
  | GlobalChecks.

(** [elapsed] and [aged] are not in the code: the ticks since the start, and the
    periods by which the averages have been aged. *)
Record loads := Loads {
  load_rqs : list load_rq;
  load_pcs : list load_pc;
  calc_load_tasks : Z;
  calc_load_tasks_idle : Z;
  calc_load_update : Z;
  avenrun : averages;
  jiffies : Z;
  elapsed : Z;
  aged : Z;
}.

Definition set_rqs l s := Loads l (load_pcs s) (calc_load_tasks s) (calc_load_tasks_idle s) (calc_load_update s) (avenrun s) (jiffies s) (elapsed s) (aged s).
Definition set_pcs l s := Loads (load_rqs s) l (calc_load_tasks s) (calc_load_tasks_idle s) (calc_load_update s) (avenrun s) (jiffies s) (elapsed s) (aged s).
Definition set_tasks n s := Loads (load_rqs s) (load_pcs s) n (calc_load_tasks_idle s) (calc_load_update s) (avenrun s) (jiffies s) (elapsed s) (aged s).
Definition set_tasks_idle n s := Loads (load_rqs s) (load_pcs s) (calc_load_tasks s) n (calc_load_update s) (avenrun s) (jiffies s) (elapsed s) (aged s).

Definition set_pc (c : nat) (p : load_pc) (s : loads) : loads := set_pcs (<[c := p]> (load_pcs s)) s.
Definition set_load_rq (c : nat) (r : load_rq) (s : loads) : loads := set_rqs (<[c := r]> (load_rqs s)) s.

(** Adding to a counter; the caller skips it when there is nothing to add. *)
Definition add_tasks (delta : Z) (s : loads) : loads :=
  if decide (delta ≠ 0) then set_tasks (s64 (calc_load_tasks s + delta)) s else s.

Definition add_tasks_idle (delta : Z) (s : loads) : loads :=
  set_tasks_idle (s64 (calc_load_tasks_idle s + delta)) s.

(** Age the averages by [n] periods with [age]. *)
Definition age_all (n : Z) (age : Z → Z → Z → Z) (s : loads) : loads :=
  let active := active_load (calc_load_tasks s) in
  Loads (load_rqs s) (load_pcs s) (calc_load_tasks s) (calc_load_tasks_idle s)
    (u64 (calc_load_update s + n * LOAD_FREQ)) (age_averages (λ load exp, age load exp active) (avenrun s))
    (jiffies s) (elapsed s) (aged s + n).

(** [calc_global_nohz] after the pending delta has been folded in. *)
Definition age_missed (ticks : Z) (s : loads) : loads :=
  if decide (LOAD_FREQ <= ticks) then
    let n := ticks `div` LOAD_FREQ in
    age_all n (λ load exp active, calc_load_n load exp active (u32 n)) s
  else s.

(** [calc_global_load] after [calc_global_nohz]. *)
Definition age_regular (s : loads) : loads :=
  if time_before (jiffies s) (u64 (calc_load_update s + 10)) then s else age_all 1 calc_load s.

(** The beginnings of the functions, with the next access to a shared counter. *)
Definition calc_load_account_idle (c : nat) (r : load_rq) (s : loads) : loads :=
  let '(delta, r) := calc_load_fold_active r in
  set_pc c (if decide (delta ≠ 0) then IdleAdds delta else Out) (set_load_rq c r s).

Definition calc_load_account_active (c : nat) (r : load_rq) (s : loads) : loads :=
  if time_before (jiffies s) (rq_calc_load_update r) then s
  else
    let '(delta, r) := calc_load_fold_active r in
    set_pc c (ActiveReads delta) (set_load_rq c r s).

Definition calc_global_load (c : nat) (ticks : Z) (s : loads) : loads :=
  if time_before (jiffies s) (calc_load_update s) then set_pc c GlobalChecks s
  else set_pc c (NohzReads ticks) s.

(** The next access of a processor and what follows up to the one after it; the
    read and the exchange are those of [calc_load_fold_idle]. *)
Definition load_go (c : nat) (r : load_rq) (p : load_pc) (s : loads) : option loads :=
  match p with
  | Out => None
  | IdleAdds delta => Some (set_pc c Out (add_tasks_idle delta s))
  | ActiveReads delta =>
      Some (set_pc c (if decide (calc_load_tasks_idle s ≠ 0) then ActiveTakes delta else ActiveAdds delta) s)
  | ActiveTakes delta =>
      Some (set_pc c (ActiveAdds (s64 (delta + calc_load_tasks_idle s))) (set_tasks_idle 0 s))
  | ActiveAdds delta => Some (set_pc c Out (set_load_rq c (next_period r) (add_tasks delta s)))
  | NohzReads ticks =>
      Some (set_pc c (if decide (calc_load_tasks_idle s ≠ 0) then NohzTakes ticks else NohzAges ticks) s)
  | NohzTakes ticks => Some (set_pc c (NohzAdds ticks (calc_load_tasks_idle s)) (set_tasks_idle 0 s))
  | NohzAdds ticks delta => Some (set_pc c (NohzAges ticks) (add_tasks delta s))
  | NohzAges ticks => Some (set_pc c GlobalChecks (age_missed ticks s))
  | GlobalChecks => Some (set_pc c Out (age_regular s))
  end.

(** Who keeps the lock of the time, and who the lock of its run queue. *)
Definition keeps_time (p : load_pc) : bool :=
  match p with
  | NohzReads _ | NohzTakes _ | NohzAdds _ _ | NohzAges _ | GlobalChecks => true
  | _ => false
  end.

Definition holds_rq (p : load_pc) : bool :=
  match p with IdleAdds _ | ActiveReads _ | ActiveTakes _ | ActiveAdds _ => true | _ => false end.

Definition is_out (p : load_pc) : bool := match p with Out => true | _ => false end.

(** What can happen: a task is woken or sleeps (and whether it counts as
    uninterruptible), a processor goes idle, has its tick or runs on; the timer
    advances the time ([do_timer], timer.c) by fewer ticks than half the range of
    jiffies; a processor is taken down while all others are stopped. *)
Inductive load_event :=
  | TaskWakes (c : nat) (contributes : bool)
  | TaskSleeps (c : nat) (contributes : bool)
  | GoesIdle (c : nat)
  | HasTick (c : nat)
  | Timer (c : nat) (ticks : Z)
  | RunsOn (c : nat)
  | TakenDown (c dest : nat).

Definition advance (ticks : Z) (s : loads) : loads :=
  Loads (load_rqs s) (load_pcs s) (calc_load_tasks s) (calc_load_tasks_idle s) (calc_load_update s) (avenrun s)
    (u64 (jiffies s + ticks)) (elapsed s + ticks) (aged s).

(** [migrate_nr_uninterruptible] and [calc_global_load_remove] *)
Definition migrate_nr_uninterruptible (c dest : nat) (r d : load_rq) (s : loads) : loads :=
  set_load_rq c (clear_uninterruptible r) (set_load_rq dest (add_uninterruptible (nr_uninterruptible r) d) s).

Definition calc_global_load_remove (c : nat) (r : load_rq) (s : loads) : loads :=
  set_load_rq c (clear_active r) (set_tasks (s64 (calc_load_tasks s - calc_load_active r)) s).

Definition load_step (l : load_event) (s : loads) : option loads :=
  match l with
  | TaskWakes c contributes =>
      r ← load_rqs s !! c; p ← load_pcs s !! c;
      if holds_rq p then None else Some (set_load_rq c (count_activate contributes r) s)
  | TaskSleeps c contributes =>
      r ← load_rqs s !! c; p ← load_pcs s !! c;
      if holds_rq p then None else Some (set_load_rq c (count_deactivate contributes r) s)
  | GoesIdle c =>
      r ← load_rqs s !! c; p ← load_pcs s !! c;
      if is_out p then Some (calc_load_account_idle c r s) else None
  | HasTick c =>
      r ← load_rqs s !! c; p ← load_pcs s !! c;
      if is_out p then Some (calc_load_account_active c r s) else None
  | Timer c ticks =>
      p ← load_pcs s !! c;
      if is_out p && negb (existsb keeps_time (load_pcs s)) && bool_decide (0 < ticks < 2 ^ 62)
      then Some (calc_global_load c ticks (advance ticks s)) else None
  | RunsOn c => r ← load_rqs s !! c; p ← load_pcs s !! c; load_go c r p s
  | TakenDown c dest =>
      r ← load_rqs s !! c; d ← load_rqs s !! dest;
      if decide (c = dest) then None
      else if forallb is_out (load_pcs s) then
        s ← Some (migrate_nr_uninterruptible c dest r d s);
        r ← load_rqs s !! c;
        Some (calc_global_load_remove c r s)
      else None
  end.

(** As [sched_init] leaves it. *)
Definition load_start (cpus : nat) (now : Z) (s : loads) : Prop :=
  0 <= now < 2 ^ 64 ∧
  s = Loads (replicate cpus (LoadRq 0 0 0 (u64 (now + LOAD_FREQ)))) (replicate cpus Out) 0 0
        (u64 (now + LOAD_FREQ)) (0, 0, 0) now 0 0.

(** ** What others read *)

Definition sum_counter (f : load_rq → Z) (cpus : list nat) (s : loads) : Z :=
  foldl (λ sum i, match load_rqs s !! i with Some r => u64 (sum + f r) | None => sum end) 0 cpus.

(** [nr_running] and [nr_uninterruptible], over the processors that are online or
    possible *)
Definition total_running (online : list nat) (s : loads) : Z := sum_counter nr_running online s.

Definition total_uninterruptible (s : loads) : Z :=
  let sum := sum_counter nr_uninterruptible (seq 0 (length (load_rqs s))) s in
  if decide (s64 sum < 0) then 0 else sum.

Definition get_avenrun (offset shift : Z) (s : loads) : averages :=
  let f x := u64 (Z.shiftl (u64 (x + offset)) shift) in
  (f (avenrun s).1.1, f (avenrun s).1.2, f (avenrun s).2).

End averages.
