(* ===== verification/LoadSteps.v ===== *)
(** * Load averages: counting (sched.c, src/indwriterups/project1)

    No change of the number of active tasks is lost or counted twice, however the
    processors' accesses to the shared counts interleave. *)

From S2P Require Import Prelude LoadAvg.

Local Open Scope Z_scope.
Local Open Scope cs544_scope.

Section steps.
Context `{Hlaws : LoadLaws}.
Implicit Types s : loads.

#[local] Arguments holds_rq : simpl never.
#[local] Arguments is_out : simpl never.

(** ** Counting *)

(** A change that a processor has taken from its queue or from the count of idle
    processors and not yet added. *)
Definition pending (p : load_pc) : Z :=
  match p with
  | IdleAdds d | ActiveReads d | ActiveTakes d | ActiveAdds d | NohzAdds _ d => d
  | _ => 0
  end.

(** What all counts together say, less what the queues have reported. *)
Definition unreported s : Z :=
  calc_load_tasks s + calc_load_tasks_idle s + sum_of pending (load_pcs s)
  - sum_of calc_load_active (load_rqs s).

Lemma unreported_pc c p q s :
  load_pcs s !! c = Some p → unreported (set_pc c q s) = unreported s - pending p + pending q.
Proof. intros Hp. unfold unreported. cbn -[sum_of]. rewrite (sum_of_insert _ _ _ _ _ Hp). lia. Qed.

Lemma unreported_rq c r r' s :
  load_rqs s !! c = Some r →
  unreported (set_load_rq c r' s) = unreported s + calc_load_active r - calc_load_active r'.
Proof. intros Hr. unfold unreported. cbn -[sum_of]. rewrite (sum_of_insert _ _ _ _ _ Hr). lia. Qed.

Lemma unreported_rq_same c r r' s :
  load_rqs s !! c = Some r → calc_load_active r' = calc_load_active r →
  unreported (set_load_rq c r' s) = unreported s.
Proof. intros Hr E. rewrite (unreported_rq _ _ _ _ Hr). lia. Qed.

Lemma unreported_add delta s : unreported (add_tasks delta s) ≡₆₄ unreported s + delta.
Proof.
  unfold add_tasks. case_decide as Hd.
  - unfold unreported. cbn -[sum_of]. rewrite s64_eq64. apply eq64_of_eq. lia.
  - apply eq64_of_eq. lia.
Qed.

Lemma unreported_add_idle delta s : unreported (add_tasks_idle delta s) ≡₆₄ unreported s + delta.
Proof. unfold unreported. cbn -[sum_of]. rewrite s64_eq64. apply eq64_of_eq. lia. Qed.

Lemma unreported_take s : unreported (set_tasks_idle 0 s) = unreported s - calc_load_tasks_idle s.
Proof. unfold unreported. cbn -[sum_of]. lia. Qed.

(** Folding takes from the queue what it gives back. *)
Lemma fold_active_delta r delta r' :
  calc_load_fold_active r = (delta, r') → delta ≡₆₄ calc_load_active r' - calc_load_active r.
Proof. unfold calc_load_fold_active. case_decide; intros [= <- <-]; cbn; [apply s64_eq64|apply eq64_of_eq; lia]. Qed.

Lemma pcs_add_tasks delta s : load_pcs (add_tasks delta s) = load_pcs s.
Proof. unfold add_tasks. by case_decide. Qed.

Lemma rqs_add_tasks delta s : load_rqs (add_tasks delta s) = load_rqs s.
Proof. unfold add_tasks. by case_decide. Qed.

Lemma age_missed_counts ticks s : unreported (age_missed ticks s) = unreported s.
Proof. unfold age_missed. by case_decide. Qed.

Lemma age_missed_pcs ticks s : load_pcs (age_missed ticks s) = load_pcs s.
Proof. unfold age_missed. by case_decide. Qed.

Lemma age_regular_counts s : unreported (age_regular s) = unreported s.
Proof. unfold age_regular. by destruct (time_before _ _). Qed.

Lemma age_regular_pcs s : load_pcs (age_regular s) = load_pcs s.
Proof. unfold age_regular. by destruct (time_before _ _). Qed.

Lemma counts_account_idle c r p s :
  load_rqs s !! c = Some r → load_pcs s !! c = Some p → pending p = 0 →
  unreported (calc_load_account_idle c r s) ≡₆₄ unreported s.
Proof.
  intros Hr Hp Ep. unfold calc_load_account_idle. destruct (calc_load_fold_active r) as [delta r'] eqn:E.
  rewrite (unreported_pc c p) by done. rewrite (unreported_rq c r) by done.
  apply fold_active_delta in E. rewrite Ep.
  assert (pending (if decide (delta ≠ 0) then IdleAdds delta else Out) = delta) as -> by (case_decide; cbn; lia).
  rewrite E. apply eq64_of_eq. lia.
Qed.

Lemma counts_account_active c r p s :
  load_rqs s !! c = Some r → load_pcs s !! c = Some p → pending p = 0 →
  unreported (calc_load_account_active c r s) ≡₆₄ unreported s.
Proof.
  intros Hr Hp Ep. unfold calc_load_account_active. destruct (time_before _ _); [done|].
  destruct (calc_load_fold_active r) as [delta r'] eqn:E.
  rewrite (unreported_pc c p) by done. rewrite (unreported_rq c r) by done.
  apply fold_active_delta in E. cbn. rewrite E, Ep. apply eq64_of_eq. lia.
Qed.

Lemma counts_global c ticks p s :
  load_pcs s !! c = Some p → pending p = 0 → unreported (calc_global_load c ticks s) = unreported s.
Proof.
  intros Hp Ep. unfold calc_global_load. destruct (time_before _ _); rewrite (unreported_pc c p) by done; cbn; lia.
Qed.

Lemma counts_go c r p s s' :
  load_rqs s !! c = Some r → load_pcs s !! c = Some p → load_go c r p s = Some s' →
  unreported s' ≡₆₄ unreported s.
Proof.
  intros Hr Hp. destruct p; intros E; inv_some E.
  - erewrite unreported_pc by done. rewrite unreported_add_idle. apply eq64_of_eq. cbn. lia.
  - erewrite unreported_pc by done. apply eq64_of_eq. case_decide; cbn; lia.
  - erewrite unreported_pc by done. cbn [pending]. rewrite unreported_take, s64_eq64. apply eq64_of_eq. lia.
  - erewrite unreported_pc by (cbn; by rewrite pcs_add_tasks).
    erewrite unreported_rq_same by (rewrite ?rqs_add_tasks; done).
    rewrite unreported_add. apply eq64_of_eq. cbn. lia.
  - erewrite unreported_pc by done. apply eq64_of_eq. case_decide; cbn; lia.
  - erewrite unreported_pc by done. cbn [pending]. rewrite unreported_take. apply eq64_of_eq. lia.
  - erewrite unreported_pc by (by rewrite pcs_add_tasks). rewrite unreported_add. apply eq64_of_eq. cbn. lia.
  - erewrite unreported_pc by (by rewrite age_missed_pcs). rewrite age_missed_counts. apply eq64_of_eq. cbn. lia.
  - erewrite unreported_pc by (by rewrite age_regular_pcs). rewrite age_regular_counts. apply eq64_of_eq. cbn. lia.
Qed.

Lemma counts_down c dest r d r' s :
  load_rqs s !! c = Some r → load_rqs s !! dest = Some d → c ≠ dest →
  load_rqs (migrate_nr_uninterruptible c dest r d s) !! c = Some r' →
  unreported (calc_global_load_remove c r' (migrate_nr_uninterruptible c dest r d s)) ≡₆₄ unreported s.
Proof.
  intros Hr Hd Hne Hr'.
  assert (unreported (migrate_nr_uninterruptible c dest r d s) = unreported s) as E.
  { unfold migrate_nr_uninterruptible. rewrite (unreported_rq_same c r); [by apply (unreported_rq_same dest d)| |done].
    unfold set_load_rq. cbn. by rewrite list_lookup_insert_ne by done. }
  set (s1 := migrate_nr_uninterruptible c dest r d s) in *. unfold calc_global_load_remove.
  erewrite unreported_rq by done. rewrite <- E. unfold unreported. cbn [calc_load_tasks set_tasks calc_load_tasks_idle load_pcs load_rqs].
  rewrite s64_eq64. apply eq64_of_eq. cbn. lia.
Qed.

Lemma is_out_pending p : is_out p = true → pending p = 0.
Proof. by destruct p. Qed.

Lemma counts_step l s s' : load_step l s = Some s' → unreported s' ≡₆₄ unreported s.
Proof.
  destruct l as [c b|c b|c|c|c ticks|c|c dest]; cbn; intros E.
  - destruct (load_rqs s !! c) as [r|] eqn:Hr; [|done]; destruct (load_pcs s !! c) as [p|]; [|done]; cbn in E.
    destruct (holds_rq p); inv_some E. by erewrite unreported_rq_same.
  - destruct (load_rqs s !! c) as [r|] eqn:Hr; [|done]; destruct (load_pcs s !! c) as [p|]; [|done]; cbn in E.
    destruct (holds_rq p); inv_some E. by erewrite unreported_rq_same.
  - destruct (load_rqs s !! c) as [r|] eqn:Hr; [|done]; destruct (load_pcs s !! c) as [p|] eqn:Hp; [|done]; cbn in E.
    destruct (is_out p) eqn:Ho; inv_some E. eapply counts_account_idle; eauto using is_out_pending.
  - destruct (load_rqs s !! c) as [r|] eqn:Hr; [|done]; destruct (load_pcs s !! c) as [p|] eqn:Hp; [|done]; cbn in E.
    destruct (is_out p) eqn:Ho; inv_some E. eapply counts_account_active; eauto using is_out_pending.
  - destruct (load_pcs s !! c) as [p|] eqn:Hp; [|done]; cbn in E.
    destruct (is_out p) eqn:Ho; [|done]. destruct (_ && _); inv_some E.
    erewrite counts_global by eauto using is_out_pending. done.
  - destruct (load_rqs s !! c) as [r|] eqn:Hr; [|done]; destruct (load_pcs s !! c) as [p|] eqn:Hp; [|done]; cbn in E.
    by eapply counts_go.
  - destruct (load_rqs s !! c) as [r|] eqn:Hr; [|done]; destruct (load_rqs s !! dest) as [d|] eqn:Hd; [|done]; cbn in E.
    destruct (decide (c = dest)); [done|]. destruct (forallb _ _); [|done].
    destruct (_ !! c) as [r'|] eqn:Hr' in E; inv_some E. by eapply counts_down.
Qed.

Lemma counts_start n now s : load_start n now s → unreported s = 0.
Proof.
  intros [_ ->]. unfold unreported. cbn -[sum_of].
  assert (∀ m, sum_of pending (replicate m Out) = 0) as -> by (by induction m).
  assert (∀ m x, calc_load_active x = 0 → sum_of calc_load_active (replicate m x) = 0) as ->; [|done..].
  intros m x Hx. induction m as [|m IH]; [done|]. cbn in *. unfold sum_of in IH. lia.
Qed.

Lemma counts_reachable n now s : reachable load_step (load_start n now) s → unreported s ≡₆₄ 0.
Proof.
  revert s. apply (reachable_ind load_step _ (λ s, unreported s ≡₆₄ 0)); [by intros s0 ->%counts_start|].
  intros l s1 s2 H1 H2. by rewrite (counts_step _ _ _ H2).
Qed.

(** ** At rest *)

Definition at_rest s : Prop := Forall (λ p, is_out p = true) (load_pcs s).

(** Every queue has reported its tasks. *)
Definition all_reported s : Prop := Forall (λ r, calc_load_active r = count_active r) (load_rqs s).

Definition all_running s : Z := sum_of nr_running (load_rqs s).
Definition all_uninterruptible s : Z := sum_of nr_uninterruptible (load_rqs s).

Lemma sum_active_reported (rs : list load_rq) :
  Forall (λ r, calc_load_active r = count_active r) rs →
  sum_of calc_load_active rs ≡₆₄ sum_of nr_running rs + sum_of nr_uninterruptible rs.
Proof.
  induction 1 as [|r rs Hr _ IH]; [done|]. change (calc_load_active r + sum_of calc_load_active rs ≡₆₄
    (nr_running r + sum_of nr_running rs) + (nr_uninterruptible r + sum_of nr_uninterruptible rs)).
  rewrite IH, Hr. unfold count_active. rewrite !s64_eq64. apply eq64_of_eq. lia.
Qed.

Lemma at_rest_pending s : at_rest s → sum_of pending (load_pcs s) = 0.
Proof.
  unfold at_rest. induction 1 as [|p ps Hp _ IH]; [done|].
  change (pending p + sum_of pending ps = 0). rewrite is_out_pending by done. lia.
Qed.

(** The loops over the processors add up the counters as unsigned words. *)
Lemma sum_counter_from f (rs rest : list load_rq) s acc :
  load_rqs s = rest ++ rs →
  foldl (λ sum i, match load_rqs s !! i with Some r => u64 (sum + f r) | None => sum end) (u64 acc)
    (seq (length rest) (length rs)) = u64 (acc + sum_of f rs).
Proof.
  revert rest acc. induction rs as [|r rs IH]; intros rest acc E; cbn [length seq foldl].
  - f_equal. cbn. lia.
  - rewrite E at 1. rewrite list_lookup_middle by done.
    assert (u64 (u64 acc + f r) = u64 (acc + f r)) as -> by (apply u64_of_eq64; by rewrite u64_eq64).
    specialize (IH (rest ++ [r]) (acc + f r)). rewrite length_app, Nat.add_1_r in IH.
    rewrite IH by (by rewrite E, <- app_assoc). f_equal. cbn. unfold sum_of. lia.
Qed.

Definition cpus_of s : list nat := seq 0 (length (load_rqs s)).

Lemma sum_counter_all f s : sum_counter f (cpus_of s) s = u64 (sum_of f (load_rqs s)).
Proof. apply (sum_counter_from f (load_rqs s) [] s 0 eq_refl). Qed.

Lemma total_uninterruptible_sane s :
  0 <= s64 (all_uninterruptible s) → total_uninterruptible s = s64 (all_uninterruptible s).
Proof.
  intros Hs. unfold total_uninterruptible. fold (cpus_of s). rewrite sum_counter_all.
  assert (s64 (u64 (all_uninterruptible s)) = s64 (all_uninterruptible s)) as E.
  { pose proof (wrap_s_range 64 (all_uninterruptible s) ltac:(done)).
    apply s64_of_eq64; [|done]. by rewrite u64_eq64, s64_eq64. }
  unfold all_uninterruptible in *. rewrite E. case_decide; [lia|].
  transitivity (u64 (s64 (sum_of nr_uninterruptible (load_rqs s)))).
  - apply u64_of_eq64. by rewrite s64_eq64.
  - apply wrap_u_small. pose proof (wrap_s_range 64 (sum_of nr_uninterruptible (load_rqs s)) ltac:(done)). lia.
Qed.

(** C23: every change that a queue has reported is in one of the counts or with exactly
    one processor that is about to add it, whatever races there are between folding
    idle changes, ticks and processors taken down. When all processors are at rest
    and have reported, the counts together are [nr_running() + nr_uninterruptible()]. *)
Theorem load_changes_accounted n now s :
  reachable load_step (load_start n now) s →
  s64 (calc_load_tasks s + calc_load_tasks_idle s + sum_of pending (load_pcs s)) =
    s64 (sum_of calc_load_active (load_rqs s)) ∧
  (at_rest s → all_reported s → 0 <= all_running s < 2 ^ 62 → 0 <= s64 (all_uninterruptible s) < 2 ^ 62 →
   s64 (calc_load_tasks s + calc_load_tasks_idle s) = total_running (cpus_of s) s + total_uninterruptible s).
Proof.
  intros Hs%counts_reachable. unfold unreported in Hs.
  assert (calc_load_tasks s + calc_load_tasks_idle s + sum_of pending (load_pcs s) ≡₆₄
    sum_of calc_load_active (load_rqs s)) as Ha by (destruct Hs as [k Hk]; exists k; lia).
  split.
  - apply s64_of_eq64; [rewrite Ha; symmetry; apply s64_eq64|].
    pose proof (wrap_s_range 64 (sum_of calc_load_active (load_rqs s)) ltac:(done)) as Hr. apply Hr.
  - intros Hrest Hrep Hrun Hun. rewrite total_uninterruptible_sane by lia.
    unfold total_running. rewrite sum_counter_all, wrap_u_small by (unfold all_running in Hrun; lia).
    apply s64_of_eq64; [|unfold all_running in Hrun; lia].
    rewrite (at_rest_pending s Hrest), Z.add_0_r in Ha. rewrite Ha, (sum_active_reported _ Hrep), s64_eq64. done.
Qed.

End steps.
