(* ===== verification/LoadTime.v ===== *)
(** * Load averages: time (sched.c, src/indwriterups/project1)

    The averages are aged by as many periods as have gone by, however long the timer
    was stopped. *)

From S2P Require Import Prelude LoadAvg LoadSteps.

Local Open Scope Z_scope.
Local Open Scope cs544_scope.

Section time.
Context `{Hlaws : LoadLaws}.
Implicit Types s : loads.

#[local] Arguments holds_rq : simpl never.
#[local] Arguments is_out : simpl never.

Lemma s64_diff x y : - 2 ^ 63 <= x - y < 2 ^ 63 → s64 (u64 x - u64 y) = x - y.
Proof. intros. apply s64_of_eq64; [|done]. by rewrite !u64_eq64. Qed.

(** [time_before] compares the times, as long as they are close enough. *)
Lemma time_before_close x y :
  - 2 ^ 63 <= x - y < 2 ^ 63 → time_before (u64 x) (u64 y) = bool_decide (x < y).
Proof. intros. rewrite time_before_signed, s64_diff by done. apply bool_decide_ext. lia. Qed.

(** How late the averages may be where the keeper of the time is. *)
Definition keeper_ok (p : load_pc) s : Prop :=
  match p with
  | NohzReads t | NohzTakes t | NohzAdds t _ | NohzAges t =>
      0 < t < 2 ^ 62 ∧ aged s * LOAD_FREQ <= elapsed s - t < aged s * LOAD_FREQ + LOAD_FREQ + 10 ∧
      (aged s + 1) * LOAD_FREQ <= elapsed s
  | GlobalChecks => aged s * LOAD_FREQ <= elapsed s < aged s * LOAD_FREQ + 2 * LOAD_FREQ + 10
  | _ => True
  end.

Definition on_time s : Prop := aged s * LOAD_FREQ <= elapsed s < aged s * LOAD_FREQ + LOAD_FREQ + 10.

Record time_ok (now : Z) s : Prop := {
  to_jiffies : jiffies s = u64 (now + elapsed s);
  to_update : calc_load_update s = u64 (now + (aged s + 1) * LOAD_FREQ);
  to_keeper c p : load_pcs s !! c = Some p → keeps_time p = true → keeper_ok p s;
  to_one c c' p p' : load_pcs s !! c = Some p → keeps_time p = true →
    load_pcs s !! c' = Some p' → keeps_time p' = true → c = c';
  to_free : existsb keeps_time (load_pcs s) = false → on_time s;
}.

(** What the time depends on. *)
Definition same_time s s' : Prop :=
  jiffies s' = jiffies s ∧ calc_load_update s' = calc_load_update s ∧ elapsed s' = elapsed s ∧ aged s' = aged s.

Lemma same_keeper p s s' : same_time s s' → keeper_ok p s → keeper_ok p s'.
Proof. intros (_ & _ & E1 & E2). unfold keeper_ok. destruct p; by rewrite ?E1, ?E2. Qed.

Lemma no_keeper (ps : list load_pc) :
  existsb keeps_time ps = false ↔ ∀ c p, ps !! c = Some p → keeps_time p = false.
Proof.
  rewrite <- not_true_iff_false, existsb_exists. split.
  - intros Hn c p Hp. apply not_true_iff_false. intros Hk. apply Hn. exists p. split; [|done].
    by eapply list_elem_of_In, list_elem_of_lookup_2.
  - intros Hall (p & [c Hc]%list_elem_of_In%list_elem_of_lookup & Hk). by rewrite (Hall c p Hc) in Hk.
Qed.

(** A step that changes no time keeps the invariant when the processor stays as it
    was, or keeps the time as before it. *)
Lemma time_same now s s' c p q :
  time_ok now s → same_time s s' → load_pcs s !! c = Some p → load_pcs s' = <[c := q]> (load_pcs s) →
  keeps_time q = keeps_time p → (keeps_time q = true → keeper_ok p s → keeper_ok q s') → time_ok now s'.
Proof.
  intros [Hj Hu Hk H1 Hf] Hs Hp Hl Hq Hkq. pose proof Hs as (E1 & E2 & E3 & E4).
  assert (∀ c' p', load_pcs s' !! c' = Some p' → keeps_time p' = true →
    (c' = c ∧ p' = q) ∨ (c' ≠ c ∧ load_pcs s !! c' = Some p')) as Hcase.
  { intros c' p'. rewrite Hl. intros [(-> & -> & _)|(? & ?)]%list_lookup_insert_Some _; auto. }
  split; [by rewrite E1, E3|by rewrite E2, E4| | |].
  - intros c' p' Hp' Hkp. destruct (Hcase c' p' Hp' Hkp) as [(-> & ->)|(_ & Hp0)].
    + apply Hkq; [done|]. eapply Hk; [done|]. by rewrite <- Hq.
    + eapply same_keeper; [done|]. by eapply Hk.
  - intros c1 c2 p1 p2 Hc1 Hk1 Hc2 Hk2.
    assert (∃ p0, load_pcs s !! c1 = Some p0 ∧ keeps_time p0 = true) as (p10 & ? & ?).
    { destruct (Hcase c1 p1 Hc1 Hk1) as [(-> & ->)|(_ & Hp0)]; [exists p; split; [done|]; by rewrite <- Hq|by exists p1]. }
    assert (∃ p0, load_pcs s !! c2 = Some p0 ∧ keeps_time p0 = true) as (p20 & ? & ?).
    { destruct (Hcase c2 p2 Hc2 Hk2) as [(-> & ->)|(_ & Hp0)]; [exists p; split; [done|]; by rewrite <- Hq|by exists p2]. }
    by eapply H1.
  - rewrite no_keeper. intros Hn. unfold on_time. rewrite E3, E4. apply Hf. rewrite no_keeper. intros c' p' Hp'.
    destruct (decide (c' = c)) as [->|Hne].
    + rewrite Hp in Hp'. injection Hp' as <-. rewrite <- Hq. apply (Hn c). rewrite Hl.
      apply list_lookup_insert_eq. by eapply lookup_lt_Some.
    + apply (Hn c'). by rewrite Hl, list_lookup_insert_ne.
Qed.

(** A step of the keeper itself, which changes the time or gives it up. *)
Lemma time_keeper now s s' c p q :
  time_ok now s → load_pcs s !! c = Some p → keeps_time p = true → load_pcs s' = <[c := q]> (load_pcs s) →
  jiffies s' = u64 (now + elapsed s') → calc_load_update s' = u64 (now + (aged s' + 1) * LOAD_FREQ) →
  (keeps_time q = true → keeper_ok q s') → (keeps_time q = false → on_time s') → time_ok now s'.
Proof.
  intros [_ _ _ H1 _] Hp Hkp Hl Hj Hu Hq Hr.
  assert (∀ c' p', load_pcs s' !! c' = Some p' → keeps_time p' = true → c' = c ∧ p' = q) as Hcase.
  { intros c' p'. rewrite Hl. intros [(-> & -> & _)|(Hne & Hp')]%list_lookup_insert_Some Hk; [done|].
    destruct Hne. by eapply H1. }
  split; [done|done| | |].
  - intros c' p' Hp' Hk. destruct (Hcase _ _ Hp' Hk) as [-> ->]. auto.
  - intros c1 c2 p1 p2 Hc1 Hk1 Hc2 Hk2. destruct (Hcase _ _ Hc1 Hk1) as [-> _]. by destruct (Hcase _ _ Hc2 Hk2) as [-> _].
  - rewrite no_keeper. intros Hn. apply Hr, (Hn c). rewrite Hl. apply list_lookup_insert_eq. by eapply lookup_lt_Some.
Qed.

(** [age_all] and its callers *)
Lemma age_all_time now n age s :
  jiffies s = u64 (now + elapsed s) → calc_load_update s = u64 (now + (aged s + 1) * LOAD_FREQ) →
  jiffies (age_all n age s) = u64 (now + elapsed (age_all n age s)) ∧
  calc_load_update (age_all n age s) = u64 (now + (aged (age_all n age s) + 1) * LOAD_FREQ).
Proof.
  intros Hj Hu. split; [done|]. cbn. rewrite Hu. apply u64_of_eq64. rewrite u64_eq64. apply eq64_of_eq. lia.
Qed.

Lemma age_missed_time now ticks s :
  jiffies s = u64 (now + elapsed s) → calc_load_update s = u64 (now + (aged s + 1) * LOAD_FREQ) →
  let s' := age_missed ticks s in
  jiffies s' = u64 (now + elapsed s') ∧ calc_load_update s' = u64 (now + (aged s' + 1) * LOAD_FREQ).
Proof. intros Hj Hu. unfold age_missed. case_decide; [by apply age_all_time|done]. Qed.

(** After the periods that the keeper missed, at most one more is due. *)
Lemma age_missed_late ticks s :
  keeper_ok (NohzAges ticks) s → keeper_ok GlobalChecks (age_missed ticks s).
Proof.
  pose proof load_freq_range as HF. unfold keeper_ok, age_missed. intros (Ht & Hl & Hd). case_decide as Hle; [|lia].
  cbn. assert (ticks = LOAD_FREQ * (ticks `div` LOAD_FREQ) + ticks `mod` LOAD_FREQ) as Hdiv by (apply Z.div_mod; lia).
  assert (0 <= ticks `mod` LOAD_FREQ < LOAD_FREQ) by (apply Z.mod_pos_bound; lia). nia.
Qed.

Lemma age_regular_time now s :
  jiffies s = u64 (now + elapsed s) → calc_load_update s = u64 (now + (aged s + 1) * LOAD_FREQ) →
  let s' := age_regular s in
  jiffies s' = u64 (now + elapsed s') ∧ calc_load_update s' = u64 (now + (aged s' + 1) * LOAD_FREQ).
Proof. intros Hj Hu. unfold age_regular. destruct (time_before _ _); [done|by apply age_all_time]. Qed.

Lemma age_regular_on_time now s :
  jiffies s = u64 (now + elapsed s) → calc_load_update s = u64 (now + (aged s + 1) * LOAD_FREQ) →
  keeper_ok GlobalChecks s → on_time (age_regular s).
Proof.
  pose proof load_freq_range as HF. intros Hj Hu Hk. unfold keeper_ok in Hk.
  unfold age_regular. rewrite Hj, Hu.
  assert (u64 (u64 (now + (aged s + 1) * LOAD_FREQ) + 10) = u64 (now + (aged s + 1) * LOAD_FREQ + 10)) as ->.
  { apply u64_of_eq64. by rewrite u64_eq64. }
  rewrite time_before_close by lia. unfold on_time. case_bool_decide; cbn; lia.
Qed.

(** Where a processor that is not the keeper is, its steps change no time. *)
Lemma time_account_idle now c r s p :
  time_ok now s → load_pcs s !! c = Some p → keeps_time p = false → time_ok now (calc_load_account_idle c r s).
Proof.
  intros Ht Hp Hk. unfold calc_load_account_idle. destruct (calc_load_fold_active r) as [delta r'].
  eapply time_same; [done..| |]; rewrite ?Hk; by case_decide.
Qed.

Lemma time_account_active now c r s p :
  time_ok now s → load_pcs s !! c = Some p → keeps_time p = false → time_ok now (calc_load_account_active c r s).
Proof.
  intros Ht Hp Hk. unfold calc_load_account_active. destruct (time_before _ _); [done|].
  destruct (calc_load_fold_active r) as [delta r'].
  by eapply time_same; [done..| |]; rewrite ?Hk.
Qed.

Lemma time_tasks now delta s : time_ok now s → time_ok now (add_tasks delta s).
Proof. intros [????]. unfold add_tasks. case_decide; by split. Qed.

Lemma time_go now c r p s s' :
  time_ok now s → load_pcs s !! c = Some p → load_go c r p s = Some s' → time_ok now s'.
Proof.
  intros Ht Hp E. pose proof Ht as [Hj Hu Hkeep _ _]. specialize (Hkeep c p Hp). destruct p; inv_some E.
  - by eapply (time_same now s _ c _ Out).
  - eapply (time_same now s _ c); [done..| |]; by case_decide.
  - by eapply (time_same now s _ c).
  - eapply (time_same now (add_tasks delta s) _ c (ActiveAdds delta) Out); [by apply time_tasks|done|by rewrite pcs_add_tasks|done..].
  - eapply (time_same now s _ c); [done..| |]; by case_decide.
  - by eapply (time_same now s _ c).
  - eapply (time_same now (add_tasks delta s) _ c (NohzAdds ticks delta) (NohzAges ticks)); [by apply time_tasks|done|by rewrite pcs_add_tasks|done..].
  - destruct (age_missed_time now ticks s Hj Hu). eapply (time_keeper now s _ c (NohzAges ticks) GlobalChecks); try done.
    + cbn. by rewrite age_missed_pcs.
    + intros _. by apply (age_missed_late ticks s), Hkeep.
  - destruct (age_regular_time now s Hj Hu). eapply (time_keeper now s _ c GlobalChecks Out); try done.
    + cbn. by rewrite age_regular_pcs.
    + intros _. by apply (age_regular_on_time now), Hkeep.
Qed.

Lemma time_timer now c p ticks s :
  time_ok now s → load_pcs s !! c = Some p → is_out p = true → existsb keeps_time (load_pcs s) = false →
  0 < ticks < 2 ^ 62 → time_ok now (calc_global_load c ticks (advance ticks s)).
Proof.
  pose proof load_freq_range as HF. intros [Hj Hu _ _ Hf] Hp Ho Hn Ht. specialize (Hf Hn). unfold on_time in Hf.
  rewrite no_keeper in Hn. unfold calc_global_load. cbn [jiffies advance calc_load_update].
  assert (u64 (jiffies s + ticks) = u64 (now + (elapsed s + ticks))) as Ej.
  { rewrite Hj. apply u64_of_eq64. rewrite u64_eq64. apply eq64_of_eq. lia. }
  rewrite Ej, Hu, time_before_close by lia.
  assert (∀ q, keeper_ok q (advance ticks s) → keeps_time q = true → time_ok now (set_pc c q (advance ticks s))) as Hgo.
  { intros q Hq Hkq.
    assert (∀ c' p', <[c := q]> (load_pcs s) !! c' = Some p' → keeps_time p' = true → c' = c ∧ p' = q) as Hcase.
    { intros c' p' [(-> & -> & _)|(Hne & Hp')]%list_lookup_insert_Some Hk; [done|]. by rewrite (Hn c' p' Hp') in Hk. }
    split; [done|done| | |].
    - intros c' p' Hp' Hk. by destruct (Hcase _ _ Hp' Hk) as [-> ->].
    - intros c1 c2 p1 p2 Hc1 Hk1 Hc2 Hk2. destruct (Hcase _ _ Hc1 Hk1) as [-> _]. by destruct (Hcase _ _ Hc2 Hk2) as [-> _].
    - rewrite no_keeper. intros Hno. rewrite (Hno c q) in Hkq; [done|].
      apply list_lookup_insert_eq. by eapply lookup_lt_Some. }
  case_bool_decide; apply Hgo; try done; unfold keeper_ok; cbn; lia.
Qed.

Lemma time_rqs now f s : time_ok now s → time_ok now (set_rqs f s).
Proof. intros [????]. by split. Qed.

Lemma time_step now l s s' : time_ok now s → load_step l s = Some s' → time_ok now s'.
Proof.
  intros Ht. destruct l as [c b|c b|c|c|c ticks|c|c dest]; cbn; intros E.
  - destruct (load_rqs s !! c) as [r|]; [|done]; destruct (load_pcs s !! c) as [p|]; [|done]; cbn in E.
    destruct (holds_rq p); inv_some E. by apply time_rqs.
  - destruct (load_rqs s !! c) as [r|]; [|done]; destruct (load_pcs s !! c) as [p|]; [|done]; cbn in E.
    destruct (holds_rq p); inv_some E. by apply time_rqs.
  - destruct (load_rqs s !! c) as [r|]; [|done]; destruct (load_pcs s !! c) as [p|] eqn:Hp; [|done]; cbn in E.
    destruct (is_out p) eqn:Ho; inv_some E. eapply time_account_idle; [done..|by destruct p].
  - destruct (load_rqs s !! c) as [r|]; [|done]; destruct (load_pcs s !! c) as [p|] eqn:Hp; [|done]; cbn in E.
    destruct (is_out p) eqn:Ho; inv_some E. eapply time_account_active; [done..|by destruct p].
  - destruct (load_pcs s !! c) as [p|] eqn:Hp; [|done]; cbn in E.
    destruct (is_out p) eqn:Ho; [|done]. destruct (existsb _ _) eqn:Hn; [done|]. cbn in E.
    case_bool_decide; inv_some E. by eapply time_timer.
  - destruct (load_rqs s !! c) as [r|]; [|done]; destruct (load_pcs s !! c) as [p|] eqn:Hp; [|done]; cbn in E.
    by eapply time_go.
  - destruct (load_rqs s !! c) as [r|]; [|done]; destruct (load_rqs s !! dest) as [d|]; [|done]; cbn in E.
    destruct (decide (c = dest)); [done|]. destruct (forallb _ _); [|done].
    destruct (_ !! c) as [r'|] in E; inv_some E. destruct Ht as [????]. by split.
Qed.

Lemma time_start n now s : load_start n now s → time_ok now s.
Proof.
  pose proof load_freq_range as HF. intros [Hn ->].
  assert (∀ c p, replicate n Out !! c = Some p → keeps_time p = false) as Hout.
  { by intros c p [-> _]%lookup_replicate. }
  split; cbn [jiffies calc_load_update load_pcs elapsed aged].
  - rewrite Z.add_0_r, wrap_u_small; done.
  - f_equal. lia.
  - intros c p Hp. by rewrite (Hout c p Hp).
  - intros c c' p p' Hp. by rewrite (Hout c p Hp).
  - intros _. unfold on_time. cbn. lia.
Qed.

Lemma time_reachable n now s : reachable load_step (load_start n now) s → time_ok now s.
Proof.
  revert s. apply (reachable_ind load_step _ (time_ok now)); [apply time_start|].
  intros l s1 s2 H1 H2. by eapply time_step.
Qed.


End time.
