(* ===== verification/LoadNum.v ===== *)
(** * Load averages: the arithmetic (sched.c, src/indwriterups/project1)

    Where the averages end up while the number of active tasks is constant, and how
    good the shortcut for several periods is. *)

From S2P Require Import Prelude LoadAvg.

Local Open Scope Z_scope.

(** ** Rounding *)

Lemma shiftr_round b x : 0 < b <= 31 → 0 <= x < 2 ^ 63 →
  Z.shiftr (u64 (x + 2 ^ (b - 1))) b = (x + 2 ^ (b - 1)) / 2 ^ b ∧
  - 2 ^ b < 2 * ((x + 2 ^ (b - 1)) / 2 ^ b * 2 ^ b - x) <= 2 ^ b.
Proof.
  intros Hb Hx. assert (2 ^ b = 2 * 2 ^ (b - 1)) as E by (rewrite <- Z.pow_succ_r by lia; f_equal; lia).
  assert (1 <= 2 ^ (b - 1) <= 2 ^ 30) as Hp by (split; [apply (Z.pow_le_mono_r 2 0)|apply (Z.pow_le_mono_r 2 _ 30)]; lia).
  rewrite wrap_u_small, Z.shiftr_div_pow2 by lia. split; [done|].
  pose proof (Z.div_mod (x + 2 ^ (b - 1)) (2 ^ b) ltac:(lia)). pose proof (Z.mod_pos_bound (x + 2 ^ (b - 1)) (2 ^ b) ltac:(lia)). lia.
Qed.

Lemma pow2_range b : 0 < b <= 31 → 2 <= 2 ^ b <= 2 ^ 31.
Proof. intros. split; [apply (Z.pow_le_mono_r 2 1)|apply (Z.pow_le_mono_r 2 _ 31)]; lia. Qed.

(** ** One update *)

Section settle.
Context `{Hlaws : LoadLaws}.

(** A factor, and a load or a count of tasks that fits its format. *)
Definition is_factor (exp : Z) : Prop := 0 < exp < FIXED_1.
Definition is_load (x : Z) : Prop := 0 <= x < 2 ^ 32.

Lemma fixed_1_range : 2 <= FIXED_1 <= 2 ^ 31.
Proof. apply pow2_range, fshift_range. Qed.

Lemma half_fixed : 2 * 2 ^ (FSHIFT - 1) = FIXED_1.
Proof. unfold FIXED_1. pose proof fshift_range. rewrite <- Z.pow_succ_r by lia. f_equal. lia. Qed.

Lemma mix_range load exp active : is_load load → 0 <= exp <= FIXED_1 → is_load active →
  0 <= load * exp + active * (FIXED_1 - exp) < 2 ^ 63 ∧ 0 <= load * exp < 2 ^ 63 ∧ 0 <= active * (FIXED_1 - exp) < 2 ^ 63.
Proof.
  pose proof fixed_1_range. unfold is_load. intros Hl He Ha.
  assert (0 <= load * exp <= (2 ^ 32 - 1) * exp) by nia.
  assert (0 <= active * (FIXED_1 - exp) <= (2 ^ 32 - 1) * (FIXED_1 - exp)) by nia. nia.
Qed.

Lemma calc_load_formula load exp active : is_load load → 0 <= exp <= FIXED_1 → is_load active →
  calc_load load exp active = (load * exp + active * (FIXED_1 - exp) + 2 ^ (FSHIFT - 1)) / FIXED_1.
Proof.
  intros Hl He Ha. destruct (mix_range load exp active Hl He Ha) as (H1 & H2 & H3). pose proof fixed_1_range.
  unfold calc_load. rewrite (wrap_u_small 64 (load * exp)) by lia. rewrite (wrap_u_small 64 (FIXED_1 - exp)) by lia.
  rewrite (wrap_u_small 64 (active * _)) by lia. rewrite (wrap_u_small 64 (load * exp + _)) by lia.
  by apply shiftr_round; [apply fshift_range|].
Qed.

(** The distance to the active count is multiplied by the factor and rounded. *)
Lemma calc_load_error load exp active : is_load load → 0 <= exp <= FIXED_1 → is_load active →
  2 * Z.abs ((calc_load load exp active - active) * FIXED_1 - (load - active) * exp) <= FIXED_1.
Proof.
  intros Hl He Ha. rewrite calc_load_formula by done. destruct (mix_range load exp active Hl He Ha) as (H1 & _).
  destruct (shiftr_round FSHIFT _ fshift_range H1) as [_ Hr]. fold FIXED_1 in Hr. lia.
Qed.

(** How far from the active count an average stays for good, above and below. *)
Definition gap_above (exp : Z) : Z := 2 ^ (FSHIFT - 1) / (FIXED_1 - exp).
Definition gap_below (exp : Z) : Z := (2 ^ (FSHIFT - 1) - 1) / (FIXED_1 - exp).

Definition settled (exp active load : Z) : Z :=
  Z.max (active - gap_below exp) (Z.min load (active + gap_above exp)).

Lemma calc_load_moves load exp active : is_load load → is_factor exp → is_load active →
  calc_load load exp active = load + (2 ^ (FSHIFT - 1) - (load - active) * (FIXED_1 - exp)) / FIXED_1.
Proof.
  intros Hl He Ha. unfold is_factor in He. rewrite calc_load_formula by (done || lia). pose proof fixed_1_range.
  replace (load * exp + active * (FIXED_1 - exp) + 2 ^ (FSHIFT - 1)) with
    (load * FIXED_1 + (2 ^ (FSHIFT - 1) - (load - active) * (FIXED_1 - exp))) by lia.
  apply Z.div_add_l. lia.
Qed.

Lemma gap_spec exp d : is_factor exp →
  (d <= gap_above exp ↔ d * (FIXED_1 - exp) <= 2 ^ (FSHIFT - 1)) ∧ (d <= gap_below exp ↔ d * (FIXED_1 - exp) < 2 ^ (FSHIFT - 1)).
Proof.
  unfold is_factor. intros He. unfold gap_above, gap_below. set (c := FIXED_1 - exp). assert (0 < c) by lia.
  split; split; intros Hd.
  - pose proof (Z.mul_div_le (2 ^ (FSHIFT - 1)) c ltac:(lia)). nia.
  - apply Z.div_le_lower_bound; lia.
  - pose proof (Z.mul_div_le (2 ^ (FSHIFT - 1) - 1) c ltac:(lia)). nia.
  - apply Z.div_le_lower_bound; lia.
Qed.

(** An update keeps a settled average and brings any other nearer, on its side. *)
Lemma calc_load_nearer load exp active : is_load load → is_factor exp → is_load active →
  let v := settled exp active load in let r := calc_load load exp active in
  is_load r ∧ settled exp active r = v ∧ (load = v → r = v) ∧ (load ≠ v → Z.abs (r - v) < Z.abs (load - v)).
Proof.
  intros Hl He Ha v r. subst v r. rewrite calc_load_moves by done. pose proof fixed_1_range as HF. pose proof half_fixed as Hh.
  destruct (gap_spec exp (load - active) He) as [Habove _]. destruct (gap_spec exp (active - load) He) as [_ Hbelow].
  destruct (gap_spec exp (gap_above exp) He) as [[Hga _] _]. specialize (Hga ltac:(lia)).
  destruct (gap_spec exp (gap_below exp) He) as [_ [Hgb _]]. specialize (Hgb ltac:(lia)).
  assert (0 <= gap_below exp <= gap_above exp) as Hg.
  { unfold is_factor in He. unfold gap_above, gap_below. split; [apply Z.div_pos; lia|apply Z.div_le_mono; lia]. }
  unfold is_factor, is_load in *. unfold settled.
  set (ga := gap_above exp) in *. set (gb := gap_below exp) in *. set (c := FIXED_1 - exp) in *.
  set (h := 2 ^ (FSHIFT - 1)) in *. set (F := FIXED_1) in *.
  assert (0 < c < F) as Hc by lia. clearbody ga gb c h F.
  assert (F * ((h - (load - active) * c) / F) + (h - (load - active) * c) mod F = h - (load - active) * c) as Hd by (symmetry; apply Z.div_mod; lia).
  assert (0 <= (h - (load - active) * c) mod F < F) as Hm by (apply Z.mod_pos_bound; lia).
  set (q := (h - (load - active) * c) / F) in *. set (m := (h - (load - active) * c) mod F) in *. clearbody q m.
  destruct (decide (load - active <= ga)) as [H1|H1]; [destruct (decide (active - load <= gb)) as [H2|H2]|].
  - apply Habove in H1 as H1'. apply Hbelow in H2 as H2'. assert (q = 0) as -> by nia. lia.
  - assert (h <= (active - load) * c) as H2' by (rewrite Hbelow in H2; lia).
    assert (1 <= q <= active - gb - load) as Hq; [|lia]. split; [nia|].
    set (k := active - load - gb). assert (active - load = gb + k) as E by lia.
    replace (load - active) with (- (gb + k)) in Hd by lia. assert (1 <= k) by lia. clearbody k.
    assert (k * c <= k * F) by (apply Z.mul_le_mono_nonneg_l; lia).
    assert (q <= k); [|lia]. clear - Hd Hm Hgb Hh H Hc H0. nia.
  - assert (h < (load - active) * c) as H1' by (rewrite Habove in H1; lia).
    assert (active + ga - load <= q <= -1) as Hq; [|lia]. split; [|nia].
    set (k := load - active - ga). replace (load - active) with (ga + k) in Hd by lia. assert (1 <= k) by lia.
    assert (load - active = ga + k) as E by lia. clearbody k.
    assert (k * c <= k * F) by (apply Z.mul_le_mono_nonneg_l; lia).
    assert (- k <= q); [|lia]. clear - Hd Hm Hga Hh H Hc H0. nia.
Qed.

(** While the number of active tasks is constant an average comes to rest: at
    [active + gap_above] when it was higher, at [active - gap_below] when it was
    lower, and it keeps any value in between; it gets no nearer to [active]. *)
Theorem calc_load_settles load exp active : is_load load → is_factor exp → is_load active →
  ∃ n, ∀ m, (n <= m)%nat → Nat.iter m (λ x, calc_load x exp active) load = settled exp active load.
Proof.
  intros Hl He Ha. remember (Z.to_nat (Z.abs (load - settled exp active load))) as d eqn:Ed.
  revert load Hl Ed. induction d as [d IH] using lt_wf_ind. intros load Hl Ed.
  destruct (calc_load_nearer load exp active Hl He Ha) as (Hr & Es & Hsame & Hnear).
  destruct (decide (load = settled exp active load)) as [E|E].
  - exists 0%nat. intros m _. rewrite <- E. specialize (Hsame E). rewrite <- E in Hsame. clear - Hsame.
    induction m as [|m IHm]; [done|]. by rewrite Nat.iter_succ, IHm.
  - specialize (Hnear E). destruct (IH (Z.to_nat (Z.abs (calc_load load exp active - settled exp active load)))
      ltac:(lia) (calc_load load exp active) Hr ltac:(by rewrite Es)) as [n Hn].
    exists (S n). intros [|m] Hm; [lia|]. rewrite Nat.iter_succ_r. rewrite <- Es. apply Hn. lia.
Qed.
End settle.

(** ** Powers *)

Lemma mul_bound d e m M : 2 * Z.abs d <= e → 0 <= m <= M → 2 * Z.abs (d * m) <= e * M.
Proof. intros Hd Hm. rewrite Z.abs_mul, (Z.abs_eq m) by lia. nia. Qed.

(** [r] is the [k]-th power of the factor [x], up to [e] half units. *)
Definition power_within (b x k e r : Z) : Prop :=
  0 <= r <= 2 ^ b ∧ 2 * Z.abs (r * (2 ^ b) ^ k - 2 ^ b * x ^ k) <= e * (2 ^ b) ^ k.

Lemma fixed_mul_range b r1 r2 : 0 < b <= 31 → 0 <= r1 <= 2 ^ b → 0 <= r2 <= 2 ^ b →
  0 <= fixed_mul b r1 r2 <= 2 ^ b ∧ 2 * Z.abs (fixed_mul b r1 r2 * 2 ^ b - r1 * r2) <= 2 ^ b.
Proof.
  intros Hb H1 H2. pose proof (pow2_range b Hb) as HS. assert (0 <= r1 * r2 <= 2 ^ b * 2 ^ b) as Hp by nia.
  assert (2 ^ b * 2 ^ b <= 2 ^ 62) by nia.
  unfold fixed_mul. rewrite (wrap_u_small 64 (r1 * r2)) by lia. destruct (shiftr_round b (r1 * r2) Hb ltac:(lia)) as [-> Hr].
  set (q := (r1 * r2 + 2 ^ (b - 1)) / 2 ^ b) in *. split; [|lia]. split; [|nia].
  apply Z.div_pos; [|lia]. pose proof (Z.pow_nonneg 2 (b - 1)). lia.
Qed.

(** Errors add up, with one half for the rounding. *)
Lemma fixed_mul_power b x k1 k2 e1 e2 r1 r2 :
  0 < b <= 31 → 0 <= x <= 2 ^ b → 0 <= k1 → 0 <= k2 →
  power_within b x k1 e1 r1 → power_within b x k2 e2 r2 → power_within b x (k1 + k2) (e1 + e2 + 1) (fixed_mul b r1 r2).
Proof.
  intros Hb Hx Hk1 Hk2 [Hr1 He1] [Hr2 He2]. destruct (fixed_mul_range b r1 r2 Hb Hr1 Hr2) as [Hr Hm]. split; [done|].
  pose proof (pow2_range b Hb) as HS. rewrite !Z.pow_add_r by done.
  set (S := 2 ^ b) in *. set (r := fixed_mul b r1 r2) in *.
  assert (0 < S ^ k1) as HK1 by (apply Z.pow_pos_nonneg; lia). assert (0 < S ^ k2) as HK2 by (apply Z.pow_pos_nonneg; lia).
  assert (0 <= x ^ k2) as HX2 by (apply Z.pow_nonneg; lia).
  assert (x ^ k2 <= S ^ k2) as HXS by (apply Z.pow_le_mono_l; lia).
  set (K1 := S ^ k1) in *. set (K2 := S ^ k2) in *. set (X1 := x ^ k1) in *. set (X2 := x ^ k2) in *.
  clearbody K1 K2 X1 X2 r S.
  assert (r * (K1 * K2) * S - S * (X1 * X2) * S = (r * S - r1 * r2) * (K1 * K2) + (r2 * K2 - S * X2) * (r1 * K1) + (r1 * K1 - S * X1) * (S * X2)) as E by ring.
  assert (0 <= K1 * K2) as HK by nia. assert (0 <= r1 * K1 <= S * K1) by nia. assert (0 <= S * X2 <= S * K2) by nia.
  pose proof (mul_bound (r * S - r1 * r2) S (K1 * K2) (K1 * K2) Hm ltac:(lia)).
  pose proof (mul_bound (r2 * K2 - S * X2) (e2 * K2) (r1 * K1) (S * K1) He2 ltac:(lia)).
  pose proof (mul_bound (r1 * K1 - S * X1) (e1 * K1) (S * X2) (S * K2) He1 ltac:(lia)).
  apply (Z.mul_le_mono_pos_l _ _ S); lia.
Qed.

Lemma power_base b x : 0 < b <= 31 → 0 <= x <= 2 ^ b → power_within b x 1 0 x.
Proof. intros Hb Hx. split; [done|]. rewrite !Z.pow_1_r. lia. Qed.

(** The unit is a neutral element. *)
Lemma fixed_mul_unit b x : 0 < b <= 31 → 0 <= x <= 2 ^ b → fixed_mul b (2 ^ b) x = x.
Proof.
  intros Hb Hx. pose proof (pow2_range b Hb) as HS. destruct (fixed_mul_range b (2 ^ b) x Hb ltac:(lia) Hx) as [_ Hm]. nia.
Qed.

(** The loop: [result] has [k] factors so far, [x] is the factor of the current bit. *)
Lemma fixed_power_loop_within b y n :
  0 < b <= 31 → 0 <= y <= 2 ^ b → ∀ x r k j,
  0 <= k → 0 < j → power_within b y j (j - 1) x → (k = 0 ∧ r = 2 ^ b ∨ 0 < k ∧ power_within b y k (k - 1) r) →
  power_within b y (k + j * Zpos n) (k + j * Zpos n - 1) (fixed_power_loop b x r n).
Proof.
  intros Hb Hy. assert (∀ x r k j, 0 <= k → 0 < j → power_within b y j (j - 1) x →
    (k = 0 ∧ r = 2 ^ b ∨ 0 < k ∧ power_within b y k (k - 1) r) → power_within b y (k + j) (k + j - 1) (fixed_mul b r x)) as Hstep.
  { intros x r k j Hk Hj Hx [[-> ->]|[Hk' Hr]].
    - rewrite Z.add_0_l, fixed_mul_unit by (apply Hb || apply Hx). done.
    - replace (k + j - 1) with ((k - 1) + (j - 1) + 1) by lia. apply fixed_mul_power; try done; lia. }
  assert (∀ x j, 0 < j → power_within b y j (j - 1) x → power_within b y (2 * j) (2 * j - 1) (fixed_mul b x x)) as Hsquare.
  { intros x j Hj Hx. replace (2 * j - 1) with ((j - 1) + (j - 1) + 1) by lia. replace (2 * j) with (j + j) by lia.
    apply fixed_mul_power; try done; lia. }
  induction n as [n IH|n IH|]; intros x r k j Hk Hj Hx Hr; cbn [fixed_power_loop].
  - replace (k + j * Z.pos n~1) with ((k + j) + 2 * j * Z.pos n) by lia. apply IH; try lia; [by apply Hsquare|].
    right. split; [lia|]. by apply Hstep.
  - replace (k + j * Z.pos n~0) with (k + 2 * j * Z.pos n) by lia. apply IH; try lia; [by apply Hsquare|done].
  - rewrite Z.mul_1_r. by apply Hstep.
Qed.

(** The power of a factor is computed up to [n - 1] half units, and exactly for the
    exponents 0 and 1. *)
Lemma fixed_power_within b x n :
  0 < b <= 31 → 0 <= x <= 2 ^ b → 0 <= n → power_within b x n (Z.max 0 (n - 1)) (fixed_power_int x b n).
Proof.
  intros Hb Hx Hn. pose proof (pow2_range b Hb) as HS. unfold fixed_power_int. rewrite (wrap_u_small 64 (2 ^ b)) by lia.
  destruct n as [|n|n]; [|..|lia].
  - split; [lia|]. rewrite !Z.pow_0_r. lia.
  - rewrite Z.max_r by lia.
    pose proof (fixed_power_loop_within b x n Hb Hx x (2 ^ b) 0 1 ltac:(lia) ltac:(lia) (power_base b x Hb Hx) ltac:(by left)) as H.
    by rewrite Z.add_0_l, Z.mul_1_l in H.
Qed.

(** ** Several periods at once *)

Section missed.
Context `{Hlaws : LoadLaws}.

(** Updating once for [n] periods: the distance to the active count is multiplied by
    the power, as the comment on [calc_load_n] derives. *)
Lemma calc_load_n_closed load exp active n : is_load load → is_factor exp → is_load active → 0 <= n →
  2 * Z.abs ((calc_load_n load exp active n - active) * FIXED_1 ^ (n + 1) - FIXED_1 * ((load - active) * exp ^ n))
    <= (n * Z.abs (load - active) + FIXED_1) * FIXED_1 ^ n.
Proof.
  intros Hl He Ha Hn. unfold calc_load_n. unfold is_factor in He.
  assert (0 <= exp <= 2 ^ FSHIFT) as He' by (unfold FIXED_1 in He; lia).
  destruct (fixed_power_within FSHIFT exp n fshift_range He' Hn) as [Hr Hp]. fold FIXED_1 in Hr, Hp.
  set (P := fixed_power_int exp FSHIFT n) in *.
  pose proof (calc_load_error load P active Hl Hr Ha) as Hc. pose proof fixed_1_range as HF.
  rewrite Z.pow_add_r, Z.pow_1_r by lia. assert (0 < FIXED_1 ^ n) as HK by (apply Z.pow_pos_nonneg; lia).
  set (r := calc_load load P active) in *. set (K := FIXED_1 ^ n) in *. set (X := exp ^ n) in *. set (F := FIXED_1) in *.
  clearbody P r K X F.
  assert ((r - active) * (K * F) - F * ((load - active) * X) =
    ((r - active) * F - (load - active) * P) * K + (load - active) * (P * K - F * X)) as -> by ring.
  pose proof (mul_bound _ F K K Hc ltac:(lia)).
  assert (2 * Z.abs ((load - active) * (P * K - F * X)) <= Z.abs (load - active) * (n * K)); [|lia].
  rewrite Z.abs_mul. assert (Z.max 0 (n - 1) * K <= n * K) by (apply Z.mul_le_mono_nonneg_r; lia). nia.
Qed.

(** Updating [n] times. *)
Lemma calc_load_iter load exp active n : is_load load → is_factor exp → is_load active →
  let r := Nat.iter n (λ x, calc_load x exp active) load in
  is_load r ∧
  2 * Z.abs ((r - active) * FIXED_1 ^ Z.of_nat n - (load - active) * exp ^ Z.of_nat n) <= Z.of_nat n * FIXED_1 ^ Z.of_nat n.
Proof.
  intros Hl He Ha. pose proof fixed_1_range as HF. induction n as [|n [Hr IH]]; intros r.
  - split; [done|]. subst r. cbn. lia.
  - subst r. rewrite Nat.iter_succ. set (x := Nat.iter n _ load) in *.
    destruct (calc_load_nearer x exp active Hr He Ha) as (Hr' & _). split; [done|].
    unfold is_factor in He. assert (0 <= exp <= FIXED_1) as He' by lia.
    pose proof (calc_load_error x exp active Hr He' Ha) as Hc. set (r := calc_load x exp active) in *.
    rewrite Nat2Z.inj_succ, !Z.pow_succ_r by lia. assert (0 < FIXED_1 ^ Z.of_nat n) as HK by (apply Z.pow_pos_nonneg; lia).
    set (K := FIXED_1 ^ Z.of_nat n) in *. set (X := exp ^ Z.of_nat n) in *. set (F := FIXED_1) in *. clearbody K X F r x.
    assert ((r - active) * (F * K) - (load - active) * (exp * X) =
      ((r - active) * F - (x - active) * exp) * K + ((x - active) * K - (load - active) * X) * exp) as -> by ring.
    pose proof (mul_bound _ F K K Hc ltac:(lia)). pose proof (mul_bound _ _ exp F IH ltac:(lia)). lia.
Qed.

(** C33: after [n] periods without an update, the averages are what [n] updates would
    have made them, up to their rounding: (n + 1) / 2 units and n / 2 parts in
    [FIXED_1] of the distance between load and active count. *)
Theorem missed_updates_made_up load exp active n : is_load load → is_factor exp → is_load active →
  2 * FIXED_1 * Z.abs (calc_load_n load exp active (Z.of_nat n) - Nat.iter n (λ x, calc_load x exp active) load)
    <= Z.of_nat n * Z.abs (load - active) + (Z.of_nat n + 1) * FIXED_1.
Proof.
  intros Hl He Ha. pose proof (calc_load_n_closed load exp active (Z.of_nat n) Hl He Ha ltac:(lia)) as H1.
  destruct (calc_load_iter load exp active n Hl He Ha) as [_ H2]. pose proof fixed_1_range as HF.
  set (r := Nat.iter n _ load) in *. set (q := calc_load_n _ _ _ _) in *.
  rewrite Z.pow_add_r, Z.pow_1_r in H1 by lia. assert (0 < FIXED_1 ^ Z.of_nat n) as HK by (apply Z.pow_pos_nonneg; lia).
  set (K := FIXED_1 ^ Z.of_nat n) in *. set (X := exp ^ Z.of_nat n) in *. set (F := FIXED_1) in *. clearbody K X F r q.
  pose proof (mul_bound _ _ F F H2 ltac:(lia)) as H3.
  assert ((q - r) * (K * F) = ((q - active) * (K * F) - F * ((load - active) * X)) - ((r - active) * K - (load - active) * X) * F) as E by ring.
  apply (Z.mul_le_mono_pos_r _ _ K HK).
  assert (2 * F * Z.abs (q - r) * K = 2 * Z.abs ((q - r) * (K * F))) as ->; [|lia].
  rewrite Z.abs_mul, (Z.abs_eq (K * F)) by nia. ring.
Qed.

End missed.
