(* ===== verification/LoadCpu.v ===== *)
(** * The load of a processor (sched.c, src/indwriterups/project1)

    What a processor keeps of its own load: the weights of tasks and the division by
    multiplication with an inverse, the averages [cpu_load] with the ticks that an
    idle processor misses, the decaying sum of the time of real-time tasks, and the
    guesses of the load balancer. *)

From S2P Require Import Prelude.

Local Open Scope Z_scope.

(** ** Weights *)

(** How weights are scaled (linux/sched.h). *)
Class WeightEnv := {
  SCHED_LOAD_RESOLUTION : Z;
  scale_load : Z → Z;
  scale_load_down : Z → Z;
}.

Class WeightLaws `{WeightEnv} : Prop := {
  scale_range w : 0 <= w < 2 ^ 64 → 0 <= scale_load_down w < 2 ^ 64;
  scale_inverse w : 0 <= w < 2 ^ 32 → scale_load_down (scale_load w) = w;
}.

Definition WMULT_CONST : Z := 2 ^ 32.
Definition WMULT_SHIFT : Z := 32.
Definition LONG_MAX : Z := 2 ^ 63 - 1.

(** Shift right and round. *)
Definition SRR (x y : Z) : Z := Z.shiftr (u64 (x + Z.shiftl 1 (y - 1))) y.

Record load_weight := LoadWeight { weight : Z; inv_weight : Z }.

Definition prio_to_weight : list Z :=
  [88761; 71755; 56483; 46273; 36291; 29154; 23254; 18705; 14949; 11916;
   9548; 7620; 6100; 4904; 3906; 3121; 2501; 1991; 1586; 1277;
   1024; 820; 655; 526; 423; 335; 272; 215; 172; 137;
   110; 87; 70; 56; 45; 36; 29; 23; 18; 15].

Definition prio_to_wmult : list Z :=
  [48388; 59856; 76040; 92818; 118348; 147320; 184698; 229616; 287308; 360437;
   449829; 563644; 704093; 875809; 1099582; 1376151; 1717300; 2157191; 2708050; 3363326;
   4194304; 5237765; 6557202; 8165337; 10153587; 12820798; 15790321; 19976592; 24970740; 31350126;
   39045157; 49367440; 61356676; 76695844; 95443717; 119304647; 148102320; 186737708; 238609294; 286331153].

Definition WEIGHT_IDLEPRIO : Z := 3.
Definition WMULT_IDLEPRIO : Z := 1431655765.

Section weights.
Context `{WeightEnv}.

(** The inverse is computed when it is needed and kept. *)
Definition with_inverse (lw : load_weight) : load_weight :=
  if decide (inv_weight lw = 0) then
    let w := scale_load_down (weight lw) in
    LoadWeight (weight lw)
      (if decide (WMULT_CONST <= w) then 1 else if decide (w = 0) then WMULT_CONST else WMULT_CONST / w)
  else lw.

Definition calc_delta_mine (delta_exec w : Z) (lw : load_weight) : Z * load_weight :=
  let tmp := if decide (Z.shiftl 1 SCHED_LOAD_RESOLUTION < w) then u64 (delta_exec * scale_load_down w) else delta_exec in
  let lw := with_inverse lw in
  let tmp :=
    if decide (WMULT_CONST < tmp) then SRR (u64 (SRR tmp (WMULT_SHIFT / 2) * inv_weight lw)) (WMULT_SHIFT / 2)
    else SRR (u64 (tmp * inv_weight lw)) WMULT_SHIFT in
  (Z.min tmp LONG_MAX, lw).

Definition update_load_add (lw : load_weight) (inc : Z) : load_weight := LoadWeight (u64 (weight lw + inc)) 0.
Definition update_load_sub (lw : load_weight) (dec : Z) : load_weight := LoadWeight (u64 (weight lw - dec)) 0.
Definition update_load_set (lw : load_weight) (w : Z) : load_weight := LoadWeight w 0.

(** The weight of a task by its static priority, above the real-time priorities,
    and whether its policy is SCHED_IDLE; [None] when the tables have no entry. *)
Definition set_load_weight (MAX_RT_PRIO static_prio : Z) (sched_idle : bool) : option load_weight :=
  let prio := s32 (static_prio - MAX_RT_PRIO) in
  if sched_idle then Some (LoadWeight (scale_load WEIGHT_IDLEPRIO) WMULT_IDLEPRIO)
  else if decide (prio < 0) then None
  else
    w ← prio_to_weight !! Z.to_nat prio; m ← prio_to_wmult !! Z.to_nat prio;
    Some (LoadWeight (scale_load w) m).

End weights.

(** ** Averages *)

Definition CPU_LOAD_IDX_MAX : nat := 5.
Definition DEGRADE_SHIFT : Z := 7.

Definition degrade_zero_ticks : list Z := [0; 8; 32; 64; 128].

Definition degrade_factor : list (list Z) :=
  [[0; 0; 0; 0; 0; 0; 0; 0];
   [64; 32; 8; 0; 0; 0; 0; 0];
   [96; 72; 40; 12; 1; 0; 0; 0];
   [112; 98; 75; 43; 15; 1; 0; 0];
   [120; 112; 98; 76; 45; 16; 2; 0]].

(** The loop of [decay_load_missed] over the bits of the number of missed updates,
    from the lowest one to the leading one; [None] outside the table. *)
Fixpoint decay_loop (row : list Z) (j : nat) (missed : positive) (load : Z) : option Z :=
  match missed with
  | xH => f ← row !! j; Some (Z.shiftr (u64 (load * f)) DEGRADE_SHIFT)
  | xO missed => decay_loop row (S j) missed load
  | xI missed => f ← row !! j; decay_loop row (S j) missed (Z.shiftr (u64 (load * f)) DEGRADE_SHIFT)
  end.

Definition decay_load_missed (load missed_updates : Z) (idx : nat) : option Z :=
  if decide (missed_updates = 0) then Some load
  else
    zero ← degrade_zero_ticks !! idx;
    if decide (zero <= missed_updates) then Some 0
    else if decide (idx = 1%nat) then Some (Z.shiftr load missed_updates)
    else
      row ← degrade_factor !! idx;
      match missed_updates with Zpos n => decay_loop row 0 n load | _ => Some load end.

(** What a run queue keeps of its load and of its clock. *)
Record cpu_rq := CpuRq {
  rq_load : Z;
  cpu_load : list Z;
  last_load_update_tick : Z;
  nr_load_updates : Z;
  clock : Z;
  age_stamp : Z;
  rt_avg : Z;
}.

Definition set_rt_avg (stamp avg : Z) (r : cpu_rq) : cpu_rq :=
  CpuRq (rq_load r) (cpu_load r) (last_load_update_tick r) (nr_load_updates r) (clock r) stamp avg.

Definition set_cpu_load (l : list Z) (r : cpu_rq) : cpu_rq :=
  CpuRq (rq_load r) l (last_load_update_tick r) (nr_load_updates r) (clock r) (age_stamp r) (rt_avg r).

(** The sysctl is an unsigned int in milliseconds. *)
Definition NSEC_PER_MSEC : Z := 1000000.

Definition sched_avg_period (sysctl_sched_time_avg : Z) : Z := u64 (sysctl_sched_time_avg * NSEC_PER_MSEC) / 2.

(** The loop of [sched_avg_update]; [None] when it is not over after [fuel] rounds. *)
Fixpoint sched_avg_update (fuel : nat) (sysctl_sched_time_avg : Z) (r : cpu_rq) : option cpu_rq :=
  let period := s64 (sched_avg_period sysctl_sched_time_avg) in
  if decide (period < s64 (clock r - age_stamp r)) then
    match fuel with
    | O => None
    | S fuel => sched_avg_update fuel sysctl_sched_time_avg (set_rt_avg (u64 (age_stamp r + period)) (rt_avg r / 2) r)
    end
  else Some r.

Definition sched_rt_avg_update (fuel : nat) (sysctl_sched_time_avg rt_delta : Z) (r : cpu_rq) : option cpu_rq :=
  sched_avg_update fuel sysctl_sched_time_avg (set_rt_avg (age_stamp r) (u64 (rt_avg r + rt_delta)) r).

(** One element of [cpu_load]: the missed ticks are decayed, then the new load has
    one part in [scale], rounded up while the load increases. *)
Definition average_load (i : nat) (scale this_load old_load : Z) : Z :=
  let new_load := if decide (old_load < this_load) then u64 (this_load + (scale - 1)) else this_load in
  Z.shiftr (u64 (u64 (old_load * (scale - 1)) + new_load)) (Z.of_nat i).

Fixpoint update_loads (todo i : nat) (scale this_load missed : Z) (l : list Z) : option (list Z) :=
  match todo with
  | O => Some l
  | S todo =>
      old_load ← l !! i;
      old_load ← decay_load_missed old_load missed i;
      update_loads todo (S i) (scale + scale) this_load missed (<[i := average_load i scale this_load old_load]> l)
  end.

Definition update_cpu_load (fuel : nat) (sysctl_sched_time_avg jiffies : Z) (r : cpu_rq) : option cpu_rq :=
  let this_load := rq_load r in
  let updates := u64 (nr_load_updates r + 1) in
  if decide (jiffies = last_load_update_tick r) then
    Some (CpuRq (rq_load r) (cpu_load r) (last_load_update_tick r) updates (clock r) (age_stamp r) (rt_avg r))
  else
    let pending_updates := u64 (jiffies - last_load_update_tick r) in
    l ← update_loads (CPU_LOAD_IDX_MAX - 1) 1 2 this_load (u64 (pending_updates - 1)) (<[0%nat := this_load]> (cpu_load r));
    sched_avg_update fuel sysctl_sched_time_avg (CpuRq (rq_load r) l jiffies updates (clock r) (age_stamp r) (rt_avg r)).

(** ** Guesses of the balancer *)

Definition weighted_cpuload (r : cpu_rq) : Z := rq_load r.

(** [lb_bias] is [sched_feat(LB_BIAS)]. *)
Definition source_load (lb_bias : bool) (type : nat) (r : cpu_rq) : option Z :=
  let total := weighted_cpuload r in
  if bool_decide (type = 0%nat) || negb lb_bias then Some total
  else x ← cpu_load r !! (type - 1)%nat; Some (Z.min x total).

Definition target_load (lb_bias : bool) (type : nat) (r : cpu_rq) : option Z :=
  let total := weighted_cpuload r in
  if bool_decide (type = 0%nat) || negb lb_bias then Some total
  else x ← cpu_load r !! (type - 1)%nat; Some (Z.max x total).

(** The load per task, for [nr_running] tasks. *)
Definition cpu_avg_load_per_task (nr_running : Z) (r : cpu_rq) : Z :=
  if decide (nr_running ≠ 0) then rq_load r / nr_running else 0.
