(* ===== verification/LoadDecay.v ===== *)
(** * The load of a processor: missed ticks (sched.c)

    [decay_load_missed] with its tables against the exact decay of the comment in
    the code, and the loop that ages the time of real-time tasks. *)

From S2P Require Import Prelude LoadCpu.

Local Open Scope Z_scope.

(** ** The products of the table *)

(** The product of the factors that [decay_loop] uses and their number. *)
Fixpoint decay_product (row : list Z) (j : nat) (missed : positive) : option (Z * Z) :=
  match missed with
  | xH => f ← row !! j; Some (f, 1)
  | xO missed => decay_product row (S j) missed
  | xI missed => f ← row !! j; '(p, k) ← decay_product row (S j) missed; Some (f * p, k + 1)
  end.

(** Factors are parts of 128. *)
Definition row_ok (row : list Z) : Prop := Forall (λ f, 0 <= f <= 128) row.

Lemma factor_step load f : 0 <= load < 2 ^ 57 → 0 <= f <= 128 →
  Z.shiftr (u64 (load * f)) DEGRADE_SHIFT = load * f / 128 ∧ 0 <= load * f / 128 < 2 ^ 57.
Proof.
  intros Hl Hf. unfold DEGRADE_SHIFT. rewrite Z.shiftr_div_pow2 by done.
  rewrite wrap_u_small by nia. change (2 ^ 7) with 128. split; [done|]. split; [apply Z.div_pos; nia|].
  apply Z.div_lt_upper_bound; nia.
Qed.

(** Rounding down loses less than one at each factor. *)
Lemma decay_loop_product row j missed load p k :
  row_ok row → decay_product row j missed = Some (p, k) → 0 <= load < 2 ^ 57 →
  ∃ d, decay_loop row j missed load = Some d ∧ 0 <= d ∧ 1 <= k ∧ 0 <= p <= 128 ^ k ∧
       d * 128 ^ k <= load * p < (d + k) * 128 ^ k.
Proof.
  intros Hrow. revert j load p k. induction missed as [missed IH|missed IH|]; intros j load p k E Hl; cbn in E |- *.
  - destruct (row !! j) as [f|] eqn:Ef; [|done]. cbn in E |- *.
    assert (0 <= f <= 128) as Hf by (unfold row_ok in Hrow; rewrite Forall_lookup in Hrow; eauto).
    destruct (decay_product row (S j) missed) as [[p0 k0]|] eqn:Ep; [|done]. cbn in E. injection E as <- <-.
    destruct (factor_step load f Hl Hf) as [-> Hl'].
    destruct (IH (S j) (load * f / 128) p0 k0 Ep Hl') as (d & -> & Hd0 & Hk & Hp & Hd).
    exists d. split; [done|]. rewrite Z.pow_add_r by lia. change (128 ^ 1) with 128.
    pose proof (Z.div_mod (load * f) 128 ltac:(done)) as Hdiv. pose proof (Z.mod_pos_bound (load * f) 128 ltac:(done)) as Hm.
    set (q := load * f / 128) in *. set (m := (load * f) mod 128) in *. set (P := 128 ^ k0) in *.
    split; [done|]. split; [lia|]. split; [nia|]. rewrite !Z.mul_assoc, Hdiv. nia.
  - destruct (IH (S j) load p k E Hl) as (d & -> & Hd0 & Hk & Hp & Hd). exists d. done.
  - destruct (row !! j) as [f|] eqn:Ef; [|done]. cbn in E |- *. injection E as <- <-.
    assert (0 <= f <= 128) as Hf by (unfold row_ok in Hrow; rewrite Forall_lookup in Hrow; eauto).
    destruct (factor_step load f Hl Hf) as [-> Hl']. exists (load * f / 128). split; [done|]. split; [lia|]. split; [lia|].
    change (128 ^ 1) with 128. split; [lia|].
    pose proof (Z.div_mod (load * f) 128 ltac:(done)). pose proof (Z.mod_pos_bound (load * f) 128 ltac:(done)). lia.
Qed.

(** What the exact factor for an index is a power of: [part idx / whole idx]. *)
Definition whole (idx : nat) : Z := 2 ^ Z.of_nat idx.
Definition part (idx : nat) : Z := whole idx - 1.

(** A product of the table is at most the exact power and less by at most 2/128. *)
Definition product_ok (idx : nat) (n : positive) : bool :=
  match degrade_factor !! idx ≫= λ row, decay_product row 0 n with
  | Some (p, k) =>
      bool_decide (k <= 7) && bool_decide (p * whole idx ^ Zpos n <= 128 ^ k * part idx ^ Zpos n) &&
      bool_decide (128 * (128 ^ k * part idx ^ Zpos n) <= (128 * p + 2 * 128 ^ k) * whole idx ^ Zpos n)
  | None => false
  end.

Definition table_ok (idx : nat) : bool :=
  match degrade_zero_ticks !! idx with
  | Some zero => forallb (λ n, product_ok idx (Pos.of_nat n)) (seq 1 (Z.to_nat zero - 1))
  | None => false
  end.

Lemma table_checked : table_ok 2 = true ∧ table_ok 3 = true ∧ table_ok 4 = true.
Proof. vm_compute. done. Qed.

Lemma rows_ok row idx : degrade_factor !! idx = Some row → row_ok row.
Proof.
  assert (forallb (forallb (λ f, (0 <=? f) && (f <=? 128))) degrade_factor = true) as Hall by done.
  rewrite forallb_forall in Hall. intros Hr%list_elem_of_lookup_2%list_elem_of_In%Hall.
  unfold row_ok. apply Forall_forall. intros f Hf%list_elem_of_In. rewrite forallb_forall in Hr. apply Hr in Hf. lia.
Qed.

(** [d] is what is left of [load] after [n] periods, up to 1/64 of the load that is
    missing from the table and one for each of seven divisions. *)
Definition decays_to (idx : nat) (load n d : Z) : Prop :=
  0 <= d ∧ d * whole idx ^ n <= load * part idx ^ n ∧
  128 * (load * part idx ^ n) <= (128 * d + 2 * load + 7 * 128) * whole idx ^ n.

Lemma table_decay idx zero n load :
  table_ok idx = true → degrade_zero_ticks !! idx = Some zero → Zpos n < zero → 0 <= load < 2 ^ 57 →
  ∃ row d, degrade_factor !! idx = Some row ∧ decay_loop row 0 n load = Some d ∧ decays_to idx load (Zpos n) d.
Proof.
  unfold table_ok. intros Ht Hz Hn Hl. rewrite Hz in Ht. rewrite forallb_forall in Ht.
  specialize (Ht (Pos.to_nat n)). rewrite Pos2Nat.id in Ht. unfold product_ok in Ht.
  destruct (degrade_factor !! idx) as [row|] eqn:Er; [|by discriminate Ht; apply in_seq; lia].
  cbn [mbind option_bind] in Ht. destruct (decay_product row 0 n) as [[p k]|] eqn:Ep; [|by discriminate Ht; apply in_seq; lia].
  destruct (decay_loop_product row 0 n load p k (rows_ok _ _ Er) Ep Hl) as (d & Hd & Hd0 & Hk & Hp & Hlo & Hhi).
  exists row, d. split; [done|]. split; [done|].
  assert (k <= 7 ∧ p * whole idx ^ Z.pos n <= 128 ^ k * part idx ^ Z.pos n ∧
    128 * (128 ^ k * part idx ^ Z.pos n) <= (128 * p + 2 * 128 ^ k) * whole idx ^ Z.pos n) as (Hk7 & H1 & H2).
  { assert (In (Pos.to_nat n) (seq 1 (Z.to_nat zero - 1))) as Hin by (apply in_seq; lia).
    apply Ht in Hin. rewrite !andb_true_iff, !bool_decide_eq_true in Hin. tauto. }
  assert (0 < 128 ^ k) as HK by (apply Z.pow_pos_nonneg; lia).
  assert (0 < whole idx ^ Z.pos n) as HW by (apply Z.pow_pos_nonneg; [apply Z.pow_pos_nonneg|]; lia).
  assert (0 <= part idx ^ Z.pos n) as HA.
  { apply Z.pow_nonneg. unfold part, whole. pose proof (Z.pow_pos_nonneg 2 (Z.of_nat idx)). lia. }
  unfold decays_to. set (K := 128 ^ k) in *. set (W := whole idx ^ Z.pos n) in *. set (A := part idx ^ Z.pos n) in *.
  clearbody K W A. split; [done|]. split.
  - apply (Z.mul_le_mono_pos_l _ _ K HK).
    pose proof (Z.mul_le_mono_nonneg_r _ _ W ltac:(lia) Hlo). pose proof (Z.mul_le_mono_nonneg_l _ _ load ltac:(lia) H1). lia.
  - apply (Z.mul_le_mono_pos_l _ _ K HK).
    assert (load * p <= (d + 7) * K) as Hhi' by nia.
    pose proof (Z.mul_le_mono_nonneg_r _ _ W ltac:(lia) Hhi'). pose proof (Z.mul_le_mono_nonneg_l _ _ load ltac:(lia) H2). lia.
Qed.

(** After [zero] periods or more, hardly anything is left. *)
Lemma zero_decay idx zero n load :
  0 < Z.of_nat idx → 0 <= zero <= n → 64 * part idx ^ zero <= whole idx ^ zero → 0 <= load → decays_to idx load n 0.
Proof.
  intros Hi Hz H0 Hl. assert (1 <= part idx <= whole idx) as Hpw.
  { unfold part, whole. pose proof (Z.pow_le_mono_r 2 1 (Z.of_nat idx)). lia. }
  replace n with (zero + (n - zero)) by lia. unfold decays_to. rewrite !Z.pow_add_r by lia.
  assert (0 < part idx ^ (n - zero)) as Hm by (apply Z.pow_pos_nonneg; lia).
  assert (part idx ^ (n - zero) <= whole idx ^ (n - zero)) as Hle by (apply Z.pow_le_mono_l; lia).
  assert (0 < part idx ^ zero) as Hz0 by (apply Z.pow_pos_nonneg; lia).
  set (a := part idx ^ zero) in *. set (b := whole idx ^ zero) in *.
  set (a' := part idx ^ (n - zero)) in *. set (b' := whole idx ^ (n - zero)) in *. clearbody a b a' b'.
  assert (64 * (a * a') <= b * b') by nia. split; [lia|]. split; nia.
Qed.

Lemma shift_decay n load : 0 <= n → 0 <= load → decays_to 1 load n (Z.shiftr load n).
Proof.
  intros Hn Hl. unfold decays_to, part, whole. change (2 ^ Z.of_nat 1) with 2. change (2 - 1) with 1.
  rewrite Z.shiftr_div_pow2, Z.pow_1_l, !Z.mul_1_r by done.
  assert (0 < 2 ^ n) as Hp by (apply Z.pow_pos_nonneg; lia).
  pose proof (Z.div_mod load (2 ^ n) ltac:(lia)) as Hd. pose proof (Z.mod_pos_bound load (2 ^ n) Hp).
  assert (0 <= load / 2 ^ n) by (apply Z.div_pos; lia).
  set (q := load / 2 ^ n) in *. set (W := 2 ^ n) in *. clearbody q W. split; [done|]. split; nia.
Qed.

Lemma no_decay idx load : 0 <= load → decays_to idx load 0 load.
Proof. intros Hl. unfold decays_to. rewrite !Z.pow_0_r. lia. Qed.

(** C34: the decay of a load over the ticks that an idle processor missed is never too
    slow, and too fast by at most 1/64 of the load and seven units, for every number
    of missed ticks: the tables and the shortcuts approximate
    load * ((2^idx - 1) / 2^idx)^n as the comment says. *)
Theorem decay_approximates idx load missed :
  (1 <= idx < CPU_LOAD_IDX_MAX)%nat → 0 <= load < 2 ^ 57 → 0 <= missed →
  ∃ d, decay_load_missed load missed idx = Some d ∧ decays_to idx load missed d.
Proof.
  intros Hi Hl Hm. unfold decay_load_missed, CPU_LOAD_IDX_MAX in *.
  case_decide as H0; [subst; eexists; split; [done|]; apply no_decay; lia|].
  destruct table_checked as (T2 & T3 & T4).
  assert (∃ zero, degrade_zero_ticks !! idx = Some zero ∧ 0 <= zero ∧ 64 * part idx ^ zero <= whole idx ^ zero ∧
    (idx ≠ 1%nat → table_ok idx = true)) as (zero & Ez & Hz & Hz64 & HT).
  { destruct idx as [|[|[|[|[|?]]]]]; try lia; eexists; (split; [done|]); (split; [lia|]); (split; [apply Z.leb_le; vm_compute; reflexivity|]); auto; intros []; reflexivity. }
  rewrite Ez. cbn [mbind option_bind].
  case_decide as Hge; [exists 0; split; [done|]; by apply (zero_decay idx zero); lia|].
  case_decide as H1; [subst; eexists; split; [done|]; apply shift_decay; lia|].
  destruct missed as [|n|n]; [lia| |lia].
  destruct (table_decay idx zero n load (HT H1) Ez ltac:(lia) Hl) as (row & d & -> & Hd & Hdec). exists d. split; [exact Hd|exact Hdec].
Qed.
