(* ===== verification/LoadSettle.v ===== *)
(** * The load of a processor: averages and weights (sched.c)

    The averages reach a constant load exactly; the time of real-time tasks is
    halved once per period, unless the period is zero; the division by
    multiplication is as good as its rounding. *)

From S2P Require Import Prelude LoadCpu LoadDecay.

Local Open Scope Z_scope.

(** ** Aging the time of real-time tasks *)

(** The signed difference of the stamps. *)
Definition behind (r : cpu_rq) : Z := s64 (clock r - age_stamp r).

Lemma behind_after period r :
  0 <= clock r < 2 ^ 64 → 0 <= age_stamp r < 2 ^ 64 → 0 <= period < behind r →
  behind (set_rt_avg (u64 (age_stamp r + period)) (rt_avg r / 2) r) = behind r - period.
Proof.
  unfold behind. cbn [clock age_stamp set_rt_avg]. unfold wrap_s, wrap_u. change (64 - 1) with 63.
  intros Hc Ha Hp. Z.div_mod_to_equations. lia.
Qed.

Lemma u64_add x y : u64 (u64 x + y) = u64 (x + y).
Proof. unfold wrap_u. apply Zplus_mod_idemp_l. Qed.

(** What [k] rounds do. *)
Definition aged_by (k period : Z) (r : cpu_rq) : cpu_rq := set_rt_avg (u64 (age_stamp r + k * period)) (rt_avg r / 2 ^ k) r.

Lemma aged_by_succ k period r :
  0 <= k → aged_by k period (set_rt_avg (u64 (age_stamp r + period)) (rt_avg r / 2) r) = aged_by (k + 1) period r.
Proof.
  intros Hk. unfold aged_by, set_rt_avg. cbn. f_equal.
  - rewrite u64_add. f_equal. lia.
  - rewrite Z.div_div by (try apply Z.pow_pos_nonneg; lia). f_equal. rewrite Z.pow_add_r by lia. lia.
Qed.

Lemma aged_by_zero period r : 0 <= age_stamp r < 2 ^ 64 → aged_by 0 period r = r.
Proof. intros. unfold aged_by. rewrite Z.mul_0_l, Z.add_0_r, wrap_u_small, Z.div_1_r by done. by destruct r. Qed.

Lemma sched_avg_update_rounds fuel sysctl r period :
  period = s64 (sched_avg_period sysctl) → 0 < period →
  0 <= clock r < 2 ^ 64 → 0 <= age_stamp r < 2 ^ 64 → behind r <= (Z.of_nat fuel + 1) * period →
  ∃ k, 0 <= k ∧ sched_avg_update fuel sysctl r = Some (aged_by k period r) ∧
       behind (aged_by k period r) = behind r - k * period ∧
       behind r - k * period <= period ∧ (k = 0 ∨ 0 < behind r - k * period).
Proof.
  intros Ep Hp Hc. revert r Hc. induction fuel as [|fuel IH]; intros r Hc Ha Hb; cbn [sched_avg_update]; rewrite <- Ep.
  - fold (behind r). case_decide; [lia|]. exists 0. rewrite aged_by_zero by done. split_and!; [done..|lia|lia|lia].
  - fold (behind r). case_decide as Hlt.
    + set (r1 := set_rt_avg (u64 (age_stamp r + period)) (rt_avg r / 2) r).
      assert (behind r1 = behind r - period) as Eb by (apply behind_after; lia).
      destruct (IH r1) as (k & Hk & -> & H1 & H2); [done|by apply wrap_u_range|lia|].
      unfold r1 in *. rewrite aged_by_succ in * by done. exists (k + 1). split_and!; [lia|done|lia|lia|lia].
    + exists 0. rewrite aged_by_zero by done. split_and!; [done..|lia|lia|lia].
Qed.

Lemma period_positive sysctl : 0 < sysctl < 2 ^ 32 →
  s64 (sched_avg_period sysctl) = sched_avg_period sysctl ∧ 0 < sched_avg_period sysctl.
Proof.
  intros Hs. unfold sched_avg_period, NSEC_PER_MSEC. rewrite wrap_u_small by lia.
  split; [|Z.div_mod_to_equations; lia]. apply wrap_s_small; [done|]. change (64 - 1) with 63. Z.div_mod_to_equations; lia.
Qed.

(** With a positive averaging period the loop ends, after as many rounds as periods
    have gone by: the sum is halved once for each, and the stamp is then less than a
    period behind; with a period of zero (sysctl_sched_time_avg = 0) the loop never
    ends once the clock has moved. *)
Theorem sched_avg_update_ages sysctl r :
  0 <= clock r < 2 ^ 64 → 0 <= age_stamp r < 2 ^ 64 → 0 <= sysctl < 2 ^ 32 →
  let period := sched_avg_period sysctl in
  (0 < sysctl → ∃ fuel k, 0 <= k ∧ sched_avg_update fuel sysctl r = Some (aged_by k period r) ∧
     behind r - k * period <= period ∧ (k = 0 ∨ 0 < behind r - k * period)) ∧
  (sysctl = 0 → 0 < behind r → ∀ fuel, sched_avg_update fuel sysctl r = None).
Proof.
  intros Hc Ha Hs period. split.
  - intros Hsys. destruct (period_positive sysctl ltac:(lia)) as [Es Hpos].
    exists (Z.to_nat (behind r)).
    destruct (sched_avg_update_rounds (Z.to_nat (behind r)) sysctl r period) as (k & ? & ? & _ & ?);
      [done..|unfold period; nia|by exists k].
  - intros Hz Hb fuel. assert (s64 (sched_avg_period sysctl) = 0) as E0 by (subst; done).
    revert r Hc Ha Hb. induction fuel as [|fuel IH]; intros r Hc Ha Hb; cbn [sched_avg_update]; rewrite E0; fold (behind r).
    + by rewrite decide_True by lia.
    + rewrite decide_True by lia. apply IH; [done|by apply wrap_u_range|]. rewrite behind_after by lia. lia.
Qed.

(** ** The averages of the load *)

Lemma average_between i load old :
  (1 <= i <= 4)%nat → 0 <= load < 2 ^ 57 → 0 <= old < 2 ^ 57 →
  let new := average_load i (2 ^ Z.of_nat i) load old in
  (old < load → old < new <= load) ∧ (load < old → load <= new < old) ∧ (old = load → new = load).
Proof.
  intros Hi Hl Ho new. assert (2 <= 2 ^ Z.of_nat i <= 16) as Hs.
  { destruct i as [|[|[|[|[|?]]]]]; try lia; cbn; lia. }
  subst new. unfold average_load. rewrite Z.shiftr_div_pow2 by lia.
  set (sc := 2 ^ Z.of_nat i) in *. clearbody sc.
  assert (0 <= old * (sc - 1) < 2 ^ 61) by nia.
  rewrite (wrap_u_small 64 (old * (sc - 1))) by lia.
  pose proof (Z.div_mod (old * (sc - 1) + load) sc ltac:(lia)) as Hd. pose proof (Z.mod_pos_bound (old * (sc - 1) + load) sc ltac:(lia)).
  pose proof (Z.div_mod (old * (sc - 1) + (load + (sc - 1))) sc ltac:(lia)) as Hd'.
  pose proof (Z.mod_pos_bound (old * (sc - 1) + (load + (sc - 1))) sc ltac:(lia)).
  case_decide as Hlt; rewrite ?(wrap_u_small 64 (load + _)), wrap_u_small by lia; split_and!; intros; try lia; nia.
Qed.

(** The distance shrinks by at least one with every tick. *)
Lemma average_closer i load old n :
  (1 <= i <= 4)%nat → 0 <= load < 2 ^ 57 → 0 <= old < 2 ^ 57 → Z.abs (old - load) <= Z.of_nat (S n) →
  let new := average_load i (2 ^ Z.of_nat i) load old in
  0 <= new < 2 ^ 57 ∧ Z.abs (new - load) <= Z.of_nat n.
Proof.
  intros Hi Hl Ho Hn new. destruct (average_between i load old Hi Hl Ho) as (H1 & H2 & H3). fold new in H1, H2, H3.
  destruct (Z.lt_trichotomy old load) as [?|[?|?]]; lia.
Qed.

(** One tick, with none missed. *)
Lemma update_loads_tick load l0 l1 l2 l3 l4 :
  update_loads (CPU_LOAD_IDX_MAX - 1) 1 2 load 0 (<[0%nat := load]> [l0; l1; l2; l3; l4]) =
  Some [load; average_load 1 2 load l1; average_load 2 4 load l2; average_load 3 8 load l3; average_load 4 16 load l4].
Proof. done. Qed.

(** All averages are within [n] of the load. *)
Definition near (load : Z) (n : nat) (l : list Z) : Prop :=
  length l = CPU_LOAD_IDX_MAX ∧ Forall (λ x, 0 <= x < 2 ^ 57 ∧ Z.abs (x - load) <= Z.of_nat n) l.

Lemma near_zero load l : near load 0 l → l = replicate CPU_LOAD_IDX_MAX load.
Proof.
  intros [Hlen Hall]. symmetry. apply replicate_as_elem_of. split; [done|].
  rewrite Forall_forall in Hall. intros x Hx%Hall. lia.
Qed.

Lemma update_loads_near load n l :
  0 <= load < 2 ^ 57 → near load (S n) l →
  ∃ l', update_loads (CPU_LOAD_IDX_MAX - 1) 1 2 load 0 (<[0%nat := load]> l) = Some l' ∧ near load n l'.
Proof.
  intros Hl [Hlen Hall]. destruct l as [|l0 [|l1 [|l2 [|l3 [|l4 [|]]]]]]; try done.
  rewrite update_loads_tick. eexists. split; [done|]. split; [done|].
  repeat (apply Forall_cons_1 in Hall as [[??] Hall]).
  repeat apply Forall_cons_2; try apply Forall_nil_2.
  - lia.
  - by apply (average_closer 1 load l1 n); [lia|..].
  - by apply (average_closer 2 load l2 n); [lia|..].
  - by apply (average_closer 3 load l3 n); [lia|..].
  - by apply (average_closer 4 load l4 n); [lia|..].
Qed.

(** Consecutive ticks, each with the next value of jiffies. *)
Fixpoint load_ticks (fuel sysctl : _) (n : nat) (r : cpu_rq) : option cpu_rq :=
  match n with
  | O => Some r
  | S n => r ← update_cpu_load fuel sysctl (u64 (last_load_update_tick r + 1)) r; load_ticks fuel sysctl n r
  end.

Definition sane (fuel : nat) (sysctl : Z) (r : cpu_rq) : Prop :=
  0 < sysctl < 2 ^ 32 ∧ 0 <= clock r < 2 ^ 64 ∧ 0 <= age_stamp r < 2 ^ 64 ∧
  behind r <= (Z.of_nat fuel + 1) * sched_avg_period sysctl.

Lemma u64_succ_ne x : 0 <= x < 2 ^ 64 → u64 (x + 1) ≠ x.
Proof. intros Hx. unfold wrap_u. Z.div_mod_to_equations. lia. Qed.

Lemma tick_near fuel sysctl load n r :
  sane fuel sysctl r → 0 <= last_load_update_tick r < 2 ^ 64 → rq_load r = load → 0 <= load < 2 ^ 57 →
  near load (S n) (cpu_load r) →
  ∃ r', update_cpu_load fuel sysctl (u64 (last_load_update_tick r + 1)) r = Some r' ∧ sane fuel sysctl r' ∧
    0 <= last_load_update_tick r' < 2 ^ 64 ∧ rq_load r' = load ∧ near load n (cpu_load r').
Proof.
  intros (Hs & Hc & Ha & Hb) Ht Er Hl Hn. destruct (period_positive sysctl Hs) as [Ep Hp].
  unfold update_cpu_load. rewrite decide_False by by apply u64_succ_ne.
  assert (u64 (u64 (u64 (last_load_update_tick r + 1) - last_load_update_tick r) - 1) = 0) as ->.
  { unfold wrap_u. Z.div_mod_to_equations. lia. }
  rewrite Er. destruct (update_loads_near load n _ Hl Hn) as (l' & -> & Hn'). cbn [mbind option_bind].
  set (r1 := CpuRq _ _ _ _ _ _ _).
  destruct (sched_avg_update_rounds fuel sysctl r1 (sched_avg_period sysctl)) as (k & Hk & -> & Hlo & Hhi); try done.
  exists (aged_by k (sched_avg_period sysctl) r1). split; [done|]. split; [|split; [by apply wrap_u_range|done]].
  split; [done|]. split; [done|]. split; [by apply wrap_u_range|]. nia.
Qed.

(** While the load of a processor is constant all five averages reach it exactly:
    after at most as many ticks as the largest distance, whether they come from
    below or from above. *)
Theorem cpu_load_settles fuel sysctl n r :
  sane fuel sysctl r → 0 <= last_load_update_tick r < 2 ^ 64 → 0 <= rq_load r < 2 ^ 57 →
  near (rq_load r) n (cpu_load r) →
  ∃ r', load_ticks fuel sysctl n r = Some r' ∧ cpu_load r' = replicate CPU_LOAD_IDX_MAX (rq_load r).
Proof.
  revert r. induction n as [|n IH]; intros r Hs Ht Hl Hn; cbn [load_ticks].
  - exists r. split; [done|]. by apply near_zero.
  - destruct (tick_near fuel sysctl _ n r Hs Ht eq_refl Hl Hn) as (r' & -> & Hs' & Ht' & Er' & Hn'). cbn.
    rewrite <- Er' in *. by apply IH.
Qed.

(** ** Division by multiplication *)

(** Rounding to the nearest, where nothing overflows. *)
Lemma SRR_nearest x y :
  0 <= x → 0 < y <= 32 → x + 2 ^ (y - 1) < 2 ^ 64 → 0 <= SRR x y ∧ - 2 ^ (y - 1) < SRR x y * 2 ^ y - x <= 2 ^ (y - 1).
Proof.
  intros Hx Hy Hlt. unfold SRR. rewrite Z.shiftl_mul_pow2, Z.mul_1_l, Z.shiftr_div_pow2 by lia.
  assert (0 < 2 ^ (y - 1)) as Hp by (apply Z.pow_pos_nonneg; lia).
  rewrite wrap_u_small by lia. assert (2 ^ y = 2 * 2 ^ (y - 1)) as ->.
  { rewrite <- Z.pow_succ_r by lia. f_equal. lia. }
  pose proof (Z.div_mod (x + 2 ^ (y - 1)) (2 * 2 ^ (y - 1)) ltac:(lia)).
  pose proof (Z.mod_pos_bound (x + 2 ^ (y - 1)) (2 * 2 ^ (y - 1)) ltac:(lia)).
  assert (0 <= (x + 2 ^ (y - 1)) / (2 * 2 ^ (y - 1))) by (apply Z.div_pos; lia). lia.
Qed.

Lemma mul_within e b c : - b <= e <= b → 0 <= c → - (b * c) <= e * c <= b * c.
Proof. intros. nia. Qed.

Section delta.
Context `{WeightEnv}.

(** The product that is divided. *)
Definition scaled_delta (delta_exec w : Z) : Z :=
  if decide (Z.shiftl 1 SCHED_LOAD_RESOLUTION < w) then u64 (delta_exec * scale_load_down w) else delta_exec.

(** An inverse that is the rounded one of [w], or still to be computed. *)
Definition inverse_ok (lw : load_weight) (w : Z) : Prop :=
  scale_load_down (weight lw) = w ∧ (inv_weight lw = 0 ∨ inv_weight lw = WMULT_CONST / w).

Lemma with_inverse_ok lw w :
  0 < w < WMULT_CONST → inverse_ok lw w → inv_weight (with_inverse lw) = WMULT_CONST / w.
Proof.
  intros Hw [Ew Hi]. unfold with_inverse. case_decide; [|by destruct Hi]. cbn. rewrite Ew.
  by rewrite !decide_False by lia.
Qed.

(** [calc_delta_mine] is delta * weight / lw, up to one and a half where the product
    fits 32 bits, and where it is larger up to the relative error of the inverse and
    one half of the inverse over 2^16. *)
Theorem calc_delta_accurate delta_exec w lw d :
  1 < d < WMULT_CONST → inverse_ok lw d → 0 <= scaled_delta delta_exec w < 2 ^ 64 - 2 ^ 32 →
  (scaled_delta delta_exec w / 2 ^ 16 + 1) * (WMULT_CONST / d) < 2 ^ 64 - 2 ^ 32 →
  let tmp := scaled_delta delta_exec w in
  let r := (calc_delta_mine delta_exec w lw).1 in
  (tmp <= WMULT_CONST → 2 * Z.abs (r * d - tmp) <= 3 * d) ∧
  (WMULT_CONST < tmp → 2 ^ 33 * Z.abs (r * d - tmp) <= d * (2 ^ 32 + 2 ^ 16 * (WMULT_CONST / d) + 2 * tmp)).
Proof.
  intros Hd Hinv Ht Hov tmp r. unfold tmp, r, calc_delta_mine. fold (scaled_delta delta_exec w). cbn [fst].
  rewrite (with_inverse_ok lw d) by (done || lia).
  set (t := scaled_delta delta_exec w) in *. clearbody t. clear tmp r.
  pose proof (Z.div_mod WMULT_CONST d ltac:(lia)) as Hdiv. pose proof (Z.mod_pos_bound WMULT_CONST d ltac:(lia)) as Hmod.
  assert (1 <= WMULT_CONST / d) as Hq1 by (apply Z.div_le_lower_bound; lia).
  assert (WMULT_CONST / d <= 2 ^ 31) as Hq2 by (apply Z.div_le_upper_bound; unfold WMULT_CONST; lia).
  set (q := WMULT_CONST / d) in *. set (m := WMULT_CONST mod d) in *. clearbody q m.
  unfold WMULT_SHIFT, WMULT_CONST in *. change (32 / 2) with 16.
  split; intros Hle.
  - rewrite decide_False by lia. rewrite wrap_u_small by nia.
    destruct (SRR_nearest (t * q) 32) as [HR0 HR]; [nia|lia|nia|]. change (32 - 1) with 31 in HR.
    set (R := SRR (t * q) 32) in *. clearbody R. rewrite Z.min_l by (unfold LONG_MAX; nia).
    assert (t * (q * d) = t * 2 ^ 32 - t * m) as E1 by (replace (q * d) with (2 ^ 32 - m) by lia; lia).
    assert (0 <= t * m <= t * d) by nia. assert (t * d <= 2 ^ 32 * d) by nia.
    assert (- (2 ^ 31 * d) <= (R * 2 ^ 32 - t * q) * d <= 2 ^ 31 * d) by (apply mul_within; lia). lia.
  - rewrite decide_True by lia. destruct (SRR_nearest t 16) as [Hs0 Hs]; [lia|lia|lia|].
    change (16 - 1) with 15 in Hs.
    assert (SRR t 16 <= t / 2 ^ 16 + 1) as Hs1.
    { pose proof (Z.div_mod t (2 ^ 16) ltac:(done)). pose proof (Z.mod_pos_bound t (2 ^ 16) ltac:(done)). lia. }
    set (v := SRR t 16) in *. clearbody v. assert (0 <= v * q < 2 ^ 64 - 2 ^ 32) by nia.
    rewrite wrap_u_small by lia. destruct (SRR_nearest (v * q) 16) as [HR0 HR]; [lia|lia|lia|]. change (16 - 1) with 15 in HR.
    set (R := SRR (v * q) 16) in *. clearbody R. rewrite Z.min_l by (unfold LONG_MAX; lia).
    assert (v * q * d * 2 ^ 16 = t * 2 ^ 32 - t * m + (v * 2 ^ 16 - t) * (q * d)) as E1.
    { assert (t * (q * d) = t * 2 ^ 32 - t * m) by (replace (q * d) with (2 ^ 32 - m) by lia; lia). lia. }
    assert (0 <= t * m <= t * d) by nia.
    assert (- (2 ^ 15 * (q * d)) <= (v * 2 ^ 16 - t) * (q * d) <= 2 ^ 15 * (q * d)).
    { apply mul_within; lia. }
    assert (- (2 ^ 31 * d) <= (R * 2 ^ 16 - v * q) * d * 2 ^ 16 <= 2 ^ 31 * d).
    { pose proof (mul_within (R * 2 ^ 16 - v * q) (2 ^ 15) d ltac:(lia) ltac:(lia)). lia. }
    assert ((R * 2 ^ 16 - v * q) * d * 2 ^ 16 = R * d * 2 ^ 32 - v * q * d * 2 ^ 16) as E2 by lia.
    lia.
Qed.

End delta.
