(* ===== verification/LoadDemo.v ===== *)
(** * Loads: concrete runs, and defects (sched.c, src/indwriterups/project1)

    The theorems on loads applied to concrete values, and inputs on which the code
    does not do what it means to. *)

From S2P Require Import Prelude LoadAvg LoadSteps LoadTime LoadNum LoadCpu LoadDecay LoadSettle.

Local Open Scope Z_scope.

(** The values that linux/sched.h documents, for 100 ticks per second. *)
#[export] Instance linux_loads : LoadEnv := {|
  FSHIFT := 11; LOAD_FREQ := 501; EXP_1 := 1884; EXP_5 := 2014; EXP_15 := 2037;
  time_before a b := bool_decide (s64 (a - b) < 0);
|}.

#[export] Instance linux_loads_laws : LoadLaws.
Proof. by split; cbn. Qed.

(** Ten bits more for the weights of groups. *)
#[export] Instance linux_weights : WeightEnv := {|
  SCHED_LOAD_RESOLUTION := 10; scale_load w := u64 (Z.shiftl w 10); scale_load_down w := Z.shiftr w 10;
|}.

#[export] Instance linux_weights_laws : WeightLaws.
Proof.
  split; cbn; intros w Hw.
  - rewrite Z.shiftr_div_pow2 by done. split; [apply Z.div_pos; lia|]. apply Z.div_lt_upper_bound; lia.
  - rewrite Z.shiftl_mul_pow2, wrap_u_small, Z.shiftr_div_pow2 by lia. by apply Z.div_mul.
Qed.

(** ** Load averages *)

(** Two processors: three tasks wake up and one of them sleeps again, the second
    processor goes idle while the first one takes over what it has folded, the timer
    stops for three periods, and a processor is taken down. *)
Definition two_cpus : loads := Loads [LoadRq 0 0 0 511; LoadRq 0 0 0 511] [Out; Out] 0 0 511 (0, 0, 0) 10 0 0.

Definition busy_events : list load_event :=
  [TaskWakes 0 false; TaskWakes 0 false; TaskWakes 1 false; TaskSleeps 1 true; Timer 0 505; RunsOn 0; RunsOn 0; RunsOn 0;
   GoesIdle 1; RunsOn 1; HasTick 0; RunsOn 0; RunsOn 0].

Definition rest_events : list load_event :=
  busy_events ++ [RunsOn 0; Timer 1 1600; RunsOn 1; RunsOn 1; RunsOn 1; TakenDown 1 0; HasTick 0; RunsOn 0; RunsOn 0].

Definition busy_state : loads := Eval vm_compute in default two_cpus (run load_step busy_events two_cpus).
Definition rest_state : loads := Eval vm_compute in default two_cpus (run load_step rest_events two_cpus).

Lemma two_cpus_start : load_start 2 10 two_cpus.
Proof. done. Qed.

Lemma busy_reached : reachable load_step (load_start 2 10) busy_state.
Proof. apply (run_reachable load_step _ busy_events two_cpus); [apply two_cpus_start|]. vm_compute. reflexivity. Qed.

Lemma rest_reached : reachable load_step (load_start 2 10) rest_state.
Proof. apply (run_reachable load_step _ rest_events two_cpus); [apply two_cpus_start|]. vm_compute. reflexivity. Qed.

Lemma load_changes_accounted_witness :
  s64 (calc_load_tasks busy_state + calc_load_tasks_idle busy_state + sum_of pending (load_pcs busy_state)) = 3 ∧
  s64 (calc_load_tasks rest_state + calc_load_tasks_idle rest_state) = total_running [0; 1]%nat rest_state + total_uninterruptible rest_state.
Proof.
  split.
  - destruct (load_changes_accounted 2 10 busy_state busy_reached) as [E _]. exact E.
  - destruct (load_changes_accounted 2 10 rest_state rest_reached) as [_ E]. apply E.
    + by repeat constructor.
    + by repeat constructor.
    + by vm_compute.
    + by vm_compute.
Defined.


(** One runnable task for a long time, then none: the average over fifteen minutes
    comes to rest at 93 / 2048, which is shown as 0.05, and not at zero. *)
Lemma calc_load_settles_witness :
  ∃ n, ∀ m, (n <= m)%nat → Nat.iter m (λ x, calc_load x EXP_15 0) FIXED_1 = 93.
Proof.
  assert (settled EXP_15 0 FIXED_1 = 93) as E by (vm_compute; reflexivity). rewrite <- E.
  apply (calc_load_settles FIXED_1 EXP_15 0); by split.
Defined.

(** Three hundred periods without an update. *)
Lemma missed_updates_made_up_witness :
  2 * FIXED_1 * Z.abs (calc_load_n 20480 EXP_5 2048 (Z.of_nat 300) - Nat.iter 300 (λ x, calc_load x EXP_5 2048) 20480)
    <= 300 * 18432 + 301 * FIXED_1.
Proof. apply (missed_updates_made_up 20480 EXP_5 2048 300); by split. Defined.

(** ** The load of a processor *)

Lemma decay_approximates_witness : ∃ d, decay_load_missed 3072 21 3 = Some d ∧ decays_to 3 3072 21 d.
Proof. apply (decay_approximates 3 3072 21); unfold CPU_LOAD_IDX_MAX; lia. Defined.

Definition demo_rq : cpu_rq := CpuRq 10 [0; 9; 40; 10; 3] 7 0 3000000000 10 800.

Lemma sched_avg_update_ages_witness :
  (∃ fuel k, 0 <= k ∧ sched_avg_update fuel 1000 demo_rq = Some (aged_by k (sched_avg_period 1000) demo_rq) ∧
     behind demo_rq - k * sched_avg_period 1000 <= sched_avg_period 1000 ∧
     (k = 0 ∨ 0 < behind demo_rq - k * sched_avg_period 1000)) ∧
  (∀ fuel, sched_avg_update fuel 0 demo_rq = None).
Proof.
  split.
  - apply (sched_avg_update_ages 1000 demo_rq); cbn; lia.
  - apply (sched_avg_update_ages 0 demo_rq); try done; cbn; lia.
Defined.

Lemma cpu_load_settles_witness :
  ∃ r', load_ticks 6 1000 30 demo_rq = Some r' ∧ cpu_load r' = replicate CPU_LOAD_IDX_MAX 10.
Proof.
  apply (cpu_load_settles 6 1000 30 demo_rq); try by cbn.
  split; [done|]. repeat constructor; cbn; lia.
Defined.

(** 3 ms of a task of weight 1024 in a queue of weight 3072. *)
Lemma calc_delta_accurate_witness :
  let r := (calc_delta_mine 3000 (1024 * 1024) (LoadWeight (3072 * 1024) 0)).1 in
  2 * Z.abs (r * 3072 - 3000 * 1024) <= 3 * 3072.
Proof.
  assert (scaled_delta 3000 (1024 * 1024) = 3000 * 1024) as E by (vm_compute; reflexivity).
  destruct (calc_delta_accurate 3000 (1024 * 1024) (LoadWeight (3072 * 1024) 0) 3072) as [Hr _].
  - by vm_compute.
  - split; [vm_compute; reflexivity|by left].
  - rewrite E. by vm_compute.
  - rewrite E. by vm_compute.
  - rewrite E in Hr. apply Hr. by vm_compute.
Defined.

(** The check for overflow misses one case: 2^32 times the inverse of zero or one. *)
Lemma calc_delta_overflows :
  (calc_delta_mine (2 ^ 32) 1024 (LoadWeight 1024 0)).1 = 0 ∧ (calc_delta_mine (2 ^ 32 - 1) 1024 (LoadWeight 1024 0)).1 = 2 ^ 32 - 1.
Proof. by vm_compute. Qed.

(** ** The tables of weights *)

Definition adjacent (l : list Z) : list (Z * Z) := zip l (tail l).

(** The inverses are those of the weights; one nice level moves about a tenth of
    the time between two tasks: the share of the better one lies between 54 and 57
    percent. *)
Lemma nice_levels :
  length prio_to_weight = 40%nat ∧
  Forall (λ '(w, m), 0 <= w * m - 2 ^ 32 + w ∧ w * m - 2 ^ 32 <= w) (zip prio_to_weight prio_to_wmult) ∧
  Forall (λ '(w, w'), 54 * (w + w') <= 100 * w <= 57 * (w + w')) (adjacent prio_to_weight).
Proof. split; [done|]. split; repeat constructor; cbn; lia. Qed.
