(* ===== verification/CpuAcct.v ===== *)
(** * CPU accounting groups (sched.c, src/indwriterups/project1)

    The groups of the cpuacct controller: a forest of groups with the time their
    tasks used on each processor.  What a task uses is charged to its group and to
    all groups above it. *)

From S2P Require Import Prelude.

Local Open Scope Z_scope.
Local Open Scope cs544_scope.

Definition ENOMEM : Z := 12.
Definition EINVAL : Z := 22.

(** ** Groups *)

(** [cpuusage] has an element for each processor; [cpustat_of] the sums of the two
    counters CPUACCT_STAT_USER and CPUACCT_STAT_SYSTEM. *)
Inductive cpuacct_stat_index := CPUACCT_STAT_USER | CPUACCT_STAT_SYSTEM.

Record cpuacct := Cpuacct { ca_parent : option nat; cpuusage : list Z; ca_user : Z; ca_system : Z }.

(** Groups by number, in the order they were made. *)
Abbreviation accts := (gmap nat cpuacct).

Definition add_usage (cpu : nat) (cputime : Z) (ca : cpuacct) : cpuacct :=
  Cpuacct (ca_parent ca) (alter (λ u, u64 (u + cputime)) cpu (cpuusage ca)) (ca_user ca) (ca_system ca).

Definition add_stat (idx : cpuacct_stat_index) (val : Z) (ca : cpuacct) : cpuacct :=
  match idx with
  | CPUACCT_STAT_USER => Cpuacct (ca_parent ca) (cpuusage ca) (s64 (ca_user ca + val)) (ca_system ca)
  | CPUACCT_STAT_SYSTEM => Cpuacct (ca_parent ca) (cpuusage ca) (ca_user ca) (s64 (ca_system ca + val))
  end.

(** The walk from a group over its parents, changing each; [None] when a group is
    gone or [fuel] groups were not all. *)
Fixpoint for_parents (fuel : nat) (change : cpuacct → cpuacct) (ca : option nat) (m : accts) : option accts :=
  match ca with
  | None => Some m
  | Some g =>
      match fuel with
      | O => None
      | S fuel => c ← m !! g; for_parents fuel change (ca_parent c) (<[g := change c]> m)
      end
  end.

(** A parent is older than its children, so the number of a group bounds the walk.
    [active] is the switch of the controller. *)
Definition cpuacct_charge (active : bool) (g cpu : nat) (cputime : Z) (m : accts) : option accts :=
  if active then for_parents (S g) (add_usage cpu cputime) (Some g) m else Some m.

Definition cpuacct_update_stats (active : bool) (g : nat) (idx : cpuacct_stat_index) (val : Z) (m : accts) : option accts :=
  if active then for_parents (S g) (add_stat idx val) (Some g) m else Some m.

(** ** Reading and resetting *)

Definition cpuacct_cpuusage_read (ca : cpuacct) (cpu : nat) : option Z := cpuusage ca !! cpu.

Definition cpuacct_cpuusage_write (cpu : nat) (val : Z) (ca : cpuacct) : cpuacct :=
  Cpuacct (ca_parent ca) (<[cpu := val]> (cpuusage ca)) (ca_user ca) (ca_system ca).

Definition cpuusage_read (present : list nat) (ca : cpuacct) : option Z :=
  foldl (λ total i, t ← total; x ← cpuacct_cpuusage_read ca i; Some (u64 (t + x))) (Some 0) present.

Definition cpuusage_write (present : list nat) (reset : Z) (ca : cpuacct) : Z * cpuacct :=
  if decide (reset ≠ 0) then (- EINVAL, ca) else (0, foldl (λ ca i, cpuacct_cpuusage_write i 0 ca) ca present).

(** ** Making and destroying *)

(** What a group is made of. *)
Inductive ca_part := CaStruct | CaUsage | CaCounter (i : nat).

#[export] Instance ca_part_eq : EqDecision ca_part.
Proof. solve_decision. Defined.

(** Freeing what is not there is a fault. *)
Definition release (p : ca_part) (live : list ca_part) : option (list ca_part) :=
  if decide (p ∈ live) then Some (list_difference live [p]) else None.

Definition CPUACCT_STAT_NSTATS : nat := 2.

(** [out_free_counters]: the counters below [i], last one first. *)
Fixpoint destroy_counters (i : nat) (live : list ca_part) : option (list ca_part) :=
  match i with
  | O => Some live
  | S i => live ← release (CaCounter i) live; destroy_counters i live
  end.

(** The loop that makes the counters, with the counter that could not be made. *)
Fixpoint init_counters (todo i : nat) (mem : ca_part → bool) (live : list ca_part) : option nat * list ca_part :=
  match todo with
  | O => (None, live)
  | S todo => if mem (CaCounter i) then init_counters todo (S i) mem (CaCounter i :: live) else (Some i, live)
  end.

(** [mem] says for which parts there is memory; the result and the parts that are
    in use then. *)
Definition cpuacct_alloc (mem : ca_part → bool) : option (Z * list ca_part) :=
  if mem CaStruct then
    if mem CaUsage then
      match init_counters CPUACCT_STAT_NSTATS 0 mem [CaUsage; CaStruct] with
      | (None, live) => Some (0, live)
      | (Some i, live) =>
          live ← destroy_counters i live;
          live ← release CaUsage live;
          live ← release CaStruct live;
          Some (- ENOMEM, live)
      end
    else live ← release CaStruct [CaStruct]; Some (- ENOMEM, live)
  else Some (- ENOMEM, []).

Fixpoint destroy_all (todo i : nat) (live : list ca_part) : option (list ca_part) :=
  match todo with
  | O => Some live
  | S todo => live ← release (CaCounter i) live; destroy_all todo (S i) live
  end.

Definition cpuacct_free (live : list ca_part) : option (list ca_part) :=
  live ← destroy_all CPUACCT_STAT_NSTATS 0 live;
  live ← release CaUsage live;
  release CaStruct live.

(** A new group is the next in number; it has a parent unless it is the root. *)
Definition cpuacct_create (cpus : nat) (mem : ca_part → bool) (g : nat) (parent : option nat) (m : accts) : option (Z * accts) :=
  '(ret, _) ← cpuacct_alloc mem;
  Some (ret, if decide (ret = 0) then <[g := Cpuacct parent (replicate cpus 0) 0 0]> m else m).

Definition cpuacct_destroy (g : nat) (m : accts) : accts := delete g m.

(** ** The forest *)

Definition forest (cpus : nat) (m : accts) : Prop :=
  ∀ g c, m !! g = Some c →
    length (cpuusage c) = cpus ∧ ∀ q, ca_parent c = Some q → (q < g)%nat ∧ is_Some (m !! q).

(** [a] is [g] or above it. *)
Inductive covers (m : accts) (a : nat) : nat → Prop :=
  | covers_self : covers m a a
  | covers_up g c q : m !! g = Some c → ca_parent c = Some q → covers m a q → covers m a g.

(** Above a group there are only older ones. *)
Lemma covers_le cpus m a g : forest cpus m → covers m a g → (a <= g)%nat.
Proof. intros Hf. induction 1 as [|g c q Hg Hq _ IH]; [done|]. destruct (Hf g c Hg) as [_ Hp]. destruct (Hp q Hq). lia. Qed.

(** The walk changes the groups that cover its beginning, once each, as long as the
    change keeps the parents. *)
Lemma for_parents_covers cpus change (Hc : ∀ c, ca_parent (change c) = ca_parent c ∧ length (cpuusage (change c)) = length (cpuusage c)) m :
  forest cpus m → ∀ fuel g, (g < fuel)%nat → is_Some (m !! g) →
  ∃ m', for_parents fuel change (Some g) m = Some m' ∧ forest cpus m' ∧
    (∀ a, covers m a g → m' !! a = change <$> m !! a) ∧ (∀ a, ¬ covers m a g → m' !! a = m !! a).
Proof.
  intros Hf fuel. revert m Hf. induction fuel as [|fuel IH]; intros m Hf g Hg [c Hgc]; [lia|].
  cbn [for_parents]. rewrite Hgc. cbn [mbind option_bind].
  assert (forest cpus (<[g := change c]> m)) as Hf'.
  { intros g' c' [[-> <-]|[Hne Hc']]%lookup_insert_Some.
    - destruct (Hf _ _ Hgc) as [Hl Hp]. destruct (Hc c) as [-> ->]. split; [done|]. intros q Hq. destruct (Hp q Hq) as [? Hsome].
      split; [done|]. apply lookup_insert_is_Some'. by right.
    - destruct (Hf _ _ Hc') as [Hl Hp]. split; [done|]. intros q Hq. destruct (Hp q Hq) as [? Hsome].
      split; [done|]. apply lookup_insert_is_Some'. by right. }
  destruct (ca_parent c) as [q|] eqn:Eq.
  - destruct (Hf _ _ Hgc) as [_ Hp]. destruct (Hp q Eq) as [Hlt Hsome].
    destruct (IH (<[g := change c]> m) Hf' q ltac:(lia)) as (m' & Hm' & Hf'' & Hin & Hout).
    { apply lookup_insert_is_Some'. by right. }
    assert (∀ a b, (b < g)%nat → covers (<[g := change c]> m) a b ↔ covers m a b) as Hcov.
    { intros a b Hb. split; induction 1 as [|b cb qb Hcb Hqb _ IHc]; try by constructor.
      - rewrite lookup_insert_ne in Hcb by lia. destruct (Hf _ _ Hcb) as [_ Hpb]. destruct (Hpb qb Hqb). eapply covers_up; [done..|]. apply IHc. lia.
      - destruct (Hf _ _ Hcb) as [_ Hpb]. destruct (Hpb qb Hqb). eapply covers_up; [by rewrite lookup_insert_ne by lia|done|]. apply IHc. lia. }
    exists m'. split; [done|]. split; [done|].
    assert (∀ a, covers m a q → a ≠ g) as Hne by (intros a Ha%(covers_le cpus); [lia|done]).
    split.
    + intros a Ha. inversion Ha as [Eg|? c' q' Hc' Hq' Hq]; subst.
      * rewrite Hout, lookup_insert_eq, Hgc; [done|]. rewrite Hcov by done. intros Hcg. by apply (Hne g).
      * rewrite Hgc in Hc'. injection Hc' as <-. rewrite Eq in Hq'. injection Hq' as <-.
        rewrite Hin by by apply Hcov. by rewrite lookup_insert_ne by (symmetry; by apply not_eq_sym, not_eq_sym, Hne).
    + intros a Ha. assert (a ≠ g) by (intros ->; apply Ha; constructor).
      rewrite Hout, lookup_insert_ne by (done || (rewrite Hcov by done; intros Hq; apply Ha; by eapply covers_up)). done.
  - exists (<[g := change c]> m). split; [by destruct fuel|]. split; [done|]. split.
    + intros a Ha. inversion Ha as [|? c' q' Hc' Hq' Hq]; subst; [by rewrite lookup_insert_eq, Hgc|].
      rewrite Hgc in Hc'. injection Hc' as <-. congruence.
    + intros a Ha. rewrite lookup_insert_ne; [done|]. intros ->. apply Ha. constructor.
Qed.

(** The same as a test. *)
Fixpoint covers_in (fuel : nat) (m : accts) (a g : nat) : bool :=
  bool_decide (a = g) ||
  match fuel, m !! g ≫= ca_parent with
  | S fuel, Some q => covers_in fuel m a q
  | _, _ => false
  end.

Definition covers_test (m : accts) (a g : nat) : bool := covers_in g m a g.

Lemma covers_in_spec cpus m a : forest cpus m → ∀ fuel g, (g <= fuel)%nat → covers_in fuel m a g = true ↔ covers m a g.
Proof.
  intros Hf fuel. induction fuel as [|fuel IH]; intros g Hg; cbn [covers_in]; rewrite orb_true_iff, bool_decide_eq_true.
  - split; [intros [->|]; [constructor|done]|]. intros Hc%(covers_le cpus); [left; lia|done].
  - split.
    + intros [->|Hr]; [constructor|]. destruct (m !! g) as [c|] eqn:Ec; [|done]. cbn in Hr.
      destruct (ca_parent c) as [q|] eqn:Eq; [|done]. destruct (Hf _ _ Ec) as [_ Hp]. destruct (Hp q Eq).
      eapply covers_up; [done..|]. apply IH; [lia|done].
    + intros Hc. inversion Hc as [|? c q Ec Eq Hq]; subst; [by left|]. right. rewrite Ec. cbn. rewrite Eq.
      destruct (Hf _ _ Ec) as [_ Hp]. destruct (Hp q Eq). apply IH; [lia|done].
Qed.

Lemma covers_test_spec cpus m a g : forest cpus m → covers_test m a g = true ↔ covers m a g.
Proof. intros Hf. by apply (covers_in_spec cpus). Qed.

(** A charge changes no parents. *)
Definition same_parents (m m' : accts) : Prop := ∀ g, (m' !! g ≫= ca_parent) = (m !! g ≫= ca_parent).

Lemma covers_in_same m m' fuel a g : same_parents m m' → covers_in fuel m' a g = covers_in fuel m a g.
Proof.
  intros Hs. revert g. induction fuel as [|fuel IH]; intros g; cbn [covers_in]; [done|]. rewrite (Hs g).
  by destruct (_ ≫= _); [rewrite IH|].
Qed.

(** One charge. *)
Lemma charge_one cpus g cpu x m :
  forest cpus m → is_Some (m !! g) →
  ∃ m', cpuacct_charge true g cpu x m = Some m' ∧ forest cpus m' ∧ same_parents m m' ∧
    ∀ a c, m !! a = Some c → m' !! a = Some (if covers_test m a g then add_usage cpu x c else c).
Proof.
  intros Hf Hg. destruct (for_parents_covers cpus (add_usage cpu x)
    (λ c, conj eq_refl (length_alter _ _ _)) m Hf (S g) g ltac:(lia) Hg) as (m' & Hm' & Hf' & Hin & Hout).
  assert (∀ a, m' !! a = (if covers_test m a g then add_usage cpu x else id) <$> m !! a) as Hall.
  { intros a. destruct (covers_test m a g) eqn:Ec.
    - apply Hin. by apply (covers_test_spec cpus).
    - rewrite Hout; [by destruct (m !! a)|]. rewrite <- (covers_test_spec cpus) by done. by rewrite Ec. }
  exists m'. split; [done|]. split; [done|]. split.
  - intros a. rewrite Hall. destruct (m !! a) as [c|]; [|done]. cbn. by destruct (covers_test m a g).
  - intros a c Ha. rewrite Hall, Ha. cbn. by destruct (covers_test m a g).
Qed.

Record charge := Charge { ch_group : nat; ch_cpu : nat; ch_time : Z }.

Fixpoint charge_all (l : list charge) (m : accts) : option accts :=
  match l with
  | [] => Some m
  | ch :: l => m ← cpuacct_charge true (ch_group ch) (ch_cpu ch) (ch_time ch) m; charge_all l m
  end.

(** What the tasks of a group and of those below it used on a processor. *)
Definition used_below (m : accts) (a cpu : nat) (l : list charge) : Z :=
  sum_of (λ ch, if covers_test m a (ch_group ch) && bool_decide (ch_cpu ch = cpu) then ch_time ch else 0) l.

Lemma usage_added a cpu x c u g k m :
  cpuusage c !! cpu = Some u →
  ∃ u', cpuusage (if covers_test m a g then add_usage k x c else c) !! cpu = Some u' ∧
    u' ≡₆₄ u + (if covers_test m a g && bool_decide (k = cpu) then x else 0).
Proof.
  intros Hu. destruct (covers_test m a g); cbn [andb add_usage cpuusage].
  - rewrite list_lookup_alter. case_bool_decide as Hk.
    + subst k. rewrite decide_True, Hu by done. eexists. split; [done|]. apply u64_eq64.
    + rewrite decide_False, Hu by done. eexists. split; [done|]. apply eq64_of_eq. lia.
  - exists u. split; [done|]. apply eq64_of_eq. lia.
Qed.

(** C32: however charges come, every group ends up with what the tasks of the groups it
    covers used, each charge once, on each processor; and no walk fails. *)
Theorem cpuacct_charged_once cpus l m :
  forest cpus m → Forall (λ ch, is_Some (m !! ch_group ch)) l →
  ∃ m', charge_all l m = Some m' ∧ forest cpus m' ∧ same_parents m m' ∧
    ∀ a c cpu u, m !! a = Some c → cpuusage c !! cpu = Some u →
    ∃ c' u', m' !! a = Some c' ∧ cpuusage c' !! cpu = Some u' ∧ u' ≡₆₄ u + used_below m a cpu l.
Proof.
  revert m. induction l as [|[g k x] l IH]; intros m Hf Hl; cbn [charge_all ch_group ch_cpu ch_time].
  - exists m. split; [done|]. split; [done|]. split; [done|]. intros a c cpu u Ha Hu. exists c, u.
    split; [done|]. split; [done|]. apply eq64_of_eq. cbn. lia.
  - apply Forall_cons in Hl as [Hg Hl]. cbn in Hg.
    destruct (charge_one cpus g k x m Hf Hg) as (m1 & -> & Hf1 & Hs1 & Hall). cbn [mbind option_bind].
    destruct (IH m1 Hf1) as (m' & -> & Hf' & Hs' & Hsum).
    { eapply Forall_impl; [exact Hl|]. intros ch [c Hc]. cbn in *. rewrite (Hall _ _ Hc). by eexists. }
    exists m'. split; [done|]. split; [done|]. split; [intros b; by rewrite Hs', Hs1|].
    intros a c cpu u Ha Hu. destruct (usage_added a cpu x c u g k m Hu) as (u1 & Hu1 & E1).
    destruct (Hsum a _ cpu u1 (Hall a c Ha) Hu1) as (c' & u' & ? & ? & E). exists c', u'. split; [done|]. split; [done|].
    rewrite E, E1. apply eq64_of_eq. unfold used_below. cbn [sum_of foldr ch_group ch_cpu ch_time].
    assert (∀ b, covers_test m1 a b = covers_test m a b) as Hc by (intros b; by apply covers_in_same).
    assert (∀ l0, sum_of (λ ch, if covers_test m1 a (ch_group ch) && bool_decide (ch_cpu ch = cpu) then ch_time ch else 0) l0 =
      sum_of (λ ch, if covers_test m a (ch_group ch) && bool_decide (ch_cpu ch = cpu) then ch_time ch else 0) l0) as ->; [|unfold sum_of; lia].
    induction l0 as [|ch l0 IHl]; [done|]. cbn [sum_of foldr]. rewrite Hc. unfold sum_of in IHl. by rewrite IHl.
Qed.

(** Making a group gets all of its four parts, or gives back what it got, wherever
    the memory runs out; freeing a group gives back all. *)
Theorem cpuacct_made_whole mem :
  ∃ ret live, cpuacct_alloc mem = Some (ret, live) ∧
    (ret = 0 → live = [CaCounter 1; CaCounter 0; CaUsage; CaStruct] ∧ cpuacct_free live = Some []) ∧
    (ret ≠ 0 → ret = - ENOMEM ∧ live = []) ∧
    (ret = 0 ↔ mem CaStruct && mem CaUsage && mem (CaCounter 0) && mem (CaCounter 1) = true).
Proof.
  unfold cpuacct_alloc. cbn [init_counters CPUACCT_STAT_NSTATS].
  destruct (mem CaStruct), (mem CaUsage), (mem (CaCounter 0)), (mem (CaCounter 1)); eexists _, _; (split; [vm_compute; reflexivity|]); done.
Qed.

(** Groups are made below older ones, and destroyed when nothing is below them. *)
Lemma create_forest cpus mem g parent m ret m' :
  forest cpus m → m !! g = None → (∀ q, parent = Some q → (q < g)%nat ∧ is_Some (m !! q)) →
  cpuacct_create cpus mem g parent m = Some (ret, m') → forest cpus m'.
Proof.
  intros Hf Hg Hp E. unfold cpuacct_create in E. destruct (cpuacct_alloc mem) as [[r live]|]; [|done]. cbn in E.
  injection E as -> <-. case_decide; [|done].
  intros g' c' [[-> <-]|[Hne Hc']]%lookup_insert_Some; cbn.
  - split; [by rewrite length_replicate|]. intros q Hq. destruct (Hp q Hq) as [? Hs]. split; [done|]. apply lookup_insert_is_Some'. by right.
  - destruct (Hf _ _ Hc') as [Hl Hq]. split; [done|]. intros q Eq. destruct (Hq q Eq). split; [done|]. apply lookup_insert_is_Some'. by right.
Qed.

Lemma destroy_forest cpus g m :
  forest cpus m → (∀ g' c, m !! g' = Some c → ca_parent c ≠ Some g) → forest cpus (cpuacct_destroy g m).
Proof.
  intros Hf Hn g' c'. unfold cpuacct_destroy. intros [Hne Hc']%lookup_delete_Some. destruct (Hf _ _ Hc') as [Hl Hq]. split; [done|].
  intros q Eq. destruct (Hq q Eq) as [? Hs]. split; [done|].
  rewrite lookup_delete_ne; [done|]. intros ->. by apply (Hn g' c').
Qed.
