(* ===== verification/CpuTime.v ===== *)
(** * CPU time of tasks and processors (sched.c, src/indwriterups/project1)

    Where a tick goes: the statistics of the processor, the times of the task and its
    accounting groups; the time of interrupts and the clock of tasks that leaves it
    out; the times reported for a task and for its group of threads. *)

From S2P Require Import Prelude CpuAcct.

Local Open Scope Z_scope.

(** The units of time of other files: the type cputime_t with its conversions
    (asm/cputime.h, kernel/time.c), the division by a 32-bit number (asm/div64.h) and
    the unit in which interrupts are counted (linux/hardirq.h). *)
Class TimeEnv := {
  cputime_one_jiffy : Z;
  cputime_to_scaled : Z → Z;
  jiffies_to_cputime : Z → Z;
  nsecs_to_cputime : Z → Z;
  nsecs_to_cputime64 : Z → Z;
  do_div : Z → Z → Z;
  HARDIRQ_OFFSET : Z;
}.

Class TimeLaws `{TimeEnv} : Prop := {
  nsecs_to_cputime_range n : 0 <= nsecs_to_cputime n < 2 ^ 64;
  do_div_spec n b : 0 <= n < 2 ^ 64 → 0 < b < 2 ^ 32 → do_div n b = n / b;
}.

(** cputime_t and cputime64_t are unsigned long and u64. *)
Definition cputime_add (a b : Z) : Z := u64 (a + b).
Definition cputime_sub (a b : Z) : Z := u64 (a - b).

(** ** Accounting *)

(** struct cpu_usage_stat *)
Record cpustat := Cpustat {
  c_user : Z; c_nice : Z; c_system : Z; c_softirq : Z; c_irq : Z;
  c_idle : Z; c_iowait : Z; c_steal : Z; c_guest : Z; c_guest_nice : Z;
}.

(** The fields of a statistic that a function can be told to add to. *)
Inductive stat_field := F_user | F_nice | F_system | F_softirq | F_irq | F_idle | F_iowait | F_steal | F_guest | F_guest_nice.

Definition stat_add (f : stat_field) (x : Z) (c : cpustat) : cpustat :=
  let '(Cpustat u n s si i id io st g gn) := c in
  match f with
  | F_user => Cpustat (cputime_add u x) n s si i id io st g gn
  | F_nice => Cpustat u (cputime_add n x) s si i id io st g gn
  | F_system => Cpustat u n (cputime_add s x) si i id io st g gn
  | F_softirq => Cpustat u n s (cputime_add si x) i id io st g gn
  | F_irq => Cpustat u n s si (cputime_add i x) id io st g gn
  | F_idle => Cpustat u n s si i (cputime_add id x) io st g gn
  | F_iowait => Cpustat u n s si i id (cputime_add io x) st g gn
  | F_steal => Cpustat u n s si i id io (cputime_add st x) g gn
  | F_guest => Cpustat u n s si i id io st (cputime_add g x) gn
  | F_guest_nice => Cpustat u n s si i id io st g (cputime_add gn x)
  end.

(** A task: its times, TASK_NICE, PF_VCPU and its accounting group. *)
Record ttask := Ttask {
  utime : Z; utimescaled : Z; stime : Z; stimescaled : Z; gtime : Z;
  task_nice : Z; pf_vcpu : bool; task_ca : nat;
}.

Definition add_utime (x scaled : Z) (p : ttask) : ttask :=
  Ttask (cputime_add (utime p) x) (cputime_add (utimescaled p) scaled) (stime p) (stimescaled p) (gtime p)
    (task_nice p) (pf_vcpu p) (task_ca p).

Definition add_stime (x scaled : Z) (p : ttask) : ttask :=
  Ttask (utime p) (utimescaled p) (cputime_add (stime p) x) (cputime_add (stimescaled p) scaled) (gtime p)
    (task_nice p) (pf_vcpu p) (task_ca p).

Definition add_gtime (x : Z) (p : ttask) : ttask :=
  Ttask (utime p) (utimescaled p) (stime p) (stimescaled p) (cputime_add (gtime p) x)
    (task_nice p) (pf_vcpu p) (task_ca p).

(** What the functions change: the task, the statistics of this processor, the
    accounting groups. *)
Record tick_state := Tick { t_task : ttask; t_stat : cpustat; t_accts : accts }.

Definition on_task (f : ttask → ttask) (s : tick_state) : tick_state := Tick (f (t_task s)) (t_stat s) (t_accts s).
Definition on_stat (f : cpustat → cpustat) (s : tick_state) : tick_state := Tick (t_task s) (f (t_stat s)) (t_accts s).

(** What the processor is doing: irq_count(), hardirq_count(), in_serving_softirq(),
    and whether p is the ksoftirqd or the idle task of the processor. *)
Record tick_context := Context {
  irq_count : Z; hardirq_count : Z; in_serving_softirq : bool;
  is_ksoftirqd : bool; is_idle : bool; nr_iowait : Z;
}.

Section accounting.
Context `{TimeEnv} (active : bool).

Definition charge_stats (idx : cpuacct_stat_index) (val : Z) (s : tick_state) : option tick_state :=
  m ← cpuacct_update_stats active (task_ca (t_task s)) idx val (t_accts s);
  Some (Tick (t_task s) (t_stat s) m).

Definition account_user_time (cputime cputime_scaled : Z) (s : tick_state) : option tick_state :=
  let s := on_task (add_utime cputime cputime_scaled) s in
  let s := on_stat (stat_add (if decide (0 < task_nice (t_task s)) then F_nice else F_user) cputime) s in
  charge_stats CPUACCT_STAT_USER cputime s.

Definition account_guest_time (cputime cputime_scaled : Z) (s : tick_state) : tick_state :=
  let s := on_task (add_utime cputime cputime_scaled) s in
  let s := on_task (add_gtime cputime) s in
  if decide (0 < task_nice (t_task s)) then
    on_stat (stat_add F_guest_nice cputime) (on_stat (stat_add F_nice cputime) s)
  else on_stat (stat_add F_guest cputime) (on_stat (stat_add F_user cputime) s).

Definition __account_system_time (cputime cputime_scaled : Z) (target : stat_field) (s : tick_state) : option tick_state :=
  let s := on_task (add_stime cputime cputime_scaled) s in
  let s := on_stat (stat_add target cputime) s in
  charge_stats CPUACCT_STAT_SYSTEM cputime s.

Definition account_system_time (x : tick_context) (hardirq_offset cputime cputime_scaled : Z) (s : tick_state) : option tick_state :=
  if pf_vcpu (t_task s) && bool_decide (irq_count x - hardirq_offset = 0)
  then Some (account_guest_time cputime cputime_scaled s)
  else
    let target :=
      if decide (hardirq_count x - hardirq_offset ≠ 0) then F_irq
      else if in_serving_softirq x then F_softirq else F_system in
    __account_system_time cputime cputime_scaled target s.

Definition account_steal_time (cputime : Z) (s : tick_state) : tick_state := on_stat (stat_add F_steal cputime) s.

Definition account_idle_time (x : tick_context) (cputime : Z) (s : tick_state) : tick_state :=
  on_stat (stat_add (if decide (0 < nr_iowait x) then F_iowait else F_idle) cputime) s.

(** The time of interrupts on this processor, in nanoseconds. *)
Record irqtime := Irqtime { cpu_hardirq_time : Z; cpu_softirq_time : Z; irq_start_time : Z; sched_clock_irqtime : bool }.

Definition irqtime_account_hi_update (i : irqtime) (s : tick_state) : bool :=
  bool_decide (c_irq (t_stat s) < nsecs_to_cputime64 (cpu_hardirq_time i)).

Definition irqtime_account_si_update (i : irqtime) (s : tick_state) : bool :=
  bool_decide (c_softirq (t_stat s) < nsecs_to_cputime64 (cpu_softirq_time i)).

Definition irqtime_account_process_tick (i : irqtime) (x : tick_context) (user_tick : bool) (s : tick_state) : option tick_state :=
  let one_jiffy_scaled := cputime_to_scaled cputime_one_jiffy in
  if irqtime_account_hi_update i s then Some (on_stat (stat_add F_irq cputime_one_jiffy) s)
  else if irqtime_account_si_update i s then Some (on_stat (stat_add F_softirq cputime_one_jiffy) s)
  else if is_ksoftirqd x then __account_system_time cputime_one_jiffy one_jiffy_scaled F_softirq s
  else if user_tick then account_user_time cputime_one_jiffy one_jiffy_scaled s
  else if is_idle x then Some (account_idle_time x cputime_one_jiffy s)
  else if pf_vcpu (t_task s) then Some (account_guest_time cputime_one_jiffy one_jiffy_scaled s)
  else __account_system_time cputime_one_jiffy one_jiffy_scaled F_system s.

Fixpoint irqtime_account_idle_ticks (i : irqtime) (x : tick_context) (ticks : nat) (s : tick_state) : option tick_state :=
  match ticks with
  | O => Some s
  | S ticks => s ← irqtime_account_process_tick i x false s; irqtime_account_idle_ticks i x ticks s
  end.

Definition account_process_tick (i : irqtime) (x : tick_context) (user_tick : bool) (s : tick_state) : option tick_state :=
  let one_jiffy_scaled := cputime_to_scaled cputime_one_jiffy in
  if sched_clock_irqtime i then irqtime_account_process_tick i x user_tick s
  else if user_tick then account_user_time cputime_one_jiffy one_jiffy_scaled s
  else if negb (is_idle x) || bool_decide (irq_count x ≠ HARDIRQ_OFFSET)
  then account_system_time x HARDIRQ_OFFSET cputime_one_jiffy one_jiffy_scaled s
  else Some (account_idle_time x cputime_one_jiffy s).

Definition account_steal_ticks (ticks : Z) (s : tick_state) : tick_state := account_steal_time (jiffies_to_cputime ticks) s.

(** The parameter of [irqtime_account_idle_ticks] is an int. *)
Definition account_idle_ticks (i : irqtime) (x : tick_context) (ticks : Z) (s : tick_state) : option tick_state :=
  if sched_clock_irqtime i then irqtime_account_idle_ticks i x (Z.to_nat (s32 ticks)) s
  else Some (account_idle_time x (jiffies_to_cputime ticks) s).

(** ** Reported times *)

(** The times last reported, of a task or of a group of threads. *)
Record reported := Reported { prev_utime : Z; prev_stime : Z }.

(** The common part of [task_times] and [thread_group_times]. *)
Definition scale_times (ut st sum_exec_runtime : Z) (r : reported) : reported :=
  let total := cputime_add ut st in
  let rtime := nsecs_to_cputime sum_exec_runtime in
  let ut := if decide (total ≠ 0) then do_div (u64 (rtime * ut)) total else rtime in
  let pu := Z.max (prev_utime r) ut in
  Reported pu (Z.max (prev_stime r) (cputime_sub rtime pu)).

(** The result is what has been stored. *)
Definition task_times (p : ttask) (sum_exec_runtime : Z) (r : reported) : (Z * Z) * reported :=
  let r := scale_times (utime p) (stime p) sum_exec_runtime r in
  ((prev_utime r, prev_stime r), r).

(** [totals] is what [thread_group_cputime] adds up: user, system and run time. *)
Definition thread_group_times (totals : Z * Z * Z) (r : reported) : (Z * Z) * reported :=
  let r := scale_times totals.1.1 totals.1.2 totals.2 r in
  ((prev_utime r, prev_stime r), r).

End accounting.

(** ** Clocks *)

(** The clocks of a run queue. *)
Record rq_clocks := Clocks { rq_clock : Z; clock_task : Z; prev_irq_time : Z; skip_clock_update : Z }.

Definition irq_time_read (i : irqtime) : Z := u64 (cpu_softirq_time i + cpu_hardirq_time i).

(** [now] is sched_clock_cpu(), [in_hardirq] a hardirq_count() that is not zero. *)
Definition account_system_vtime (now : Z) (in_hardirq softirq ksoftirqd : bool) (i : irqtime) : irqtime :=
  if negb (sched_clock_irqtime i) then i
  else
    let delta := s64 (now - irq_start_time i) in
    let start := u64 (irq_start_time i + delta) in
    if in_hardirq then Irqtime (u64 (cpu_hardirq_time i + delta)) (cpu_softirq_time i) start (sched_clock_irqtime i)
    else if softirq && negb ksoftirqd then
      Irqtime (cpu_hardirq_time i) (u64 (cpu_softirq_time i + delta)) start (sched_clock_irqtime i)
    else Irqtime (cpu_hardirq_time i) (cpu_softirq_time i) start (sched_clock_irqtime i).

Definition enable_sched_clock_irqtime (i : irqtime) : irqtime :=
  Irqtime (cpu_hardirq_time i) (cpu_softirq_time i) (irq_start_time i) true.

Definition disable_sched_clock_irqtime (i : irqtime) : irqtime :=
  Irqtime (cpu_hardirq_time i) (cpu_softirq_time i) (irq_start_time i) false.

(** The clocks, and the interrupt time that goes to [sched_rt_avg_update] when the
    feature NONIRQ_POWER is on. *)
Definition update_rq_clock_task (i : irqtime) (delta : Z) (q : rq_clocks) : Z * rq_clocks :=
  let irq_delta := s64 (irq_time_read i - prev_irq_time q) in
  let irq_delta := if decide (delta < irq_delta) then delta else irq_delta in
  (irq_delta,
   Clocks (rq_clock q) (u64 (clock_task q + s64 (delta - irq_delta))) (u64 (prev_irq_time q + irq_delta)) (skip_clock_update q)).

Definition update_rq_clock (i : irqtime) (now : Z) (q : rq_clocks) : Z * rq_clocks :=
  if decide (0 < skip_clock_update q) then (0, q)
  else
    let delta := s64 (now - rq_clock q) in
    update_rq_clock_task i delta (Clocks (u64 (rq_clock q + delta)) (clock_task q) (prev_irq_time q) (skip_clock_update q)).

(** The time a task has run since it was last accounted for: of the current task,
    after the clock was updated. *)
Definition do_task_delta_exec (i : irqtime) (now : Z) (current : bool) (exec_start : Z) (q : rq_clocks) : Z * rq_clocks :=
  if current then
    let q := (update_rq_clock i now q).2 in
    let ns := u64 (clock_task q - exec_start) in
    (if decide (s64 ns < 0) then 0 else ns, q)
  else (0, q).

Definition task_delta_exec := do_task_delta_exec.

(** [sum_exec_runtime] of the task, or of its group of threads. *)
Definition task_sched_runtime (i : irqtime) (now : Z) (current : bool) (exec_start sum_exec_runtime : Z) (q : rq_clocks) : Z * rq_clocks :=
  let '(ns, q) := do_task_delta_exec i now current exec_start q in
  (u64 (sum_exec_runtime + ns), q).

Definition thread_group_sched_runtime := task_sched_runtime.
