(* ===== verification/CpuTimeSpec.v ===== *)
(** * CPU time: what holds (sched.c, src/indwriterups/project1)

    Every tick goes to exactly one place, times of tasks and processors agree, the
    clock of tasks never goes back, reported times never decrease. *)

From S2P Require Import Prelude CpuAcct CpuTime.

Local Open Scope Z_scope.
Local Open Scope cs544_scope.

(** ** One tick *)

(** All the time of a processor; guest time is part of user time. *)
Definition all_time (c : cpustat) : Z :=
  c_user c + c_nice c + c_system c + c_softirq c + c_irq c + c_idle c + c_iowait c + c_steal c.

Definition user_time (c : cpustat) : Z := c_user c + c_nice c.
Definition guest_time (c : cpustat) : Z := c_guest c + c_guest_nice c.
Definition kernel_time (c : cpustat) : Z := c_system c + c_softirq c + c_irq c.

(** How much of each kind a field holds. *)
Definition in_all (f : stat_field) : Z := match f with F_guest | F_guest_nice => 0 | _ => 1 end.
Definition in_user (f : stat_field) : Z := match f with F_user | F_nice => 1 | _ => 0 end.
Definition in_guest (f : stat_field) : Z := match f with F_guest | F_guest_nice => 1 | _ => 0 end.
Definition in_kernel (f : stat_field) : Z := match f with F_system | F_softirq | F_irq => 1 | _ => 0 end.

Lemma stat_add_times f x c :
  all_time (stat_add f x c) ≡₆₄ all_time c + in_all f * x ∧ user_time (stat_add f x c) ≡₆₄ user_time c + in_user f * x ∧
  guest_time (stat_add f x c) ≡₆₄ guest_time c + in_guest f * x ∧ kernel_time (stat_add f x c) ≡₆₄ kernel_time c + in_kernel f * x.
Proof.
  destruct c, f; unfold all_time, user_time, guest_time, kernel_time; cbn;
    unfold cputime_add; rewrite ?u64_eq64; split_and!; apply eq64_of_eq; lia.
Qed.

(** The times of a task and of a processor after [x] more: [u], [g] and [k] of it as
    user, guest and kernel time of the task, [k'] as kernel time of the processor. *)
Record accounted (x u g k k' : Z) (p p' : ttask) (c c' : cpustat) : Prop := {
  ac_all : all_time c' ≡₆₄ all_time c + x;
  ac_user : user_time c' ≡₆₄ user_time c + u;
  ac_utime : utime p' ≡₆₄ utime p + u;
  ac_guest : guest_time c' ≡₆₄ guest_time c + g;
  ac_gtime : gtime p' ≡₆₄ gtime p + g;
  ac_kernel : kernel_time c' ≡₆₄ kernel_time c + k';
  ac_stime : stime p' ≡₆₄ stime p + k;
  ac_group : task_ca p' = task_ca p;
}.

Lemma accounted_trans x1 u1 g1 k1 j1 x2 u2 g2 k2 j2 p p1 p2 c c1 c2 :
  accounted x1 u1 g1 k1 j1 p p1 c c1 → accounted x2 u2 g2 k2 j2 p1 p2 c1 c2 →
  accounted (x1 + x2) (u1 + u2) (g1 + g2) (k1 + k2) (j1 + j2) p p2 c c2.
Proof.
  intros [A1 A2 A3 A4 A5 A6 A7 A8] [B1 B2 B3 B4 B5 B6 B7 B8].
  split; [..|congruence]; [rewrite B1, A1|rewrite B2, A2|rewrite B3, A3|rewrite B4, A4|rewrite B5, A5|rewrite B6, A6|rewrite B7, A7];
    apply eq64_of_eq; lia.
Qed.

(** Adding to one field, with what the task gets. *)
Lemma accounted_add f x t u g k k' p p' c :
  in_all f * x = t → in_user f * x = u → in_guest f * x = g → in_kernel f * x = k' →
  utime p' ≡₆₄ utime p + u → gtime p' ≡₆₄ gtime p + g → stime p' ≡₆₄ stime p + k → task_ca p' = task_ca p →
  accounted t u g k k' p p' c (stat_add f x c).
Proof. intros <- <- <- <- ????. destruct (stat_add_times f x c) as (?&?&?&?). by split. Qed.

Lemma u64_add_eq a x : cputime_add a x ≡₆₄ a + x.
Proof. apply u64_eq64. Qed.

Lemma eq64_add_0 a : a ≡₆₄ a + 0.
Proof. apply eq64_of_eq. lia. Qed.

Ltac account_add f x :=
  apply (accounted_add f x); cbn; try lia; first [done|apply u64_add_eq|apply eq64_add_0].

Section ticks.
Context `{Hlaws : TimeLaws} (active : bool) (cpus : nat).
Implicit Types s : tick_state.

(** The groups of the tasks exist. *)
Definition groups_ok s : Prop := forest cpus (t_accts s) ∧ is_Some (t_accts s !! task_ca (t_task s)).

Lemma add_stat_keeps idx val c : ca_parent (add_stat idx val c) = ca_parent c ∧ length (cpuusage (add_stat idx val c)) = length (cpuusage c).
Proof. by destruct idx. Qed.

Lemma charge_stats_ok idx val s :
  groups_ok s → ∃ s', charge_stats active idx val s = Some s' ∧ t_task s' = t_task s ∧ t_stat s' = t_stat s ∧
    forest cpus (t_accts s') ∧ ∀ g, is_Some (t_accts s !! g) → is_Some (t_accts s' !! g).
Proof.
  intros [Hf Hg]. unfold charge_stats, cpuacct_update_stats. destruct active; [|by eexists].
  destruct (for_parents_covers cpus (add_stat idx val) (add_stat_keeps idx val) (t_accts s) Hf
    (S (task_ca (t_task s))) (task_ca (t_task s)) (Nat.lt_succ_diag_r _) Hg) as (m' & -> & Hf' & Hin & Hout).
  eexists. split; [done|]. cbn. split; [done|]. split; [done|]. split; [done|]. intros g Hs.
  destruct (covers_test (t_accts s) g (task_ca (t_task s))) eqn:Ec.
  - rewrite Hin by by apply (covers_test_spec cpus). by apply fmap_is_Some.
  - rewrite Hout; [done|]. rewrite <- (covers_test_spec cpus) by done. by rewrite Ec.
Qed.

(** What an accounting function does: [x] is accounted for, and the groups stay. *)
Definition accounts (x : Z) s (r : option tick_state) : Prop :=
  ∃ s' u g k k', r = Some s' ∧ accounted x u g k k' (t_task s) (t_task s') (t_stat s) (t_stat s') ∧
    forest cpus (t_accts s') ∧ ∀ a, is_Some (t_accts s !! a) → is_Some (t_accts s' !! a).

Lemma accounts_pure x u g k k' s s' :
  groups_ok s → accounted x u g k k' (t_task s) (t_task s') (t_stat s) (t_stat s') → t_accts s' = t_accts s → accounts x s (Some s').
Proof. intros [Hf _] Ha E. exists s', u, g, k, k'. rewrite E. split; [done|]. by split. Qed.

Lemma accounts_charge x u g k k' idx val s s1 :
  groups_ok s → accounted x u g k k' (t_task s) (t_task s1) (t_stat s) (t_stat s1) → t_accts s1 = t_accts s →
  accounts x s (charge_stats active idx val s1).
Proof.
  intros Hg Ha E. destruct (charge_stats_ok idx val s1) as (s' & -> & Et & Es & Hf & Hs).
  { unfold groups_ok. rewrite E, (ac_group _ _ _ _ _ _ _ _ _ Ha). exact Hg. }
  exists s', u, g, k, k'. rewrite Et, Es, <- E. by split.
Qed.

Lemma account_user_time_ok x y s : groups_ok s → accounts x s (account_user_time active x y s).
Proof.
  intros Hg. unfold account_user_time. eapply (accounts_charge x x 0 0 0); [done| |done].
  destruct s as [p c m]. cbn. destruct (decide (0 < task_nice p)); [account_add F_nice x|account_add F_user x].
Qed.

Lemma account_guest_time_ok x y s : groups_ok s → accounts x s (Some (account_guest_time x y s)).
Proof.
  intros Hg. destruct s as [p c m]. unfold account_guest_time. cbn [on_task t_task].
  apply (accounts_pure x x x 0 0); [done| |by case_decide].
  assert (∀ fu fg, in_all fu = 1 → in_all fg = 0 → in_user fu = 1 → in_user fg = 0 → in_guest fu = 0 → in_guest fg = 1 →
    in_kernel fu = 0 → in_kernel fg = 0 →
    accounted x x x 0 0 p (add_gtime x (add_utime x y p)) c (stat_add fg x (stat_add fu x c))) as Hboth.
  { intros fu fg E1 E2 E3 E4 E5 E6 E7 E8.
    replace x with (x + 0) at 1 by lia. replace x with (x + 0) at 2 by lia. replace x with (0 + x) at 3 by lia.
    apply (accounted_trans x x 0 0 0 0 0 x 0 0 p (add_utime x y p) _ c (stat_add fu x c)).
    - apply (accounted_add fu x); rewrite ?E1, ?E3, ?E5, ?E7; cbn; try lia; first [done|apply u64_add_eq|apply eq64_add_0].
    - apply (accounted_add fg x); rewrite ?E2, ?E4, ?E6, ?E8; cbn; try lia; first [done|apply u64_add_eq|apply eq64_add_0]. }
  case_decide; cbn [on_stat on_task t_stat t_task]; by apply Hboth.
Qed.

Lemma account_kernel_time_ok x y f s :
  in_all f = 1 → in_user f = 0 → in_guest f = 0 → in_kernel f = 1 → groups_ok s → accounts x s (__account_system_time active x y f s).
Proof.
  intros E1 E2 E3 E4 Hg. unfold __account_system_time. eapply (accounts_charge x 0 0 x x); [done| |done].
  destruct s as [p c m]. cbn [on_task on_stat t_stat t_task].
  apply (accounted_add f x); rewrite ?E1, ?E2, ?E3, ?E4; cbn; try lia; first [done|apply u64_add_eq|apply eq64_add_0].
Qed.

Lemma account_system_time_ok ctx off x y s : groups_ok s → accounts x s (account_system_time active ctx off x y s).
Proof.
  intros Hg. unfold account_system_time. destruct (_ && _); [by apply account_guest_time_ok|].
  case_decide; [by apply account_kernel_time_ok|]. by destruct (in_serving_softirq ctx); apply account_kernel_time_ok.
Qed.

(** Time that belongs to no task. *)
Lemma account_field_ok f x s :
  in_all f = 1 → in_user f = 0 → in_guest f = 0 → groups_ok s → accounts x s (Some (on_stat (stat_add f x) s)).
Proof.
  intros E1 E2 E3 Hg. apply (accounts_pure x 0 0 0 (in_kernel f * x)); [done| |done].
  destruct s as [p c m]. cbn [on_task on_stat t_stat t_task].
  apply (accounted_add f x); rewrite ?E1, ?E2, ?E3; cbn; try lia; first [done|apply eq64_add_0].
Qed.

Lemma account_idle_time_ok ctx x s : groups_ok s → accounts x s (Some (account_idle_time ctx x s)).
Proof. intros Hg. unfold account_idle_time. case_decide; by apply account_field_ok. Qed.

Lemma irqtime_tick_ok i ctx user s :
  groups_ok s → accounts cputime_one_jiffy s (irqtime_account_process_tick active i ctx user s).
Proof.
  intros Hg. unfold irqtime_account_process_tick.
  repeat match goal with |- context [if ?b then _ else _] => destruct b end;
    first [by apply account_field_ok|by apply account_kernel_time_ok|by apply account_user_time_ok
          |by apply account_guest_time_ok|by apply account_idle_time_ok].
Qed.

Lemma process_tick_ok i ctx user s :
  groups_ok s → accounts cputime_one_jiffy s (account_process_tick active i ctx user s).
Proof.
  intros Hg. unfold account_process_tick. destruct (sched_clock_irqtime i); [by apply irqtime_tick_ok|].
  destruct user; [by apply account_user_time_ok|]. destruct (_ || _); [by apply account_system_time_ok|by apply account_idle_time_ok].
Qed.

Lemma accounts_bind x1 x2 s r f :
  groups_ok s → accounts x1 s r → (∀ s1, groups_ok s1 → accounts x2 s1 (f s1)) → accounts (x1 + x2) s (r ≫= f).
Proof.
  intros [Hf Hg] (s1 & u & g & k & k' & -> & Ha & Hf1 & Hs1) Hall. cbn.
  destruct (Hall s1) as (s2 & u2 & g2 & k2 & k2' & E & Ha2 & Hf2 & Hs2).
  { split; [done|]. rewrite (ac_group _ _ _ _ _ _ _ _ _ Ha). by apply Hs1. }
  exists s2. eexists _, _, _, _. split; [done|]. split; [by eapply accounted_trans|]. split; [done|]. auto.
Qed.

Lemma idle_ticks_ok i ctx n s :
  groups_ok s → accounts (Z.of_nat n * cputime_one_jiffy) s (irqtime_account_idle_ticks active i ctx n s).
Proof.
  revert s. induction n as [|n IH]; intros s Hg; cbn [irqtime_account_idle_ticks].
  - rewrite Z.mul_0_l. apply (accounts_pure 0 0 0 0 0); [done| |done]. split; try apply eq64_add_0. done.
  - replace (Z.of_nat (S n) * cputime_one_jiffy) with (cputime_one_jiffy + Z.of_nat n * cputime_one_jiffy) by lia.
    apply accounts_bind; [done|by apply irqtime_tick_ok|]. intros s1 Hg1. by apply IH.
Qed.

(** The time that [account_idle_ticks] accounts for. *)
Definition idle_amount (i : irqtime) (ticks : Z) : Z :=
  if sched_clock_irqtime i then Z.of_nat (Z.to_nat (s32 ticks)) * cputime_one_jiffy else jiffies_to_cputime ticks.

Lemma account_idle_ticks_ok i ctx ticks s : groups_ok s → accounts (idle_amount i ticks) s (account_idle_ticks active i ctx ticks s).
Proof.
  intros Hg. unfold account_idle_ticks, idle_amount. destruct (sched_clock_irqtime i); [by apply idle_ticks_ok|by apply account_idle_time_ok].
Qed.

Lemma account_steal_ticks_ok ticks s : groups_ok s → accounts (jiffies_to_cputime ticks) s (Some (account_steal_ticks ticks s)).
Proof. intros Hg. by apply account_field_ok. Qed.

End ticks.
