(* ===== verification/CpuTimeSteps.v ===== *)
(** * CPU time: the system (sched.c, src/indwriterups/project1)

    Processors and tasks that get ticks in any order and in any context, and the
    clocks of a run queue between interrupts. *)

From S2P Require Import Prelude CpuAcct CpuTime CpuTimeSpec.

Local Open Scope Z_scope.
Local Open Scope cs544_scope.

(** ** Ticks *)

(** [kstat] of all processors, all tasks, the accounting groups, the times of
    interrupts; [given] is not in the code: the time each processor was given to
    account for. *)
Record cpu_times := CpuTimes {
  k_stats : list cpustat;
  k_tasks : list ttask;
  k_accts : accts;
  k_irqs : list irqtime;
  given : list Z;
}.

Inductive time_event :=
  | ProcessTick (cpu p : nat) (ctx : tick_context) (user_tick : bool)
  | IdleTicks (cpu p : nat) (ctx : tick_context) (ticks : Z)
  | StealTicks (cpu p : nat) (ticks : Z)
  | SystemVtime (cpu : nat) (now : Z) (in_hardirq softirq ksoftirqd : bool)
  | SwitchIrqtime (on : bool).

Section system.
Context `{Hlaws : TimeLaws} (active : bool) (cpus : nat).

(** Run an accounting function for a task on a processor. *)
Definition on_cpu (cpu p : nat) (x : Z) (f : tick_state → option tick_state) (s : cpu_times) : option cpu_times :=
  c ← k_stats s !! cpu; q ← k_tasks s !! p; g ← given s !! cpu;
  r ← f (Tick q c (k_accts s));
  Some (CpuTimes (<[cpu := t_stat r]> (k_stats s)) (<[p := t_task r]> (k_tasks s)) (t_accts r) (k_irqs s) (<[cpu := g + x]> (given s))).

Definition set_irqs (l : list irqtime) (s : cpu_times) : cpu_times :=
  CpuTimes (k_stats s) (k_tasks s) (k_accts s) l (given s).

Definition time_step (e : time_event) (s : cpu_times) : option cpu_times :=
  match e with
  | ProcessTick cpu p ctx user =>
      i ← k_irqs s !! cpu; on_cpu cpu p cputime_one_jiffy (account_process_tick active i ctx user) s
  | IdleTicks cpu p ctx ticks =>
      i ← k_irqs s !! cpu; on_cpu cpu p (idle_amount i ticks) (account_idle_ticks active i ctx ticks) s
  | StealTicks cpu p ticks => on_cpu cpu p (jiffies_to_cputime ticks) (λ t, Some (account_steal_ticks ticks t)) s
  | SystemVtime cpu now h so k => Some (set_irqs (alter (account_system_vtime now h so k) cpu (k_irqs s)) s)
  | SwitchIrqtime on => Some (set_irqs ((if on then enable_sched_clock_irqtime else disable_sched_clock_irqtime) <$> k_irqs s) s)
  end.

Definition no_time : cpustat := Cpustat 0 0 0 0 0 0 0 0 0 0.

Definition times_start (s : cpu_times) : Prop :=
  k_stats s = replicate cpus no_time ∧ given s = replicate cpus 0 ∧
  Forall (λ p, utime p = 0 ∧ gtime p = 0 ∧ is_Some (k_accts s !! task_ca p)) (k_tasks s) ∧ forest cpus (k_accts s).

Record times_ok (s : cpu_times) : Prop := {
  tm_forest : forest cpus (k_accts s);
  tm_groups : Forall (λ p, is_Some (k_accts s !! task_ca p)) (k_tasks s);
  tm_given cpu c g : k_stats s !! cpu = Some c → given s !! cpu = Some g → all_time c ≡₆₄ g;
  tm_user : sum_of user_time (k_stats s) ≡₆₄ sum_of utime (k_tasks s);
  tm_guest : sum_of guest_time (k_stats s) ≡₆₄ sum_of gtime (k_tasks s);
}.

Lemma on_cpu_ok cpu p x f s s' :
  times_ok s → (∀ t, groups_ok cpus t → accounts cpus x t (f t)) → on_cpu cpu p x f s = Some s' → times_ok s'.
Proof.
  intros [Hf Hg Hgiven Hu Hgu] Hacc E. unfold on_cpu in E.
  destruct (k_stats s !! cpu) as [c|] eqn:Ec; [|done]. destruct (k_tasks s !! p) as [q|] eqn:Eq; [|done].
  destruct (given s !! cpu) as [g|] eqn:Eg; [|done]. cbn in E.
  destruct (Hacc (Tick q c (k_accts s))) as (r & u & gu & k & k' & Er & [A1 A2 A3 A4 A5 _ _ A8] & Hf' & Hs').
  { split; [done|]. rewrite Forall_lookup in Hg. by eapply Hg. }
  rewrite Er in E. cbn in E. injection E as <-. cbn [t_stat t_task t_accts] in *. split; cbn -[sum_of].
  - done.
  - apply Forall_insert; [eapply Forall_impl; [exact Hg|]; intros; by apply Hs'|].
    rewrite A8. apply Hs'. rewrite Forall_lookup in Hg. by eapply Hg.
  - intros cpu' c' g' [(<- & <- & _)|(Hne & Hc')]%list_lookup_insert_Some Hg'.
    + rewrite list_lookup_insert_eq in Hg' by by eapply lookup_lt_Some. injection Hg' as <-.
      rewrite A1, (Hgiven _ _ _ Ec Eg). done.
    + rewrite list_lookup_insert_ne in Hg' by done. by eapply Hgiven.
  - rewrite (sum_of_insert _ _ _ _ _ Ec), (sum_of_insert _ _ _ _ _ Eq), Hu, A2, A3. apply eq64_of_eq. lia.
  - rewrite (sum_of_insert _ _ _ _ _ Ec), (sum_of_insert _ _ _ _ _ Eq), Hgu, A4, A5. apply eq64_of_eq. lia.
Qed.

Lemma times_step e s s' : times_ok s → time_step e s = Some s' → times_ok s'.
Proof.
  intros Hs. destruct e as [cpu p ctx user|cpu p ctx n|cpu p n|cpu now h so k|on]; cbn; intros E.
  - destruct (k_irqs s !! cpu) as [i|]; [|done]. eapply on_cpu_ok; [done| |exact E]. intros t. by apply process_tick_ok.
  - destruct (k_irqs s !! cpu) as [i|]; [|done]. eapply on_cpu_ok; [done| |exact E]. intros t. by apply account_idle_ticks_ok.
  - eapply on_cpu_ok; [done| |exact E]. intros t. by apply account_steal_ticks_ok.
  - injection E as <-. destruct Hs. by split.
  - injection E as <-. destruct Hs. by split.
Qed.

Lemma times_start_ok s : times_start s → times_ok s.
Proof.
  intros (Es & Eg & Ht & Hf). assert (∀ f : cpustat → Z, f no_time = 0 → sum_of f (k_stats s) = 0) as Hz.
  { intros f E0. rewrite Es. clear -E0. induction cpus as [|n IH]; [done|]. cbn [replicate]. unfold sum_of in *. cbn. lia. }
  split.
  - done.
  - eapply Forall_impl; [exact Ht|]. by intros q (_ & _ & ?).
  - intros cpu c g. rewrite Es, Eg. intros [-> _]%lookup_replicate [-> _]%lookup_replicate. done.
  - rewrite (Hz user_time) by done. induction Ht as [|q l (E1 & E2 & _) _ IH]; [done|].
    change (0 ≡₆₄ utime q + sum_of utime l). rewrite <- IH, E1. done.
  - rewrite (Hz guest_time) by done. induction Ht as [|q l (E1 & E2 & _) _ IH]; [done|].
    change (0 ≡₆₄ gtime q + sum_of gtime l). rewrite <- IH, E2. done.
Qed.

(** C24: whatever ticks come, and in whatever context: each one goes to exactly one of the
    eight kinds of time of its processor, so that these always add up to the time the
    processor was given; the user time of all processors is that of all tasks, and
    so is the guest time. *)
Theorem ticks_accounted_once s :
  reachable time_step times_start s →
  (∀ cpu c g, k_stats s !! cpu = Some c → given s !! cpu = Some g → all_time c ≡₆₄ g) ∧
  sum_of user_time (k_stats s) ≡₆₄ sum_of utime (k_tasks s) ∧
  sum_of guest_time (k_stats s) ≡₆₄ sum_of gtime (k_tasks s).
Proof.
  intros Hs. assert (times_ok s) as [_ _ H1 H2 H3]; [|done].
  revert s Hs. apply (reachable_ind time_step times_start times_ok); [apply times_start_ok|]. intros e s1 s2. apply times_step.
Qed.

End system.

(** ** The clock of tasks *)

(** One processor: its interrupt times and the clocks of its run queue; [last_now]
    is the time last read, which does not go back on a processor. *)
Record clock_state := ClockState { k_irq : irqtime; k_clocks : rq_clocks; last_now : Z }.

Inductive clock_event :=
  | Vtime (now : Z) (in_hardirq softirq ksoftirqd : bool)
  | UpdateClock (now : Z)
  | Skip (n : Z)
  | Switch (on : bool).

Definition clock_step (e : clock_event) (s : clock_state) : option clock_state :=
  match e with
  | Vtime now h so k =>
      if decide (last_now s <= now < 2 ^ 62) then Some (ClockState (account_system_vtime now h so k (k_irq s)) (k_clocks s) now) else None
  | UpdateClock now =>
      if decide (last_now s <= now < 2 ^ 62) then Some (ClockState (k_irq s) (update_rq_clock (k_irq s) now (k_clocks s)).2 now) else None
  | Skip n =>
      let q := k_clocks s in
      Some (ClockState (k_irq s) (Clocks (rq_clock q) (clock_task q) (prev_irq_time q) n) (last_now s))
  | Switch on => Some (ClockState ((if on then enable_sched_clock_irqtime else disable_sched_clock_irqtime) (k_irq s)) (k_clocks s) (last_now s))
  end.

Definition clock_start (s : clock_state) : Prop :=
  k_irq s = Irqtime 0 0 0 false ∧ k_clocks s = Clocks 0 0 0 0 ∧ last_now s = 0.

(** The interrupt time so far. *)
Definition irq_total (s : clock_state) : Z := cpu_hardirq_time (k_irq s) + cpu_softirq_time (k_irq s).

Record clocks_ok (s : clock_state) : Prop := {
  ck_irq : 0 <= cpu_hardirq_time (k_irq s) ∧ 0 <= cpu_softirq_time (k_irq s);
  ck_total : irq_total s <= irq_start_time (k_irq s) <= last_now s;
  ck_split : clock_task (k_clocks s) + prev_irq_time (k_clocks s) = rq_clock (k_clocks s);
  ck_prev : 0 <= prev_irq_time (k_clocks s) <= irq_total s;
  ck_task : 0 <= clock_task (k_clocks s);
  ck_clock : rq_clock (k_clocks s) <= last_now s < 2 ^ 62;
}.

Lemma s64_id x : - 2 ^ 63 <= x < 2 ^ 63 → s64 x = x.
Proof. intros. by apply wrap_s_small. Qed.

Lemma u64_id x : 0 <= x < 2 ^ 64 → u64 x = x.
Proof. apply wrap_u_small. Qed.

Lemma vtime_ok now h so k s :
  clocks_ok s → last_now s <= now < 2 ^ 62 → clocks_ok (ClockState (account_system_vtime now h so k (k_irq s)) (k_clocks s) now).
Proof.
  intros [[H1 H2] H3 H4 H5 H6 H7] Hn. unfold irq_total in *. unfold account_system_vtime. destruct (k_irq s) as [hi so' st on].
  cbn [cpu_hardirq_time cpu_softirq_time irq_start_time sched_clock_irqtime] in *.
  rewrite !s64_id by lia. destruct on; cbn [negb]; [destruct h; [|destruct (so && negb k)]|];
    split; unfold irq_total; cbn; rewrite ?u64_id by lia; lia.
Qed.

(** What [update_rq_clock] does: the interrupt time that is new, but not more than
    what has gone by, is left out of the clock of tasks. *)
Lemma update_clock_split now s :
  clocks_ok s → last_now s <= now < 2 ^ 62 → skip_clock_update (k_clocks s) <= 0 →
  let q := k_clocks s in let q' := (update_rq_clock (k_irq s) now q).2 in
  let d := Z.min (irq_total s - prev_irq_time q) (now - rq_clock q) in
  q' = Clocks now (clock_task q + (now - rq_clock q) - d) (prev_irq_time q + d) (skip_clock_update q).
Proof.
  intros [[H1 H2] H3 H4 H5 H6 H7] Hn Hskip q q' d. subst q' d q. unfold update_rq_clock, update_rq_clock_task, irq_time_read, irq_total in *.
  destruct (k_clocks s) as [cl ct pi sk]. destruct (k_irq s) as [hi so st on].
  cbn [cpu_hardirq_time cpu_softirq_time irq_start_time rq_clock clock_task prev_irq_time skip_clock_update] in *.
  rewrite decide_False by lia. cbn [snd clock_task prev_irq_time rq_clock skip_clock_update].
  rewrite (u64_id (so + hi)), (s64_id (now - cl)), (s64_id (so + hi - pi)) by lia.
  rewrite (u64_id (cl + _)) by lia.
  case_decide as Hd.
  - rewrite (s64_id (now - cl - (now - cl))), !u64_id by lia. f_equal; lia.
  - rewrite (s64_id (now - cl - _)), !u64_id by lia. f_equal; lia.
Qed.

Lemma clock_step_ok e s s' :
  clocks_ok s → clock_step e s = Some s' →
  clocks_ok s' ∧ clock_task (k_clocks s) <= clock_task (k_clocks s') ∧ rq_clock (k_clocks s) <= rq_clock (k_clocks s').
Proof.
  intros Hs. destruct e as [now h so k|now|n|on]; cbn; intros E.
  - case_decide as Hn; inv_some E. split; [by apply vtime_ok|]. cbn. lia.
  - case_decide as Hn; inv_some E. cbn [k_clocks].
    destruct (decide (0 < skip_clock_update (k_clocks s))) as [Hsk|Hsk].
    + unfold update_rq_clock. rewrite decide_True by done. cbn. split; [|lia].
      destruct Hs as [[H1 H2] H3 H4 H5 H6 H7]. unfold irq_total in *. split; unfold irq_total; cbn; lia.
    + pose proof (update_clock_split now s Hs Hn ltac:(lia)) as E. cbn in E. rewrite E. clear E.
      destruct Hs as [[H1 H2] H3 H4 H5 H6 H7]. unfold irq_total in *. cbn. split; [split; unfold irq_total; cbn; lia|lia].
  - inv_some E. cbn. split; [|lia]. destruct Hs. by split.
  - inv_some E. cbn. split; [|lia]. destruct Hs as [? ? ? ? ? ?]. by destruct on; split.
Qed.

Lemma clocks_start s : clock_start s → clocks_ok s.
Proof. intros (E1 & E2 & E3). split; unfold irq_total; rewrite ?E1, ?E2, ?E3; cbn; lia. Qed.

(** C25: in all runs the clock of tasks is the clock of the run queue less the interrupt
    time that has been taken out of it, which is never more than there was, and
    neither clock ever goes back. *)
Theorem task_clock_monotone s e s' :
  reachable clock_step clock_start s → clock_step e s = Some s' →
  clock_task (k_clocks s') = rq_clock (k_clocks s') - prev_irq_time (k_clocks s') ∧
  0 <= prev_irq_time (k_clocks s') <= irq_total s' ∧
  clock_task (k_clocks s) <= clock_task (k_clocks s') ∧ rq_clock (k_clocks s) <= rq_clock (k_clocks s').
Proof.
  intros Hs E. assert (clocks_ok s) as Hok.
  { revert s Hs E. intros s0 Hs _. revert s0 Hs. apply (reachable_ind clock_step clock_start clocks_ok); [apply clocks_start|].
    intros l s1 s2 H1 H2. by apply (clock_step_ok l s1 s2). }
  destruct (clock_step_ok e s s' Hok E) as [[_ _ H4 H5 _ _] H]. split; [lia|]. split; [done|exact H].
Qed.

(** ** Reported times *)

Section reported_times.
Context `{Hlaws : TimeLaws}.

(** C35: as long as the times fit (the sum of the two in 32 bits, their product with the
    run time in 64), what is reported for a task or a group never decreases, adds up
    to at least the time it ran, and the user time is no more than that; the sum is
    exact unless the system time is an old value that is kept. *)
Theorem reported_times_sane ut st run r :
  0 <= ut → 0 <= st → ut + st < 2 ^ 32 → nsecs_to_cputime run * ut < 2 ^ 64 →
  0 <= prev_utime r <= nsecs_to_cputime run → 0 <= prev_stime r →
  let r' := scale_times ut st run r in
  prev_utime r <= prev_utime r' <= nsecs_to_cputime run ∧ prev_stime r <= prev_stime r' ∧
  nsecs_to_cputime run <= prev_utime r' + prev_stime r' ∧
  (prev_utime r' + prev_stime r' = nsecs_to_cputime run ∨ prev_stime r' = prev_stime r).
Proof.
  intros Hut Hst Hsum Hprod Hpu Hps r'. subst r'. unfold scale_times. cbn [prev_utime prev_stime].
  pose proof (nsecs_to_cputime_range run) as Hr. set (rt := nsecs_to_cputime run) in *. clearbody rt.
  unfold cputime_add, cputime_sub. rewrite (u64_id (ut + st)) by lia.
  assert (∃ x, (if decide (ut + st ≠ 0) then do_div (u64 (rt * ut)) (ut + st) else rt) = x ∧ 0 <= x <= rt) as (x & -> & Hx).
  { eexists. split; [done|]. case_decide; [|lia]. rewrite u64_id by nia. rewrite do_div_spec by (nia || lia).
    split; [apply Z.div_pos; nia|]. apply Z.div_le_upper_bound; nia. }
  rewrite (u64_id (rt - _)) by lia. lia.
Qed.

End reported_times.
