(* ===== verification/CpuTimeDemo.v ===== *)
(** * CPU time: concrete runs, and defects (sched.c, src/indwriterups/project1) *)

From S2P Require Import Prelude CpuAcct CpuTime CpuTimeSpec CpuTimeSteps.

Local Open Scope Z_scope.
Local Open Scope cs544_scope.

(** One hundred ticks per second, a tick as the unit of time. *)
#[export] Instance hundred_hz : TimeEnv := {|
  cputime_one_jiffy := 1; cputime_to_scaled x := x; jiffies_to_cputime x := x;
  nsecs_to_cputime n := u64 (n / 10000000); nsecs_to_cputime64 n := u64 (n / 10000000);
  do_div n b := n / b; HARDIRQ_OFFSET := 65536;
|}.

#[export] Instance hundred_hz_laws : TimeLaws.
Proof. split; [intros n; by apply wrap_u_range|done]. Qed.

(** ** Accounting groups: a root with two groups, one of which has another below it. *)
Definition four_groups : accts :=
  <[0%nat := Cpuacct None [0; 0] 0 0]> (<[1%nat := Cpuacct (Some 0%nat) [5; 0] 0 0]>
  (<[2%nat := Cpuacct (Some 0%nat) [0; 7] 0 0]> (<[3%nat := Cpuacct (Some 1%nat) [0; 0] 0 0]> ∅))).

Lemma four_groups_forest : forest 2 four_groups.
Proof.
  intros g c. unfold four_groups. rewrite !lookup_insert_Some, lookup_empty.
  intros [[<- <-]|[_ [[<- <-]|[_ [[<- <-]|[_ [[<- <-]|[_ ?]]]]]]]]; try done; (split; [done|]); intros q [= <-]; (split; [lia|by eexists]).
Qed.

Definition some_charges : list charge := [Charge 3 0 40; Charge 2 1 10; Charge 1 0 2; Charge 0 1 1].

(** The second group has what the fourth one used too, the root has everything. *)
Lemma cpuacct_charged_once_witness :
  ∃ m', charge_all some_charges four_groups = Some m' ∧
    (∃ c u, m' !! 1%nat = Some c ∧ cpuusage c !! 0%nat = Some u ∧ u ≡₆₄ 47) ∧
    (∃ c u, m' !! 0%nat = Some c ∧ cpuusage c !! 1%nat = Some u ∧ u ≡₆₄ 11).
Proof.
  destruct (cpuacct_charged_once 2 some_charges four_groups four_groups_forest) as (m' & Hm & _ & _ & Hall).
  { repeat constructor; by eexists. }
  exists m'. split; [exact Hm|]. split.
  - apply (Hall 1%nat (Cpuacct (Some 0%nat) [5; 0] 0 0) 0%nat 5); done.
  - apply (Hall 0%nat (Cpuacct None [0; 0] 0 0) 1%nat 0); done.
Defined.

(** ** Ticks: two processors, a niced task, one that runs a guest, and an idle task. *)
Definition demo_tasks : list ttask :=
  [Ttask 0 0 0 0 0 5 false 3; Ttask 0 0 0 0 0 0 true 2; Ttask 0 0 0 0 0 0 false 0].

Definition demo_times : cpu_times :=
  CpuTimes [no_time; no_time] demo_tasks four_groups [Irqtime 0 0 0 false; Irqtime 0 0 0 false] [0; 0].

Definition in_tick : tick_context := Context 65536 65536 false false false 0.
Definition in_nested_irq : tick_context := Context 131072 131072 false false false 0.
Definition idle_waiting : tick_context := Context 65536 65536 false false true 1.

Definition demo_ticks : list time_event :=
  [ProcessTick 0 0 in_tick true; ProcessTick 1 1 in_tick false; ProcessTick 0 0 in_nested_irq false; ProcessTick 1 2 idle_waiting false;
   SwitchIrqtime true; SystemVtime 0 25000000 true false false; ProcessTick 0 0 in_tick true; IdleTicks 0 2 idle_waiting 3;
   StealTicks 1 2 4; ProcessTick 0 0 in_tick true].

Definition demo_ticked : cpu_times := Eval vm_compute in default demo_times (run (time_step true) demo_ticks demo_times).

Lemma demo_ticked_reached : reachable (time_step true) (times_start 2) demo_ticked.
Proof.
  apply (run_reachable (time_step true) _ demo_ticks demo_times); [|vm_compute; reflexivity].
  split; [done|]. split; [done|]. split; [|apply four_groups_forest]. repeat constructor; by eexists.
Qed.

Lemma ticks_accounted_once_witness :
  (∀ c, k_stats demo_ticked !! 0%nat = Some c → all_time c ≡₆₄ 7) ∧
  sum_of user_time (k_stats demo_ticked) ≡₆₄ sum_of utime (k_tasks demo_ticked).
Proof.
  destruct (ticks_accounted_once true 2 demo_ticked demo_ticked_reached) as (H1 & H2 & _).
  split; [|exact H2]. intros c Hc. by apply (H1 0%nat c 7).
Defined.

(** The time of a guest is user time of the task and of the processor, but is not
    charged to the accounting groups of the task. *)
Lemma guest_time_not_charged s : t_accts (account_guest_time 1 1 s) = t_accts s ∧
  utime (t_task (account_guest_time 1 1 s)) = cputime_add (utime (t_task s)) 1.
Proof. unfold account_guest_time. by case_decide. Qed.

(** ** Clocks: an interrupt of 30 ns is taken out of the clock of tasks, in two parts. *)
Definition clock_zero : clock_state := ClockState (Irqtime 0 0 0 false) (Clocks 0 0 0 0) 0.

Definition demo_clock : list clock_event :=
  [Switch true; Vtime 100 false false false; UpdateClock 110; Vtime 140 true false false; UpdateClock 145].

Definition demo_clocked : clock_state := Eval vm_compute in default clock_zero (run clock_step demo_clock clock_zero).

Lemma demo_clocked_reached : reachable clock_step clock_start demo_clocked.
Proof. apply (run_reachable clock_step _ demo_clock clock_zero); [done|vm_compute; reflexivity]. Qed.

Lemma task_clock_monotone_witness :
  ∃ s', clock_step (UpdateClock 200) demo_clocked = Some s' ∧
    clock_task (k_clocks s') = rq_clock (k_clocks s') - prev_irq_time (k_clocks s') ∧ 0 <= prev_irq_time (k_clocks s') <= irq_total s' ∧
    clock_task (k_clocks demo_clocked) <= clock_task (k_clocks s').
Proof.
  eexists. split; [vm_compute; reflexivity|].
  destruct (task_clock_monotone demo_clocked (UpdateClock 200) (ClockState (Irqtime 40 0 140 true) (Clocks 200 160 40 0) 200)) as (H1 & H2 & H3 & _);
    [apply demo_clocked_reached|vm_compute; reflexivity|done].
Defined.

(** ** Reported times *)

Lemma reported_times_sane_witness :
  let r' := scale_times 30 10 200000000 (Reported 0 10) in
  0 <= prev_utime r' <= 20 ∧ 10 <= prev_stime r' ∧ 20 <= prev_utime r' + prev_stime r'.
Proof. destruct (reported_times_sane 30 10 200000000 (Reported 0 10)) as (H1 & H2 & H3 & _);
  [by vm_compute..|]. exact (conj H1 (conj H2 H3)). Defined.

(** The two corrections for monotony are not made together: a task that ran for 20
    ticks is reported with 15 and 10. *)
Lemma reported_times_exceed :
  let r1 := scale_times 0 10 100000000 (Reported 0 0) in
  let r2 := scale_times 30 10 200000000 r1 in
  nsecs_to_cputime 200000000 = 20 ∧ prev_utime r2 = 15 ∧ prev_stime r2 = 10.
Proof. by vm_compute. Qed.
