(* ===== verification/SchedWait.v ===== *)
(** * Wait queues and completions (sched.c, src/indwriterups/project1)

    The core wake-up function over the entries of a wait queue, and completions:
    any number of threads that wait, with timeouts and signals, and others that
    complete.  What a thread does while it holds the lock of the wait queue is one
    step; [schedule_timeout] lies between two steps of a waiter. *)

From S2P Require Import Prelude.

Local Open Scope Z_scope.

Definition UINT_MAX : Z := 2 ^ 32 - 1.
Definition ERESTARTSYS : Z := 512.
Definition MAX_SCHEDULE_TIMEOUT : Z := 2 ^ 63 - 1.

(** ** Wait queues *)

(** An entry: its task and WQ_FLAG_EXCLUSIVE. *)
Record wait_entry := mk_wait { w_task : nat; w_exclusive : bool }.

(** The loop of [__wake_up_common]; [func] is what the entries' function does with
    the mode, flags and key of the call. *)
Fixpoint __wake_up_common {S} (func : wait_entry → S → bool * S) (q : list wait_entry) (nr_exclusive : Z) (s : S) : S :=
  match q with
  | [] => s
  | e :: q' =>
      let '(woken, s) := func e s in
      if woken && w_exclusive e then
        let nr_exclusive := s32 (nr_exclusive - 1) in
        if decide (nr_exclusive = 0) then s else __wake_up_common func q' nr_exclusive s
      else __wake_up_common func q' nr_exclusive s
  end.

Section wake_ups.
Context {S : Type} (func : Z → Z → Z → wait_entry → S → bool * S).

Definition WF_SYNC : Z := 1.

(** The callers of the loop; [func] has the mode, the flags and the key. *)
Definition __wake_up (q : list wait_entry) (mode nr_exclusive key : Z) (s : S) : S :=
  __wake_up_common (func mode 0 key) q nr_exclusive s.

Definition __wake_up_locked (q : list wait_entry) (mode : Z) (s : S) : S := __wake_up_common (func mode 0 0) q 1 s.

Definition __wake_up_locked_key (q : list wait_entry) (mode key : Z) (s : S) : S :=
  __wake_up_common (func mode 0 key) q 1 s.

(** Without a queue nothing is done. *)
Definition __wake_up_sync_key (q : option (list wait_entry)) (mode nr_exclusive key : Z) (s : S) : S :=
  match q with
  | None => s
  | Some q => __wake_up_common (func mode (if decide (nr_exclusive = 0) then 0 else WF_SYNC) key) q nr_exclusive s
  end.

Definition __wake_up_sync (q : option (list wait_entry)) (mode nr_exclusive : Z) (s : S) : S :=
  __wake_up_sync_key q mode nr_exclusive 0 s.

End wake_ups.

(** ** Completions *)

(** The functions that wait; a timeout is in jiffies. *)
Inductive wait_call :=
  | wait_for_completion
  | wait_for_completion_timeout (timeout : Z)
  | wait_for_completion_interruptible
  | wait_for_completion_interruptible_timeout (timeout : Z)
  | wait_for_completion_killable
  | wait_for_completion_killable_timeout (timeout : Z).

(** The timeout a call gives to [wait_for_common]. *)
Definition call_timeout (c : wait_call) : Z :=
  match c with
  | wait_for_completion | wait_for_completion_interruptible | wait_for_completion_killable => MAX_SCHEDULE_TIMEOUT
  | wait_for_completion_timeout n | wait_for_completion_interruptible_timeout n
  | wait_for_completion_killable_timeout n => n
  end.

(** Whether a signal (a fatal one, when killable) ends the state a call waits in. *)
Definition call_interruptible (c : wait_call) : bool :=
  match c with wait_for_completion | wait_for_completion_timeout _ => false | _ => true end.

(** What a call makes of the value [wait_for_common] returns. *)
Definition call_result (c : wait_call) (t : Z) : Z :=
  match c with
  | wait_for_completion => 0
  | wait_for_completion_interruptible | wait_for_completion_killable =>
      if decide (t = - ERESTARTSYS) then t else 0
  | _ => t
  end.

(** A thread before its call, between two steps of its loop with the timeout that
    is left, and after the call with the value of [wait_for_common]. *)
Inductive wait_pc := Entering (c : wait_call) | Waiting (c : wait_call) (timeout : Z) | Returned (c : wait_call) (ret : Z).

(** [t_asleep]: its state is one that [TASK_NORMAL] wakes; [t_signal]: a signal
    its state heeds is pending. *)
Record thread := Thread { t_pc : wait_pc; t_asleep : bool; t_signal : bool }.

(** A completion and the threads that use it.  [issued] adds up what completing
    has given, [tries] the successful calls of [try_wait_for_completion]. *)
Record world := World { done_ : Z; wait_ : list wait_entry; threads : list thread; issued : Z; tries : Z }.

Definition set_done (d : Z) (s : world) : world := World d (wait_ s) (threads s) (issued s) (tries s).
Definition set_wait (q : list wait_entry) (s : world) : world := World (done_ s) q (threads s) (issued s) (tries s).
Definition set_threads (l : list thread) (s : world) : world := World (done_ s) (wait_ s) l (issued s) (tries s).
Definition set_thread (p : nat) (t : thread) (s : world) : world := set_threads (<[p := t]> (threads s)) s.

Definition wake_thread (t : thread) : thread := Thread (t_pc t) false (t_signal t).

Definition asleep (s : world) (p : nat) : bool := match threads s !! p with Some t => t_asleep t | None => false end.

(** [try_to_wake_up] for the task of the entry. *)
Definition default_wake_function (e : wait_entry) (s : world) : bool * world :=
  if asleep s (w_task e) then (true, set_threads (alter wake_thread (w_task e) (threads s)) s) else (false, s).

(** [complete] and [complete_all] *)
Definition complete (s : world) : world :=
  let s := World (u32 (done_ s + 1)) (wait_ s) (threads s) (issued s + 1) (tries s) in
  __wake_up_common default_wake_function (wait_ s) 1 s.

Definition complete_all (s : world) : world :=
  let s := World (u32 (done_ s + UINT_MAX / 2)) (wait_ s) (threads s) (issued s + UINT_MAX / 2) (tries s) in
  __wake_up_common default_wake_function (wait_ s) 0 s.

(** *** [do_wait_for_common] *)

Definition signal_pending_state (c : wait_call) (t : thread) : bool := call_interruptible c && t_signal t.

(** Its end: the token is taken and the call returns. *)
Definition wait_take (p : nat) (c : wait_call) (t : thread) (timeout : Z) (s : world) : world :=
  let s := set_done (u32 (done_ s - 1)) s in
  set_thread p (Thread (Returned c (if decide (timeout = 0) then 1 else timeout)) false (t_signal t)) s.

(** After the loop: the entry is removed, then there is something to take or not. *)
Definition wait_leave (p : nat) (c : wait_call) (t : thread) (timeout : Z) (s : world) : world :=
  let s := set_wait (filter (λ e, w_task e ≠ p) (wait_ s)) s in
  if decide (done_ s = 0) then set_thread p (Thread (Returned c timeout) false (t_signal t)) s
  else wait_take p c t timeout s.

(** The body of the loop up to [schedule_timeout]. *)
Definition wait_sleep (p : nat) (c : wait_call) (t : thread) (timeout : Z) (s : world) : world :=
  if signal_pending_state c t then wait_leave p c t (- ERESTARTSYS) s
  else set_thread p (Thread (Waiting c timeout) true (t_signal t)) s.

(** From the start to the first [schedule_timeout] or the end. *)
Definition wait_begin (p : nat) (c : wait_call) (t : thread) (s : world) : world :=
  if decide (done_ s = 0) then wait_sleep p c t (call_timeout c) (set_wait (wait_ s ++ [mk_wait p true]) s)
  else wait_take p c t (call_timeout c) s.

(** From the return of [schedule_timeout], with what is left, to the next one or
    the end. *)
Definition wait_resume (p : nat) (c : wait_call) (t : thread) (rest : Z) (s : world) : world :=
  if decide (done_ s = 0 ∧ rest ≠ 0) then wait_sleep p c t rest s else wait_leave p c t rest s.

(** What [schedule_timeout] may return. *)
Definition may_be_left (timeout rest : Z) : bool :=
  if decide (timeout = MAX_SCHEDULE_TIMEOUT) then bool_decide (rest = MAX_SCHEDULE_TIMEOUT)
  else bool_decide (0 <= rest <= timeout).

Definition try_wait_for_completion (s : world) : bool * world :=
  if decide (done_ s = 0) then (false, s)
  else (true, World (u32 (done_ s - 1)) (wait_ s) (threads s) (issued s) (tries s + 1)).

Definition completion_done (s : world) : bool := negb (bool_decide (done_ s = 0)).

(** *** Interleavings *)

(** The most threads there can be (PID_MAX_LIMIT). *)
Definition max_threads : Z := 2 ^ 22.

Inductive label :=
  | LArrive (c : wait_call)
  | LEnter (p : nat)
  | LResume (p : nat) (rest : Z)
  | LTimer (p : nat)
  | LSignal (p : nat)
  | LComplete
  | LCompleteAll
  | LTry.

(** A waiter runs on only when something has woken it. *)
Definition step (l : label) (s : world) : option world :=
  match l with
  | LArrive c =>
      if decide (Z.of_nat (length (threads s)) < max_threads) then
        if decide (0 <= call_timeout c) then Some (set_threads (threads s ++ [Thread (Entering c) false false]) s) else None
      else None
  | LEnter p =>
      t ← threads s !! p;
      match t_pc t with Entering c => Some (wait_begin p c t s) | _ => None end
  | LResume p rest =>
      t ← threads s !! p;
      match t_pc t with
      | Waiting c timeout => if negb (t_asleep t) && may_be_left timeout rest then Some (wait_resume p c t rest s) else None
      | _ => None
      end
  | LTimer p =>
      t ← threads s !! p;
      match t_pc t with
      | Waiting c timeout =>
          if decide (timeout = MAX_SCHEDULE_TIMEOUT) then None else Some (set_thread p (wake_thread t) s)
      | _ => None
      end
  | LSignal p =>
      t ← threads s !! p;
      let woken := match t_pc t with Waiting c _ => call_interruptible c | _ => false end in
      Some (set_thread p (Thread (t_pc t) (t_asleep t && negb woken) true) s)
  | LComplete => Some (complete s)
  | LCompleteAll => Some (complete_all s)
  | LTry => let '(b, s) := try_wait_for_completion s in if b : bool then Some s else None
  end.

(** A completion that was just initialised. *)
Definition init (s : world) : Prop := s = World 0 [] [] 0 0.

(** ** What a wake-up does *)

(** The sleeping exclusive waiters among some entries. *)
Definition sleepers (s : world) (q : list wait_entry) : Z :=
  sum_of (λ e, b2z (w_exclusive e && asleep s (w_task e))) q.

(** Whether a wake-up of [nr] exclusive waiters gets to the entry of [p]; 0 is
    everybody. *)
Definition reached (nr : Z) (s : world) (q : list wait_entry) (p : nat) : bool :=
  match list_find (λ e, w_task e = p) q with
  | Some (i, _) => bool_decide (nr <= 0 ∨ sleepers s (take i q) < nr)
  | None => false
  end.

Lemma wake_thread_idemp t : wake_thread (wake_thread t) = wake_thread t.
Proof. done. Qed.

Lemma wake_awake t : t_asleep t = false → wake_thread t = t.
Proof. destruct t; cbn. by intros ->. Qed.

(** The threads after the entry of [p] was called. *)
Lemma default_wake_threads e s p :
  threads (snd (default_wake_function e s)) !! p =
  (if decide (p = w_task e) then wake_thread else id) <$> threads s !! p.
Proof.
  unfold default_wake_function, asleep. case_decide as Hp.
  - subst p. destruct (threads s !! w_task e) as [t|] eqn:Et; cbn; [|done].
    destruct (t_asleep t) eqn:Ea; cbn; [by rewrite list_lookup_alter_eq, Et|by rewrite Et, wake_awake].
  - rewrite option_fmap_id. destruct (match threads s !! w_task e with Some t => t_asleep t | None => false end); cbn; [|done].
    by rewrite list_lookup_alter_ne.
Qed.

Lemma default_wake_rest e s :
  let s' := snd (default_wake_function e s) in
  done_ s' = done_ s ∧ wait_ s' = wait_ s ∧ issued s' = issued s ∧ tries s' = tries s ∧
  length (threads s') = length (threads s).
Proof. unfold default_wake_function. case_match; cbn; by rewrite ?length_alter. Qed.

Lemma asleep_woken e s p : p ≠ w_task e → asleep (snd (default_wake_function e s)) p = asleep s p.
Proof.
  intros Hp. pose proof (default_wake_threads e s p) as E. rewrite decide_False in E by done.
  rewrite option_fmap_id in E. unfold asleep in *. by rewrite E.
Qed.

Lemma sleepers_woken e s q :
  w_task e ∉ (w_task <$> q) → sleepers (snd (default_wake_function e s)) q = sleepers s q.
Proof.
  unfold sleepers. induction q as [|e' q IH]; cbn [fmap list_fmap sum_of foldr]; [done|].
  intros [Hne Hq]%not_elem_of_cons. unfold sum_of in *. rewrite IH by done. by rewrite asleep_woken by (intros E; by apply Hne).
Qed.

Lemma sleepers_cons s e q : sleepers s (e :: q) = b2z (w_exclusive e && asleep s (w_task e)) + sleepers s q.
Proof. done. Qed.

Lemma sleepers_nonneg s q : 0 <= sleepers s q.
Proof. apply sum_of_nonneg. intros e _. by destruct (w_exclusive e && asleep s (w_task e)). Qed.

Lemma sleepers_take_notin e s q i : w_task e ∉ (w_task <$> q) →
  sleepers (snd (default_wake_function e s)) (take i q) = sleepers s (take i q).
Proof.
  intros Hq. apply sleepers_woken. intros Hin. apply Hq. rewrite fmap_take in Hin.
  apply elem_of_take in Hin as (j & Hj & _). by eapply list_elem_of_lookup_2.
Qed.

Lemma reached_cons nr s e q p :
  w_task e ∉ (w_task <$> q) → p ≠ w_task e →
  reached nr s (e :: q) p =
  (bool_decide (nr <= 0 ∨ b2z (w_exclusive e && asleep s (w_task e)) < nr) &&
   reached (nr - b2z (w_exclusive e && asleep s (w_task e))) (snd (default_wake_function e s)) q p).
Proof.
  intros Hq Hp. unfold reached. cbn [list_find]. destruct (decide (w_task e = p)) as [E|_]; [by subst p|].
  destruct (list_find (λ e0, w_task e0 = p) q) as [[i e']|]; cbn [fmap option_fmap option_map prod_map fst snd]; [|by rewrite andb_false_r].
  cbn [take]. rewrite sleepers_cons, sleepers_take_notin by done. pose proof (sleepers_nonneg s (take i q)).
  set (b := b2z _). assert (0 <= b <= 1) by (unfold b, b2z; by destruct (_ && _)).
  rewrite <- bool_decide_and. apply bool_decide_ext. lia.
Qed.

Lemma reached_head nr s e q : reached nr s (e :: q) (w_task e) = true.
Proof. unfold reached. cbn [list_find]. rewrite decide_True by done. cbn. apply bool_decide_eq_true_2. lia. Qed.

Lemma reached_absent nr s q p : p ∉ (w_task <$> q) → reached nr s q p = false.
Proof.
  intros Hp. unfold reached. destruct (list_find _ q) as [[i e]|] eqn:E; [|done].
  apply list_find_Some in E as (Hi & <- & _). exfalso. apply Hp, list_elem_of_fmap_2. by eapply list_elem_of_lookup_2.
Qed.

(** Which threads a wake-up wakes: those it gets to, others stay as they are. *)
Lemma wake_up_threads q nr s p :
  NoDup (w_task <$> q) → nr < 2 ^ 31 → - 2 ^ 31 <= nr - Z.of_nat (length q) →
  threads (__wake_up_common default_wake_function q nr s) !! p =
  (if reached nr s q p then wake_thread else id) <$> threads s !! p.
Proof.
  revert nr s. induction q as [|e q IH]; intros nr s Hnd Hhi Hlo; cbn [__wake_up_common fmap list_fmap] in *.
  { by rewrite option_fmap_id. }
  apply list.NoDup_cons in Hnd as [He Hnd]. cbn [length] in Hlo.
  pose proof (default_wake_threads e s p) as Hth. pose proof (reached_cons nr s e q p He) as Hr.
  set (b := b2z (w_exclusive e && asleep s (w_task e))) in *.
  assert (fst (default_wake_function e s) = asleep s (w_task e)) as Hb by (unfold default_wake_function; by destruct (asleep s (w_task e))).
  destruct (default_wake_function e s) as [woken s1]. cbn [fst snd] in *. subst woken.
  assert (∀ nr', nr' = nr - b → threads (if decide (nr' = 0 ∧ b = 1) then s1 else __wake_up_common default_wake_function q nr' s1) !! p =
    (if reached nr s (e :: q) p then wake_thread else id) <$> threads s !! p) as Hgo.
  { intros nr' ->. assert (0 <= b <= 1) as Hb1 by (unfold b, b2z; by destruct (_ && _)).
    destruct (decide (p = w_task e)) as [->|Hne].
    - rewrite reached_head. destruct (decide (nr - b = 0 ∧ b = 1)); [exact Hth|].
      rewrite IH by (done || lia). rewrite reached_absent by done. by rewrite option_fmap_id.
    - rewrite Hr by done. rewrite option_fmap_id in Hth. destruct (decide (nr - b = 0 ∧ b = 1)) as [Hz|Hz].
      + rewrite bool_decide_eq_false_2 by lia. by rewrite Hth, option_fmap_id.
      + rewrite IH by (done || lia). rewrite Hth. by rewrite bool_decide_eq_true_2 by lia. }
  rewrite (andb_comm (asleep _ _)). destruct (w_exclusive e && asleep s (w_task e)); cbn [b2z] in b; subst b.
  - rewrite wrap_s_small by lia. rewrite <- (Hgo (nr - 1)) by done. by destruct (decide (nr - 1 = 0)); repeat case_decide; try lia.
  - rewrite <- (Hgo nr) by lia. by rewrite decide_False by lia.
Qed.

Lemma wake_up_rest q nr s :
  let s' := __wake_up_common default_wake_function q nr s in
  done_ s' = done_ s ∧ wait_ s' = wait_ s ∧ issued s' = issued s ∧ tries s' = tries s ∧
  length (threads s') = length (threads s).
Proof.
  revert nr s. induction q as [|e q IH]; intros nr s; cbn [__wake_up_common]; [done|].
  pose proof (default_wake_rest e s) as Hr. destruct (default_wake_function e s) as [woken s1]. cbn [snd] in Hr.
  repeat case_match; try done; destruct Hr as (<- & <- & <- & <- & <-); apply IH.
Qed.
