(* ===== verification/SchedComplete.v ===== *)
(** * Completions lose nothing (sched.c, src/indwriterups/project1)

    The invariant of all interleavings of [SchedWait], and what follows: tokens are
    accounted for, waiters are woken in order, no wake-up is lost, and a call
    returns only for one of its reasons. *)

From S2P Require Import Prelude SchedWait.

Local Open Scope Z_scope.

(** ** The invariant *)

Definition is_waiting (t : thread) : bool := match t_pc t with Waiting _ _ => true | _ => false end.

(** A waiter that can run, and a call that has taken a token. *)
Definition awake_waiter (t : thread) : Z := b2z (is_waiting t && negb (t_asleep t)).

Definition took (t : thread) : Z := match t_pc t with Returned _ r => b2z (bool_decide (0 < r)) | _ => 0 end.

Definition all_took (s : world) : Z := sum_of took (threads s).

Definition awake_waiters (s : world) : Z := sum_of awake_waiter (threads s).

(** How a call can end: with a token, without one when its time is up, which
    happens only to calls that have a timeout, or with a signal, where it heeds
    signals. *)
Definition ended (c : wait_call) (r : Z) : Prop :=
  0 < r ∨ (r = 0 ∧ call_timeout c ≠ MAX_SCHEDULE_TIMEOUT) ∨ (r = - ERESTARTSYS ∧ call_interruptible c = true).

Definition pc_ok (t : thread) : Prop :=
  match t_pc t with
  | Entering c => 0 <= call_timeout c
  | Waiting c n => 0 <= n ∧ (call_timeout c = MAX_SCHEDULE_TIMEOUT → n = MAX_SCHEDULE_TIMEOUT)
  | Returned c r => ended c r
  end.

Record inv (s : world) : Prop := {
  iv_queue p : p ∈ (w_task <$> wait_ s) ↔ ∃ t, threads s !! p = Some t ∧ is_waiting t = true;
  iv_nodup : NoDup (w_task <$> wait_ s);
  iv_excl : Forall (λ e, w_exclusive e = true) (wait_ s);
  iv_asleep p t : threads s !! p = Some t → t_asleep t = true → is_waiting t = true;
  iv_pc p t : threads s !! p = Some t → pc_ok t;
  iv_range : 0 <= done_ s < 2 ^ 32;
  iv_account : done_ s = u32 (issued s - tries s - all_took s);
  iv_issued : 0 <= issued s;
  iv_tries : 0 <= tries s;
  iv_exact : issued s < 2 ^ 32 → done_ s = issued s - tries s - all_took s;
  iv_wakeup p : asleep s p = true → done_ s <= awake_waiters s;
  iv_length : Z.of_nat (length (threads s)) <= max_threads;
}.

Lemma awake_nonneg s : 0 <= awake_waiters s.
Proof. apply sum_of_nonneg. intros t _. unfold awake_waiter. by destruct (_ && _). Qed.

Lemma wait_inv_init s : init s → inv s.
Proof.
  intros ->. split; try done.
  - intros p. cbn. split; [by intros ?%not_elem_of_nil|by intros (t & Ht & _)].
  - apply NoDup_nil_2.
Qed.

(** Giving back and taking one token in 32 bits. *)
Lemma u32_minus x d k : d = u32 x → 0 <= d - k < 2 ^ 32 → d - k = u32 (x - k).
Proof. intros -> Hr. unfold wrap_u in *. rewrite <- Zminus_mod_idemp_l. by rewrite (Z.mod_small (x mod 2 ^ 32 - k)). Qed.

(** A thread changes, its entry with it, and it may take a token. *)
Lemma wait_inv_thread p t t' d q s :
  inv s → threads s !! p = Some t → pc_ok t' → (t_asleep t' = true → is_waiting t' = true) →
  (∀ p', p' ∈ (w_task <$> q) ↔ if decide (p' = p) then is_waiting t' = true else p' ∈ (w_task <$> wait_ s)) →
  NoDup (w_task <$> q) → Forall (λ e, w_exclusive e = true) q →
  took t <= took t' → d = done_ s - (took t' - took t) → 0 <= d →
  d = 0 ∨ ((t_asleep t' = true → t_asleep t = true) ∧ d + awake_waiter t <= done_ s + awake_waiter t') →
  inv (World d q (<[p := t']> (threads s)) (issued s) (tries s)).
Proof.
  intros Hi Ht Hpc Has Hq Hnd Hex Htk Hd Hd0 Hw. pose proof (iv_range _ Hi).
  assert (0 <= took t) as Htk' by (unfold took, b2z; repeat case_match; lia).
  assert (took t' <= 1) as Htk1 by (unfold took, b2z; repeat case_match; lia).
  assert (all_took (World d q (<[p := t']> (threads s)) (issued s) (tries s)) = all_took s + (took t' - took t)) as Hsum.
  { unfold all_took. cbn [threads]. rewrite (sum_of_insert _ _ _ _ _ Ht). lia. }
  assert (∀ p' u, <[p := t']> (threads s) !! p' = Some u → p' = p ∧ u = t' ∨ p' ≠ p ∧ threads s !! p' = Some u) as Hlk.
  { intros p' u. rewrite list_lookup_insert_Some. intros [(<- & <- & _)|[? ?]]; [by left|by right]. }
  pose proof (lookup_lt_Some _ _ _ Ht) as Hlt.
  split; cbn [threads wait_ done_ issued tries]; rewrite ?Hsum, ?length_insert; try apply Hi; try done; try lia.
  - intros p'. rewrite Hq. case_decide as Hp.
    + subst p'. rewrite list_lookup_insert_eq by done. split; [intros; by exists t'|by intros (? & [= <-] & ?)].
    + rewrite list_lookup_insert_ne by done. apply Hi.
  - intros p' u [(_ & ->)|(_ & Hu)]%Hlk; [done|by apply (iv_asleep _ Hi p')].
  - intros p' u [(_ & ->)|(_ & Hu)]%Hlk; [done|by apply (iv_pc _ Hi p')].
  - rewrite Hd, (u32_minus _ _ _ (iv_account _ Hi)) by lia. f_equal. lia.
  - intros Hlt'. rewrite Hd, (iv_exact _ Hi) by done. lia.
  - intros p' Hp'. destruct Hw as [->|[Hns Hle]]; [apply awake_nonneg|].
    unfold asleep in Hp'. cbn [threads] in Hp'. destruct (<[p:=t']> (threads s) !! p') as [u|] eqn:Eu; [|done].
    assert (∃ p0 u0, threads s !! p0 = Some u0 ∧ t_asleep u0 = true) as (p0 & u0 & E0 & H0)
      by (apply Hlk in Eu as [(_ & ->)|(_ & Eu)]; eauto).
    pose proof (iv_wakeup _ Hi p0) as Hwk. unfold asleep in Hwk. rewrite E0 in Hwk. specialize (Hwk H0).
    unfold awake_waiters in *. cbn [threads]. rewrite (sum_of_insert _ _ _ _ _ Ht). lia.
Qed.

(** *** The entries of the queue *)

Lemma queue_removed p s p' :
  p' ∈ (w_task <$> filter (λ e, w_task e ≠ p) (wait_ s)) ↔ if decide (p' = p) then false = true else p' ∈ (w_task <$> wait_ s).
Proof.
  case_decide as Hp; rewrite !list_elem_of_fmap.
  - subst p'. split; [|done]. intros (e & -> & [Hne _]%list_elem_of_filter). by destruct Hne.
  - split; intros (e & -> & He); exists e; (split; [done|]).
    + by apply list_elem_of_filter in He as [_ ?].
    + apply list_elem_of_filter. by split.
Qed.

Lemma queue_removed_nodup p s : inv s → NoDup (w_task <$> filter (λ e, w_task e ≠ p) (wait_ s)).
Proof.
  intros Hi. pose proof (iv_nodup _ Hi) as Hn. clear Hi. induction (wait_ s) as [|e q IH]; [done|].
  cbn [fmap list_fmap] in Hn. apply list.NoDup_cons in Hn as [He Hn]. rewrite filter_cons. case_decide; [|by apply IH].
  cbn [fmap list_fmap]. apply list.NoDup_cons. split; [|by apply IH].
  intros Hin. apply He. apply list_elem_of_fmap in Hin as (e' & -> & [_ ?]%list_elem_of_filter).
  by apply list_elem_of_fmap_2.
Qed.

Lemma queue_kept p t s b : inv s → threads s !! p = Some t → is_waiting t = b →
  ∀ p', p' ∈ (w_task <$> wait_ s) ↔ if decide (p' = p) then b = true else p' ∈ (w_task <$> wait_ s).
Proof.
  intros Hi Ht Hb p'. case_decide; [|done]. subst p'. rewrite (iv_queue _ Hi). split.
  - by intros (u & Hu & Hw); simplify_eq.
  - intros. exists t. by subst.
Qed.

Lemma queue_added p t s : inv s → threads s !! p = Some t → is_waiting t = false →
  (∀ p', p' ∈ (w_task <$> (wait_ s ++ [mk_wait p true])) ↔
     if decide (p' = p) then true = true else p' ∈ (w_task <$> wait_ s)) ∧
  NoDup (w_task <$> (wait_ s ++ [mk_wait p true])).
Proof.
  intros Hi Ht Hb. pose proof (queue_kept p t s false Hi Ht Hb) as Hq. rewrite fmap_app. cbn [fmap list_fmap w_task]. split.
  - intros p'. rewrite elem_of_app, list_elem_of_singleton. case_decide; [by split; [|right]|].
    by split; [intros [?|?]|left].
  - apply NoDup_app. split; [apply Hi|]. split; [|apply NoDup_singleton].
    intros p' Hp' ->%list_elem_of_singleton. apply Hq in Hp'. by rewrite decide_True in Hp'.
Qed.

(** *** The steps of a waiter *)

(** A thread that is not asleep takes a token or ends without one. *)
Lemma wait_inv_return p c t r d q s b :
  inv s → threads s !! p = Some t → took t = 0 → t_asleep t = false →
  ended c r →
  (q = wait_ s ∧ is_waiting t = false ∨ q = filter (λ e, w_task e ≠ p) (wait_ s)) →
  (done_ s = 0 ∧ d = 0 ∧ r <= 0 ∨ done_ s ≠ 0 ∧ d = u32 (done_ s - 1) ∧ 0 < r) →
  inv (World d q (<[p := Thread (Returned c r) false b]> (threads s)) (issued s) (tries s)).
Proof.
  intros Hi Ht Htk Ha Hr Hq Hd. pose proof (iv_range _ Hi). pose proof (iv_excl _ Hi) as Hex.
  assert (done_ s ≠ 0 → u32 (done_ s - 1) = done_ s - 1) as Hu by (intros; apply wrap_u_small; lia).
  assert (awake_waiter t = b2z (is_waiting t)) as Haw by (unfold awake_waiter; by rewrite Ha, andb_true_r).
  assert (0 <= took (Thread (Returned c r) false b)) by (cbn; unfold b2z; by case_match).
  eapply (wait_inv_thread p t); try done; try lia.
  - destruct Hq as [[-> Hw]| ->]; [by apply (queue_kept p t)|]. intros p'. apply queue_removed.
  - destruct Hq as [[-> _]| ->]; [apply Hi|by apply queue_removed_nodup].
  - destruct Hq as [[-> _]| ->]; [done|]. apply list.Forall_forall. intros e [_ He]%list_elem_of_filter.
    rewrite list.Forall_forall in Hex. by apply Hex.
  - rewrite Htk. cbn [took t_pc]. destruct Hd as [(-> & -> & ?)|(? & -> & ?)].
    + by rewrite bool_decide_eq_false_2 by lia.
    + rewrite bool_decide_eq_true_2 by lia. by apply Hu.
  - destruct Hd as [(_ & -> & _)|(? & -> & ?)]; [by left|]. right. split; [done|]. rewrite Hu, Haw by done.
    cbn [awake_waiter is_waiting t_pc andb b2z]. destruct (is_waiting t); cbn [b2z]; lia.
Qed.

Lemma wait_inv_sleep p c t n s q :
  inv s → threads s !! p = Some t → took t = 0 → t_asleep t = false → done_ s = 0 →
  0 <= n → (call_timeout c = MAX_SCHEDULE_TIMEOUT → n = MAX_SCHEDULE_TIMEOUT) →
  (q = wait_ s ∧ is_waiting t = true ∨ q = wait_ s ++ [mk_wait p true] ∧ is_waiting t = false) →
  inv (wait_sleep p c t n (set_wait q s)).
Proof.
  intros Hi Ht Htk Ha Hd Hn Hm Hq. unfold wait_sleep, signal_pending_state.
  destruct (call_interruptible c && t_signal t) eqn:Hs.
  - apply andb_true_iff in Hs as [Hc _]. unfold wait_leave. cbn [set_wait done_]. rewrite decide_True by done.
    unfold set_thread, set_threads. cbn [set_wait done_ wait_ threads issued tries].
    eapply (wait_inv_return p c t); try done; [by right; right| |left; unfold ERESTARTSYS; lia].
    right. destruct Hq as [[-> _]|[-> _]]; [done|]. rewrite filter_app, filter_cons, decide_False by (intros []; done).
    by rewrite app_nil_r.
  - unfold set_thread, set_threads. cbn [set_wait done_ wait_ threads issued tries].
    assert (took (Thread (Waiting c n) true (t_signal t)) = 0) by done.
    eapply (wait_inv_thread p t); try done; try lia.
    + destruct Hq as [[-> Hw]|[-> Hw]]; [by apply (queue_kept p t)|by apply (queue_added p t)].
    + destruct Hq as [[-> Hw]|[-> Hw]]; [apply Hi|by apply (queue_added p t)].
    + destruct Hq as [[-> Hw]|[-> Hw]]; [apply Hi|]. apply list.Forall_app. split; [apply Hi|by constructor].
Qed.

(** A token is there, and a thread that is not asleep takes it. *)
Lemma wait_inv_take p c t n s q :
  inv s → threads s !! p = Some t → took t = 0 → t_asleep t = false → 0 <= n → done_ s ≠ 0 →
  (q = wait_ s ∧ is_waiting t = false ∨ q = filter (λ e, w_task e ≠ p) (wait_ s)) →
  inv (wait_take p c t n (set_wait q s)).
Proof.
  intros Hi Ht Htk Ha Hn Hd Hq. unfold wait_take, set_thread, set_threads. cbn [set_wait set_done done_ wait_ threads issued tries].
  assert (0 < (if decide (n = 0) then 1 else n)) by (case_decide; lia).
  eapply (wait_inv_return p c t); try done; [by left|]. right. by split_and!.
Qed.

Lemma set_wait_same s : set_wait (wait_ s) s = s.
Proof. by destruct s. Qed.

(** A thread that changes without a token changing hands. *)
Lemma wait_inv_woken p t t' s :
  inv s → threads s !! p = Some t → t_pc t' = t_pc t → (t_asleep t' = true → t_asleep t = true) → inv (set_thread p t' s).
Proof.
  intros Hi Ht Hpc Ha. unfold set_thread, set_threads.
  assert (is_waiting t' = is_waiting t ∧ took t' = took t) as [Hw Htk] by (unfold is_waiting, took; by rewrite Hpc).
  pose proof (iv_range _ Hi). pose proof (iv_pc _ Hi _ _ Ht) as Hok.
  eapply (wait_inv_thread p t); try done; try apply Hi; try lia.
  - unfold pc_ok in *. by rewrite Hpc.
  - intros Ha'. rewrite Hw. by eapply (iv_asleep _ Hi), Ha, Ha'.
  - rewrite Hw. by apply (queue_kept p t).
  - right. split; [done|]. unfold awake_waiter. rewrite Hw.
    destruct (is_waiting t), (t_asleep t), (t_asleep t'); cbn; lia.
Qed.

Lemma enter_inv p c t s :
  inv s → threads s !! p = Some t → t_pc t = Entering c → inv (wait_begin p c t s).
Proof.
  intros Hi Ht Epc. unfold wait_begin. pose proof (iv_pc _ Hi _ _ Ht) as Hpc. pose proof (iv_asleep _ Hi _ _ Ht) as Has.
  unfold pc_ok in Hpc. unfold is_waiting in Has. rewrite Epc in Hpc, Has.
  assert (t_asleep t = false) by (destruct (t_asleep t); [by specialize (Has eq_refl)|done]).
  assert (took t = 0 ∧ is_waiting t = false) as [? ?] by (unfold took, is_waiting; by rewrite Epc).
  case_decide.
  - apply wait_inv_sleep; try done. by right.
  - assert (∀ n, wait_take p c t n s = wait_take p c t n (set_wait (wait_ s) s)) as -> by (intros; by rewrite set_wait_same).
    eapply wait_inv_take; try done. by left.
Qed.

Lemma resume_inv p c n t rest s :
  inv s → threads s !! p = Some t → t_pc t = Waiting c n → t_asleep t = false → may_be_left n rest = true →
  inv (wait_resume p c t rest s).
Proof.
  intros Hi Ht Epc Ha Hm. unfold wait_resume.
  assert (took t = 0 ∧ is_waiting t = true) as [? ?] by (unfold took, is_waiting; by rewrite Epc).
  pose proof (iv_pc _ Hi _ _ Ht) as Hpc. unfold pc_ok in Hpc. rewrite Epc in Hpc. destruct Hpc as [_ Hmax].
  assert (0 <= rest ∧ (call_timeout c = MAX_SCHEDULE_TIMEOUT → rest = MAX_SCHEDULE_TIMEOUT)) as [Hrest Hrmax].
  { unfold may_be_left in Hm. case_decide; apply bool_decide_eq_true_1 in Hm.
    - subst rest. split; [unfold MAX_SCHEDULE_TIMEOUT; lia|done].
    - split; [lia|]. by intros ?%Hmax. }
  case_decide as Hd.
  - destruct Hd as [Hd _].
    assert (wait_sleep p c t rest s = wait_sleep p c t rest (set_wait (wait_ s) s)) as -> by (by rewrite set_wait_same).
    apply wait_inv_sleep; try done. by left.
  - unfold wait_leave. cbn [set_wait done_]. case_decide.
    + unfold set_thread, set_threads. cbn [set_wait done_ wait_ threads issued tries].
      assert (rest = 0) as -> by (destruct (decide (rest = 0)); [done|by destruct Hd]).
      eapply (wait_inv_return p c t); try done; [|by right|by left].
      right; left. split; [done|]. by intros ?%Hrmax.
    + eapply wait_inv_take; try done. by right.
Qed.

Lemma step_thread_inv l s s' : match l with LEnter _ | LResume _ _ | LTimer _ | LSignal _ => True | _ => False end →
  inv s → step l s = Some s' → inv s'.
Proof.
  intros Hl Hi Hst. destruct l as [|p|p rest|p|p| | |]; try done; cbn [step] in Hst;
    (destruct (threads s !! p) as [t|] eqn:Ht; [|done]); cbn [mbind option_bind] in Hst.
  - destruct (t_pc t) as [c| |] eqn:Epc; inv_some Hst. by eapply enter_inv.
  - destruct (t_pc t) as [|c n|] eqn:Epc; try done. destruct (negb (t_asleep t) && may_be_left n rest) eqn:E; inv_some Hst.
    apply andb_true_iff in E as [Ha%negb_true_iff Hm]. by eapply resume_inv.
  - destruct (t_pc t) as [|c n|] eqn:Epc; try done. case_decide; inv_some Hst. by eapply wait_inv_woken.
  - inv_some Hst. eapply wait_inv_woken; try done. cbn. by intros [? _]%andb_true_iff.
Qed.

(** *** Completing *)

(** What a wake-up leaves of the invariant: threads are only woken; whoever still
    sleeps must be covered by those that do not. *)
Lemma woken_inv (f : nat → bool) d i' l s :
  inv s → length l = length (threads s) →
  (∀ p, l !! p = (if f p then wake_thread else id) <$> threads s !! p) →
  0 <= d < 2 ^ 32 → d = u32 (i' - tries s - all_took s) → 0 <= i' → (i' < 2 ^ 32 → d = i' - tries s - all_took s) →
  (∀ p t, l !! p = Some t → t_asleep t = true → d <= sum_of awake_waiter l) →
  inv (World d (wait_ s) l i' (tries s)).
Proof.
  intros Hi Hlen Hl Hd Hacc Hi' Hex Hw.
  assert (∀ p t, l !! p = Some t → ∃ u, threads s !! p = Some u ∧ t_pc t = t_pc u ∧ (t_asleep t = true → t_asleep u = true)) as Hback.
  { intros p t. rewrite Hl. destruct (threads s !! p) as [u|]; [|done]. cbn. intros [= <-]. exists u. by destruct (f p). }
  assert (∀ p u, threads s !! p = Some u → ∃ t, l !! p = Some t ∧ t_pc t = t_pc u) as Hforth.
  { intros p u Hu. rewrite Hl, Hu. cbn. eexists. split; [done|]. by destruct (f p). }
  assert (sum_of took l = all_took s) as Htk.
  { unfold all_took. apply Z.le_antisymm; apply sum_of_pointwise; try done.
    - intros p t u Ht Hu. destruct (Hback _ _ Ht) as (u' & Hu' & Hpc & _). simplify_eq. unfold took. by rewrite Hpc.
    - intros p u t Hu Ht. destruct (Hback _ _ Ht) as (u' & Hu' & Hpc & _). simplify_eq. unfold took. by rewrite Hpc. }
  split; cbn [done_ wait_ threads issued tries]; try apply Hi; try done; unfold all_took in *; cbn [threads]; rewrite ?Htk, ?Hlen; try done.
  - intros p. rewrite (iv_queue _ Hi). split.
    + intros (u & Hu & Hwt). destruct (Hforth _ _ Hu) as (t & Ht & Hpc). exists t. split; [done|]. unfold is_waiting in *. by rewrite Hpc.
    + intros (t & Ht & Hwt). destruct (Hback _ _ Ht) as (u & Hu & Hpc & _). exists u. split; [done|]. unfold is_waiting in *. by rewrite <- Hpc.
  - intros p t Ht Ha. destruct (Hback _ _ Ht) as (u & Hu & Hpc & Hau). pose proof (iv_asleep _ Hi _ _ Hu (Hau Ha)) as Hwt.
    unfold is_waiting in *. by rewrite Hpc.
  - intros p t Ht. destruct (Hback _ _ Ht) as (u & Hu & Hpc & _). pose proof (iv_pc _ Hi _ _ Hu) as Hok.
    unfold pc_ok in *. by rewrite Hpc.
  - intros p Hp. unfold asleep in Hp. cbn [threads] in Hp. destruct (l !! p) as [t|] eqn:Ht; [|done]. by eapply Hw.
  - apply (iv_length _ Hi).
Qed.

(** The first sleeping waiter, by the order of the queue. *)
Definition first_sleeper (s : world) : option nat :=
  snd <$> list_find (λ p, asleep s p = true) (w_task <$> wait_ s).

Lemma queue_short s : inv s → Z.of_nat (length (wait_ s)) <= 2 ^ 22.
Proof.
  intros Hi. rewrite <- (length_fmap w_task). apply NoDup_bounded; [done|apply Hi|].
  intros p Hp. apply (iv_queue _ Hi) in Hp as (t & Ht & _). apply lookup_lt_Some in Ht.
  pose proof (iv_length _ Hi). unfold max_threads in *. lia.
Qed.

Lemma sleepers_none s q : Forall (λ e, asleep s (w_task e) ≠ true) q → sleepers s q = 0.
Proof.
  induction 1 as [|e q He _ IH]; [done|]. rewrite sleepers_cons, IH. destruct (asleep s (w_task e)); [done|]. by rewrite andb_false_r.
Qed.

(** A wake-up of one wakes the first sleeping waiter and nobody else. *)
Lemma reached_one s p :
  inv s → asleep s p = true → reached 1 s (wait_ s) p = bool_decide (first_sleeper s = Some p).
Proof.
  intros Hi Hp. assert (p ∈ (w_task <$> wait_ s)) as Hq.
  { apply (iv_queue _ Hi). unfold asleep in Hp. destruct (threads s !! p) as [t|] eqn:Ht; [|done].
    exists t. split; [done|]. by eapply (iv_asleep _ Hi). }
  apply list_elem_of_fmap in Hq as (e & He & Hin). apply list_elem_of_split in Hin as (q1 & q2 & Hsplit).
  pose proof (iv_nodup _ Hi) as Hnd. rewrite Hsplit, fmap_app, fmap_cons, <- He in Hnd.
  apply NoDup_app in Hnd as (_ & Hdis & _).
  assert (Forall (λ e', w_task e' ≠ p) q1) as Hnot.
  { apply list.Forall_forall. intros e' He' Hp'. apply (Hdis p); [|left]. rewrite <- Hp'. by apply list_elem_of_fmap_2. }
  unfold reached, first_sleeper. rewrite Hsplit, list_find_middle by done. rewrite take_app_length.
  rewrite fmap_app, fmap_cons, <- He. pose proof (sleepers_nonneg s q1) as Hnn.
  pose proof (list_find_split (λ e', asleep s (w_task e') = true) q1) as Hf.
  destruct (list_find _ q1) as [[i x]|].
  - destruct Hf as (l1 & l2 & -> & Hx & Hl1). pose proof (iv_excl _ Hi) as Hex. rewrite Hsplit in Hex.
    apply list.Forall_app in Hex as [(_ & [Hxe _]%list.Forall_cons)%list.Forall_app _].
    apply list.Forall_app in Hnot as [_ [Hxp _]%list.Forall_cons].
    rewrite fmap_app, fmap_cons, <- app_assoc. cbn [app]. rewrite list_find_middle by (try done; by apply Forall_fmap).
    rewrite bool_decide_eq_false_2, bool_decide_eq_false_2; [done|cbn; congruence|].
    unfold sleepers. rewrite sum_of_app. cbn [sum_of foldr]. rewrite Hxe, Hx. cbn [andb b2z].
    pose proof (sleepers_nonneg s l1). pose proof (sleepers_nonneg s l2). unfold sleepers, sum_of in *. lia.
  - rewrite sleepers_none by done. rewrite list_find_middle by (try done; by apply Forall_fmap).
    cbn. by rewrite !bool_decide_eq_true_2 by (done || lia).
Qed.

(** Completing once wakes exactly the first waiter that sleeps, in the order in
    which they were queued. *)
Lemma complete_threads s p :
  inv s → threads (complete s) !! p = (if decide (first_sleeper s = Some p) then wake_thread else id) <$> threads s !! p.
Proof.
  intros Hi. unfold complete. cbn [wait_]. rewrite wake_up_threads by (try apply Hi; pose proof (queue_short _ Hi); lia).
  cbn [threads]. change (reached 1 (World ?d ?w (threads s) ?i ?t)) with (reached 1 s).
  destruct (threads s !! p) as [t|] eqn:Ht; [|done]. cbn. f_equal.
  destruct (asleep s p) eqn:Ha.
  - rewrite reached_one by done. case_bool_decide; [by rewrite decide_True|by rewrite decide_False].
  - assert (t_asleep t = false) as Hta by (unfold asleep in Ha; by rewrite Ht in Ha).
    repeat case_match; cbn; by rewrite ?wake_awake.
Qed.

Lemma u32_plus x d k : d = u32 x → u32 (d + k) = u32 (x + k).
Proof. intros ->. unfold wrap_u. by rewrite Zplus_mod_idemp_l. Qed.

Lemma all_took_nonneg s : 0 <= all_took s.
Proof. apply sum_of_nonneg. intros t _. unfold took, b2z. by repeat case_match. Qed.

(** Giving [k] tokens and waking [nr] waiters, as both ways of completing do. *)
Definition give (k nr : Z) (s : world) : world :=
  __wake_up_common default_wake_function (wait_ s) nr
    (World (u32 (done_ s + k)) (wait_ s) (threads s) (issued s + k) (tries s)).

Lemma give_threads k nr s p :
  inv s → 0 <= nr < 2 ^ 31 - 2 ^ 22 →
  threads (give k nr s) !! p = (if reached nr s (wait_ s) p then wake_thread else id) <$> threads s !! p.
Proof. intros Hi Hnr. unfold give. rewrite wake_up_threads; [done|apply Hi|lia|]. pose proof (queue_short _ Hi). lia. Qed.

Lemma give_inv k nr s :
  inv s → 0 <= nr < 2 ^ 31 - 2 ^ 22 → 0 <= k →
  (∀ p, asleep s p = true → reached nr s (wait_ s) p = false → done_ s + k <= sum_of awake_waiter (threads (give k nr s))) →
  inv (give k nr s).
Proof.
  intros Hi Hnr Hk Hw. pose proof (give_threads k nr s) as Hth. pose proof (iv_range _ Hi). pose proof (iv_issued _ Hi).
  pose proof (wake_up_rest (wait_ s) nr (World (u32 (done_ s + k)) (wait_ s) (threads s) (issued s + k) (tries s))) as Hrest.
  fold (give k nr s) in Hrest. cbn [wait_ done_ issued tries threads] in Hrest.
  destruct (give k nr s) as [d q l i' tr]. cbn [wait_ done_ issued tries threads] in *. destruct Hrest as (-> & -> & -> & -> & Hlen).
  apply (woken_inv (reached nr s (wait_ s))); try done.
  - intros p. by apply Hth.
  - apply wrap_u_range. lia.
  - rewrite (u32_plus _ _ _ (iv_account _ Hi)). f_equal. lia.
  - lia.
  - intros Hlt. pose proof (iv_exact _ Hi ltac:(lia)) as Hex. pose proof (iv_tries _ Hi). pose proof (all_took_nonneg s).
    rewrite wrap_u_small by lia. lia.
  - intros p t Ht Ha. rewrite Hth in Ht by done. destruct (threads s !! p) as [u|] eqn:Hu; [|done].
    destruct (reached nr s (wait_ s) p) eqn:Hre; cbn in Ht; injection Ht as <-; [done|].
    assert (asleep s p = true) as Hap by (unfold asleep; by rewrite Hu).
    specialize (Hw p Hap Hre). unfold wrap_u. pose proof (Z.mod_le (done_ s + k) (2 ^ 32)). lia.
Qed.

(** A thread that is woken counts as much as before, at least. *)
Lemma awake_wake (b : bool) t : awake_waiter t <= awake_waiter ((if b then wake_thread else id) t).
Proof.
  destruct b; [|done]. unfold awake_waiter, wake_thread, is_waiting. cbn. destruct (t_pc t), (t_asleep t); cbn; lia.
Qed.

Lemma give_awake k nr s :
  inv s → 0 <= nr < 2 ^ 31 - 2 ^ 22 → ∀ i x y,
  threads s !! i = Some x → threads (give k nr s) !! i = Some y → awake_waiter x <= awake_waiter y.
Proof. intros Hi Hnr i x y Hx. rewrite give_threads, Hx by done. intros [= <-]. apply awake_wake. Qed.

(** If anybody sleeps, the first sleeper is there to be woken. *)
Lemma first_sleeper_some s p :
  inv s → asleep s p = true → ∃ p0 t0, first_sleeper s = Some p0 ∧ threads s !! p0 = Some t0 ∧ t_asleep t0 = true ∧ is_waiting t0 = true.
Proof.
  intros Hi Hp. unfold first_sleeper.
  assert (p ∈ (w_task <$> wait_ s)) as Hq.
  { unfold asleep in Hp. destruct (threads s !! p) as [t|] eqn:Ht; [|done]. apply (iv_queue _ Hi). exists t.
    split; [done|]. by eapply (iv_asleep _ Hi). }
  destruct (list_find_elem_of (λ p, asleep s p = true) _ _ Hq Hp) as [[j p0] Hf]. rewrite Hf.
  apply list_find_Some in Hf as (_ & Hp0 & _). unfold asleep in Hp0. destruct (threads s !! p0) as [t0|] eqn:Ht0; [|done].
  exists p0, t0. split_and!; try done. by eapply (iv_asleep _ Hi).
Qed.

Lemma complete_inv s : inv s → inv (complete s).
Proof.
  intros Hi. change (complete s) with (give 1 1 s). apply give_inv; [done|lia|lia|].
  intros p Hp _. pose proof (iv_wakeup _ Hi _ Hp) as Hd.
  destruct (first_sleeper_some s p Hi Hp) as (p0 & t0 & Hf & Ht0 & Ha0 & Hw0).
  assert (threads (give 1 1 s) !! p0 = Some (wake_thread t0)) as Ht0'.
  { change (give 1 1 s) with (complete s). by rewrite complete_threads, decide_True, Ht0 by done. }
  pose proof (sum_of_strict awake_waiter awake_waiter _ (threads (give 1 1 s)) p0 _ _ ltac:(symmetry; apply wake_up_rest)
    (give_awake 1 1 s Hi ltac:(lia)) Ht0 Ht0') as Hs.
  cbn [threads] in Hs. unfold awake_waiters in Hd. enough (awake_waiter t0 + 1 <= awake_waiter (wake_thread t0)) as Hlt by (specialize (Hs Hlt); lia).
  unfold awake_waiter, wake_thread, is_waiting in *. cbn. destruct (t_pc t0); try done. by rewrite Ha0.
Qed.

Lemma complete_all_inv s : inv s → inv (complete_all s).
Proof.
  intros Hi. change (complete_all s) with (give (UINT_MAX / 2) 0 s). apply give_inv; [done|lia|done|].
  intros p Hp Hre. exfalso.
  assert (p ∈ (w_task <$> wait_ s)) as Hq.
  { unfold asleep in Hp. destruct (threads s !! p) as [t|] eqn:Ht; [|done]. apply (iv_queue _ Hi). exists t.
    split; [done|]. by eapply (iv_asleep _ Hi). }
  unfold reached in Hre. apply list_elem_of_fmap in Hq as (e & He & Hin).
  destruct (list_find_elem_of (λ e, w_task e = p) _ _ Hin (eq_sym He)) as [[j e'] Hf]. rewrite Hf in Hre.
  apply bool_decide_eq_false_1 in Hre. lia.
Qed.

Lemma arrive_inv c s :
  inv s → Z.of_nat (length (threads s)) < max_threads → 0 <= call_timeout c →
  inv (set_threads (threads s ++ [Thread (Entering c) false false]) s).
Proof.
  intros Hi Hlen Hc. set (t0 := Thread (Entering c) false false).
  assert (∀ p t, (threads s ++ [t0]) !! p = Some t ↔ threads s !! p = Some t ∨ p = length (threads s) ∧ t = t0) as Hlk.
  { intros p t. rewrite lookup_app_Some, list_lookup_singleton_Some. split.
    - intros [?|(? & ? & ->)]; [by left|right; split; [lia|done]].
    - intros [?|[-> ->]]; [by left|right; split_and!; [lia|lia|done]]. }
  assert (∀ f : thread → Z, f t0 = 0 → sum_of f (threads s ++ [t0]) = sum_of f (threads s)) as Hsum
    by (intros f Hf; rewrite sum_of_app; cbn; lia).
  split; cbn [set_threads done_ wait_ threads issued tries]; try apply Hi; unfold all_took; cbn [set_threads threads];
    rewrite ?(Hsum took) by done; try apply Hi.
  - intros p. rewrite (iv_queue _ Hi). split.
    + intros (t & Ht & Hw). exists t. split; [|done]. apply Hlk. by left.
    + intros (t & [Ht|[_ ->]]%Hlk & Hw); [by exists t|done].
  - intros p t [Ht|[_ ->]]%Hlk Ha; [by eapply (iv_asleep _ Hi)|done].
  - intros p t [Ht|[_ ->]]%Hlk; [by eapply (iv_pc _ Hi)|done].
  - intros p Hp. unfold awake_waiters. cbn [threads set_threads]. rewrite Hsum by done.
    apply (iv_wakeup _ Hi p). unfold asleep in *. cbn [threads set_threads] in Hp.
    destruct ((threads s ++ [t0]) !! p) as [t|] eqn:Ht; [|done]. apply Hlk in Ht as [Ht|[_ ->]]; [by rewrite Ht|done].
  - rewrite length_app. cbn. lia.
Qed.

Lemma wait_step_inv l s s' : inv s → step l s = Some s' → inv s'.
Proof.
  intros Hi Hst. destruct l as [c|p|p rest|p|p| | |]; try (eapply step_thread_inv; [|exact Hi|exact Hst]; exact I).
  - cbn in Hst. case_decide as Hlen; [|done]. case_decide as Hc; [|done]. injection Hst as <-. by apply arrive_inv.
  - cbn [step] in Hst. injection Hst as <-. by apply complete_inv.
  - cbn [step] in Hst. injection Hst as <-. by apply complete_all_inv.
  - cbn in Hst. unfold try_wait_for_completion in Hst. case_decide as Hd; [done|]. injection Hst as <-.
    pose proof (iv_range _ Hi). pose proof (iv_tries _ Hi).
    assert (u32 (done_ s - 1) = done_ s - 1) as Hu by (apply wrap_u_small; lia). rewrite Hu.
    split; cbn [done_ wait_ threads issued tries]; try apply Hi; try lia; unfold all_took; cbn [threads].
    + pose proof (iv_account _ Hi) as Ha. rewrite (u32_minus _ _ _ Ha) by lia. f_equal. unfold all_took. lia.
    + intros Hlt. pose proof (iv_exact _ Hi Hlt) as He. unfold all_took in He. lia.
    + intros p Hp. pose proof (iv_wakeup _ Hi p Hp). unfold awake_waiters in *. cbn [threads]. lia.
Qed.

Lemma wait_reachable_inv s : reachable step init s → inv s.
Proof. apply reachable_ind; [apply wait_inv_init|]. intros l s1 s2. apply wait_step_inv. Qed.

(** ** Theorems *)

(** Completing once wakes exactly one thread, the first that sleeps in the order in
    which they began to wait, and changes no other. *)
Theorem complete_in_order s p :
  reachable step init s →
  threads (complete s) !! p = (if decide (first_sleeper s = Some p) then wake_thread else id) <$> threads s !! p.
Proof. intros Hi%wait_reachable_inv. by apply complete_threads. Qed.

(** No token is lost or made up, in 32 bits: what completing gave is there, or a
    call took it; with less than 2^32 given the count is exact. *)
Theorem completion_accounts s :
  reachable step init s →
  done_ s = u32 (issued s - tries s - all_took s) ∧ (issued s < 2 ^ 32 → done_ s = issued s - tries s - all_took s).
Proof. intros Hi%wait_reachable_inv. split; apply Hi. Qed.

(** How calls end: with a token, without one when the time of a call that has a
    timeout is up, or with a signal where the call heeds signals; in particular
    [wait_for_completion] returns only with a token. *)
Theorem completion_results s p c r b1 b2 :
  reachable step init s → threads s !! p = Some (Thread (Returned c r) b1 b2) →
  ended c r ∧ (c = wait_for_completion → 0 < r).
Proof.
  intros Hi%wait_reachable_inv Hp. pose proof (iv_pc _ Hi _ _ Hp) as He. cbn in He. split; [done|].
  intros ->. by destruct He as [?|[[_ []]|[_ ?]]].
Qed.

(** C40: no wake-up is lost: when there is a token and somebody waits, then a waiter is
    awake, and whatever is left of its time, it takes a token when it runs. *)
Theorem completion_no_lost_wakeup s p t :
  reachable step init s → done_ s ≠ 0 → threads s !! p = Some t → is_waiting t = true →
  ∃ p' c n b, threads s !! p' = Some (Thread (Waiting c n) false b) ∧ may_be_left n n = true ∧
    ∀ rest, may_be_left n rest = true →
      ∃ s' r, step (LResume p' rest) s = Some s' ∧ threads s' !! p' = Some (Thread (Returned c r) false b) ∧ 0 < r.
Proof.
  intros Hi%wait_reachable_inv Hd Hp Hw.
  assert (∃ p' t', threads s !! p' = Some t' ∧ 0 < awake_waiter t') as (p' & t' & Hp' & Ht').
  { destruct (t_asleep t) eqn:Ha; [|exists p, t; unfold awake_waiter; by rewrite Hw, Ha].
    apply (sum_of_pos awake_waiter). pose proof (iv_wakeup _ Hi p) as Hle. unfold asleep in Hle. rewrite Hp in Hle.
    specialize (Hle Ha). pose proof (iv_range _ Hi). unfold awake_waiters in Hle. lia. }
  destruct t' as [pc a b]. unfold awake_waiter, is_waiting in Ht'. cbn in Ht'. destruct pc as [|c n|]; try done. destruct a; [done|].
  pose proof (iv_pc _ Hi _ _ Hp') as [Hn _]. exists p', c, n, b. split; [done|]. split.
  { unfold may_be_left. case_decide; by apply bool_decide_eq_true_2. }
  intros rest Hrest. cbn [step]. rewrite Hp'. cbn [mbind option_bind t_pc t_asleep negb andb]. rewrite Hrest.
  unfold wait_resume. rewrite decide_False by (by intros []). unfold wait_leave. cbn [set_wait done_].
  rewrite decide_False by done. eexists _, (if decide (rest = 0) then 1 else rest). split; [done|].
  unfold wait_take, set_thread, set_threads. cbn [set_wait set_done threads t_signal].
  rewrite list_lookup_insert_eq by (by eapply lookup_lt_Some). split; [done|].
  assert (0 <= rest) as Hr0.
  { unfold may_be_left in Hrest. destruct (decide (n = MAX_SCHEDULE_TIMEOUT)); apply bool_decide_eq_true_1 in Hrest; unfold MAX_SCHEDULE_TIMEOUT in *; lia. }
  destruct (decide (rest = 0)); lia.
Qed.

(** What the comment on [completion_done] says does not hold: without any waiter
    and without a token it answers that there are waiters. *)
Lemma completion_done_idle : init (World 0 [] [] 0 0) ∧ completion_done (World 0 [] [] 0 0) = false.
Proof. done. Qed.

(** ** A run: two wait, one completes *)

Definition two_arrive : list label := [LArrive wait_for_completion; LArrive wait_for_completion; LEnter 1; LEnter 0].

Definition two_waiters : world := default (World 0 [] [] 0 0) (run step two_arrive (World 0 [] [] 0 0)).

Definition one_woken : world := complete two_waiters.

Lemma two_reachable : reachable step init two_waiters.
Proof. by apply (run_reachable step init two_arrive (World 0 [] [] 0 0)). Qed.

Lemma one_reachable : reachable step init one_woken.
Proof. by apply (reachable_step step init LComplete two_waiters); [apply two_reachable|]. Qed.

Lemma complete_in_order_witness :
  threads one_woken !! 1%nat = wake_thread <$> threads two_waiters !! 1%nat ∧ asleep one_woken 0 = true ∧ asleep one_woken 1 = false.
Proof.
  split; [|by vm_compute]. pose proof (complete_in_order two_waiters 1 two_reachable) as H.
  rewrite decide_True in H by by vm_compute. exact H.
Defined.

Lemma completion_accounts_witness :
  done_ one_woken = u32 (issued one_woken - tries one_woken - all_took one_woken) ∧
  (issued one_woken < 2 ^ 32 → done_ one_woken = issued one_woken - tries one_woken - all_took one_woken).
Proof. apply (completion_accounts one_woken one_reachable). Defined.

Lemma completion_no_lost_wakeup_witness :
  ∃ p' c n b, threads one_woken !! p' = Some (Thread (Waiting c n) false b) ∧ may_be_left n n = true ∧
    ∀ rest, may_be_left n rest = true →
      ∃ s' r, step (LResume p' rest) one_woken = Some s' ∧ threads s' !! p' = Some (Thread (Returned c r) false b) ∧ 0 < r.
Proof.
  apply (completion_no_lost_wakeup one_woken 0 (Thread (Waiting wait_for_completion MAX_SCHEDULE_TIMEOUT) true false) one_reachable);
    by vm_compute.
Defined.

Definition one_served : world := default one_woken (step (LResume 1 MAX_SCHEDULE_TIMEOUT) one_woken).

Lemma completion_results_witness :
  ended wait_for_completion MAX_SCHEDULE_TIMEOUT ∧ (wait_for_completion = wait_for_completion → 0 < MAX_SCHEDULE_TIMEOUT).
Proof.
  apply (completion_results one_served 1 wait_for_completion MAX_SCHEDULE_TIMEOUT false false); [|by vm_compute].
  apply (reachable_step step init (LResume 1 MAX_SCHEDULE_TIMEOUT) one_woken); [apply one_reachable|by vm_compute].
Defined.
